(* ===== verification/_CoqProject ===== *)
-Q . S2P
Prelude.v
Crc32.v
CrcDistance.v
BlackChannel.v
BlackChannelFaults.v
Float64.v
SafetyStateMachine.v
SafetyStateMachineSafety.v
DualChannel.v
SpscRing.v
SpscRingSafety.v
Seqlock.v
SeqlockSafety.v
LatencyHistogram.v
HistogramSamples.v
Strings.v
NoAllocGuard.v
CyclicExecutor.v
CyclicExecutorTiming.v
SharedMemory.v
ThreadConfig.v
HttpServer.v
Snapshot.v
Runtime.v
RuntimeSafety.v
WatcherSafety.v
OpcuaServer.v
OpcuaEvents.v
OpcuaSecurity.v
OpcuaSecuritySafety.v
Environment.v
Handlers.v
Metrics.v
MetricsExact.v
MetricsBounds.v
MetricsScrape.v
OpcuaStartup.v
OpcuaProbe.v
OpcuaProbeSafety.v
OpcuaClientEvents.v
HttpService.v
Process.v
AllocHooks.v
WeakMemory.v
SeqlockWeak.v
SeqlockWeakSafety.v
SpscRingWeak.v
SpscRingWeakSafety.v
SnapshotLayout.v
EndToEnd.v
FuzzTarget.v
LogLines.v
CycleReport.v
CycleReportSafety.v
ProbeReport.v
FairTermination.v
ProcessThreads.v
ProcessThreadsSafety.v
ProcessThreadsRuns.v
ProcessStop.v
DeadRuntime.v
ServerThreads.v
Regex.v
Traceability.v
TraceabilitySafety.v
TraceabilityGate.v
TraceabilityMatrix.v
BenchStats.v
BenchRings.v
BenchReport.v
Transports.v
TransportsSafety.v
SharedRoundTrip.v
