(* ===== verification/Prelude.v ===== *)
(** * safeedge: a verification library

    safeedge is a small safety runtime in C++: a supervisor state machine in two
    channels, a safety protocol over an untrusted transport, a real-time loop
    that drives them, the lock-free structures that carry its results out, and
    the services that show them. This library models the program and proves
    what its parts promise. Paths below are relative to [src/].

    ** The program and its parts

    [src/apps/safeedged.cpp] runs the control loop: a [rt::CyclicExecutor] calls
    a cycle that sends a telegram through [safety::SafetySender] and
    [safety::SafetyReceiver], evaluates a [safety::DualChannelSupervisor] (two
    [safety::SafetyStateMachine]s), numbers the transitions and publishes an
    [edge::RuntimeSnapshot] into an [ipc::SeqlockSlot], possibly in an
    [ipc::SharedMemoryRegion]. File watchers feed it the emergency stop and the
    acknowledgement; an [edge::HttpServer] and, in another process,
    [src/apps/safeedge_opcua.cpp] read the slot. The client
    [src/apps/safeedge_opcua_probe.cpp] subscribes to what the latter publishes.

    ** Files

    - [Prelude] (this file): fixed-width integers, elapsed time, little-endian
      bytes, list lemmas, tactics and the hint database [safeedge].
    - [Crc32], [CrcDistance]: [safety/crc32]; the table-driven CRC-32/AUTOSAR
      against its bitwise definition, and its minimum distance.
    - [BlackChannel], [BlackChannelFaults]: [safety/black_channel]; telegram,
      sender, receiver, and the transmission faults they detect.
    - [Float64]: binary64 numbers, on the Standard Library's [SpecFloat].
    - [SafetyStateMachine], [SafetyStateMachineSafety], [DualChannel]:
      [safety/safety_state_machine] and [safety/dual_channel].
    - [SpscRing], [SpscRingSafety]: [concurrent/spsc_ring.hpp], sequentially and
      as a step relation of producer and consumer.
    - [Seqlock], [SeqlockSafety]: [ipc/seqlock_slot.hpp], one step per atomic
      access.
    - [WeakMemory]: release/acquire memory with views, the races of plain data
      included. On it [SpscRingWeak], [SpscRingWeakSafety] and [SeqlockWeak],
      [SeqlockWeakSafety]: the ring and the slot with the memory order of every
      access.
    - [SnapshotLayout], [EndToEnd]: the published snapshot as the bytes of the
      slot, and the way from the control loop through the slot to the events.
    - [LatencyHistogram], [HistogramSamples]: [rt/latency_histogram].
    - [NoAllocGuard], [AllocHooks]: [rt/no_alloc_guard] and the replaced
      [operator new] and [operator delete] families of
      [rt/no_alloc_guard_hooks.cpp].
    - [CyclicExecutor], [CyclicExecutorTiming]: [rt/cyclic_executor].
    - [SharedMemory]: [ipc/shared_memory], against an arbitrary kernel.
    - [ThreadConfig]: [rt/thread_config], against an arbitrary kernel.
    - [Strings], [Environment]: strings and the C formatting buffer; settings
      read from the environment.
    - [HttpServer], [HttpService]: [edge/http_server]; one connection, then the
      sockets and the accept loop, and the health probe of the runtime.
    - [Metrics], [MetricsExact], [MetricsBounds], [MetricsScrape]:
      [edge/metrics.cpp], with the [%.6g] conversion written out.
    - [Snapshot], [Runtime], [RuntimeSafety], [WatcherSafety]:
      [edge/runtime_snapshot.hpp] and [apps/safeedged.cpp]; the cycle, the file
      watchers, the handlers. [Handlers]: what a client reads from them.
      [Process]: start-up and shutdown of the process. [LogLines]: the lines
      it and the OPC UA server log.
    - [FairTermination]: systems of threads that end under every fair schedule.
      On it [ProcessThreads], [ProcessThreadsSafety], [ProcessThreadsRuns],
      [ProcessStop]: the threads of [apps/safeedged.cpp] with its signals, and
      the emergency stop through all of them; [ServerThreads]: those
      of [apps/safeedge_opcua.cpp]. [DeadRuntime]: what the latter publishes
      when the runtime is gone.
    - [OpcuaServer], [OpcuaEvents]: [opcua/address_space], [opcua/events] and the
      publishing thread of [apps/safeedge_opcua.cpp].
    - [OpcuaSecurity], [OpcuaSecuritySafety]: [opcua/security].
    - [OpcuaStartup]: start-up and shutdown of [apps/safeedge_opcua.cpp].
    - [OpcuaProbe], [OpcuaProbeSafety], [ProbeReport]:
      [apps/safeedge_opcua_probe.cpp], its measurements and what it prints.
      [OpcuaClientEvents]: the events from the control loop to its counters.
    - [FuzzTarget]: [fuzz/fuzz_telegram_decode.cpp].
    - [CycleReport], [CycleReportSafety]: [examples/rt_cycle_report.cpp], and the
      executor as an object with its stop flag.
    - [Regex]: text and regular expressions of Python. [Traceability],
      [TraceabilitySafety], [TraceabilityGate], [TraceabilityMatrix]:
      [scripts/traceability.py].
    - [BenchStats], [BenchRings], [BenchReport]: [benchmarks/bench_spsc_ring.cpp],
      with the interface that its two rings share. [Transports],
      [TransportsSafety], [SharedRoundTrip]: [benchmarks/bench_transports.cpp].

    ** How code is modelled

    A C++ integer is a [Z] with its wrap-around written out ([u64], [i64], ...),
    a [double] a [SpecFloat] value, a byte a [Z] below 256, a struct a [Record],
    an enumeration an [Inductive] with the source's enumerators. Member
    functions are functions from the object to the object, with their results.
    Threads are step relations or explicit sequences of steps (ring, seqlock,
    watchers), or functions that make one step of a thread, run in an order that
    a schedule gives (the processes, the benchmarks). A schedule is fair when it
    lets every thread run again and again: a sleep ends, and a write to a client
    returns. In the weak-memory files a load may return any store its thread
    has not seen superseded; a seq_cst access is given the strength of release
    and acquire only, which permits more executions than the language does.
    Each atomic location has one writer, so its stores are in the order it makes
    them. What the code gets from outside is an input: clock readings,
    kernel answers, file contents, scheduling, and the open62541 stack.

    ** What the theorems show

    - Telegrams: an in-step receiver delivers exactly what was sent, across the
      number wrap; up to five flipped bits, bursts, misaddressing, repetition,
      loss, reordering and delay are rejected and latch the safe state.
    - Supervisor: every demand removes torque in the same cycle; a latched fault
      needs an acknowledgement without its cause; the states move along the
      edges of one diagram, and along all of them; a safe stop ends in bounded time; either channel is
      enough to stop; a persistent disagreement faults, a tolerated one does not.
    - Ring and seqlock: under every interleaving, and under the memory orders of
      the source, the ring is a bounded queue without races on its slots, and
      the slot is a register for each of its readers: whole values, never back
      in time. With relaxed orders in the place of release both fail, by example.
    - Snapshots: what a reader of the slot obtains is member by member a
      published snapshot, and the events of the publishing thread account for
      every transition between the first and the last it obtained.
    - Threads: without a signal no process stops; with one, under every fair
      schedule, [main] returns, at most one more cycle begins, and what a thread
      uses outlives it; five steps of the watcher after the stop file appears,
      every snapshot shows torque off, during shutdown too. A runtime that is
      dead between two stores goes on being published as current.
    - Tools: a build passes the traceability gate exactly when requirements, code
      and tests are linked, and the matrix it writes passes its check; the two
      rings of the benchmark are the same queue and everything handed through
      them arrives; every sample of a transport is one round trip;
      no input makes the fuzz target trap; a stop request ends a run;
      the cycle report completes and leads with its conditions; every logged
      line is JSON when the configured texts need no escaping.
    - Runtime: deadlines do not drift, percentiles are conservative, the guard
      counts exactly the forbidden allocations.
    - Process: at 20 Hz or faster the loop refines a four-phase machine of stop
      and acknowledgement, whatever deadlines it misses, since its heartbeat
      input is constant; every release of a fault needs its own acknowledge
      file, or an unlink that failed; transitions are numbered, and what a client
      counts of the OPC UA events never exceeds them, and equals them unless the
      stack refused an event or its queue overflowed; all three programs start
      completely or not at all and end in order; a running OPC UA server offers
      no endpoint of mode None unless its environment asks for it (it does offer
      those that only sign), and the probe connects only verified and encrypted
      unless told otherwise.
    - Services: the address space is built and written type-correctly, requests
      are routed, what the endpoints and the metrics show is read back exactly
      (metrics as integers or whole seconds below one million; one quantile is
      rendered from another's figure), sockets are given back, shared memory is
      created all or not at all.

    ** Bounds and fuel

    The distance of the CRC is proved for codewords of up to 2080 bits, more
    than a protected telegram of 73 bytes with its 8 address bytes has.
    [skip_missed] is given [skip_fuel] iterations, one per period the loop is
    behind, and is shown to end within them. Loop times are bounded by 2^63 ns,
    about 292 years, where the theorems say so. The single-threaded benchmark
    needs one attempt per operation, and is shown to; schedules are infinite, so
    that the processes need no fuel. The decimal exponent of a double
    is searched for up to 400 places, more than the 324 a double can have.

    ** Not modelled

    The total order of seq_cst accesses (no theorem needs it); the layout of
    objects on targets that are not little-endian with natural alignment; failures
    to create a thread, and the memory order of the flag that signals set, whose
    reads are sequentially consistent; the progress messages of the probe before
    it measures; [clearTrustList], which only frees memory, and
    [encryptionAvailable], a constant of the build; the parsing of the command
    line by [argparse] and the decoding of files in the traceability tool; calls
    of the echoing child that fail; the queue of the OPC UA stack between raised
    events and notifications, of which only its documented promise is assumed,
    order, and no loss up to the depth asked for; and the shell scripts, which only start the
    programs above.
*)

From Stdlib Require Import ZArith Lia.
From stdpp Require Import base numbers list option.

#[global] Open Scope Z_scope.

(** ** Fixed-width integers *)

(** A [w]-bit unsigned (two's-complement signed) value is a [Z]; the conversion
    functions write the wrap-around of the C++ types out. *)
Definition unsigned_wrap (w x : Z) : Z := x mod 2 ^ w.
Definition signed_wrap (w x : Z) : Z := (x + 2 ^ (w - 1)) mod 2 ^ w - 2 ^ (w - 1).

Abbreviation u8 := (unsigned_wrap 8).
Abbreviation u16 := (unsigned_wrap 16).
Abbreviation u32 := (unsigned_wrap 32).
Abbreviation u64 := (unsigned_wrap 64).
Abbreviation i32 := (signed_wrap 32).
Abbreviation i64 := (signed_wrap 64).

Definition in_unsigned (w x : Z) : Prop := 0 ≤ x < 2 ^ w.
Definition in_signed (w x : Z) : Prop := - 2 ^ (w - 1) ≤ x < 2 ^ (w - 1).

Abbreviation is_u8 := (in_unsigned 8).
Abbreviation is_u16 := (in_unsigned 16).
Abbreviation is_u32 := (in_unsigned 32).
Abbreviation is_u64 := (in_unsigned 64).
Abbreviation is_i32 := (in_signed 32).
Abbreviation is_i64 := (in_signed 64).

#[export] Instance in_unsigned_dec w x : Decision (in_unsigned w x).
Proof. unfold in_unsigned; apply _. Defined.
#[export] Instance in_signed_dec w x : Decision (in_signed w x).
Proof. unfold in_signed; apply _. Defined.

Create HintDb safeedge.

Lemma unsigned_wrap_range w x : 0 ≤ w → in_unsigned w (unsigned_wrap w x).
Proof. intros; apply Z.mod_pos_bound, Z.pow_pos_nonneg; lia. Qed.

Lemma unsigned_wrap_id w x : in_unsigned w x → unsigned_wrap w x = x.
Proof. apply Z.mod_small. Qed.

Lemma signed_wrap_range w x : 0 < w → in_signed w (signed_wrap w x).
Proof.
  intros Hw; unfold in_signed, signed_wrap.
  assert (2 ^ w = 2 * 2 ^ (w - 1)) by (rewrite <- Z.pow_succ_r by lia; f_equal; lia).
  pose proof (Z.mod_pos_bound (x + 2 ^ (w - 1)) (2 ^ w)
    (Z.pow_pos_nonneg 2 w ltac:(lia) ltac:(lia))).
  lia.
Qed.

Lemma signed_wrap_id w x : 0 < w → in_signed w x → signed_wrap w x = x.
Proof.
  intros Hw Hx; unfold in_signed, signed_wrap in *.
  assert (2 ^ w = 2 * 2 ^ (w - 1)) by (rewrite <- Z.pow_succ_r by lia; f_equal; lia).
  rewrite Z.mod_small by lia; lia.
Qed.

#[export] Hint Resolve unsigned_wrap_range signed_wrap_range : safeedge.

(** [solve_range] discharges goals of the shape [in_unsigned w _] and
    [in_signed w _] for a literal width. *)
Ltac solve_range :=
  unfold in_unsigned, in_signed in *; simpl Z.sub in *;
  change (2 ^ 8) with 256 in *; change (2 ^ 16) with 65536 in *;
  change (2 ^ 31) with 2147483648 in *; change (2 ^ 32) with 4294967296 in *;
  change (2 ^ 63) with 9223372036854775808 in *;
  change (2 ^ 64) with 18446744073709551616 in *; lia.

(** Elapsed time.  The C++ difference of two [int64_t] is undefined when it
    overflows; the model takes the two's-complement result, and the theorems
    about elapsed time are stated for non-negative timestamps, where
    [elapsed_exact] shows the difference to be exact. *)
Definition elapsed (now_ns since_ns : Z) : Z := i64 (now_ns - since_ns).

Lemma elapsed_exact now since :
  0 ≤ now → is_i64 now → 0 ≤ since → is_i64 since → elapsed now since = now - since.
Proof. intros. apply signed_wrap_id; solve_range. Qed.

(** ** Bits *)

(** Non-negative numbers below [2 ^ w] are the ones without bits from [w] on. *)
Lemma in_unsigned_bits w x :
  0 ≤ w → 0 ≤ x → in_unsigned w x ↔ ∀ i, w ≤ i → Z.testbit x i = false.
Proof.
  intros Hw Hx; unfold in_unsigned.
  rewrite <- (Z.bounded_iff_bits_nonneg w x) by lia; lia.
Qed.

Lemma in_unsigned_bit_above w x i :
  0 ≤ w → in_unsigned w x → w ≤ i → Z.testbit x i = false.
Proof. intros Hw Hx Hi; apply (in_unsigned_bits w x); auto; destruct Hx; lia. Qed.

Lemma in_unsigned_lxor w x y :
  0 ≤ w → in_unsigned w x → in_unsigned w y → in_unsigned w (Z.lxor x y).
Proof.
  intros Hw Hx Hy; apply in_unsigned_bits; [done| |].
  - apply Z.lxor_nonneg; destruct Hx, Hy; lia.
  - intros i Hi; rewrite Z.lxor_spec, !(in_unsigned_bit_above w) by done; done.
Qed.

Lemma in_unsigned_shiftr w x n :
  0 ≤ w → 0 ≤ n → in_unsigned w x → in_unsigned w (Z.shiftr x n).
Proof.
  intros Hw Hn Hx; apply in_unsigned_bits; [done| |].
  - apply Z.shiftr_nonneg; destruct Hx; lia.
  - intros i Hi; rewrite Z.shiftr_spec, (in_unsigned_bit_above w) by (done || lia); done.
Qed.

Lemma in_unsigned_mono w w' x : 0 ≤ w ≤ w' → in_unsigned w x → in_unsigned w' x.
Proof.
  intros Hw [H0 H1]; split; [done|].
  eapply Z.lt_le_trans; [done|]; apply Z.pow_le_mono_r; lia.
Qed.

#[export] Hint Resolve in_unsigned_lxor in_unsigned_shiftr : safeedge.

(** [Z.lxor] rearrangements used by the linearity arguments. *)
Lemma lxor_swap4 a b c d :
  Z.lxor (Z.lxor a b) (Z.lxor c d) = Z.lxor (Z.lxor a c) (Z.lxor b d).
Proof. apply Z.bits_inj'; intros i _; rewrite !Z.lxor_spec; by destruct (Z.testbit a i), (Z.testbit b i), (Z.testbit c i), (Z.testbit d i). Qed.

Lemma lxor_eq_0_iff a b : Z.lxor a b = 0 ↔ a = b.
Proof. apply Z.lxor_eq_0_iff. Qed.

(** ** Little-endian byte strings *)

Fixpoint le_bytes (n : nat) (x : Z) : list Z :=
  match n with
  | O => []
  | S n => u8 x :: le_bytes n (Z.shiftr x 8)
  end.

Fixpoint le_value (bytes : list Z) : Z :=
  match bytes with
  | [] => 0
  | b :: bytes => Z.lor b (Z.shiftl (le_value bytes) 8)
  end.

Lemma length_le_bytes n x : length (le_bytes n x) = n.
Proof. revert x; induction n as [|n IH]; intros x; simpl; [done|]. by rewrite IH. Qed.

Lemma le_bytes_range n x : Forall is_u8 (le_bytes n x).
Proof.
  revert x; induction n as [|n IH]; intros x; simpl; constructor; [|done].
  by apply unsigned_wrap_range.
Qed.

Lemma le_value_bytes n x :
  le_value (le_bytes n x) = unsigned_wrap (8 * Z.of_nat n) x.
Proof.
  revert x; induction n as [|n IH]; intros x; cbn [le_bytes le_value].
  - unfold unsigned_wrap. by rewrite Z.mod_1_r.
  - rewrite IH. unfold unsigned_wrap.
    apply Z.bits_inj'; intros i Hi. rewrite Z.lor_spec.
    destruct (decide (i < 8)).
    + rewrite Z.mod_pow2_bits_low, Z.shiftl_spec_low, orb_false_r by lia.
      by rewrite Z.mod_pow2_bits_low by lia.
    + rewrite Z.mod_pow2_bits_high, Z.shiftl_spec, orb_false_l by lia.
      destruct (decide (i < 8 * Z.of_nat (S n))).
      * rewrite !Z.mod_pow2_bits_low, Z.shiftr_spec by lia. f_equal; lia.
      * by rewrite !Z.mod_pow2_bits_high by lia.
Qed.

Lemma le_value_bytes_id n x :
  in_unsigned (8 * Z.of_nat n) x → le_value (le_bytes n x) = x.
Proof. intros. rewrite le_value_bytes. by apply unsigned_wrap_id. Qed.

Lemma le_value_cons_low b v : is_u8 b → u8 (Z.lor b (Z.shiftl v 8)) = b.
Proof.
  intros Hb. unfold unsigned_wrap. apply Z.bits_inj'; intros i Hi.
  destruct (decide (i < 8)).
  - rewrite Z.mod_pow2_bits_low, Z.lor_spec, Z.shiftl_spec_low, orb_false_r by lia. done.
  - rewrite Z.mod_pow2_bits_high, (in_unsigned_bit_above 8) by (done || lia). done.
Qed.

Lemma le_value_cons_high b v : is_u8 b → Z.shiftr (Z.lor b (Z.shiftl v 8)) 8 = v.
Proof.
  intros Hb. apply Z.bits_inj'; intros i Hi.
  rewrite Z.shiftr_spec, Z.lor_spec, Z.shiftl_spec by lia.
  rewrite (in_unsigned_bit_above 8) by (done || lia). rewrite orb_false_l. f_equal; lia.
Qed.

Lemma le_bytes_value l : Forall is_u8 l → le_bytes (length l) (le_value l) = l.
Proof.
  induction 1 as [|b l Hb Hl IH]; [done|]. cbn [length le_bytes le_value].
  by rewrite le_value_cons_low, le_value_cons_high, IH.
Qed.

Lemma le_bytes_0 n : le_bytes n 0 = replicate n 0.
Proof. induction n as [|n IH]; [done|]. cbn [le_bytes replicate]. by rewrite Z.shiftr_0_l, IH. Qed.

(** Spare room is filled with zeros. *)
Lemma le_bytes_value_pad n l :
  Forall is_u8 l → (length l ≤ n)%nat →
  le_bytes n (le_value l) = l ++ replicate (n - length l) 0.
Proof.
  intros Hl; revert n; induction Hl as [|b l Hb Hl IH]; intros n Hn.
  { simpl. rewrite le_bytes_0. by rewrite Nat.sub_0_r. }
  destruct n as [|n]; [simpl in Hn; lia|]. cbn [length le_bytes le_value] in *.
  rewrite le_value_cons_low, le_value_cons_high, IH by (done || lia). done.
Qed.

Lemma le_value_range l :
  Forall is_u8 l → in_unsigned (8 * Z.of_nat (length l)) (le_value l).
Proof.
  intros Hl. rewrite <- (le_bytes_value l) at 2 by done. rewrite le_value_bytes.
  apply unsigned_wrap_range. lia.
Qed.

Lemma u8_land_255 x : u8 (Z.land x 255) = u8 x.
Proof.
  change 255 with (Z.ones 8). rewrite Z.land_ones by lia.
  unfold unsigned_wrap. apply Z.mod_mod. lia.
Qed.

(** ** Arrays *)

(** [std::copy(src.begin(), src.end(), dst.begin())] into a buffer at least as
    long as the source: the prefix is overwritten, the rest is kept. *)
Definition copy_into (src dst : list Z) : list Z := src ++ drop (length src) dst.

Lemma length_copy_into src dst :
  (length src ≤ length dst)%nat → length (copy_into src dst) = length dst.
Proof. intros. unfold copy_into. rewrite length_app, length_drop. lia. Qed.

Lemma take_copy_into src dst : take (length src) (copy_into src dst) = src.
Proof. unfold copy_into. by rewrite take_app_length. Qed.

(** Discharges a closed decidable proposition by evaluating its decision. *)
Ltac by_compute := apply (bool_decide_unpack _); vm_compute; exact I.
