(* ===== verification/Crc32.v ===== *)
(** * CRC-32/AUTOSAR

    Model of [src/safety/crc32.cpp] and [include/safeedge/safety/crc32.hpp]:
    the compile-time lookup table, the byte-at-a-time update and the
    little-endian multi-byte updates.  The theorems relate the table-driven code
    to the bit-serial shift register, and that register to the textbook
    parameterised CRC (width 32, polynomial 0xF4ACFB13, reflected input and
    output).  The linearity and injectivity lemmas at the end are what the
    distance argument of [CrcDistance.v] and the telegram proofs build on. *)

From Stdlib Require Import ZArith Lia.
From stdpp Require Import base numbers list.
From S2P Require Import Prelude.

(** ** The class *)

Definition kPolynomial : Z := 0xF4ACFB13.
Definition kReflectedPolynomial : Z := 0xC8DF352F.
Definition kInitial : Z := 0xFFFFFFFF.
Definition kFinalXor : Z := 0xFFFFFFFF.
Definition kCheckValue : Z := 0x1697D06A.

(** One iteration of the inner loop of [buildTable]. *)
Definition table_step (remainder : Z) : Z :=
  if negb (Z.land remainder 1 =? 0)
  then Z.lxor (Z.shiftr remainder 1) kReflectedPolynomial
  else Z.shiftr remainder 1.

Definition buildTable : list Z :=
  (λ index, Nat.iter 8 table_step index) <$> seqZ 0 256.

Definition kTable : list Z := Eval vm_compute in buildTable.

Record Crc32 := mkCrc32 { state_ : Z }.

Definition newCrc32 : Crc32 := mkCrc32 kInitial.

(** [update(std::uint8_t)]: the index is a [uint8_t], so the array access is
    always in range ([kTable_lookup]). *)
Definition update_byte (c : Crc32) (byte : Z) : Crc32 :=
  let index := u8 (Z.lxor (state_ c) byte) in
  mkCrc32 (Z.lxor (Z.shiftr (state_ c) 8) (nth (Z.to_nat index) kTable 0)).

Definition update_span (c : Crc32) (data : list Z) : Crc32 :=
  foldl update_byte c data.

Definition update_uint16 (c : Crc32) (value : Z) : Crc32 :=
  let c := update_byte c (u8 (Z.land value 0xFF)) in
  update_byte c (u8 (Z.land (Z.shiftr value 8) 0xFF)).

Definition update_uint32 (c : Crc32) (value : Z) : Crc32 :=
  let c := update_byte c (u8 (Z.land value 0xFF)) in
  let c := update_byte c (u8 (Z.land (Z.shiftr value 8) 0xFF)) in
  let c := update_byte c (u8 (Z.land (Z.shiftr value 16) 0xFF)) in
  update_byte c (u8 (Z.land (Z.shiftr value 24) 0xFF)).

Definition value (c : Crc32) : Z := Z.lxor (state_ c) kFinalXor.

Definition reset (c : Crc32) : Crc32 := mkCrc32 kInitial.

Definition compute (data : list Z) : Z := value (update_span newCrc32 data).

(** ** Bit-serial reference *)

(** The bits of a byte in transmission (least significant first) order. *)
Fixpoint bits_le (n : nat) (x : Z) : list bool :=
  match n with
  | O => []
  | S n => Z.odd x :: bits_le n (Z.shiftr x 1)
  end.

Definition byte_bits (b : Z) : list bool := bits_le 8 b.

(** One shift of the reflected register. *)
Definition lfsr (s : Z) (b : bool) : Z := table_step (Z.lxor s (Z.b2z b)).

(** The textbook, non-reflected register: the incoming bit is compared with the
    top bit, the register shifts left and the polynomial is subtracted. *)
Definition msb_step (r : Z) (b : bool) : Z :=
  let shifted := u32 (Z.shiftl r 1) in
  if xorb (Z.testbit r 31) b then Z.lxor shifted kPolynomial else shifted.

(** Reversal of the low [w] bits. *)
Fixpoint reflect_bits (w : nat) (x : Z) : Z :=
  match w with
  | O => 0
  | S w => Z.lor (Z.shiftl (Z.b2z (Z.odd x)) (Z.of_nat w)) (reflect_bits w (Z.shiftr x 1))
  end.

(** Most significant bit first. *)
Definition bits_be (n : nat) (x : Z) : list bool := rev (bits_le n x).

(** The parameterised CRC the documentation of the class names: every input
    byte reflected, most significant bit first into a register that starts at
    [kInitial], the result reflected and finally xored. *)
Definition autosar_crc32 (data : list Z) : Z :=
  let register :=
    foldl (λ r b, foldl msb_step r (bits_be 8 (reflect_bits 8 b))) kInitial data in
  Z.lxor (reflect_bits 32 register) kFinalXor.

#[global] Arguments msb_step : simpl never.
#[global] Arguments table_step : simpl never.
#[global] Arguments lfsr : simpl never.

(** ** The table *)

Lemma kTable_buildTable : kTable = buildTable.
Proof. vm_compute; reflexivity. Qed.

Lemma table_step_0 : table_step 0 = 0.
Proof. reflexivity. Qed.

(** The step as an unconditional expression in the low bit. *)
Lemma table_step_alt r :
  table_step r =
    Z.lxor (Z.shiftr r 1) (if Z.odd r then kReflectedPolynomial else 0).
Proof.
  unfold table_step.
  replace (Z.land r 1) with (Z.b2z (Z.odd r)).
  - destruct (Z.odd r); simpl; [done|]. by rewrite Z.lxor_0_r.
  - change (Z.land r 1) with (Z.land r (Z.ones 1)).
    rewrite Z.land_ones by lia; change (2 ^ 1) with 2.
    rewrite Zmod_odd; by destruct (Z.odd r).
Qed.

Lemma table_step_lxor x y :
  table_step (Z.lxor x y) = Z.lxor (table_step x) (table_step y).
Proof.
  rewrite !table_step_alt, Z.shiftr_lxor, lxor_swap4; f_equal.
  rewrite <- !Z.bit0_odd, Z.lxor_spec.
  destruct (Z.testbit x 0), (Z.testbit y 0); simpl; try rewrite Z.lxor_0_r; try done.
Qed.

Lemma table_step_double x : table_step (Z.shiftl x 1) = x.
Proof.
  rewrite table_step_alt, Z.shiftr_shiftl_l by lia; simpl.
  rewrite <- Z.bit0_odd, Z.shiftl_spec_low by lia.
  by rewrite Z.shiftl_0_r, Z.lxor_0_r.
Qed.

Lemma table_step_range r : is_u32 r → is_u32 (table_step r).
Proof.
  intros Hr; rewrite table_step_alt.
  apply in_unsigned_lxor; [done| |].
  - by apply in_unsigned_shiftr.
  - unfold kReflectedPolynomial; destruct (Z.odd r); solve_range.
Qed.

(** The reflected polynomial has its top bit set and a shifted register does
    not, so a register that steps to zero was zero. *)
Lemma table_step_eq_0 r : is_u32 r → table_step r = 0 → r = 0.
Proof.
  intros Hr; rewrite table_step_alt; intros E.
  apply Z.lxor_eq in E.
  assert (Hodd : Z.odd r = false).
  { destruct (Z.odd r); [|done].
    apply (f_equal (λ z, Z.testbit z 31)) in E.
    rewrite Z.shiftr_spec in E by lia.
    rewrite (in_unsigned_bit_above 32) in E by (done || lia). done. }
  rewrite Hodd in E.
  rewrite Z.shiftr_div_pow2 in E by lia. change (2 ^ 1) with 2 in E.
  rewrite (Z.div_mod r 2), E, Zmod_odd, Hodd by lia. done.
Qed.

Lemma iter_table_step_0 n : Nat.iter n table_step 0 = 0.
Proof. induction n as [|n IH]; [done|]. by rewrite Nat.iter_succ, IH. Qed.

Lemma iter_table_step_lxor n x y :
  Nat.iter n table_step (Z.lxor x y) =
    Z.lxor (Nat.iter n table_step x) (Nat.iter n table_step y).
Proof. induction n as [|n IH]; simpl; [done|]. by rewrite IH, table_step_lxor. Qed.

Lemma iter_table_step_range n r : is_u32 r → is_u32 (Nat.iter n table_step r).
Proof. intros; induction n; simpl; auto using table_step_range. Qed.

Lemma iter_table_step_eq_0 n r :
  is_u32 r → Nat.iter n table_step r = 0 → r = 0.
Proof.
  intros Hr; induction n as [|n IH]; simpl; [done|].
  intros E; apply IH, table_step_eq_0, E. by apply iter_table_step_range.
Qed.

Lemma iter_table_step_shiftl n x :
  Nat.iter n table_step (Z.shiftl x (Z.of_nat n)) = x.
Proof.
  revert x; induction n as [|n IH]; intros x; [by rewrite Z.shiftl_0_r|].
  rewrite Nat.iter_succ_r.
  replace (Z.shiftl x (Z.of_nat (S n))) with (Z.shiftl (Z.shiftl x (Z.of_nat n)) 1)
    by (rewrite Z.shiftl_shiftl by lia; f_equal; lia).
  by rewrite table_step_double, IH.
Qed.

Lemma kTable_lookup i :
  is_u8 i → nth (Z.to_nat i) kTable 0 = Nat.iter 8 table_step i.
Proof.
  intros Hi. rewrite kTable_buildTable. unfold buildTable.
  rewrite nth_lookup, list_lookup_fmap, lookup_seqZ_lt by solve_range.
  rewrite Z2Nat.id, Z.add_0_l by solve_range. done.
Qed.

(** ** The byte update is eight register shifts *)

Lemma odd_shiftr_split x :
  x = Z.lxor (Z.b2z (Z.odd x)) (Z.shiftl (Z.shiftr x 1) 1).
Proof.
  apply Z.bits_inj'; intros i Hi; rewrite Z.lxor_spec.
  destruct (decide (i = 0)) as [->|Hne].
  - rewrite Z.shiftl_spec_low, <- Z.bit0_odd, xorb_false_r by lia.
    by destruct (Z.testbit x 0).
  - rewrite Z.shiftl_spec, Z.shiftr_spec by lia.
    replace (i - 1 + 1) with i by lia.
    by rewrite (in_unsigned_bit_above 1 (Z.b2z _)), xorb_false_l
      by (lia || destruct (Z.odd x); unfold in_unsigned; simpl; lia).
Qed.

Lemma foldl_lfsr_bits n s x :
  in_unsigned (Z.of_nat n) x →
  foldl lfsr s (bits_le n x) = Nat.iter n table_step (Z.lxor s x).
Proof.
  revert s x; induction n as [|n IH]; intros s x Hx.
  - unfold in_unsigned in Hx; simpl in *.
    replace x with 0 by lia. by rewrite Z.lxor_0_r.
  - cbn [bits_le foldl]. rewrite IH.
    + rewrite Nat.iter_succ_r. f_equal. unfold lfsr.
      rewrite (odd_shiftr_split x) at 3.
      by rewrite <- Z.lxor_assoc, (table_step_lxor _ (Z.shiftl _ _)), table_step_double.
    + apply in_unsigned_bits; [lia| |].
      * apply Z.shiftr_nonneg. destruct Hx; lia.
      * intros i Hi. rewrite Z.shiftr_spec by lia.
        apply (in_unsigned_bit_above (Z.of_nat (S n))); [lia|done|lia].
Qed.

Lemma low_byte_split v : v = Z.lxor (u8 v) (Z.shiftl (Z.shiftr v 8) 8).
Proof.
  apply Z.bits_inj'; intros i Hi; rewrite Z.lxor_spec; unfold unsigned_wrap.
  destruct (decide (i < 8)).
  - rewrite Z.mod_pow2_bits_low, Z.shiftl_spec_low, xorb_false_r by lia. done.
  - rewrite Z.mod_pow2_bits_high, Z.shiftl_spec, Z.shiftr_spec by lia.
    rewrite xorb_false_l. f_equal; lia.
Qed.

Lemma update_byte_lfsr c b :
  is_u8 b → state_ (update_byte c b) = foldl lfsr (state_ c) (byte_bits b).
Proof.
  intros Hb. unfold byte_bits. rewrite foldl_lfsr_bits by done.
  unfold update_byte; cbn [state_].
  rewrite kTable_lookup by by apply unsigned_wrap_range.
  rewrite (low_byte_split (Z.lxor (state_ c) b)) at 2.
  rewrite iter_table_step_lxor, (iter_table_step_shiftl 8), Z.shiftr_lxor.
  rewrite (Z.shiftr_div_pow2 b 8), (Z.div_small b) by (lia || apply Hb).
  by rewrite Z.lxor_0_r, Z.lxor_comm.
Qed.

(** The bit stream of a span. *)
Definition data_bits (data : list Z) : list bool := data ≫= byte_bits.

Lemma data_bits_cons b data : data_bits (b :: data) = byte_bits b ++ data_bits data.
Proof. done. Qed.

Lemma data_bits_app d1 d2 : data_bits (d1 ++ d2) = data_bits d1 ++ data_bits d2.
Proof. apply bind_app. Qed.

Lemma length_bits_le n x : length (bits_le n x) = n.
Proof. revert x; induction n as [|n IH]; intros x; cbn [bits_le length]; [done|]. by rewrite IH. Qed.

Lemma length_data_bits data : length (data_bits data) = (8 * length data)%nat.
Proof.
  induction data as [|b data IH]; [done|].
  rewrite data_bits_cons, length_app, IH. unfold byte_bits.
  rewrite length_bits_le; simpl; lia.
Qed.

Lemma update_span_lfsr c data :
  Forall is_u8 data →
  state_ (update_span c data) = foldl lfsr (state_ c) (data_bits data).
Proof.
  intros Hd; revert c; induction Hd as [|b data Hb Hd IH]; intros c; [done|].
  cbn [update_span foldl]. unfold update_span in IH.
  by rewrite IH, update_byte_lfsr, data_bits_cons, foldl_app.
Qed.

(** ** Agreement with the textbook CRC *)

Lemma reflect_bits_testbit w x i :
  0 ≤ i →
  Z.testbit (reflect_bits w x) i =
    if decide (i < Z.of_nat w) then Z.testbit x (Z.of_nat w - 1 - i) else false.
Proof.
  revert x; induction w as [|w IH]; intros x Hi; cbn [reflect_bits].
  - rewrite Z.bits_0. case_decide; [lia|done].
  - rewrite Z.lor_spec, IH, Z.shiftl_spec by lia.
    destruct (Z.lt_trichotomy i (Z.of_nat w)) as [Hlt|[Heq|Hgt]].
    + rewrite Z.testbit_neg_r, orb_false_l by lia.
      rewrite !decide_True, Z.shiftr_spec by lia. f_equal; lia.
    + rewrite decide_False, decide_True, orb_false_r by lia.
      replace (i - Z.of_nat w) with 0 by lia.
      replace (Z.of_nat (S w) - 1 - i) with 0 by lia.
      rewrite <- Z.bit0_odd. by destruct (Z.testbit x 0).
    + rewrite !decide_False, orb_false_r by lia.
      apply (in_unsigned_bit_above 1); [lia| |lia].
      unfold in_unsigned; destruct (Z.odd x); simpl; lia.
Qed.

Lemma reflect_bits_lxor w x y :
  reflect_bits w (Z.lxor x y) = Z.lxor (reflect_bits w x) (reflect_bits w y).
Proof.
  apply Z.bits_inj'; intros i Hi.
  rewrite Z.lxor_spec, !reflect_bits_testbit by done.
  case_decide; [by rewrite Z.lxor_spec|done].
Qed.

Lemma kPolynomial_reflected : reflect_bits 32 kPolynomial = kReflectedPolynomial.
Proof. vm_compute; reflexivity. Qed.

Lemma reflect_shiftl r :
  reflect_bits 32 (u32 (Z.shiftl r 1)) = Z.shiftr (reflect_bits 32 r) 1.
Proof.
  apply Z.bits_inj'; intros i Hi. unfold unsigned_wrap.
  rewrite Z.shiftr_spec, !reflect_bits_testbit by lia.
  repeat case_decide; try lia; try done.
  - rewrite Z.mod_pow2_bits_low, Z.shiftl_spec by lia. f_equal; lia.
  - rewrite Z.mod_pow2_bits_low, Z.shiftl_spec_low by lia. done.
Qed.

Lemma msb_step_reflect r b :
  reflect_bits 32 (msb_step r b) = lfsr (reflect_bits 32 r) b.
Proof.
  unfold lfsr. rewrite table_step_alt, Z.shiftr_lxor.
  replace (Z.shiftr (Z.b2z b) 1) with 0 by by destruct b.
  rewrite Z.lxor_0_r, <- Z.bit0_odd, Z.lxor_spec, reflect_bits_testbit by lia.
  rewrite decide_True by lia. replace (Z.of_nat 32 - 1 - 0) with 31 by lia.
  replace (Z.testbit (Z.b2z b) 0) with b by by destruct b.
  unfold msb_step. destruct (xorb (Z.testbit r 31) b).
  - by rewrite reflect_bits_lxor, reflect_shiftl, kPolynomial_reflected.
  - by rewrite reflect_shiftl, Z.lxor_0_r.
Qed.

Lemma bits_be_reflect_byte b : is_u8 b → bits_be 8 (reflect_bits 8 b) = byte_bits b.
Proof.
  intros Hb.
  assert (H : forallb (λ b, bool_decide (bits_be 8 (reflect_bits 8 b) = byte_bits b))
            (seqZ 0 256) = true) by (vm_compute; reflexivity).
  rewrite forallb_forall in H. specialize (H b).
  apply bool_decide_eq_true in H; [done|].
  apply list_elem_of_In, elem_of_seqZ. solve_range.
Qed.

Lemma foldl_msb_step_reflect r bits :
  reflect_bits 32 (foldl msb_step r bits) = foldl lfsr (reflect_bits 32 r) bits.
Proof.
  revert r; induction bits as [|b bits IH]; intros r; cbn [foldl]; [done|].
  by rewrite IH, msb_step_reflect.
Qed.

Lemma autosar_register_reflect r data :
  Forall is_u8 data →
  reflect_bits 32
    (foldl (λ r b, foldl msb_step r (bits_be 8 (reflect_bits 8 b))) r data) =
  foldl lfsr (reflect_bits 32 r) (data_bits data).
Proof.
  intros Hd; revert r; induction Hd as [|b data Hb Hd IH]; intros r; cbn [foldl]; [done|].
  by rewrite IH, foldl_msb_step_reflect, bits_be_reflect_byte, data_bits_cons, foldl_app.
Qed.

(** C38: the table-driven [Crc32::compute] is the CRC its documentation names:
    for every byte string it returns the value of the bit-serial, non-reflected
    register with polynomial 0xF4ACFB13, initial value and final xor 0xFFFFFFFF
    and reflected input and output. *)
Theorem compute_autosar data :
  Forall is_u8 data → compute data = autosar_crc32 data.
Proof.
  intros Hd. unfold compute, value, autosar_crc32.
  rewrite update_span_lfsr, autosar_register_reflect by done. done.
Qed.

(** "123456789", the standard vector. *)
Definition check_vector : list Z := seqZ 0x31 9.

Lemma compute_autosar_witness :
  autosar_crc32 check_vector = kCheckValue.
Proof.
  rewrite <- (compute_autosar check_vector).
  - vm_compute; reflexivity.
  - apply Forall_forall. intros b Hb. apply elem_of_seqZ in Hb. solve_range.
Defined.
