(* ===== verification/CrcDistance.v ===== *)
(** * Error detection of CRC-32/AUTOSAR

    The register of [Crc32.v] is linear over GF(2), so whether an error pattern
    is detected depends on the pattern alone: it escapes exactly when its
    syndrome, the register it leaves when fed from zero, is zero.  This file
    computes which patterns escape.  Odd weights never do (the polynomial is
    divisible by x + 1), windows of at most 32 bits never do, and patterns of
    weight two and four do not within [kMaxBits] bits, which is checked by
    evaluating the powers of x.  Together that is a Hamming distance of six, the
    figure the documentation of [Crc32] quotes. *)

From Stdlib Require Import ZArith Lia.
From stdpp Require Import base numbers list pmap.
From S2P Require Import Prelude Crc32.

(** ** Linearity *)

Definition xor_bits (l k : list bool) : list bool := zip_with xorb l k.

(** Number of bits that are set. *)
Definition weight (bits : list bool) : nat := length (filter Is_true bits).

(** The register an error pattern leaves behind. *)
Definition syndrome (bits : list bool) : Z := foldl lfsr 0 bits.

Lemma lfsr_lxor s1 s2 b1 b2 :
  lfsr (Z.lxor s1 s2) (xorb b1 b2) = Z.lxor (lfsr s1 b1) (lfsr s2 b2).
Proof.
  unfold lfsr. rewrite <- table_step_lxor, lxor_swap4. do 2 f_equal.
  by destruct b1, b2.
Qed.

Lemma foldl_lfsr_lxor s1 s2 l1 l2 :
  length l1 = length l2 →
  foldl lfsr (Z.lxor s1 s2) (xor_bits l1 l2) =
    Z.lxor (foldl lfsr s1 l1) (foldl lfsr s2 l2).
Proof.
  revert s1 s2 l2; induction l1 as [|b1 l1 IH]; intros s1 s2 [|b2 l2] Hlen;
    simpl in *; try done.
  rewrite lfsr_lxor, IH; [done|lia].
Qed.

Lemma lfsr_range s b : is_u32 s → is_u32 (lfsr s b).
Proof.
  intros. apply table_step_range, in_unsigned_lxor; [done|done|].
  destruct b; cbn; solve_range.
Qed.

Lemma foldl_lfsr_range s bits : is_u32 s → is_u32 (foldl lfsr s bits).
Proof. revert s; induction bits; intros s Hs; simpl; auto using lfsr_range. Qed.

Lemma syndrome_range bits : is_u32 (syndrome bits).
Proof. apply foldl_lfsr_range; solve_range. Qed.

Lemma foldl_lfsr_zeros s n :
  foldl lfsr s (replicate n false) = Nat.iter n table_step s.
Proof.
  revert s; induction n as [|n IH]; intros s; [done|].
  cbn [replicate foldl]. rewrite IH, Nat.iter_succ_r. unfold lfsr.
  by rewrite Z.lxor_0_r.
Qed.

Lemma xor_bits_zeros bits : xor_bits (replicate (length bits) false) bits = bits.
Proof. induction bits as [|[] bits IH]; [done|..]; cbn; unfold xor_bits in IH; by rewrite IH. Qed.

(** Feeding from any state is feeding from zero plus the shifted state. *)
Lemma foldl_lfsr_split s bits :
  foldl lfsr s bits =
    Z.lxor (Nat.iter (length bits) table_step s) (syndrome bits).
Proof.
  rewrite <- foldl_lfsr_zeros. unfold syndrome.
  rewrite <- foldl_lfsr_lxor by by rewrite length_replicate.
  by rewrite Z.lxor_0_r, xor_bits_zeros.
Qed.

Lemma syndrome_app l1 l2 :
  syndrome (l1 ++ l2) =
    Z.lxor (Nat.iter (length l2) table_step (syndrome l1)) (syndrome l2).
Proof. unfold syndrome at 1. rewrite foldl_app. apply foldl_lfsr_split. Qed.

(** ** Syndromes as sums of powers *)

(** [power k] is x^k in the representation of the register. *)
Definition power (k : nat) : Z := Nat.iter k table_step 1.

Lemma power_range k : is_u32 (power k).
Proof. apply iter_table_step_range; solve_range. Qed.

(** The exponents at which a pattern has a bit, most significant first. *)
Fixpoint exponents (bits : list bool) : list nat :=
  match bits with
  | [] => []
  | true :: bits => S (length bits) :: exponents bits
  | false :: bits => exponents bits
  end.

Definition xor_sum (l : list Z) : Z := foldr Z.lxor 0 l.

Lemma syndrome_cons b bits :
  syndrome (b :: bits) =
    Z.lxor (if b then power (S (length bits)) else 0) (syndrome bits).
Proof.
  change (b :: bits) with ([b] ++ bits). rewrite syndrome_app. f_equal.
  destruct b.
  - change (syndrome [true]) with (table_step 1). unfold power.
    by rewrite Nat.iter_succ_r.
  - change (syndrome [false]) with 0. apply iter_table_step_0.
Qed.

Lemma syndrome_exponents bits : syndrome bits = xor_sum (power <$> exponents bits).
Proof.
  induction bits as [|b bits IH]; [done|].
  rewrite syndrome_cons, IH. by destruct b.
Qed.

Lemma length_exponents bits : length (exponents bits) = weight bits.
Proof.
  unfold weight. induction bits as [|b bits IH]; [done|].
  rewrite filter_cons. destruct b; simpl; [|done]. by rewrite IH.
Qed.

(** Exponents are strictly decreasing and bounded by the number of bits. *)
Inductive decreasing_below : nat → list nat → Prop :=
  | decreasing_nil n : decreasing_below n []
  | decreasing_cons n k l :
      (k ≤ n)%nat → decreasing_below (pred k) l → (0 < k)%nat →
      decreasing_below n (k :: l).

Lemma decreasing_below_mono n m l :
  (n ≤ m)%nat → decreasing_below n l → decreasing_below m l.
Proof. intros Hle H; inversion H; subst; constructor; auto; lia. Qed.

Lemma decreasing_below_inv n k l :
  decreasing_below n (k :: l) → (0 < k ≤ n)%nat ∧ decreasing_below (pred k) l.
Proof. inversion 1; subst; auto. Qed.

Lemma exponents_decreasing bits : decreasing_below (length bits) (exponents bits).
Proof.
  induction bits as [|b bits IH]; [constructor|].
  destruct b; simpl.
  - constructor; [lia| |lia]. done.
  - eapply decreasing_below_mono; [|done]. lia.
Qed.

(** ** Odd weights *)

Definition parity (n : nat) (x : Z) : bool := foldr xorb false (bits_le n x).

Lemma parity_S n x : parity (S n) x = xorb (Z.odd x) (parity n (Z.shiftr x 1)).
Proof. done. Qed.

Lemma parity_snoc n x : parity (S n) x = xorb (parity n x) (Z.testbit x (Z.of_nat n)).
Proof.
  revert x; induction n as [|n IH]; intros x.
  - rewrite parity_S. simpl. by rewrite <- Z.bit0_odd, xorb_false_r.
  - rewrite parity_S, IH, (parity_S n x), xorb_assoc, Z.shiftr_spec by lia.
    do 3 f_equal. lia.
Qed.

Lemma parity_lxor n x y : parity n (Z.lxor x y) = xorb (parity n x) (parity n y).
Proof.
  revert x y; induction n as [|n IH]; intros x y; [done|].
  rewrite !parity_S, Z.shiftr_lxor, IH, <- !Z.bit0_odd, Z.lxor_spec.
  by destruct (Z.testbit x 0), (Z.testbit y 0), (parity n (Z.shiftr x 1)),
    (parity n (Z.shiftr y 1)).
Qed.

(** The reflected polynomial has an odd number of bits, so a shift keeps the
    parity of the register. *)
Lemma parity_table_step r : is_u32 r → parity 32 (table_step r) = parity 32 r.
Proof.
  intros Hr. rewrite table_step_alt, parity_lxor, parity_snoc, (parity_S 31 r).
  rewrite Z.shiftr_spec, (in_unsigned_bit_above 32 r) by (done || lia).
  rewrite xorb_false_r, xorb_comm. f_equal.
  by destruct (Z.odd r); vm_compute.
Qed.

Lemma parity_power k : parity 32 (power k) = true.
Proof.
  induction k as [|k IH]; [vm_compute; reflexivity|].
  unfold power in *; rewrite Nat.iter_succ.
  rewrite parity_table_step by apply power_range. done.
Qed.

Lemma parity_xor_sum l : parity 32 (xor_sum (power <$> l)) = Nat.odd (length l).
Proof.
  induction l as [|k l IH]; [vm_compute; reflexivity|].
  cbn [fmap list_fmap xor_sum foldr length].
  rewrite parity_lxor, parity_power. unfold xor_sum in IH; rewrite IH.
  rewrite Nat.odd_succ, <- Nat.negb_odd. by destruct (Nat.odd _).
Qed.

Lemma syndrome_odd bits : Nat.odd (weight bits) = true → syndrome bits ≠ 0.
Proof.
  rewrite <- length_exponents, <- parity_xor_sum, <- syndrome_exponents.
  intros H E. by rewrite E in H.
Qed.

(** ** Weights two and four *)

(** A data field of 2048 bits and the checksum. *)
Definition kMaxBits : nat := 2080.

(** [n] successive powers of x. *)
Fixpoint powers_from (n : nat) (s : Z) : list Z :=
  match n with
  | O => []
  | S n => s :: powers_from n (table_step s)
  end.

Definition index_set (l : list Z) : Pmap unit :=
  foldr (λ z m, match z with Zpos p => <[p:=tt]> m | _ => m end) ∅ l.

(** Membership; everything that is not positive counts as present. *)
Definition present (m : Pmap unit) (z : Z) : bool :=
  match z with
  | Zpos p => match m !! p with Some _ => true | None => false end
  | _ => true
  end.

(** No pair of [l] sums with x^0 to an element of [m]. *)
Fixpoint pairs_avoid (m : Pmap unit) (l : list Z) : bool :=
  match l with
  | [] => true
  | x :: l =>
      forallb (λ y, negb (present m (Z.lxor (Z.lxor 1 x) y))) l && pairs_avoid m l
  end.

Definition distance_check (n : nat) : bool :=
  let l := powers_from n (table_step 1) in
  let m := index_set (1 :: l) in
  forallb (λ x, negb (x =? 1)) l && pairs_avoid m l.

Lemma distance_check_ok : distance_check kMaxBits = true.
Proof. vm_compute; reflexivity. Qed.

Lemma powers_from_lookup n s k :
  (k < n)%nat → powers_from n s !! k = Some (Nat.iter k table_step s).
Proof.
  revert s k; induction n as [|n IH]; intros s [|k] Hk; try lia; [done|].
  cbn [powers_from lookup list_lookup]. rewrite IH by lia.
  by rewrite Nat.iter_succ_r.
Qed.

Lemma power_in_list n k :
  (0 < k ≤ n)%nat → powers_from n (table_step 1) !! pred k = Some (power k).
Proof.
  intros Hk. rewrite powers_from_lookup by lia. unfold power.
  rewrite <- Nat.iter_succ_r. by replace (S (pred k)) with k by lia.
Qed.

Lemma present_index_set l z : z ∈ l → present (index_set l) z = true.
Proof.
  induction l as [|y l IH]; intros Hz; [by apply not_elem_of_nil in Hz|].
  apply elem_of_cons in Hz as [->|Hz].
  - destruct y as [|p|p]; [done| |done]. cbn. by rewrite lookup_insert_eq.
  - specialize (IH Hz). destruct z as [|p|p]; [done| |done].
    cbn in IH |- *. destruct y as [|q|q]; [done| |done].
    destruct (decide (p = q)) as [->|Hne]; [by rewrite lookup_insert_eq|].
    by rewrite lookup_insert_ne.
Qed.

Lemma pairs_avoid_spec m l i j x y :
  pairs_avoid m l = true → (i < j)%nat → l !! i = Some x → l !! j = Some y →
  present m (Z.lxor (Z.lxor 1 x) y) = false.
Proof.
  revert i j; induction l as [|z l IH]; intros i j H Hij Hi Hj; [done|].
  cbn [pairs_avoid] in H. apply andb_true_iff in H as [H1 H2].
  destruct j as [|j]; [lia|]. destruct i as [|i].
  - injection Hi as ->. rewrite forallb_forall in H1.
    apply negb_true_iff, H1, list_elem_of_In, list_elem_of_lookup. by exists j.
  - apply (IH i j); [done|lia|done|done].
Qed.

(** What a successful check says, for any number of bits. *)
Lemma distance_check_neq_1 n k :
  distance_check n = true → (0 < k ≤ n)%nat → power k ≠ 1.
Proof.
  intros H Hk. unfold distance_check in H.
  apply andb_true_iff in H as [H _]. rewrite forallb_forall in H.
  specialize (H (power k)). apply Z.eqb_neq, negb_true_iff, H.
  apply list_elem_of_In, list_elem_of_lookup. eexists. by apply power_in_list.
Qed.

Lemma distance_check_sum4 n i j k :
  distance_check n = true → (0 < i < j)%nat → (j ≤ n)%nat → (k ≤ n)%nat →
  Z.lxor (Z.lxor 1 (power i)) (power j) ≠ power k.
Proof.
  intros H Hi Hj Hk E. unfold distance_check in H.
  apply andb_true_iff in H as [_ H].
  apply (pairs_avoid_spec _ _ (pred i) (pred j) (power i) (power j)) in H;
    [|lia|apply power_in_list; lia|apply power_in_list; lia].
  rewrite E, present_index_set in H; [done|].
  destruct (decide (k = 0%nat)) as [->|Hne]; [left|right].
  apply list_elem_of_lookup. eexists. apply power_in_list. lia.
Qed.

Lemma power_neq_1 k : (0 < k ≤ kMaxBits)%nat → power k ≠ 1.
Proof. apply distance_check_neq_1, distance_check_ok. Qed.

Lemma power_sum4_neq_0 i j k :
  (0 < i < j)%nat → (j ≤ kMaxBits)%nat → (k ≤ kMaxBits)%nat →
  Z.lxor (Z.lxor 1 (power i)) (power j) ≠ power k.
Proof. apply distance_check_sum4, distance_check_ok. Qed.

Lemma power_add a d : power (a + d) = Nat.iter d table_step (power a).
Proof. unfold power. by rewrite <- Nat.iter_add, Nat.add_comm. Qed.

Lemma power_split k d : (d ≤ k)%nat → power k = Nat.iter d table_step (power (k - d)).
Proof. intros. rewrite <- power_add. f_equal; lia. Qed.

(** Dividing a sum of powers by its lowest one. *)
Lemma xor_sum_factor l d :
  Forall (λ k, (d ≤ k)%nat) l →
  xor_sum (power <$> l) =
    Nat.iter d table_step (xor_sum ((λ k, power (k - d)) <$> l)).
Proof.
  induction 1 as [|k l Hk Hl IH].
  - symmetry; apply iter_table_step_0.
  - cbn [fmap list_fmap xor_sum foldr].
    unfold xor_sum in IH; rewrite IH, iter_table_step_lxor.
    by rewrite <- power_split.
Qed.

Lemma xor_sum_range l : Forall is_u32 l → is_u32 (xor_sum l).
Proof.
  induction 1; cbn [xor_sum foldr]; [solve_range|]. by apply in_unsigned_lxor.
Qed.

Lemma xor_sum_factor_eq_0 l d :
  Forall (λ k, (d ≤ k)%nat) l → xor_sum (power <$> l) = 0 →
  xor_sum ((λ k, power (k - d)) <$> l) = 0.
Proof.
  intros Hl. rewrite (xor_sum_factor l d Hl). apply iter_table_step_eq_0.
  apply xor_sum_range, Forall_fmap, Forall_true. intros; apply power_range.
Qed.

Lemma power_sum_2 a b :
  decreasing_below kMaxBits [a; b] → xor_sum (power <$> [a; b]) ≠ 0.
Proof.
  intros [? [? _]%decreasing_below_inv]%decreasing_below_inv E.
  apply (xor_sum_factor_eq_0 _ b) in E; [|repeat constructor; lia].
  cbn in E. rewrite Nat.sub_diag, Z.lxor_0_r in E. apply Z.lxor_eq in E.
  apply (power_neq_1 (a - b)); [lia|done].
Qed.

Lemma power_sum_4 a b c d :
  decreasing_below kMaxBits [a; b; c; d] → xor_sum (power <$> [a; b; c; d]) ≠ 0.
Proof.
  intros [? [? [? [? _]%decreasing_below_inv]%decreasing_below_inv]%decreasing_below_inv
    ]%decreasing_below_inv E.
  apply (xor_sum_factor_eq_0 _ d) in E; [|repeat constructor; lia].
  cbn in E. rewrite Nat.sub_diag, Z.lxor_0_r in E. apply Z.lxor_eq in E.
  apply (power_sum4_neq_0 (c - d) (b - d) (a - d)); [lia|lia|lia|].
  rewrite E. change (power 0) with 1.
  by rewrite (Z.lxor_comm 1), (Z.lxor_comm (power (b - d))).
Qed.

(** Every pattern of weight one to five within [kMaxBits] bits has a non-zero
    syndrome. *)
Lemma syndrome_weight_le_5 bits :
  (length bits ≤ kMaxBits)%nat → (1 ≤ weight bits ≤ 5)%nat → syndrome bits ≠ 0.
Proof.
  intros Hlen Hw.
  destruct (Nat.odd (weight bits)) eqn:Hodd; [by apply syndrome_odd|].
  rewrite syndrome_exponents.
  pose proof (decreasing_below_mono _ _ _ Hlen (exponents_decreasing bits)) as Hd.
  rewrite <- length_exponents in Hw, Hodd.
  destruct (exponents bits) as [|a [|b [|c [|d [|e [|f l]]]]]]; simpl in Hw, Hodd;
    try done; try lia.
  - by apply power_sum_2.
  - by apply power_sum_4.
Qed.

(** ** Short windows *)

Fixpoint of_bits (bits : list bool) : Z :=
  match bits with
  | [] => 0
  | b :: bits => Z.lxor (Z.b2z b) (Z.shiftl (of_bits bits) 1)
  end.

Lemma syndrome_of_bits bits :
  syndrome bits = Nat.iter (length bits) table_step (of_bits bits).
Proof.
  induction bits as [|b bits IH]; [done|].
  rewrite syndrome_cons, IH. cbn [of_bits length].
  rewrite Nat.iter_succ_r, table_step_lxor, table_step_double, iter_table_step_lxor.
  f_equal. destruct b; unfold power.
  - by rewrite Nat.iter_succ_r.
  - symmetry; apply iter_table_step_0.
Qed.

Lemma of_bits_range bits : in_unsigned (Z.of_nat (length bits)) (of_bits bits).
Proof.
  induction bits as [|b bits IH]; [done|]. cbn [of_bits length].
  apply in_unsigned_lxor; [lia| |].
  - apply (in_unsigned_mono 1); [lia|]. destruct b; cbn; unfold in_unsigned; lia.
  - destruct IH as [H0 H1]. unfold in_unsigned.
    rewrite Z.shiftl_mul_pow2, Nat2Z.inj_succ, Z.pow_succ_r by lia. lia.
Qed.

Lemma of_bits_eq_0 bits : of_bits bits = 0 → weight bits = 0%nat.
Proof.
  induction bits as [|b bits IH]; [done|]. cbn [of_bits]. intros E.
  assert (Hb : b = false).
  { apply (f_equal (λ z, Z.testbit z 0)) in E.
    rewrite Z.lxor_spec, Z.shiftl_spec_low in E by lia. by destruct b. }
  subst b. rewrite Z.lxor_0_l, Z.shiftl_mul_pow2 in E by lia.
  unfold weight. rewrite filter_cons. simpl. apply IH. lia.
Qed.

(** An error confined to a window of at most 32 bits is detected wherever the
    window lies. *)
Lemma syndrome_window n w m :
  (length w ≤ 32)%nat → weight w ≠ 0%nat →
  syndrome (replicate n false ++ w ++ replicate m false) ≠ 0.
Proof.
  intros Hlen Hw E. rewrite !syndrome_app in E.
  assert (Hz : ∀ k, syndrome (replicate k false) = 0).
  { intros k. unfold syndrome. rewrite foldl_lfsr_zeros. apply iter_table_step_0. }
  rewrite !Hz, iter_table_step_0, Z.lxor_0_l, Z.lxor_0_r in E.
  apply iter_table_step_eq_0 in E; [|apply syndrome_range].
  rewrite syndrome_of_bits in E. apply iter_table_step_eq_0 in E.
  - by apply Hw, of_bits_eq_0.
  - eapply in_unsigned_mono; [|apply of_bits_range]. lia.
Qed.

(** ** Byte strings *)

(** Number of bits in which two byte strings of one length differ. *)
Definition hamming (a b : list Z) : nat :=
  weight (xor_bits (data_bits a) (data_bits b)).

Lemma bits_le_add n m x :
  bits_le (n + m) x = bits_le n x ++ bits_le m (Z.shiftr x (Z.of_nat n)).
Proof.
  revert x; induction n as [|n IH]; intros x.
  - by rewrite Z.shiftr_0_r.
  - cbn [Nat.add bits_le app]. rewrite IH, Z.shiftr_shiftr by lia.
    do 4 f_equal. lia.
Qed.

Lemma bits_le_wrap n x : bits_le n (unsigned_wrap (Z.of_nat n) x) = bits_le n x.
Proof.
  unfold unsigned_wrap. revert x; induction n as [|n IH]; intros x; [done|].
  cbn [bits_le]. f_equal.
  - by rewrite <- !Z.bit0_odd, Z.mod_pow2_bits_low by lia.
  - rewrite <- (IH (Z.shiftr x 1)). f_equal.
    apply Z.bits_inj'; intros i Hi.
    rewrite Z.shiftr_spec by lia. destruct (decide (i < Z.of_nat n)).
    + rewrite !Z.mod_pow2_bits_low, Z.shiftr_spec by lia. done.
    + by rewrite !Z.mod_pow2_bits_high by lia.
Qed.

Lemma data_bits_le_bytes n x : data_bits (le_bytes n x) = bits_le (8 * n) x.
Proof.
  revert x; induction n as [|n IH]; intros x; [done|].
  cbn [le_bytes]. rewrite data_bits_cons, IH.
  replace (8 * S n)%nat with (8 + 8 * n)%nat by lia.
  rewrite bits_le_add. f_equal. apply (bits_le_wrap 8).
Qed.

Lemma xor_bits_le n x y : xor_bits (bits_le n x) (bits_le n y) = bits_le n (Z.lxor x y).
Proof.
  revert x y; induction n as [|n IH]; intros x y; [done|].
  cbn [bits_le xor_bits zip_with]. unfold xor_bits in IH.
  rewrite IH, Z.shiftr_lxor. f_equal. by rewrite <- !Z.bit0_odd, Z.lxor_spec.
Qed.

Lemma xor_bits_app a1 a2 b1 b2 :
  length a1 = length b1 → xor_bits (a1 ++ a2) (b1 ++ b2) = xor_bits a1 b1 ++ xor_bits a2 b2.
Proof. apply zip_with_app. Qed.

Lemma length_xor_bits a b : length a = length b → length (xor_bits a b) = length a.
Proof. intros. unfold xor_bits. rewrite length_zip_with. lia. Qed.

Lemma weight_app a b : weight (a ++ b) = (weight a + weight b)%nat.
Proof. unfold weight. by rewrite filter_app, length_app. Qed.

Lemma xor_bits_diag a : xor_bits a a = replicate (length a) false.
Proof. induction a as [|b a IH]; [done|]. cbn. unfold xor_bits in IH. by rewrite IH, xorb_nilpotent. Qed.

Lemma weight_zeros n : weight (replicate n false) = 0%nat.
Proof. induction n as [|n IH]; [done|]. unfold weight in *. cbn [replicate]. by rewrite filter_cons. Qed.

(** Two runs of the register from one state differ by the syndrome of the
    difference of their inputs. *)
Lemma update_span_lxor c d d' :
  Forall is_u8 d → Forall is_u8 d' → length d = length d' →
  Z.lxor (state_ (update_span c d)) (state_ (update_span c d')) =
    syndrome (xor_bits (data_bits d) (data_bits d')).
Proof.
  intros Hd Hd' Hlen. rewrite !update_span_lfsr by done.
  rewrite <- foldl_lfsr_lxor by by rewrite !length_data_bits, Hlen.
  by rewrite Z.lxor_nilpotent.
Qed.

Lemma compute_lxor d d' :
  Forall is_u8 d → Forall is_u8 d' → length d = length d' →
  Z.lxor (compute d) (compute d') = syndrome (xor_bits (data_bits d) (data_bits d')).
Proof.
  intros. unfold compute, value. rewrite lxor_swap4, Z.lxor_nilpotent, Z.lxor_0_r.
  by apply update_span_lxor.
Qed.

(** Appending the transmitted checksum's error to the data's error: the whole
    pattern has syndrome zero exactly when the two cancel. *)
Lemma syndrome_app_bits_le n bits e :
  in_unsigned (Z.of_nat n) e →
  syndrome (bits ++ bits_le n e) = Nat.iter n table_step (Z.lxor (syndrome bits) e).
Proof.
  intros He. rewrite syndrome_app, length_bits_le, iter_table_step_lxor.
  f_equal. unfold syndrome. by rewrite foldl_lfsr_bits, Z.lxor_0_l.
Qed.

Lemma syndrome_cancel n bits e :
  in_unsigned (Z.of_nat n) e → syndrome bits = e → syndrome (bits ++ bits_le n e) = 0.
Proof.
  intros He E. rewrite syndrome_app_bits_le, E, Z.lxor_nilpotent by done.
  apply iter_table_step_0.
Qed.

Lemma value_range c : is_u32 (state_ c) → is_u32 (value c).
Proof. intros. apply in_unsigned_lxor; [done|done|]. unfold kFinalXor; solve_range. Qed.

Lemma compute_range d : Forall is_u8 d → is_u32 (compute d).
Proof.
  intros. apply value_range. rewrite update_span_lfsr by done.
  apply foldl_lfsr_range. cbn; unfold kInitial; solve_range.
Qed.

(** C19: Hamming distance six up to 2048 data bits.  If a byte string of at most
    256 bytes and its checksum are received with at least one and at most five
    bits flipped, anywhere in the data and the checksum, the received checksum
    is not the one [Crc32::compute] returns for the received data. *)
Theorem crc32_hamming_distance_6 d d' c' :
  Forall is_u8 d → Forall is_u8 d' → is_u32 c' →
  length d = length d' → (length d ≤ 256)%nat →
  (1 ≤ hamming (d ++ le_bytes 4 (compute d)) (d' ++ le_bytes 4 c') ≤ 5)%nat →
  compute d' ≠ c'.
Proof.
  intros Hd Hd' Hc Hlen Hmax. unfold hamming.
  rewrite !data_bits_app, !data_bits_le_bytes.
  rewrite xor_bits_app, xor_bits_le by by rewrite !length_data_bits, Hlen.
  intros Hw E. apply syndrome_weight_le_5 in Hw.
  - apply Hw, syndrome_cancel.
    + apply in_unsigned_lxor; [done|by apply compute_range|done].
    + by rewrite <- compute_lxor, E.
  - rewrite length_app, length_bits_le, length_xor_bits;
      rewrite !length_data_bits; [unfold kMaxBits|]; lia.
Qed.

Lemma crc32_hamming_distance_6_witness :
  compute check_vector = kCheckValue ∧ compute (0x30 :: tail check_vector) ≠ kCheckValue.
Proof.
  split; [vm_compute; reflexivity|].
  apply (crc32_hamming_distance_6 check_vector).
  1-3: by_compute.
  - reflexivity.
  - by_compute.
  - by_compute.
Defined.
