(* ===== verification/BlackChannel.v ===== *)
(** * The black channel

    Model of [src/safety/black_channel.cpp] and
    [include/safeedge/safety/black_channel.hpp]: telegram layout, protecting CRC,
    [SafetySender::encode], and the receiver with its latch, watchdog and
    sequence check.  Bytes are [Z] values below 256, sizes are [nat], counters
    and timestamps are [Z] at the width of the C++ type.  Array accesses are in
    range on every path (the size checks come first), so the total list
    operations used here never take their default. *)

From Stdlib Require Import ZArith Lia.
From stdpp Require Import base numbers list.
From S2P Require Import Prelude Crc32 CrcDistance.

(** ** Data *)

Inductive TransmissionFault :=
  | kNone
  | kCorruption
  | kUnintendedRepetition
  | kIncorrectSequence
  | kLoss
  | kUnacceptableDelay
  | kInsertion
  | kMasquerade
  | kAddressingError.

Record SafetyAddress := mkAddress {
  source : Z;
  destination : Z;
  parameter_signature : Z;
}.

#[export] Instance SafetyAddress_eq_dec : EqDecision SafetyAddress.
Proof. solve_decision. Defined.

Definition kMaxPayloadBytes : nat := 64.
Definition kStatusBytes : nat := 1.
Definition kConsecutiveNumberBytes : nat := 4.
Definition kCrcBytes : nat := 4.
Definition kOverheadBytes : nat := kStatusBytes + kConsecutiveNumberBytes + kCrcBytes.
Definition kMaxTelegramBytes : nat := kMaxPayloadBytes + kOverheadBytes.

(** Exposes the sizes as numerals, for [lia]. *)
Ltac unfold_sizes :=
  unfold kMaxTelegramBytes, kMaxPayloadBytes, kOverheadBytes, kStatusBytes,
    kConsecutiveNumberBytes, kCrcBytes in *.

Record Telegram := mkTelegram { bytes : list Z; size : nat }.

Definition newTelegram : Telegram := mkTelegram (replicate kMaxTelegramBytes 0) 0.

Definition view (t : Telegram) : list Z := take (size t) (bytes t).

(** The bits of the status byte. *)
Definition kActivateFailSafeValues : Z := Z.shiftl 1 0.
Definition kProducerFault : Z := Z.shiftl 1 1.
Definition kOperatorAckRequested : Z := Z.shiftl 1 2.

Record SafetySender := mkSender {
  sender_address : SafetyAddress;
  consecutive_number_ : Z;
}.

Definition newSender (address : SafetyAddress) : SafetySender := mkSender address 1.

Definition nextConsecutiveNumber (s : SafetySender) : Z := consecutive_number_ s.

Definition restartSequence (start : Z) (s : SafetySender) : SafetySender :=
  mkSender (sender_address s) start.

Inductive ReceiveStatus :=
  | kValid
  | kMalformed
  | kCrcMismatch
  | kRepetition
  | kSequenceGap
  | kOutOfOrder
  | kTimeout
  | kInSafeState.

#[export] Instance TransmissionFault_eq_dec : EqDecision TransmissionFault.
Proof. solve_decision. Defined.
#[export] Instance ReceiveStatus_eq_dec : EqDecision ReceiveStatus.
Proof. solve_decision. Defined.

Record ReceiverDiagnostics := mkDiagnostics {
  accepted : Z;
  rejected_malformed : Z;
  rejected_crc : Z;
  rejected_repetition : Z;
  rejected_sequence_gap : Z;
  rejected_out_of_order : Z;
  timeouts : Z;
  telegrams_lost : Z;
  last_accepted_consecutive_number : Z;
}.

Definition newDiagnostics : ReceiverDiagnostics := mkDiagnostics 0 0 0 0 0 0 0 0 0.

Record SafetyReceiver := mkReceiver {
  receiver_address : SafetyAddress;
  watchdog_ns_ : Z;
  last_valid_ns_ : Z;
  last_consecutive_number_ : Z;
  synchronised_ : bool;
  safe_state_ : bool;
  last_fault_ : TransmissionFault;
  diagnostics_ : ReceiverDiagnostics;
}.

Definition newReceiver (address : SafetyAddress) (watchdog_ns : Z) : SafetyReceiver :=
  mkReceiver address watchdog_ns 0 0 false false kNone newDiagnostics.

(** ** Byte access *)

Definition byte_at (raw : list Z) (i : nat) : Z := nth i raw 0.

Definition readUint32Le (raw : list Z) (offset : nat) : Z :=
  Z.lor (Z.lor (Z.lor
    (byte_at raw offset)
    (u32 (Z.shiftl (byte_at raw (offset + 1)) 8)))
    (u32 (Z.shiftl (byte_at raw (offset + 2)) 16)))
    (u32 (Z.shiftl (byte_at raw (offset + 3)) 24)).

Definition writeUint32Le (raw : list Z) (offset : nat) (value : Z) : list Z :=
  let raw := <[offset := u8 (Z.land value 0xFF)]> raw in
  let raw := <[(offset + 1)%nat := u8 (Z.land (Z.shiftr value 8) 0xFF)]> raw in
  let raw := <[(offset + 2)%nat := u8 (Z.land (Z.shiftr value 16) 0xFF)]> raw in
  <[(offset + 3)%nat := u8 (Z.land (Z.shiftr value 24) 0xFF)]> raw.

Definition computeTelegramCrc (address : SafetyAddress) (payload : list Z)
    (status consecutive_number : Z) : Z :=
  let crc := newCrc32 in
  let crc := update_span crc payload in
  let crc := update_byte crc status in
  let crc := update_uint32 crc consecutive_number in
  let crc := update_uint16 crc (source address) in
  let crc := update_uint16 crc (destination address) in
  let crc := update_uint32 crc (parameter_signature address) in
  value crc.

(** ** Sender *)

(** The successor of a consecutive number: increment modulo 2^32, zero skipped.
    The producer applies it after every telegram, the consumer to the last
    accepted number. *)
Definition next_number (n : Z) : Z :=
  let n := u32 (n + 1) in if n =? 0 then 1 else n.

Definition encode (s : SafetySender) (payload : list Z) (status : Z) (out : Telegram) :
    bool * SafetySender * Telegram :=
  if (kMaxPayloadBytes <? length payload)%nat then (false, s, out)
  else
    let payload_size := length payload in
    let raw := copy_into payload (bytes out) in
    let raw := <[payload_size := status]> raw in
    let raw := writeUint32Le raw (payload_size + kStatusBytes) (consecutive_number_ s) in
    let crc := computeTelegramCrc (sender_address s) payload status (consecutive_number_ s) in
    let raw :=
      writeUint32Le raw (payload_size + kStatusBytes + kConsecutiveNumberBytes) crc in
    (true,
     mkSender (sender_address s) (next_number (consecutive_number_ s)),
     mkTelegram raw (payload_size + kOverheadBytes)).

(** ** Receiver *)

Definition latch (fault : TransmissionFault) (r : SafetyReceiver) : SafetyReceiver :=
  mkReceiver (receiver_address r) (watchdog_ns_ r) (last_valid_ns_ r)
    (last_consecutive_number_ r) (synchronised_ r) true fault (diagnostics_ r).

Definition with_diagnostics (d : ReceiverDiagnostics) (r : SafetyReceiver) : SafetyReceiver :=
  mkReceiver (receiver_address r) (watchdog_ns_ r) (last_valid_ns_ r)
    (last_consecutive_number_ r) (synchronised_ r) (safe_state_ r) (last_fault_ r) d.

Definition acknowledgeAndReset (now_ns : Z) (r : SafetyReceiver) : SafetyReceiver :=
  mkReceiver (receiver_address r) (watchdog_ns_ r) now_ns 0 false false kNone
    (diagnostics_ r).

(** The counters a rejection increments. *)
Definition count_malformed (d : ReceiverDiagnostics) : ReceiverDiagnostics :=
  mkDiagnostics (accepted d) (u64 (rejected_malformed d + 1)) (rejected_crc d)
    (rejected_repetition d) (rejected_sequence_gap d) (rejected_out_of_order d)
    (timeouts d) (telegrams_lost d) (last_accepted_consecutive_number d).
Definition count_crc (d : ReceiverDiagnostics) : ReceiverDiagnostics :=
  mkDiagnostics (accepted d) (rejected_malformed d) (u64 (rejected_crc d + 1))
    (rejected_repetition d) (rejected_sequence_gap d) (rejected_out_of_order d)
    (timeouts d) (telegrams_lost d) (last_accepted_consecutive_number d).
Definition count_timeout (d : ReceiverDiagnostics) : ReceiverDiagnostics :=
  mkDiagnostics (accepted d) (rejected_malformed d) (rejected_crc d)
    (rejected_repetition d) (rejected_sequence_gap d) (rejected_out_of_order d)
    (u64 (timeouts d + 1)) (telegrams_lost d) (last_accepted_consecutive_number d).
Definition count_repetition (d : ReceiverDiagnostics) : ReceiverDiagnostics :=
  mkDiagnostics (accepted d) (rejected_malformed d) (rejected_crc d)
    (u64 (rejected_repetition d + 1)) (rejected_sequence_gap d) (rejected_out_of_order d)
    (timeouts d) (telegrams_lost d) (last_accepted_consecutive_number d).
Definition count_out_of_order (d : ReceiverDiagnostics) : ReceiverDiagnostics :=
  mkDiagnostics (accepted d) (rejected_malformed d) (rejected_crc d)
    (rejected_repetition d) (rejected_sequence_gap d) (u64 (rejected_out_of_order d + 1))
    (timeouts d) (telegrams_lost d) (last_accepted_consecutive_number d).
Definition count_gap (delta : Z) (d : ReceiverDiagnostics) : ReceiverDiagnostics :=
  mkDiagnostics (accepted d) (rejected_malformed d) (rejected_crc d)
    (rejected_repetition d) (u64 (rejected_sequence_gap d + 1)) (rejected_out_of_order d)
    (timeouts d) (u64 (telegrams_lost d + u64 delta)) (last_accepted_consecutive_number d).
Definition count_accepted (number : Z) (d : ReceiverDiagnostics) : ReceiverDiagnostics :=
  mkDiagnostics (u64 (accepted d + 1)) (rejected_malformed d) (rejected_crc d)
    (rejected_repetition d) (rejected_sequence_gap d) (rejected_out_of_order d)
    (timeouts d) (telegrams_lost d) number.

Definition poll (r : SafetyReceiver) (now_ns : Z) : ReceiveStatus * SafetyReceiver :=
  if safe_state_ r then (kInSafeState, r)
  else if negb (synchronised_ r) then (kValid, r)
  else if watchdog_ns_ r <? elapsed now_ns (last_valid_ns_ r) then
    (kTimeout, latch kLoss (with_diagnostics (count_timeout (diagnostics_ r)) r))
  else (kValid, r).

(** Everything [receive] writes: the status it returns, the receiver, the
    caller's buffer, [payload_size] and [status_out]. *)
Record Received := mkReceived {
  result : ReceiveStatus;
  receiver : SafetyReceiver;
  payload_out : list Z;
  payload_size : nat;
  status_out : Z;
}.

(** A rejection: both out-parameters stay reset and the buffer is untouched. *)
Definition rejected (st : ReceiveStatus) (fault : TransmissionFault)
    (d : ReceiverDiagnostics) (r : SafetyReceiver) (buffer : list Z) : Received :=
  mkReceived st (latch fault (with_diagnostics d r)) buffer 0 0.

(** The accept block at the end of [receive]. *)
Definition accept (payload : list Z) (status number now_ns : Z) (r : SafetyReceiver)
    (buffer : list Z) : Received :=
  mkReceived kValid
    (mkReceiver (receiver_address r) (watchdog_ns_ r) now_ns number true (safe_state_ r)
       (last_fault_ r) (count_accepted number (diagnostics_ r)))
    (copy_into payload buffer) (length payload) status.

(** The checks on the decoded fields: integrity, timeliness, freshness. *)
Definition check_fields (r : SafetyReceiver) (payload : list Z)
    (status consecutive_number received_crc now_ns : Z) (buffer : list Z) : Received :=
  let d := diagnostics_ r in
  let expected_crc :=
    computeTelegramCrc (receiver_address r) payload status consecutive_number in
  if negb (received_crc =? expected_crc) then
    rejected kCrcMismatch kCorruption (count_crc d) r buffer
  else if synchronised_ r && (watchdog_ns_ r <? elapsed now_ns (last_valid_ns_ r)) then
    rejected kTimeout kUnacceptableDelay (count_timeout d) r buffer
  else if negb (synchronised_ r) then
    accept payload status consecutive_number now_ns r buffer
  else
    let expected := next_number (last_consecutive_number_ r) in
    if negb (consecutive_number =? expected) then
      if consecutive_number =? last_consecutive_number_ r then
        rejected kRepetition kUnintendedRepetition (count_repetition d) r buffer
      else
        let delta := i32 (u32 (consecutive_number - expected)) in
        if delta <? 0 then
          rejected kOutOfOrder kIncorrectSequence (count_out_of_order d) r buffer
        else
          rejected kSequenceGap kLoss (count_gap delta d) r buffer
    else accept payload status consecutive_number now_ns r buffer.

Definition receive (r : SafetyReceiver) (raw : list Z) (now_ns : Z) (buffer : list Z) :
    Received :=
  let d := diagnostics_ r in
  if safe_state_ r then mkReceived kInSafeState r buffer 0 0
  else if (length raw <? kOverheadBytes)%nat || (kMaxTelegramBytes <? length raw)%nat then
    rejected kMalformed kCorruption (count_malformed d) r buffer
  else
    let received_payload_size := (length raw - kOverheadBytes)%nat in
    if (length buffer <? received_payload_size)%nat then
      rejected kMalformed kCorruption (count_malformed d) r buffer
    else
      let payload := take received_payload_size raw in
      let status := byte_at raw received_payload_size in
      let consecutive_number := readUint32Le raw (received_payload_size + kStatusBytes) in
      let received_crc :=
        readUint32Le raw (received_payload_size + kStatusBytes + kConsecutiveNumberBytes) in
      check_fields r payload status consecutive_number received_crc now_ns buffer.

(** ** Wire format *)

(** The bytes of a telegram: payload, status, consecutive number, checksum. *)
Definition frame (payload : list Z) (status number crc : Z) : list Z :=
  payload ++ [status] ++ le_bytes 4 number ++ le_bytes 4 crc.

Definition address_bytes (a : SafetyAddress) : list Z :=
  le_bytes 2 (source a) ++ le_bytes 2 (destination a) ++ le_bytes 4 (parameter_signature a).

Lemma update_span_app c d1 d2 :
  update_span c (d1 ++ d2) = update_span (update_span c d1) d2.
Proof. apply foldl_app. Qed.

Lemma update_uint16_bytes c v : update_uint16 c v = update_span c (le_bytes 2 v).
Proof. unfold update_uint16. by rewrite !u8_land_255. Qed.

Lemma update_uint32_bytes c v : update_uint32 c v = update_span c (le_bytes 4 v).
Proof.
  unfold update_uint32. rewrite !u8_land_255. cbn [le_bytes update_span foldl].
  by rewrite !Z.shiftr_shiftr by lia.
Qed.

(** The protecting CRC is one CRC over payload, status, number and address. *)
Lemma computeTelegramCrc_compute a payload status number :
  computeTelegramCrc a payload status number =
    compute (payload ++ [status] ++ le_bytes 4 number ++ address_bytes a).
Proof.
  unfold computeTelegramCrc, compute, address_bytes.
  by rewrite !update_uint32_bytes, !update_uint16_bytes, !update_span_app.
Qed.

Lemma address_bytes_range a : Forall is_u8 (address_bytes a).
Proof. unfold address_bytes. rewrite !Forall_app. auto using le_bytes_range. Qed.

Lemma length_address_bytes a : length (address_bytes a) = 8%nat.
Proof. unfold address_bytes. by rewrite !length_app, !length_le_bytes. Qed.

Lemma computeTelegramCrc_range a payload status number :
  Forall is_u8 payload → is_u8 status → is_u32 (computeTelegramCrc a payload status number).
Proof.
  intros. rewrite computeTelegramCrc_compute. apply compute_range.
  rewrite !Forall_app, Forall_singleton.
  auto using le_bytes_range, address_bytes_range.
Qed.

Lemma length_frame payload status number crc :
  length (frame payload status number crc) = (length payload + kOverheadBytes)%nat.
Proof. unfold frame. rewrite !length_app, !length_le_bytes. done. Qed.

Lemma frame_range payload status number crc :
  Forall is_u8 payload → is_u8 status → Forall is_u8 (frame payload status number crc).
Proof.
  intros. unfold frame. rewrite !Forall_app, Forall_singleton.
  auto using le_bytes_range.
Qed.

Lemma writeUint32Le_app pre a b c d post v :
  writeUint32Le (pre ++ a :: b :: c :: d :: post) (length pre) v =
    pre ++ le_bytes 4 v ++ post.
Proof.
  unfold writeUint32Le. rewrite !u8_land_255.
  rewrite !insert_app_r_alt by lia.
  rewrite Nat.sub_diag, !(Nat.add_comm (length pre)), !Nat.add_sub.
  cbn [le_bytes]. by rewrite !Z.shiftr_shiftr by lia.
Qed.

Lemma readUint32Le_app pre post v :
  is_u32 v → readUint32Le (pre ++ le_bytes 4 v ++ post) (length pre) = v.
Proof.
  intros Hv. rewrite <- (le_value_bytes_id 4 v) at 2 by done.
  unfold readUint32Le, byte_at.
  pose proof (app_nth2_plus pre (le_bytes 4 v ++ post) 0) as Hnth.
  pose proof (Hnth 0%nat) as Hnth0. rewrite Nat.add_0_r in Hnth0.
  rewrite Hnth0, !Hnth. cbn [le_bytes le_value app nth].
  assert (H : ∀ b n, is_u8 b → 0 ≤ n ≤ 24 → u32 (Z.shiftl b n) = Z.shiftl b n).
  { intros b n Hb Hn. apply unsigned_wrap_id. unfold in_unsigned in *.
    rewrite Z.shiftl_mul_pow2 by lia.
    assert (2 ^ n ≤ 2 ^ 24) by (apply Z.pow_le_mono_r; lia).
    assert (0 < 2 ^ n) by (apply Z.pow_pos_nonneg; lia).
    change (2 ^ 24) with 16777216 in *. change (2 ^ 32) with (256 * 16777216).
    change (2 ^ 8) with 256 in *. nia. }
  rewrite !H by (lia || by apply unsigned_wrap_range).
  rewrite !Z.shiftl_lor, !Z.shiftl_shiftl, Z.shiftl_0_l, Z.lor_0_r, !Z.lor_assoc by lia.
  done.
Qed.

(** Every byte string long enough to be a telegram is a frame. *)
Lemma frame_surj raw :
  Forall is_u8 raw → (kOverheadBytes ≤ length raw)%nat →
  ∃ payload status number crc,
    raw = frame payload status number crc ∧ Forall is_u8 payload ∧ is_u8 status ∧
    is_u32 number ∧ is_u32 crc.
Proof.
  intros Hraw Hlen. unfold_sizes.
  set (n := (length raw - 9)%nat).
  rewrite <- (take_drop n raw) in Hraw |- *.
  apply Forall_app in Hraw as [Hp Hrest].
  assert (Hl : length (drop n raw) = 9%nat) by (rewrite length_drop; lia).
  destruct (drop n raw) as [|st tail] eqn:Hd; [done|].
  rewrite <- (take_drop 4 tail) in Hrest |- *.
  apply Forall_cons in Hrest as [Hst [Hn Hc]%Forall_app].
  simpl in Hl. injection Hl as Hl.
  assert (length (take 4 tail) = 4%nat) as Hn4 by (rewrite length_take; lia).
  assert (length (drop 4 tail) = 4%nat) as Hc4 by (rewrite length_drop; lia).
  exists (take n raw), st, (le_value (take 4 tail)), (le_value (drop 4 tail)).
  pose proof (le_bytes_value _ Hn) as En. rewrite Hn4 in En.
  pose proof (le_bytes_value _ Hc) as Ec. rewrite Hc4 in Ec.
  unfold frame. rewrite En, Ec.
  apply le_value_range in Hn, Hc. rewrite Hn4 in Hn. rewrite Hc4 in Hc. done.
Qed.

(** ** Encoding *)

Lemma next_number_range n : 0 < next_number n < 2 ^ 32.
Proof.
  unfold next_number. pose proof (unsigned_wrap_range 32 (n + 1) ltac:(lia)) as H.
  unfold in_unsigned in H. destruct (Z.eqb_spec (u32 (n + 1)) 0); solve_range.
Qed.

Lemma next_number_cases n :
  is_u32 n → next_number n = if n =? 2 ^ 32 - 1 then 1 else n + 1.
Proof.
  intros Hn. unfold next_number. destruct (Z.eqb_spec n (2 ^ 32 - 1)) as [->|Hne]; [done|].
  rewrite unsigned_wrap_id by solve_range.
  destruct (Z.eqb_spec (n + 1) 0); [solve_range|done].
Qed.

Lemma split_at_9 (l : list Z) :
  (9 ≤ length l)%nat →
  ∃ a b c d e f g h i, l = a :: b :: c :: d :: e :: f :: g :: h :: i :: drop 9 l.
Proof.
  intros H. do 9 (destruct l as [|? l]; [simpl in H; lia|]). by repeat eexists.
Qed.

(** The sender's transmission for its current number. *)
Definition sender_frame (s : SafetySender) (payload : list Z) (status : Z) : list Z :=
  frame payload status (consecutive_number_ s)
    (computeTelegramCrc (sender_address s) payload status (consecutive_number_ s)).

Lemma encode_ok s payload status out :
  (length payload ≤ kMaxPayloadBytes)%nat → length (bytes out) = kMaxTelegramBytes →
  encode s payload status out =
    (true, mkSender (sender_address s) (next_number (consecutive_number_ s)),
     mkTelegram (sender_frame s payload status ++ drop (length payload + 9) (bytes out))
       (length payload + kOverheadBytes)).
Proof.
  intros Hp Hb. unfold encode. rewrite (proj2 (Nat.ltb_ge _ _)) by lia.
  destruct (split_at_9 (drop (length payload) (bytes out)))
    as (a & b & c & d & e & f & g & h & i & E);
    [rewrite length_drop; unfold_sizes; lia|].
  unfold copy_into. rewrite E, drop_drop.
  set (rest := drop (length payload + 9) (bytes out)).
  rewrite insert_app_r_alt, Nat.sub_diag by lia. cbn [insert list_insert].
  unfold sender_frame, frame.
  set (crc := computeTelegramCrc _ _ _ _).
  do 2 f_equal.
  change (payload ++ status :: b :: c :: d :: e :: f :: g :: h :: i :: rest)
    with (payload ++ [status] ++ b :: c :: d :: e :: f :: g :: h :: i :: rest).
  rewrite app_assoc.
  replace (length payload + kStatusBytes)%nat with (length (payload ++ [status]))
    by (rewrite length_app; done).
  rewrite writeUint32Le_app.
  replace (length (payload ++ [status]) + kConsecutiveNumberBytes)%nat
    with (length ((payload ++ [status]) ++ le_bytes 4 (consecutive_number_ s)))
    by (rewrite (length_app _ (le_bytes _ _)), length_le_bytes; done).
  rewrite (app_assoc _ (le_bytes 4 (consecutive_number_ s))), writeUint32Le_app.
  by rewrite <- !app_assoc.
Qed.

Lemma encode_view s payload status out :
  (length payload ≤ kMaxPayloadBytes)%nat → length (bytes out) = kMaxTelegramBytes →
  view (encode s payload status out).2 = sender_frame s payload status.
Proof.
  intros. rewrite encode_ok by done. unfold view; cbn [snd size bytes].
  apply take_app_length'. unfold sender_frame. by rewrite length_frame.
Qed.

(** ** Receiving *)

Lemma receive_frame r payload status number crc now buffer :
  is_u32 number → is_u32 crc → (length payload ≤ kMaxPayloadBytes)%nat →
  (length payload ≤ length buffer)%nat → safe_state_ r = false →
  receive r (frame payload status number crc) now buffer =
    check_fields r payload status number crc now buffer.
Proof.
  intros Hn Hc Hp Hb Hs. unfold receive. rewrite Hs, length_frame.
  rewrite (proj2 (Nat.ltb_ge _ _)) by lia.
  rewrite (proj2 (Nat.ltb_ge _ _)) by (unfold kMaxTelegramBytes; lia).
  cbn [orb]. rewrite Nat.add_sub, (proj2 (Nat.ltb_ge _ _)) by lia.
  f_equal.
  - unfold frame. by rewrite take_app_length.
  - unfold frame, byte_at. by rewrite app_nth2, Nat.sub_diag by lia.
  - replace (length payload + kStatusBytes)%nat with (length (payload ++ [status]))
      by (rewrite length_app; done).
    unfold frame. rewrite (app_assoc payload). by apply readUint32Le_app.
  - unfold frame.
    replace (length payload + kStatusBytes + kConsecutiveNumberBytes)%nat
      with (length (payload ++ [status] ++ le_bytes 4 number))
      by (rewrite !length_app, length_le_bytes; unfold_sizes; simpl; lia).
    rewrite <- (app_nil_r (le_bytes 4 crc)).
    rewrite !(app_assoc _ _ (le_bytes 4 crc ++ [])). by apply readUint32Le_app.
Qed.
