(* ===== verification/BlackChannelFaults.v ===== *)
(** * The fault model of the black channel

    Theorems about [BlackChannel.v]: which telegrams the receiver accepts, that
    every other one latches the safe state and delivers nothing, that a sender
    and a receiver of one relationship understand each other across the
    wrap-around of the consecutive number, and which transmission faults
    (bit errors, misaddressing, repetition, loss, reordering, silence) are
    caught. *)

From Stdlib Require Import ZArith Lia.
From stdpp Require Import base numbers list.
From S2P Require Import Prelude Crc32 CrcDistance BlackChannel.

(** ** Acceptance *)

(** The telegram of a relationship: a frame that carries the checksum of its
    fields under the address. *)
Definition genuine (a : SafetyAddress) (payload : list Z) (status number : Z) : list Z :=
  frame payload status number (computeTelegramCrc a payload status number).

(** The conditions under which a genuine telegram is current. *)
Definition timely (r : SafetyReceiver) (now : Z) : Prop :=
  synchronised_ r = true → elapsed now (last_valid_ns_ r) ≤ watchdog_ns_ r.
Definition fresh (r : SafetyReceiver) (number : Z) : Prop :=
  synchronised_ r = true → number = next_number (last_consecutive_number_ r).

Lemma check_fields_accept r payload status number now buffer :
  timely r now → fresh r number →
  check_fields r payload status number
    (computeTelegramCrc (receiver_address r) payload status number) now buffer =
  accept payload status number now r buffer.
Proof.
  intros Ht Hf. unfold check_fields. rewrite Z.eqb_refl. cbn [negb].
  destruct (synchronised_ r) eqn:Hs; [|done]. specialize (Ht Hs). specialize (Hf Hs).
  rewrite (proj2 (Z.ltb_ge _ _)) by lia. by rewrite Hf, Z.eqb_refl.
Qed.

Lemma check_fields_valid r payload status number crc now buffer :
  result (check_fields r payload status number crc now buffer) = kValid →
  crc = computeTelegramCrc (receiver_address r) payload status number ∧
  timely r now ∧ fresh r number.
Proof.
  unfold check_fields, timely, fresh.
  destruct (Z.eqb_spec crc (computeTelegramCrc (receiver_address r) payload status number));
    [|done]. cbn [negb].
  destruct (synchronised_ r); [|done]. cbn [andb negb].
  destruct (Z.ltb_spec (watchdog_ns_ r) (elapsed now (last_valid_ns_ r))); [done|].
  destruct (Z.eqb_spec number (next_number (last_consecutive_number_ r))); [done|].
  cbn [negb]. destruct (number =? _); [done|]. by destruct (_ <? 0).
Qed.

Lemma check_fields_not_valid r payload status number crc now buffer :
  result (check_fields r payload status number crc now buffer) ≠ kValid →
  ∃ st f d, st ≠ kInSafeState ∧ f ≠ kNone ∧
    check_fields r payload status number crc now buffer = rejected st f d r buffer.
Proof.
  unfold check_fields. intros H.
  repeat match type of H with context [if ?b then _ else _] => destruct b end;
    try done; do 3 eexists; (split_and!; cycle 2; [reflexivity|done|done]).
Qed.

(** A receiver outside the safe state either parses a telegram that fits or
    rejects it as malformed. *)
Lemma receive_cases r raw now buffer :
  Forall is_u8 raw → safe_state_ r = false →
  receive r raw now buffer =
    rejected kMalformed kCorruption (count_malformed (diagnostics_ r)) r buffer ∨
  ∃ payload status number crc,
    raw = frame payload status number crc ∧ Forall is_u8 payload ∧ is_u8 status ∧
    is_u32 number ∧ is_u32 crc ∧
    (length payload ≤ kMaxPayloadBytes)%nat ∧ (length payload ≤ length buffer)%nat ∧
    receive r raw now buffer = check_fields r payload status number crc now buffer.
Proof.
  intros Hraw Hs.
  destruct (decide (kOverheadBytes ≤ length raw ≤ kMaxTelegramBytes ∧
                    length raw - kOverheadBytes ≤ length buffer)%nat) as [[Hl Hb]|Hno].
  - right. destruct (frame_surj raw) as (p & st & n & c & -> & Hp & Hst & Hn & Hc);
      [done|lia|]. rewrite length_frame in Hl, Hb.
    exists p, st, n, c. unfold_sizes. split_and!; try done; try lia.
    apply receive_frame; unfold_sizes; done || lia.
  - left. unfold receive. rewrite Hs.
    destruct (Nat.ltb_spec (length raw) kOverheadBytes); [done|].
    destruct (Nat.ltb_spec kMaxTelegramBytes (length raw)); [done|]. cbn [orb].
    destruct (Nat.ltb_spec (length buffer) (length raw - kOverheadBytes)); [done|].
    exfalso; apply Hno; lia.
Qed.

(** C21: [receive] returns kValid exactly for a receiver outside the safe state
    and a genuine telegram of its own relationship that fits the buffer and,
    once synchronised, arrives within the watchdog window and carries the
    successor of the last accepted number. *)
Theorem receive_valid_iff r raw now buffer :
  Forall is_u8 raw →
  result (receive r raw now buffer) = kValid ↔
  safe_state_ r = false ∧
  ∃ payload status number,
    raw = genuine (receiver_address r) payload status number ∧ is_u32 number ∧
    (length payload ≤ kMaxPayloadBytes)%nat ∧ (length payload ≤ length buffer)%nat ∧
    timely r now ∧ fresh r number.
Proof.
  intros Hraw. split.
  - intros Hv. destruct (safe_state_ r) eqn:Hs.
    { unfold receive in Hv. by rewrite Hs in Hv. }
    split; [done|].
    destruct (receive_cases r raw now buffer Hraw Hs)
      as [E|(p & st & n & c & -> & Hp & Hst & Hn & Hc & Hl & Hb & E)]; rewrite E in Hv; [done|].
    apply check_fields_valid in Hv as (-> & Ht & Hf). by exists p, st, n.
  - intros (Hs & p & st & n & -> & Hn & Hl & Hb & Ht & Hf). unfold genuine in *.
    assert (Forall is_u8 p ∧ is_u8 st) as [Hp Hst].
    { unfold frame in Hraw. rewrite !Forall_app, Forall_singleton in Hraw. tauto. }
    rewrite receive_frame by auto using computeTelegramCrc_range.
    by rewrite check_fields_accept.
Qed.

(** C22: whatever else arrives, nothing is delivered: a call that does not return
    kValid leaves the buffer alone, reports size and status zero, and leaves the
    receiver in the latched safe state. *)
Theorem receive_rejects_fail_safe r raw now buffer :
  Forall is_u8 raw → result (receive r raw now buffer) ≠ kValid →
  payload_out (receive r raw now buffer) = buffer ∧
  payload_size (receive r raw now buffer) = 0%nat ∧
  status_out (receive r raw now buffer) = 0 ∧
  safe_state_ (receiver (receive r raw now buffer)) = true.
Proof.
  intros Hraw Hv. destruct (safe_state_ r) eqn:Hs.
  { unfold receive. rewrite Hs. done. }
  destruct (receive_cases r raw now buffer Hraw Hs)
    as [->|(p & st & n & c & -> & _ & _ & _ & _ & _ & _ & E)]; [done|].
  rewrite E in *. apply check_fields_not_valid in Hv as (? & ? & ? & _ & _ & ->). done.
Qed.

(** ** Sequences of calls *)

Inductive Op :=
  | OpReceive (raw : list Z) (now : Z)
  | OpPoll (now : Z)
  | OpAcknowledge (now : Z).

(** What a consumer gets out of one accepted telegram. *)
Record Delivery := mkDelivery {
  delivered_number : Z;
  delivered_time : Z;
  delivered_payload : list Z;
  delivered_status : Z;
}.

Definition delivery_of (now : Z) (x : Received) : list Delivery :=
  match result x with
  | kValid =>
      [mkDelivery (last_consecutive_number_ (receiver x)) now
         (take (payload_size x) (payload_out x)) (status_out x)]
  | _ => []
  end.

(** A consumer that makes the calls of [ops] in order, into one buffer. *)
Fixpoint run (r : SafetyReceiver) (buffer : list Z) (ops : list Op) :
    SafetyReceiver * list Delivery :=
  match ops with
  | [] => (r, [])
  | OpReceive raw now :: ops =>
      let x := receive r raw now buffer in
      let '(r', ds) := run (receiver x) (payload_out x) ops in
      (r', delivery_of now x ++ ds)
  | OpPoll now :: ops => run (poll r now).2 buffer ops
  | OpAcknowledge now :: ops => run (acknowledgeAndReset now r) buffer ops
  end.

Definition not_acknowledge (op : Op) : Prop :=
  match op with OpAcknowledge _ => False | _ => True end.
Definition op_bytes (op : Op) : Prop :=
  match op with OpReceive raw _ => Forall is_u8 raw | _ => True end.

#[export] Instance not_acknowledge_dec op : Decision (not_acknowledge op).
Proof. destruct op; apply _. Defined.
#[export] Instance op_bytes_dec op : Decision (op_bytes op).
Proof. destruct op; apply _. Defined.

(** the latch holds.  From the safe state, no sequence of received telegrams
    and polls delivers anything or changes the receiver, until it is
    acknowledged. *)
Theorem safe_state_latched r buffer ops :
  safe_state_ r = true → Forall not_acknowledge ops → run r buffer ops = (r, []).
Proof.
  intros Hs Hops; induction Hops as [|[raw now|now|now] ops Hop Hops IH]; [done| | |done];
    cbn [run].
  - unfold receive. rewrite Hs. cbn [receiver payload_out]. by rewrite IH.
  - unfold poll. by rewrite Hs.
Qed.

(** The receiver that took [x]'s call, with what it promises about the next
    telegram. *)
Lemma accept_frame_delivery payload status number now r buffer :
  (length payload ≤ length buffer)%nat →
  delivery_of now (accept payload status number now r buffer) =
    [mkDelivery number now payload status].
Proof. intros. unfold delivery_of, accept; cbn. by rewrite take_copy_into. Qed.

(** Numbers follow each other and no delivery is later than the watchdog after
    the previous one; [prev] is the last accepted number and its time. *)
Fixpoint consecutive (watchdog : Z) (prev : option (Z * Z)) (ds : list Delivery) : Prop :=
  match ds with
  | [] => True
  | d :: ds =>
      match prev with
      | None => True
      | Some (n, t) => delivered_number d = next_number n ∧ elapsed (delivered_time d) t ≤ watchdog
      end ∧
      consecutive watchdog (Some (delivered_number d, delivered_time d)) ds
  end.

Definition tracked (r : SafetyReceiver) : option (Z * Z) :=
  if synchronised_ r then Some (last_consecutive_number_ r, last_valid_ns_ r) else None.

(** The two outcomes of a call to [receive] on bytes. *)
Lemma receive_outcome r raw now buffer :
  Forall is_u8 raw →
  (safe_state_ (receiver (receive r raw now buffer)) = true ∧
   payload_out (receive r raw now buffer) = buffer ∧
   delivery_of now (receive r raw now buffer) = [] ∧
   watchdog_ns_ (receiver (receive r raw now buffer)) = watchdog_ns_ r ∧
   receiver_address (receiver (receive r raw now buffer)) = receiver_address r) ∨
  (∃ payload status number,
     raw = genuine (receiver_address r) payload status number ∧
     (length payload ≤ length buffer)%nat ∧ timely r now ∧ fresh r number ∧
     safe_state_ r = false ∧
     receive r raw now buffer = accept payload status number now r buffer).
Proof.
  intros Hraw. destruct (safe_state_ r) eqn:Hs.
  { left. unfold receive. by rewrite Hs. }
  destruct (receive_cases r raw now buffer Hraw Hs)
    as [->|(p & st & n & c & -> & Hp & Hst & Hn & Hc & Hl & Hb & E)]; [by left|].
  rewrite E. destruct (decide (result (check_fields r p st n c now buffer) = kValid)) as [Hv|Hv].
  - right. apply check_fields_valid in Hv as (-> & Ht & Hf).
    exists p, st, n. by rewrite check_fields_accept.
  - left. destruct (check_fields_not_valid _ _ _ _ _ _ _ Hv) as (st' & f & d & _ & _ & E').
    rewrite E' in Hv |- *. unfold delivery_of. cbn in *. by destruct st'.
Qed.

(** C3: what a consumer sees between two acknowledgements is one unbroken
    stream.  Whatever is received and polled, the delivered telegrams carry
    consecutive numbers (zero skipped), each at most the watchdog time after the
    one before, and every one of them is the payload and status of a genuine
    telegram of the relationship that was received at that time. *)
Theorem deliveries_are_consecutive r buffer ops :
  Forall op_bytes ops → Forall not_acknowledge ops →
  consecutive (watchdog_ns_ r) (tracked r) (run r buffer ops).2 ∧
  Forall (λ d,
    OpReceive (genuine (receiver_address r) (delivered_payload d) (delivered_status d)
                 (delivered_number d)) (delivered_time d) ∈ ops) (run r buffer ops).2.
Proof.
  revert r buffer; induction ops as [|op ops IH]; intros r buffer Hb Ha; [done|].
  apply Forall_cons in Hb as [Hb Hbs]. apply Forall_cons in Ha as [Ha Has].
  destruct op as [raw now|now|now]; cbn [run]; [| |done].
  - destruct (receive_outcome r raw now buffer Hb)
      as [(Hsafe & _ & Hd & _ & _)|(p & st & n & -> & Hl & Ht & Hf & Hs & E)].
    + rewrite safe_state_latched, Hd by done. done.
    + rewrite E. cbn [receiver payload_out].
      destruct (IH (receiver (accept p st n now r buffer)) (copy_into p buffer) Hbs Has)
        as [IH1 IH2].
      destruct (run _ _ ops) as [r' ds]. cbn [snd] in *.
      rewrite accept_frame_delivery by done. cbn [app consecutive].
      split_and!.
      * unfold tracked, timely, fresh in *. destruct (synchronised_ r); [|done].
        by split; [apply Hf|apply Ht].
      * by apply IH1.
      * constructor; [by left|]. eapply Forall_impl; [exact IH2|].
        intros d Hin. by right.
  - assert (Hp : (poll r now).2 = r ∨ safe_state_ (poll r now).2 = true).
    { unfold poll. destruct (safe_state_ r), (synchronised_ r); try by left.
      cbn [negb]. destruct (_ <? _); [by right|by left]. }
    destruct Hp as [->|Hp]; [|by rewrite safe_state_latched].
    destruct (IH r buffer Hbs Has) as [IH1 IH2]. split; [done|].
    eapply Forall_impl; [exact IH2|]. intros d Hin. by right.
Qed.

(** ** A sender and a receiver of one relationship *)

Record Message := mkMessage { msg_payload : list Z; msg_status : Z; msg_time : Z }.

(** Encode into one telegram buffer, hand its view to the receiver, repeat. *)
Fixpoint transfer (s : SafetySender) (t : Telegram) (r : SafetyReceiver) (buffer : list Z)
    (ms : list Message) : list Received :=
  match ms with
  | [] => []
  | m :: ms =>
      let '(_, s', t') := encode s (msg_payload m) (msg_status m) t in
      let x := receive r (view t') (msg_time m) buffer in
      x :: transfer s' t' (receiver x) (payload_out x) ms
  end.

Definition message_ok (m : Message) : Prop :=
  Forall is_u8 (msg_payload m) ∧ (length (msg_payload m) ≤ kMaxPayloadBytes)%nat ∧
  is_u8 (msg_status m).

#[export] Instance message_ok_dec m : Decision (message_ok m).
Proof. unfold message_ok; apply _. Defined.

(** Every message is at most the watchdog time after the previous one. *)
Fixpoint on_time (watchdog : Z) (prev : option Z) (ms : list Message) : Prop :=
  match ms with
  | [] => True
  | m :: ms =>
      match prev with None => True | Some t => elapsed (msg_time m) t ≤ watchdog end ∧
      on_time watchdog (Some (msg_time m)) ms
  end.

Definition got_message (x : Received) (m : Message) : Prop :=
  result x = kValid ∧ take (payload_size x) (payload_out x) = msg_payload m ∧
  status_out x = msg_status m.

(** C20: round trip.  A receiver in step with the sender accepts every telegram of
    an arbitrarily long stream, including the ones around the wrap of the
    consecutive number, and delivers exactly the payloads and status bytes that
    were encoded. *)
Theorem transfer_delivers s t r buffer ms :
  receiver_address r = sender_address s → safe_state_ r = false →
  is_u32 (consecutive_number_ s) → fresh r (consecutive_number_ s) →
  length (bytes t) = kMaxTelegramBytes → length buffer = kMaxPayloadBytes →
  Forall message_ok ms →
  on_time (watchdog_ns_ r) (if synchronised_ r then Some (last_valid_ns_ r) else None) ms →
  Forall2 got_message (transfer s t r buffer ms) ms.
Proof.
  revert s t r buffer; induction ms as [|m ms IH];
    intros s t r buffer Ha Hs Hn Hf Ht Hb Hms Hot; [constructor|].
  apply Forall_cons in Hms as [(Hp & Hl & Hst) Hms]. cbn [on_time] in Hot.
  destruct Hot as [Hnow Hot]. cbn [transfer].
  rewrite encode_ok by done. set (s' := mkSender _ _).
  set (t' := mkTelegram _ _).
  assert (Hview : view t' = sender_frame s (msg_payload m) (msg_status m)).
  { pose proof (encode_view s (msg_payload m) (msg_status m) t Hl Ht) as Hv.
    by rewrite encode_ok in Hv. }
  rewrite Hview. unfold sender_frame.
  rewrite receive_frame by (auto using computeTelegramCrc_range; rewrite ?Hb; done).
  rewrite <- Ha, check_fields_accept; [|unfold timely; destruct (synchronised_ r); done|done].
  constructor.
  - unfold got_message; cbn. by rewrite take_copy_into.
  - apply IH; try done.
    + pose proof (next_number_range (consecutive_number_ s)). cbn. solve_range.
    + cbn. rewrite length_app, length_drop. unfold sender_frame. rewrite length_frame, Ht.
      unfold_sizes. lia.
    + cbn. rewrite length_copy_into; lia.
Qed.

(** ** Bit errors *)

(** The bytes the checksum protects before the address is mixed in. *)
Definition covered (payload : list Z) (status number : Z) : list Z :=
  payload ++ [status] ++ le_bytes 4 number.

Lemma covered_range payload status number :
  Forall is_u8 payload → is_u8 status → Forall is_u8 (covered payload status number).
Proof.
  intros. unfold covered. rewrite !Forall_app, Forall_singleton.
  auto using le_bytes_range.
Qed.

Lemma length_covered payload status number :
  length (covered payload status number) = (length payload + 5)%nat.
Proof. unfold covered. by rewrite !length_app, length_le_bytes. Qed.

Lemma frame_covered payload status number crc :
  frame payload status number crc = covered payload status number ++ le_bytes 4 crc.
Proof. unfold frame, covered. by rewrite <- !app_assoc. Qed.

Lemma computeTelegramCrc_covered a payload status number :
  computeTelegramCrc a payload status number =
    compute (covered payload status number ++ address_bytes a).
Proof. rewrite computeTelegramCrc_compute. unfold covered. by rewrite <- !app_assoc. Qed.

(** Checksums under one address differ by the syndrome of the difference of the
    covered bytes, followed by the 64 error-free bits of the address. *)
Lemma telegram_crc_lxor a p st n p' st' n' :
  Forall is_u8 p → is_u8 st → Forall is_u8 p' → is_u8 st' → length p = length p' →
  Z.lxor (computeTelegramCrc a p st n) (computeTelegramCrc a p' st' n') =
    syndrome (xor_bits (data_bits (covered p st n)) (data_bits (covered p' st' n'))
              ++ replicate 64 false).
Proof.
  intros Hp Hst Hp' Hst' Hl. rewrite !computeTelegramCrc_covered, compute_lxor.
  - rewrite !data_bits_app, xor_bits_app, xor_bits_diag, length_data_bits, length_address_bytes;
      [done|]. by rewrite !length_data_bits, !length_covered, Hl.
  - apply Forall_app; auto using covered_range, address_bytes_range.
  - apply Forall_app; auto using covered_range, address_bytes_range.
  - by rewrite !length_app, !length_covered, Hl.
Qed.

Lemma rejects_wrong_crc r p st n c now buffer :
  is_u32 n → is_u32 c → (length p ≤ kMaxPayloadBytes)%nat → (length p ≤ length buffer)%nat →
  safe_state_ r = false → c ≠ computeTelegramCrc (receiver_address r) p st n →
  receive r (frame p st n c) now buffer =
    rejected kCrcMismatch kCorruption (count_crc (diagnostics_ r)) r buffer.
Proof.
  intros. rewrite receive_frame by done. unfold check_fields.
  by rewrite (proj2 (Z.eqb_neq _ _)).
Qed.

Lemma hamming_frame p st n c p' st' n' c' :
  length p = length p' →
  hamming (frame p st n c) (frame p' st' n' c') =
    weight (xor_bits (data_bits (covered p st n)) (data_bits (covered p' st' n'))
            ++ bits_le 32 (Z.lxor c c')).
Proof.
  intros Hl. unfold hamming. rewrite !frame_covered, !data_bits_app, !data_bits_le_bytes.
  rewrite xor_bits_app, xor_bits_le; [done|].
  by rewrite !length_data_bits, !length_covered, Hl.
Qed.

(** C2: five bit errors.  A telegram that differs from the one the sender encoded
    in at least one and at most five bits, wherever they lie (payload, status,
    consecutive number or checksum), is rejected as a CRC mismatch and latches
    the safe state. *)
Theorem five_bit_errors_rejected s r payload status raw now buffer :
  receiver_address r = sender_address s → safe_state_ r = false →
  Forall is_u8 payload → is_u8 status → is_u32 (consecutive_number_ s) →
  (length payload ≤ kMaxPayloadBytes)%nat → (length payload ≤ length buffer)%nat →
  Forall is_u8 raw → length raw = length (sender_frame s payload status) →
  (1 ≤ hamming (sender_frame s payload status) raw ≤ 5)%nat →
  receive r raw now buffer =
    rejected kCrcMismatch kCorruption (count_crc (diagnostics_ r)) r buffer.
Proof.
  intros Ha Hs Hp Hst Hn Hl Hb Hraw Hlen. unfold sender_frame in *. rewrite length_frame in Hlen.
  destruct (frame_surj raw Hraw) as (p' & st' & n' & c' & -> & Hp' & Hst' & Hn' & Hc');
    [lia|]. rewrite length_frame in Hlen.
  assert (Hl' : length payload = length p') by lia.
  rewrite hamming_frame, weight_app by done. intros Hw.
  apply rejects_wrong_crc; try done; try lia. intros ->. rewrite Ha in *.
  apply (syndrome_weight_le_5
    ((xor_bits (data_bits (covered payload status (consecutive_number_ s)))
        (data_bits (covered p' st' n')) ++ replicate 64 false)
     ++ bits_le 32 (Z.lxor
          (computeTelegramCrc (sender_address s) payload status (consecutive_number_ s))
          (computeTelegramCrc (sender_address s) p' st' n')))).
  - rewrite !length_app, length_xor_bits, length_bits_le, length_replicate;
      rewrite !length_data_bits, !length_covered; unfold kMaxBits; unfold_sizes; lia.
  - rewrite !weight_app, weight_zeros. lia.
  - apply syndrome_cancel; [|by rewrite telegram_crc_lxor].
    by apply in_unsigned_lxor; [done|apply computeTelegramCrc_range..].
Qed.

(** burst errors.  An error confined to a window of at most 32 bits of the
    payload, status and consecutive number is rejected, however many bits of the
    window it flips. *)
Theorem burst_errors_rejected s r payload status payload' status' number' i w j now buffer :
  receiver_address r = sender_address s → safe_state_ r = false →
  Forall is_u8 payload → is_u8 status → Forall is_u8 payload' → is_u8 status' →
  is_u32 number' → length payload = length payload' →
  (length payload ≤ kMaxPayloadBytes)%nat → (length payload ≤ length buffer)%nat →
  xor_bits (data_bits (covered payload status (consecutive_number_ s)))
           (data_bits (covered payload' status' number')) =
    replicate i false ++ w ++ replicate j false →
  (length w ≤ 32)%nat → weight w ≠ 0%nat →
  receive r
    (frame payload' status' number'
       (computeTelegramCrc (sender_address s) payload status (consecutive_number_ s)))
    now buffer =
  rejected kCrcMismatch kCorruption (count_crc (diagnostics_ r)) r buffer.
Proof.
  intros Ha Hs Hp Hst Hp' Hst' Hn' Hl Hmax Hb Hx Hw32 Hw0.
  apply rejects_wrong_crc; auto using computeTelegramCrc_range; try lia.
  intros E. apply Z.lxor_eq_0_iff in E. rewrite Ha, telegram_crc_lxor, Hx in E by done.
  rewrite <- !app_assoc, <- replicate_add in E. by apply syndrome_window in E.
Qed.

(** ** Misaddressing *)

Definition address_ok (a : SafetyAddress) : Prop :=
  is_u16 (source a) ∧ is_u16 (destination a) ∧ is_u32 (parameter_signature a).

#[export] Instance address_ok_dec a : Decision (address_ok a).
Proof. unfold address_ok; apply _. Defined.

(** Checksums of one telegram under two addresses differ by the syndrome of the
    difference of the addresses alone. *)
Lemma address_crc_lxor a a' p st n :
  Forall is_u8 p → is_u8 st →
  Z.lxor (computeTelegramCrc a p st n) (computeTelegramCrc a' p st n) =
    syndrome (bits_le 16 (Z.lxor (source a) (source a'))
              ++ bits_le 16 (Z.lxor (destination a) (destination a'))
              ++ bits_le 32 (Z.lxor (parameter_signature a) (parameter_signature a'))).
Proof.
  intros Hp Hst. rewrite !computeTelegramCrc_covered, compute_lxor.
  - rewrite !data_bits_app, xor_bits_app, xor_bits_diag, syndrome_app by done.
    replace (syndrome (replicate _ false)) with 0.
    + rewrite iter_table_step_0, Z.lxor_0_l. unfold address_bytes.
      rewrite !data_bits_app, !data_bits_le_bytes.
      rewrite !xor_bits_app, !xor_bits_le by by rewrite !length_bits_le. done.
    + unfold syndrome. rewrite foldl_lfsr_zeros. symmetry. apply iter_table_step_0.
  - apply Forall_app; auto using covered_range, address_bytes_range.
  - apply Forall_app; auto using covered_range, address_bytes_range.
  - by rewrite !length_app, !length_address_bytes.
Qed.

Lemma weight_bits_le_eq_0 n x :
  in_unsigned (Z.of_nat n) x → weight (bits_le n x) = 0%nat → x = 0.
Proof.
  revert x; induction n as [|n IH]; intros x Hx Hw.
  - unfold in_unsigned in Hx. simpl in Hx. lia.
  - cbn [bits_le] in Hw. unfold weight in Hw. rewrite filter_cons in Hw.
    destruct (Z.odd x) eqn:Ho; [simpl in Hw; lia|]. simpl in Hw.
    assert (E : Z.shiftr x 1 = 0).
    { apply IH; [|done]. unfold in_unsigned in *. rewrite Z.shiftr_div_pow2 by lia.
      rewrite Nat2Z.inj_succ, Z.pow_succ_r in Hx by lia. change (2 ^ 1) with 2.
      split; [apply Z.div_pos|apply Z.div_lt_upper_bound]; lia. }
    rewrite (odd_shiftr_split x), Ho, E. done.
Qed.

Lemma bits_le_0 n : bits_le n 0 = replicate n false.
Proof. induction n as [|n IH]; [done|]. cbn [replicate]. by rewrite <- IH. Qed.

(** misaddressed telegrams.  If sender and receiver disagree about the
    source or the destination, or about the commissioned parameters, the
    telegram is rejected as a CRC mismatch. *)
Theorem misaddressed_rejected s r payload status now buffer :
  address_ok (sender_address s) → address_ok (receiver_address r) →
  receiver_address r ≠ sender_address s →
  parameter_signature (receiver_address r) = parameter_signature (sender_address s) ∨
  (source (receiver_address r) = source (sender_address s) ∧
   destination (receiver_address r) = destination (sender_address s)) →
  safe_state_ r = false → Forall is_u8 payload → is_u8 status →
  is_u32 (consecutive_number_ s) →
  (length payload ≤ kMaxPayloadBytes)%nat → (length payload ≤ length buffer)%nat →
  receive r (sender_frame s payload status) now buffer =
    rejected kCrcMismatch kCorruption (count_crc (diagnostics_ r)) r buffer.
Proof.
  intros (Hs1 & Hd1 & Hp1) (Hs2 & Hd2 & Hp2) Hne Hsame Hsafe Hp Hst Hn Hl Hb.
  apply rejects_wrong_crc; [done|by apply computeTelegramCrc_range|done|done|done|].
  intros E. apply Z.lxor_eq_0_iff in E. rewrite address_crc_lxor in E by done. revert E.
  destruct (sender_address s) as [s1 d1 p1], (receiver_address r) as [s2 d2 p2];
    cbn [source destination parameter_signature] in *.
  destruct Hsame as [->|[-> ->]].
  - rewrite (Z.lxor_nilpotent p1), bits_le_0, app_assoc.
    apply (syndrome_window 0 (bits_le 16 _ ++ bits_le 16 _)).
    + by rewrite length_app, !length_bits_le.
    + rewrite weight_app. intros Hw. apply Hne.
      rewrite <- (Z.lxor_eq s1 s2), <- (Z.lxor_eq d1 d2); [done|..];
        apply (weight_bits_le_eq_0 16); try lia; by apply in_unsigned_lxor.
  - rewrite !Z.lxor_nilpotent, bits_le_0, <- (app_nil_r (bits_le 32 _)).
    rewrite app_assoc, <- replicate_add.
    apply (syndrome_window 32 (bits_le 32 _) 0).
    + by rewrite length_bits_le.
    + intros Hw. apply Hne. rewrite <- (Z.lxor_eq p1 p2); [done|].
      apply (weight_bits_le_eq_0 32); [by apply in_unsigned_lxor|done].
Qed.

(** The signature difference that cancels a flipped lowest destination bit. *)
Definition alias_signature : Z :=
  syndrome (bits_le 16 0 ++ bits_le 16 1).

Definition alias_address (a : SafetyAddress) : SafetyAddress :=
  mkAddress (source a) (Z.lxor (destination a) 1)
    (Z.lxor (parameter_signature a) alias_signature).

(** the address is not an identity.  Every address has another one with a
    different destination whose telegrams carry the same checksum, whatever
    their contents: between those two relationships a misdelivered telegram is
    accepted. *)
Theorem address_alias a :
  address_ok a →
  address_ok (alias_address a) ∧ destination (alias_address a) ≠ destination a ∧
  ∀ payload status number, Forall is_u8 payload → is_u8 status →
    computeTelegramCrc (alias_address a) payload status number =
    computeTelegramCrc a payload status number.
Proof.
  intros (Hs & Hd & Hp). split_and!.
  - split_and!; unfold alias_address; cbn [source destination parameter_signature];
      [done|by apply in_unsigned_lxor|].
    apply in_unsigned_lxor; [done|done|apply syndrome_range].
  - unfold alias_address; cbn [destination]. intros E. apply Z.lxor_eq_0_iff in E.
    rewrite (Z.lxor_comm _ 1), Z.lxor_assoc, Z.lxor_nilpotent in E. done.
  - intros payload status number Hpl Hst. apply Z.lxor_eq_0_iff.
    rewrite address_crc_lxor by done. cbn [alias_address source destination parameter_signature].
    rewrite Z.lxor_nilpotent.
    rewrite (Z.lxor_comm (destination a)), Z.lxor_assoc, Z.lxor_nilpotent, Z.lxor_0_r.
    rewrite (Z.lxor_comm (parameter_signature a)), Z.lxor_assoc, Z.lxor_nilpotent, Z.lxor_0_r.
    rewrite app_assoc. apply syndrome_cancel; [apply syndrome_range|done].
Qed.

(** ** Sequence faults *)

(** The producer's numbers stay in 1 .. 2^32 - 1 and go round. *)
Lemma iter_next_number k e :
  0 < e < 2 ^ 32 →
  Nat.iter k next_number e = 1 + (e - 1 + Z.of_nat k) mod (2 ^ 32 - 1).
Proof.
  intros He. induction k as [|k IH].
  - simpl. rewrite Z.mod_small by lia. lia.
  - rewrite Nat.iter_succ, IH.
    pose proof (Z.mod_pos_bound (e - 1 + Z.of_nat k) (2 ^ 32 - 1) ltac:(lia)) as Hm.
    rewrite next_number_cases by solve_range.
    replace (e - 1 + Z.of_nat (S k)) with (e - 1 + Z.of_nat k + 1) by lia.
    set (m := e - 1 + Z.of_nat k) in *.
    rewrite <- (Z.add_mod_idemp_l m 1) by lia.
    set (q := m mod (2 ^ 32 - 1)) in *. clearbody q.
    destruct (Z.eqb_spec (1 + q) (2 ^ 32 - 1)) as [E|E].
    + replace (q + 1) with (2 ^ 32 - 1) by lia. by rewrite Z.mod_same by lia.
    + rewrite Z.mod_small by lia. lia.
Qed.

(** The signed distance the receiver computes, as the modular one. *)
Lemma signed_delta x :
  0 ≤ u32 x < 2 ^ 31 → i32 (u32 x) = u32 x.
Proof. intros. apply signed_wrap_id; solve_range. Qed.

Lemma signed_delta_neg x : 2 ^ 31 ≤ u32 x → i32 (u32 x) < 0.
Proof.
  intros H. pose proof (unsigned_wrap_range 32 x ltac:(lia)) as Hr.
  unfold in_unsigned in Hr. set (y := u32 x) in *. clearbody y.
  unfold signed_wrap. change (32 - 1) with 31.
  replace (y + 2 ^ 31) with ((y - 2 ^ 31) + 1 * 2 ^ 32) by lia.
  rewrite Z.mod_add by lia. rewrite Z.mod_small by lia. lia.
Qed.

(** sequence faults.  A genuine, timely telegram at a synchronised receiver
    is accepted if it carries the expected number, reported as a repetition if
    it carries the last one again, as out of order if it lies in the half of the
    number space behind the expected one, and as a gap, with the distance added
    to the loss counter, if it lies ahead. *)
Theorem sequence_classified r payload status number now buffer :
  safe_state_ r = false → synchronised_ r = true → timely r now →
  Forall is_u8 payload → is_u8 status → is_u32 number →
  (length payload ≤ kMaxPayloadBytes)%nat → (length payload ≤ length buffer)%nat →
  let last := last_consecutive_number_ r in
  let ahead := u32 (number - next_number last) in
  let d := diagnostics_ r in
  receive r (genuine (receiver_address r) payload status number) now buffer =
    if decide (number = next_number last) then accept payload status number now r buffer
    else if decide (number = last) then
      rejected kRepetition kUnintendedRepetition (count_repetition d) r buffer
    else if decide (ahead < 2 ^ 31) then
      rejected kSequenceGap kLoss (count_gap ahead d) r buffer
    else rejected kOutOfOrder kIncorrectSequence (count_out_of_order d) r buffer.
Proof.
  intros Hs Hsync Ht Hp Hst Hn Hl Hb last ahead d. unfold genuine.
  rewrite receive_frame by (done || by apply computeTelegramCrc_range).
  unfold check_fields. rewrite Z.eqb_refl, Hsync. cbn [negb andb].
  rewrite (proj2 (Z.ltb_ge _ _)) by by apply Ht. fold last d.
  destruct (Z.eqb_spec number (next_number last)); [by rewrite decide_True|].
  rewrite (decide_False (P := number = next_number last)) by done. cbn [negb].
  destruct (Z.eqb_spec number last); [by rewrite decide_True|].
  rewrite (decide_False (P := number = last)) by done. fold ahead.
  pose proof (unsigned_wrap_range 32 (number - next_number last) ltac:(lia)) as [Hr _].
  fold ahead in Hr. case_decide.
  - unfold ahead in *. rewrite signed_delta by lia. by rewrite (proj2 (Z.ltb_ge _ _)).
  - pose proof (signed_delta_neg (number - next_number last) ltac:(unfold ahead in *; lia)).
    by rewrite (proj2 (Z.ltb_lt _ _)).
Qed.

(** lost telegrams.  If [k] consecutive telegrams are lost, the next one is
    rejected as a gap.  The loss counter grows by [k], except when the gap spans
    the wrap of the consecutive number: the distance then counts the number zero
    that is never sent, and the counter grows by [k + 1]. *)
Theorem lost_telegrams_detected r payload status k now buffer :
  safe_state_ r = false → synchronised_ r = true → timely r now →
  Forall is_u8 payload → is_u8 status →
  (length payload ≤ kMaxPayloadBytes)%nat → (length payload ≤ length buffer)%nat →
  is_u32 (last_consecutive_number_ r) → 0 < Z.of_nat k < 2 ^ 31 - 1 →
  let expected := next_number (last_consecutive_number_ r) in
  let lost := if expected + Z.of_nat k <? 2 ^ 32 then Z.of_nat k else Z.of_nat k + 1 in
  receive r
    (genuine (receiver_address r) payload status (Nat.iter k next_number expected))
    now buffer =
  rejected kSequenceGap kLoss (count_gap lost (diagnostics_ r)) r buffer.
Proof.
  intros Hs Hsync Ht Hp Hst Hl Hb Hlast Hk expected lost.
  pose proof (next_number_range (last_consecutive_number_ r)) as He. fold expected in He.
  pose proof (next_number_cases _ Hlast) as Hcase. fold expected in Hcase.
  assert (Hm : Nat.iter k next_number expected =
    if expected + Z.of_nat k <? 2 ^ 32 then expected + Z.of_nat k
    else expected + Z.of_nat k + 1 - 2 ^ 32).
  { rewrite iter_next_number by done.
    destruct (Z.ltb_spec (expected + Z.of_nat k) (2 ^ 32)).
    - rewrite Z.mod_small by lia. lia.
    - replace (expected - 1 + Z.of_nat k)
        with (expected + Z.of_nat k - 2 ^ 32 + 1 * (2 ^ 32 - 1)) by lia.
      rewrite Z.mod_add, Z.mod_small by lia. lia. }
  assert (Hlost : u32 (Nat.iter k next_number expected - expected) = lost).
  { rewrite Hm. unfold lost. destruct (Z.ltb_spec (expected + Z.of_nat k) (2 ^ 32)).
    - rewrite unsigned_wrap_id by solve_range. lia.
    - unfold unsigned_wrap.
      replace (expected + Z.of_nat k + 1 - 2 ^ 32 - expected)
        with (Z.of_nat k + 1 + (-1) * 2 ^ 32) by lia.
      rewrite Z.mod_add, Z.mod_small by lia. done. }
  assert (lost < 2 ^ 31) by (unfold lost; destruct (_ <? _); lia).
  rewrite sequence_classified; try done.
  - fold expected. rewrite Hlost, decide_False, decide_False, decide_True; [done|done|..];
      rewrite Hm; destruct (Z.ltb_spec (expected + Z.of_nat k) (2 ^ 32));
      destruct (Z.eqb_spec (last_consecutive_number_ r) (2 ^ 32 - 1)); solve_range.
  - rewrite Hm. destruct (Z.ltb_spec (expected + Z.of_nat k) (2 ^ 32)); solve_range.
Qed.

(** ** Silence *)

(** The status byte is delivered and nothing else: two genuine telegrams that
    differ only in it leave the receiver in the same state and deliver the same
    payload, so a producer that asks for fail-safe values or reports its own
    fault is treated like any other. *)
Theorem status_only_delivered r payload status status' number now buffer :
  Forall is_u8 payload → is_u8 status → is_u8 status' → is_u32 number →
  (length payload ≤ kMaxPayloadBytes)%nat → (length payload ≤ length buffer)%nat →
  let x := receive r (genuine (receiver_address r) payload status number) now buffer in
  let y := receive r (genuine (receiver_address r) payload status' number) now buffer in
  result x = result y ∧ receiver x = receiver y ∧ payload_out x = payload_out y ∧
  (result x = kValid → status_out x = status ∧ status_out y = status').
Proof.
  intros Hp Hst Hst' Hn Hl Hb. cbv zeta. unfold genuine. destruct (safe_state_ r) eqn:Hs.
  { unfold receive. rewrite Hs. done. }
  rewrite !receive_frame by auto using computeTelegramCrc_range.
  unfold check_fields. rewrite !Z.eqb_refl. cbn [negb].
  repeat (case_match; try done).
Qed.

(** silence.  A synchronised receiver that is polled more than the watchdog
    time after the last valid telegram reports a timeout and latches a loss;
    within the window the poll changes nothing. *)
Theorem poll_watchdog r now :
  safe_state_ r = false → synchronised_ r = true →
  0 ≤ now → is_i64 now → 0 ≤ last_valid_ns_ r → is_i64 (last_valid_ns_ r) →
  poll r now =
    if decide (watchdog_ns_ r < now - last_valid_ns_ r)
    then (kTimeout, latch kLoss (with_diagnostics (count_timeout (diagnostics_ r)) r))
    else (kValid, r).
Proof.
  intros Hs Hsync H1 H2 H3 H4. unfold poll. rewrite Hs, Hsync, elapsed_exact by done.
  cbn [negb]. case_decide.
  - by rewrite (proj2 (Z.ltb_lt _ _)).
  - by rewrite (proj2 (Z.ltb_ge _ _)) by lia.
Qed.

(** the watchdog is off after an acknowledgement.  Until the next telegram
    is accepted, an acknowledged receiver reports kValid at every poll, however
    late, so a producer that stays silent after an acknowledgement is never
    noticed. *)
Theorem acknowledged_receiver_never_times_out r t buffer (polls : list Z) :
  run (acknowledgeAndReset t r) buffer (OpPoll <$> polls) = (acknowledgeAndReset t r, []) ∧
  ∀ now, (poll (acknowledgeAndReset t r) now).1 = kValid.
Proof. split; [|done]. by induction polls as [|now polls IH]. Qed.

(** ** Invariant *)

Definition diagnostics_ok (d : ReceiverDiagnostics) : Prop :=
  is_u64 (accepted d) ∧ is_u64 (rejected_malformed d) ∧ is_u64 (rejected_crc d) ∧
  is_u64 (rejected_repetition d) ∧ is_u64 (rejected_sequence_gap d) ∧
  is_u64 (rejected_out_of_order d) ∧ is_u64 (timeouts d) ∧ is_u64 (telegrams_lost d) ∧
  is_u32 (last_accepted_consecutive_number d).

(** The latch and the reported fault agree, and every counter is in range. *)
Definition receiver_ok (r : SafetyReceiver) : Prop :=
  safe_state_ r = bool_decide (last_fault_ r ≠ kNone) ∧
  is_u32 (last_consecutive_number_ r) ∧ diagnostics_ok (diagnostics_ r).

Ltac solve_diagnostics :=
  repeat match goal with H : diagnostics_ok _ |- _ => unfold diagnostics_ok in H end;
  destruct_and?; unfold diagnostics_ok; cbn; split_and!; try done;
  apply unsigned_wrap_range; lia.

Lemma check_fields_ok r payload status number crc now buffer :
  receiver_ok r → is_u32 number →
  receiver_ok (receiver (check_fields r payload status number crc now buffer)).
Proof.
  intros (Hf & Hl & Hd) Hn. unfold check_fields.
  repeat match goal with |- context [if ?b then _ else _] => destruct b end;
    (split_and!; [done|done|solve_diagnostics]).
Qed.

Lemma receive_ok r raw now buffer :
  receiver_ok r → Forall is_u8 raw → receiver_ok (receiver (receive r raw now buffer)).
Proof.
  intros Hr Hraw. destruct (safe_state_ r) eqn:Hs.
  { unfold receive. by rewrite Hs. }
  destruct (receive_cases r raw now buffer Hraw Hs)
    as [->|(p & st & n & c & -> & _ & _ & Hn & _ & _ & _ & ->)].
  - destruct Hr as (Hf & Hl & Hd). split_and!; [done|done|solve_diagnostics].
  - by apply check_fields_ok.
Qed.

Lemma poll_ok r now : receiver_ok r → receiver_ok (poll r now).2.
Proof.
  intros Hr. pose proof Hr as (Hf & Hl & Hd). unfold poll.
  repeat match goal with |- context [if ?b then _ else _] => destruct b end; try done.
  split_and!; [done|done|solve_diagnostics].
Qed.

(** type invariant.  From a new receiver, through any sequence of telegrams,
    polls and acknowledgements, the receiver is in the safe state exactly when
    it reports a fault, and every counter stays within its width. *)
Theorem run_keeps_receiver_ok address watchdog buffer ops :
  Forall op_bytes ops → receiver_ok (run (newReceiver address watchdog) buffer ops).1.
Proof.
  assert (H0 : receiver_ok (newReceiver address watchdog))
    by (split_and!; [done|cbn; solve_range|split_and!; cbn; solve_range]).
  revert H0 buffer. generalize (newReceiver address watchdog). intros r Hr buffer Hops.
  revert r buffer Hr; induction Hops as [|op ops Hop Hops IH]; intros r buffer Hr; [done|].
  destruct op as [raw now|now|now]; cbn [run].
  - specialize (IH (receiver (receive r raw now buffer))
      (payload_out (receive r raw now buffer)) (receive_ok r raw now buffer Hr Hop)).
    by destruct (run _ _ ops).
  - by apply IH, poll_ok.
  - apply IH. destruct Hr as (_ & _ & Hd). split_and!; [done|cbn; solve_range|done].
Qed.

(** All outcomes counted by the diagnostics. *)
Definition outcomes (d : ReceiverDiagnostics) : Z :=
  accepted d + rejected_malformed d + rejected_crc d + rejected_repetition d +
  rejected_sequence_gap d + rejected_out_of_order d + timeouts d.

Lemma u64_add_wrap a b c : u64 (a + u64 b + c) = u64 (a + b + c).
Proof.
  unfold unsigned_wrap.
  rewrite <- (Z.add_mod_idemp_l (a + b `mod` 2 ^ 64)), Z.add_mod_idemp_r by lia.
  by rewrite Z.add_mod_idemp_l by lia.
Qed.

(** no call goes unaccounted.  A call to [receive] outside the safe state
    increments exactly one of the outcome counters (modulo their width); inside
    the safe state it counts nothing. *)
Theorem receive_counts_once r raw now buffer :
  u64 (outcomes (diagnostics_ (receiver (receive r raw now buffer)))) =
    u64 (outcomes (diagnostics_ r) + if safe_state_ r then 0 else 1).
Proof.
  assert (H : ∀ d n delta,
    u64 (outcomes (count_malformed d)) = u64 (outcomes d + 1) ∧
    u64 (outcomes (count_crc d)) = u64 (outcomes d + 1) ∧
    u64 (outcomes (count_timeout d)) = u64 (outcomes d + 1) ∧
    u64 (outcomes (count_repetition d)) = u64 (outcomes d + 1) ∧
    u64 (outcomes (count_out_of_order d)) = u64 (outcomes d + 1) ∧
    u64 (outcomes (count_gap delta d)) = u64 (outcomes d + 1) ∧
    u64 (outcomes (count_accepted n d)) = u64 (outcomes d + 1)).
  { intros [a m c rep g o t l n'] n delta; unfold outcomes; cbn.
    split_and!; match goal with |- u64 ?e = _ =>
      match e with context [unsigned_wrap 64 (?x + 1)] =>
        transitivity (u64 ((e - u64 (x + 1)) + u64 (x + 1) + 0));
        [f_equal; lia|rewrite (u64_add_wrap _ (x + 1) 0); f_equal; lia]
      end end. }
  unfold receive, check_fields. destruct (safe_state_ r); [by rewrite Z.add_0_r|].
  repeat match goal with |- context [if ?b then _ else _] => destruct b end; cbn; apply H;
    exact 0.
Qed.

(** ** The all-zeroes frame *)

Definition zero_frame_address : SafetyAddress := mkAddress 0 0 0x1809B523.

(** an all-zeroes frame can be valid.  For this commissioning a new receiver
    accepts nine zero bytes as its first telegram: the receiver does not reject
    the number zero the sender never uses, and the checksum of the frame is
    zero. *)
Theorem zero_frame_accepted :
  result (receive (newReceiver zero_frame_address 50000000) (replicate 9 0) 0
            (replicate kMaxPayloadBytes 0)) = kValid.
Proof. vm_compute; reflexivity. Qed.

(** ** Concrete instances *)

(** The relationship [safeedged] runs with itself. *)
Definition demo_address : SafetyAddress := mkAddress 0x0011 0x2200 0xDEADBEEF.
Definition demo_payload : list Z := seqZ 1 8.
Definition demo_buffer : list Z := replicate kMaxPayloadBytes 0.
Definition demo_sender : SafetySender := newSender demo_address.
Definition demo_receiver : SafetyReceiver := newReceiver demo_address 50000000.
Definition demo_frame : list Z := sender_frame demo_sender demo_payload 0.

(** A receiver that accepted the number before the wrap at time 1000. *)
Definition demo_synchronised : SafetyReceiver :=
  mkReceiver demo_address 50000000 1000 (2 ^ 32 - 2) true false kNone newDiagnostics.
Definition demo_wrapping_sender : SafetySender := mkSender demo_address (2 ^ 32 - 1).
Definition demo_latched : SafetyReceiver := latch kLoss demo_synchronised.

Lemma receive_valid_iff_witness :
  result (receive demo_receiver demo_frame 0 demo_buffer) = kValid.
Proof.
  apply (receive_valid_iff demo_receiver demo_frame 0 demo_buffer); [by_compute|].
  split; [reflexivity|]. exists demo_payload, 0, 1.
  split_and!; [reflexivity|by_compute|by_compute|by_compute|done|done].
Defined.

Lemma receive_rejects_fail_safe_witness :
  safe_state_ (receiver (receive demo_receiver [1; 2; 3] 0 demo_buffer)) = true.
Proof.
  apply (receive_rejects_fail_safe demo_receiver [1; 2; 3] 0 demo_buffer);
    [by_compute|by vm_compute].
Defined.

Lemma safe_state_latched_witness :
  run demo_latched demo_buffer [OpReceive demo_frame 2000; OpPoll 3000] = (demo_latched, []).
Proof. apply safe_state_latched; [reflexivity|by_compute]. Defined.

Lemma deliveries_are_consecutive_witness :
  consecutive 50000000 None
    (run demo_receiver demo_buffer [OpReceive demo_frame 0; OpReceive demo_frame 1000]).2.
Proof.
  apply (deliveries_are_consecutive demo_receiver demo_buffer
    [OpReceive demo_frame 0; OpReceive demo_frame 1000]); by_compute.
Defined.

Definition demo_messages : list Message :=
  [mkMessage demo_payload 0 2000; mkMessage [] 4 3000; mkMessage [255] 1 4000].

Lemma transfer_delivers_witness :
  Forall2 got_message
    (transfer demo_wrapping_sender newTelegram demo_synchronised demo_buffer demo_messages)
    demo_messages.
Proof.
  apply transfer_delivers; try reflexivity.
  - by_compute.
  - intros _. reflexivity.
  - by_compute.
  - cbn [on_time demo_messages]. split_and!; by_compute.
Defined.

Lemma five_bit_errors_rejected_witness :
  receive demo_receiver (0x1E :: tail demo_frame) 0 demo_buffer =
    rejected kCrcMismatch kCorruption (count_crc newDiagnostics) demo_receiver demo_buffer.
Proof.
  apply (five_bit_errors_rejected demo_sender demo_receiver demo_payload 0);
    try reflexivity; by_compute.
Defined.

Lemma burst_errors_rejected_witness :
  receive demo_receiver
    (frame ([0xFE; 0xFD; 0xFC; 0xFB] ++ drop 4 demo_payload) 0 1
       (computeTelegramCrc demo_address demo_payload 0 1)) 0 demo_buffer =
    rejected kCrcMismatch kCorruption (count_crc newDiagnostics) demo_receiver demo_buffer.
Proof.
  apply (burst_errors_rejected demo_sender demo_receiver demo_payload 0
    ([0xFE; 0xFD; 0xFC; 0xFB] ++ drop 4 demo_payload) 0 1 0 (replicate 32 true) 72);
    try reflexivity; by_compute.
Defined.

Lemma misaddressed_rejected_witness :
  receive (newReceiver (mkAddress 0x0011 0x2201 0xDEADBEEF) 50000000) demo_frame 0 demo_buffer =
    rejected kCrcMismatch kCorruption (count_crc newDiagnostics)
      (newReceiver (mkAddress 0x0011 0x2201 0xDEADBEEF) 50000000) demo_buffer.
Proof.
  apply (misaddressed_rejected demo_sender); try reflexivity; by_compute.
Defined.

Lemma address_alias_witness :
  destination (alias_address demo_address) = 0x2201 ∧
  computeTelegramCrc (alias_address demo_address) demo_payload 0 1 =
  computeTelegramCrc demo_address demo_payload 0 1.
Proof.
  split; [vm_compute; reflexivity|].
  apply (address_alias demo_address); by_compute.
Defined.

Lemma sequence_classified_witness :
  result (receive demo_synchronised
            (genuine (receiver_address demo_synchronised) demo_payload 0 (2 ^ 32 - 2)) 2000
            demo_buffer) = kRepetition.
Proof.
  pose proof (sequence_classified demo_synchronised demo_payload 0 (2 ^ 32 - 2) 2000 demo_buffer)
    as H.
  rewrite H; [reflexivity|reflexivity|reflexivity| | | | | |]; by_compute.
Defined.

(** One telegram, number 2^32 - 1, is lost and two are counted. *)
Lemma lost_telegrams_detected_witness :
  telegrams_lost (diagnostics_ (receiver
    (receive demo_synchronised
       (genuine (receiver_address demo_synchronised) demo_payload 0
          (Nat.iter 1 next_number (next_number (last_consecutive_number_ demo_synchronised))))
       2000 demo_buffer))) = 2.
Proof.
  pose proof (lost_telegrams_detected demo_synchronised demo_payload 0 1 2000 demo_buffer) as H.
  rewrite H; [vm_compute; reflexivity|reflexivity|reflexivity| | | | | | |]; by_compute.
Defined.

Lemma poll_watchdog_witness :
  (poll demo_synchronised 50001001).1 = kTimeout ∧ (poll demo_synchronised 50001000).1 = kValid.
Proof.
  split; rewrite poll_watchdog; try reflexivity; by_compute.
Defined.

Lemma run_keeps_receiver_ok_witness :
  receiver_ok (run (newReceiver demo_address 50000000) demo_buffer
    [OpReceive demo_frame 0; OpReceive demo_frame 1000; OpAcknowledge 2000; OpPoll 3000]).1.
Proof. apply run_keeps_receiver_ok. by_compute. Defined.

Lemma status_only_delivered_witness :
  let x st := receive demo_receiver (genuine demo_address demo_payload st 1) 0 demo_buffer in
  receiver (x kProducerFault) = receiver (x 0) ∧ status_out (x kProducerFault) = kProducerFault.
Proof.
  destruct (status_only_delivered demo_receiver demo_payload kProducerFault 0 1 0 demo_buffer)
    as (_ & H & _ & Hst); [by_compute..|].
  split; [exact H|]. apply Hst. vm_compute. reflexivity.
Defined.
