(* ===== verification/Float64.v ===== *)
(** * IEEE 754 double precision

    The C++ [double] as the standard library's [SpecFloat] numbers at precision
    53 and maximal exponent 1024: infinities, signed zeros and NaN included, so
    that every comparison of the safety monitors has the truth value the
    processor gives it. The operations are the ones the sources use: the
    relational operators, [std::fabs], subtraction, [std::min] and [std::max],
    and the conversions of integers, which are exact up to 2^53. *)

From Stdlib Require Import SpecFloat.
From stdpp Require Import base numbers list option.
From S2P Require Import Prelude.

Abbreviation double := spec_float.

#[export] Instance double_eq_dec : EqDecision double.
Proof. solve_decision. Defined.

Definition kPrecision : Z := 53.
Definition kMaxExponent : Z := 1024.

Definition dzero : double := S754_zero false.
Definition dinfinity : double := S754_infinity false.
Definition dnan : double := S754_nan.

(** [static_cast<double>(z)]: round to nearest, ties to even. *)
Definition double_of_Z (z : Z) : double :=
  binary_normalize kPrecision kMaxExponent z 0 false.

Definition dopp (x : double) : double := SFopp x.
Definition dfabs (x : double) : double := SFabs x.
Definition dsub (x y : double) : double := SFsub kPrecision kMaxExponent x y.
Definition dadd (x y : double) : double := SFadd kPrecision kMaxExponent x y.
Definition dmul (x y : double) : double := SFmul kPrecision kMaxExponent x y.
Definition ddiv (x y : double) : double := SFdiv kPrecision kMaxExponent x y.

(** The relational operators; all of them are false on a NaN. *)
Definition dlt (x y : double) : bool := SFltb x y.
Definition dle (x y : double) : bool := SFleb x y.
Definition dgt (x y : double) : bool := SFltb y x.

(** [std::min] and [std::max], argument order as in the library. *)
Definition dmin (x y : double) : double := if dlt y x then y else x.
Definition dmax (x y : double) : double := if dlt x y then y else x.

Declare Scope double_scope.
Delimit Scope double_scope with dbl.
Infix "<?" := dlt : double_scope.
Infix "<=?" := dle : double_scope.
Infix ">?" := dgt : double_scope.
Infix "-" := dsub : double_scope.

Definition is_nan (x : double) : bool :=
  match x with S754_nan => true | _ => false end.

(** ** Comparison *)

Lemma compare_swap x y :
  SFcompare y x = option_map CompOpp (SFcompare x y).
Proof.
  destruct x as [[]|[]| |[] m e], y as [[]|[]| |[] m' e']; try done; simpl; f_equal;
    rewrite (Z.compare_antisym e e'); destruct (Z.compare e e'); simpl; try done;
    change (Pos.compare_cont Eq m' m) with (Pos.compare m' m);
    change (Pos.compare_cont Eq m m') with (Pos.compare m m');
    rewrite (Pos.compare_antisym m m'); by destruct (Pos.compare m m').
Qed.

Lemma compare_is_some x y :
  is_nan x = false → is_nan y = false → ∃ c, SFcompare x y = Some c.
Proof. destruct x, y; simpl; intros; try done; eauto. Qed.

(** On numbers the order is total: [>] is the negation of [<=]. *)
Lemma dgt_negb_dle x y :
  is_nan x = false → is_nan y = false → (x >? y)%dbl = negb (x <=? y)%dbl.
Proof.
  intros Hx Hy. unfold dgt, dle, SFltb, SFleb.
  rewrite (compare_swap x y). destruct (compare_is_some x y Hx Hy) as [c ->].
  by destruct c.
Qed.

(** A NaN compares false with everything, on either side. *)
Lemma dlt_nan_l y : (dnan <? y)%dbl = false.
Proof. done. Qed.
Lemma dlt_nan_r x : (x <? dnan)%dbl = false.
Proof. by destruct x. Qed.
Lemma dle_nan_l y : (dnan <=? y)%dbl = false.
Proof. done. Qed.

Lemma dlt_not_lt x y : (x <? y)%dbl = true → (y <? x)%dbl = false.
Proof.
  unfold dlt, SFltb. rewrite (compare_swap x y). by destruct (SFcompare x y) as [[]|].
Qed.

Lemma dlt_dle x y : (x <? y)%dbl = true → (x <=? y)%dbl = true.
Proof. unfold dlt, dle, SFltb, SFleb. by destruct (SFcompare x y) as [[]|]. Qed.

Lemma dgt_dle_exclusive x y : (x >? y)%dbl = true → (x <=? y)%dbl = false.
Proof.
  unfold dgt, dle, SFltb, SFleb. rewrite (compare_swap x y).
  by destruct (SFcompare x y) as [[]|].
Qed.

Lemma dlt_irrefl x : (x <? x)%dbl = false.
Proof. destruct (x <? x)%dbl eqn:E; [|done]. by apply dlt_not_lt in E as Hn; rewrite E in Hn. Qed.

(** ** Conversion to integers *)

(** [static_cast<std::uint64_t>(std::ceil(x))]. Negative, too large and NaN
    arguments are undefined in C++; the model takes the low 64 bits, and zero
    for infinities and NaN. *)
Definition ceil_Z (x : double) : Z :=
  match x with
  | S754_finite s m e =>
      let n := if s then Zneg m else Zpos m in
      if 0 <=? e then n * 2 ^ e else - ((- n) / 2 ^ (- e))
  | _ => 0
  end.

Definition uint64_of_ceil (x : double) : Z := u64 (ceil_Z x).

(** ** Integers as doubles *)

Lemma digits2_shift k p : digits2_pos (Pos.iter xO p k) = (digits2_pos p + k)%positive.
Proof.
  induction k as [|k IH] using Pos.peano_ind; [simpl; lia|].
  rewrite Pos.iter_succ. simpl. rewrite IH. lia.
Qed.

Lemma shift_value k p : Z.pos (Pos.iter xO p k) = Z.pos p * 2 ^ Z.pos k.
Proof.
  induction k as [|k IH] using Pos.peano_ind; [simpl; lia|].
  rewrite Pos.iter_succ, Pos2Z.inj_succ, Z.pow_succ_r by lia.
  change (Z.pos ((Pos.iter xO p k)~0)) with (2 * Z.pos (Pos.iter xO p k)). rewrite IH. lia.
Qed.

(** A mantissa of 53 digits at a small exponent is not rounded. *)
Lemma round_aux_exact m e :
  digits2_pos m = 53%positive → -1074 ≤ e ≤ 971 →
  binary_round_aux kPrecision kMaxExponent false (Z.pos m) e loc_Exact = S754_finite false m e.
Proof.
  intros Hm He.
  assert (Hf : shr_fexp kPrecision kMaxExponent (Z.pos m) e loc_Exact =
    ({| shr_m := Z.pos m; shr_r := false; shr_s := false |}, e)).
  { unfold shr_fexp. cbn [Zdigits2]. rewrite Hm. unfold fexp, emin, kPrecision, kMaxExponent.
    replace (Z.max _ _ - e) with 0 by lia. done. }
  unfold binary_round_aux. rewrite Hf. cbn [shr_m loc_of_shr_record round_nearest_even].
  rewrite Hf. cbn [shr_m]. unfold kMaxExponent, kPrecision.
  rewrite (proj2 (Z.leb_le _ _)) by lia. done.
Qed.

Lemma double_of_pos p :
  (digits2_pos p ≤ 53)%positive →
  ∃ m e, double_of_Z (Z.pos p) = S754_finite false m e ∧ digits2_pos m = 53%positive ∧
    -52 ≤ e ≤ 0 ∧ Z.pos m = Z.pos p * 2 ^ (- e).
Proof.
  intros Hd. unfold double_of_Z, binary_normalize, binary_round, shl_align.
  unfold fexp, emin, kPrecision, kMaxExponent.
  replace (Z.max _ _ - 0) with (Z.pos (digits2_pos p) - 53) by lia.
  destruct (Z.pos (digits2_pos p) - 53) as [|q|k] eqn:E; [|lia|].
  - exists p, 0. rewrite Z.mul_1_r. split; [|lia]. apply round_aux_exact; lia.
  - replace (Z.max _ _) with (Z.neg k) by lia.
    exists (Pos.iter xO p k), (Z.neg k). split; [|split; [|split; [lia|]]].
    + apply round_aux_exact; [rewrite digits2_shift|]; lia.
    + rewrite digits2_shift. lia.
    + apply shift_value.
Qed.

Lemma digits2_bound p k : Z.pos p < 2 ^ Z.pos k → (digits2_pos p ≤ k)%positive.
Proof.
  revert k. induction p as [p IH|p IH|]; intros k Hp; simpl; [| |lia];
    (destruct (Pos.eq_dec k 1%positive) as [->|Hk]; [simpl in Hp; lia|]);
    assert (H : (digits2_pos p ≤ Pos.pred k)%positive) by
      (apply IH; replace (Z.pos k) with (Z.succ (Z.pos (Pos.pred k))) in Hp by lia;
       rewrite Z.pow_succ_r in Hp by lia; lia); lia.
Qed.

(** A mantissa followed by zeros loses only these. *)
Lemma iter_shr_zeros m k :
  SpecFloat.iter_pos shr_1 k {| shr_m := Z.pos (Pos.iter xO m k); shr_r := false; shr_s := false |} =
  {| shr_m := Z.pos m; shr_r := false; shr_s := false |}.
Proof.
  assert (E : ∀ A (f : A → A) n x, SpecFloat.iter_pos f n x = Pos.iter f x n).
  { intros A f n. induction n as [n IH|n IH|]; intros x; cbn [SpecFloat.iter_pos]; [| |done].
    - rewrite !IH, <- Pos.iter_add, <- Pos.iter_succ_r. f_equal. lia.
    - rewrite !IH, <- Pos.iter_add. f_equal. lia. }
  rewrite E. induction k as [|k IH] using Pos.peano_ind; [done|].
  rewrite Pos.iter_succ_r, (Pos.iter_succ _ _ xO). exact IH.
Qed.

Lemma round_aux_zeros m k e :
  digits2_pos m = 53%positive → -1000 ≤ e → e + Z.pos k ≤ 900 →
  binary_round_aux kPrecision kMaxExponent false (Z.pos (Pos.iter xO m k)) e loc_Exact =
  S754_finite false m (e + Z.pos k).
Proof.
  intros Hm He Hk. rewrite <- round_aux_exact by (done || lia). unfold binary_round_aux.
  assert (E : shr_fexp kPrecision kMaxExponent (Z.pos (Pos.iter xO m k)) e loc_Exact =
    ({| shr_m := Z.pos m; shr_r := false; shr_s := false |}, e + Z.pos k)).
  { unfold shr_fexp. cbn [Zdigits2]. rewrite digits2_shift, Hm. unfold fexp, emin, kPrecision, kMaxExponent.
    replace (Z.max _ _ - e) with (Z.pos k) by lia. cbn [shr shr_record_of_loc].
    by rewrite iter_shr_zeros. }
  assert (E' : shr_fexp kPrecision kMaxExponent (Z.pos m) (e + Z.pos k) loc_Exact =
    ({| shr_m := Z.pos m; shr_r := false; shr_s := false |}, e + Z.pos k)).
  { unfold shr_fexp. cbn [Zdigits2]. rewrite Hm. unfold fexp, emin, kPrecision, kMaxExponent.
    replace (Z.max _ _ - _) with 0 by lia. done. }
  by rewrite E, E'.
Qed.
