(* ===== verification/SafetyStateMachine.v ===== *)
(** * The IEC 61800-5-2 supervisor: model

    [src/include/safeedge/safety/safety_state_machine.hpp] and
    [src/src/safety/safety_state_machine.cpp]: the enumerations, the limits,
    inputs and outputs, and the whole evaluation of one cycle in the order of
    the source (unconditional demands, fault latch, monitors, requests). The
    theorems are in [SafetyStateMachineSafety]. *)

From Stdlib Require Import SpecFloat String.
From stdpp Require Import base numbers list option.
From S2P Require Import Prelude Float64.

(** ** Enumerations *)

(** What the host requests. *)
Module Request.
Inductive SafetyFunction :=
| kNone
| kSafeTorqueOff
| kSafeStop1
| kSafeOperatingStop
| kSafelyLimitedSpeed.
End Request.

Module State.
Inductive SafetyState :=
| kSafeTorqueOff
| kSelfTest
| kStopping
| kOperatingStop
| kLimitedSpeed
| kOperational.
End State.

Module Fault.
Inductive FaultReason :=
| kNone
| kSelfTestFailed
| kEmergencyStop
| kSpeedLimitExceeded
| kPositionLimitExceeded
| kStandstillDeviation
| kStopTimeExceeded
| kCommunicationFault
| kWatchdogTimeout
| kChannelDiscrepancy
| kInvalidRequest.
End Fault.

Abbreviation SafetyFunction := Request.SafetyFunction.
Abbreviation SafetyState := State.SafetyState.
Abbreviation FaultReason := Fault.FaultReason.

#[export] Instance safety_function_eq_dec : EqDecision SafetyFunction.
Proof. solve_decision. Defined.
#[export] Instance safety_state_eq_dec : EqDecision SafetyState.
Proof. solve_decision. Defined.
#[export] Instance fault_reason_eq_dec : EqDecision FaultReason.
Proof. solve_decision. Defined.

(** The enumerators' values; [SafetyState] is ordered from the most to the
    least restrictive, which the dual-channel comparison relies on. *)
Definition state_value (s : SafetyState) : Z :=
  match s with
  | State.kSafeTorqueOff => 0
  | State.kSelfTest => 1
  | State.kStopping => 2
  | State.kOperatingStop => 3
  | State.kLimitedSpeed => 4
  | State.kOperational => 5
  end.

(** ** Data *)

Record SafetyLimits := mkLimits {
  limited_speed : double;
  position_min : double;
  position_max : double;
  position_monitoring_enabled : bool;
  standstill_window : double;
  standstill_speed : double;
  stop_time_limit_ns : Z
}.

Definition defaultLimits : SafetyLimits :=
  mkLimits dzero (dopp dinfinity) dinfinity false dzero dzero 0.

Record SafetyInputs := mkInputs {
  speed_magnitude : double;
  position : double;
  emergency_stop_asserted : bool;
  communication_ok : bool;
  heartbeat_ok : bool;
  self_test_passed : bool;
  request : SafetyFunction;
  acknowledge : bool;
  timestamp_ns : Z
}.

Definition defaultInputs : SafetyInputs :=
  mkInputs dzero dzero true false false false Request.kSafeTorqueOff false 0.

Record SafetyOutputs := mkOutputs {
  torque_permitted : bool;
  motion_permitted : bool;
  speed_limit : double;
  brake_engaged : bool;
  state : SafetyState;
  fault : FaultReason;
  fault_latched : bool
}.

Definition defaultOutputs : SafetyOutputs :=
  mkOutputs false false dzero true State.kSafeTorqueOff Fault.kNone false.

#[export] Instance limits_eq_dec : EqDecision SafetyLimits.
Proof. solve_decision. Defined.
#[export] Instance inputs_eq_dec : EqDecision SafetyInputs.
Proof. solve_decision. Defined.
#[export] Instance outputs_eq_dec : EqDecision SafetyOutputs.
Proof. solve_decision. Defined.

(** ** The machine *)

Record SafetyStateMachine := mkMachine {
  limits_ : SafetyLimits;
  state_ : SafetyState;
  fault_ : FaultReason;
  stop_started_ns_ : Z;
  standstill_reference_ : double
}.

#[export] Instance machine_eq_dec : EqDecision SafetyStateMachine.
Proof. solve_decision. Defined.

Definition newMachine (limits : SafetyLimits) : SafetyStateMachine :=
  mkMachine limits State.kSelfTest Fault.kNone 0 dzero.

Definition faultLatched (m : SafetyStateMachine) : bool :=
  bool_decide (fault_ m ≠ Fault.kNone).

Definition setLimits (limits : SafetyLimits) (m : SafetyStateMachine) : SafetyStateMachine :=
  mkMachine limits (state_ m) (fault_ m) (stop_started_ns_ m) (standstill_reference_ m).

Definition with_state (s : SafetyState) (m : SafetyStateMachine) : SafetyStateMachine :=
  mkMachine (limits_ m) s (fault_ m) (stop_started_ns_ m) (standstill_reference_ m).

Definition with_fault (f : FaultReason) (m : SafetyStateMachine) : SafetyStateMachine :=
  mkMachine (limits_ m) (state_ m) f (stop_started_ns_ m) (standstill_reference_ m).

Definition with_stop_started (t : Z) (m : SafetyStateMachine) : SafetyStateMachine :=
  mkMachine (limits_ m) (state_ m) (fault_ m) t (standstill_reference_ m).

Definition with_reference (p : double) (m : SafetyStateMachine) : SafetyStateMachine :=
  mkMachine (limits_ m) (state_ m) (fault_ m) (stop_started_ns_ m) p.

Definition reset (m : SafetyStateMachine) : SafetyStateMachine :=
  mkMachine (limits_ m) State.kSelfTest Fault.kNone 0 dzero.

(** The first fault is kept: a latched reason is never overwritten. *)
Definition enterSafeTorqueOff (reason : FaultReason) (m : SafetyStateMachine)
  : SafetyStateMachine :=
  let m := with_state State.kSafeTorqueOff m in
  if bool_decide (reason ≠ Fault.kNone) && bool_decide (fault_ m = Fault.kNone)
  then with_fault reason m
  else m.

Definition forceFault (reason : FaultReason) (m : SafetyStateMachine) : SafetyStateMachine :=
  enterSafeTorqueOff reason m.

Definition unconditionalDemandActive (inputs : SafetyInputs) : bool :=
  emergency_stop_asserted inputs || negb (communication_ok inputs) ||
  negb (heartbeat_ok inputs).

Definition unconditionalDemandReason (inputs : SafetyInputs) : FaultReason :=
  if emergency_stop_asserted inputs then Fault.kEmergencyStop
  else if negb (communication_ok inputs) then Fault.kCommunicationFault
  else if negb (heartbeat_ok inputs) then Fault.kWatchdogTimeout
  else Fault.kNone.

Definition outputsFor (m : SafetyStateMachine) (s : SafetyState) : SafetyOutputs :=
  let latched := bool_decide (fault_ m ≠ Fault.kNone) in
  match s with
  | State.kSelfTest | State.kSafeTorqueOff =>
      mkOutputs false false dzero true s (fault_ m) latched
  | State.kStopping | State.kOperatingStop =>
      mkOutputs true false dzero false s (fault_ m) latched
  | State.kLimitedSpeed =>
      mkOutputs true true (limited_speed (limits_ m)) false s (fault_ m) latched
  | State.kOperational =>
      mkOutputs true true dinfinity false s (fault_ m) latched
  end.

(** ** One cycle *)

(** The per-state monitors (section 3 of [evaluate]). [Some m] is an early
    return with the machine in [m]; [None] is the [break] that falls through to
    the position monitor. *)
Definition state_monitor (m : SafetyStateMachine) (inputs : SafetyInputs)
  : option SafetyStateMachine :=
  match state_ m with
  | State.kSelfTest =>
      if negb (self_test_passed inputs) then Some m
      else Some (with_state State.kSafeTorqueOff m)
  | State.kLimitedSpeed =>
      if (speed_magnitude inputs >? limited_speed (limits_ m))%dbl
      then Some (enterSafeTorqueOff Fault.kSpeedLimitExceeded m)
      else None
  | State.kOperatingStop =>
      if (dfabs (position inputs - standstill_reference_ m) >?
          standstill_window (limits_ m))%dbl
      then Some (enterSafeTorqueOff Fault.kStandstillDeviation m)
      else if (speed_magnitude inputs >? standstill_speed (limits_ m))%dbl
      then Some (enterSafeTorqueOff Fault.kStandstillDeviation m)
      else None
  | State.kStopping =>
      if (speed_magnitude inputs <=? standstill_speed (limits_ m))%dbl
      then Some (enterSafeTorqueOff Fault.kNone m)
      else if stop_time_limit_ns (limits_ m) <?
              elapsed (timestamp_ns inputs) (stop_started_ns_ m)
      then Some (enterSafeTorqueOff Fault.kStopTimeExceeded m)
      else Some m
  | State.kSafeTorqueOff | State.kOperational => None
  end.

(** The position monitor (SLP). *)
Definition position_violated (m : SafetyStateMachine) (inputs : SafetyInputs) : bool :=
  position_monitoring_enabled (limits_ m) &&
  (bool_decide (state_ m = State.kOperational) ||
   bool_decide (state_ m = State.kLimitedSpeed)) &&
  ((position inputs <? position_min (limits_ m))%dbl ||
   (position inputs >? position_max (limits_ m))%dbl).

(** The requested transitions (section 4 of [evaluate]). *)
Definition handle_request (m : SafetyStateMachine) (inputs : SafetyInputs)
  : SafetyStateMachine :=
  match request inputs with
  | Request.kSafeTorqueOff => enterSafeTorqueOff Fault.kNone m
  | Request.kSafeStop1 =>
      match state_ m with
      | State.kOperational | State.kLimitedSpeed | State.kOperatingStop =>
          with_stop_started (timestamp_ns inputs) (with_state State.kStopping m)
      | State.kSafeTorqueOff => with_state State.kSafeTorqueOff m
      | _ => m
      end
  | Request.kSafeOperatingStop =>
      match state_ m with
      | State.kOperational | State.kLimitedSpeed =>
          if (speed_magnitude inputs >? standstill_speed (limits_ m))%dbl
          then enterSafeTorqueOff Fault.kInvalidRequest m
          else with_reference (position inputs) (with_state State.kOperatingStop m)
      | State.kSafeTorqueOff => enterSafeTorqueOff Fault.kInvalidRequest m
      | _ => m
      end
  | Request.kSafelyLimitedSpeed =>
      match state_ m with
      | State.kSafeTorqueOff | State.kOperational | State.kOperatingStop =>
          if (speed_magnitude inputs >? limited_speed (limits_ m))%dbl
          then enterSafeTorqueOff Fault.kSpeedLimitExceeded m
          else with_state State.kLimitedSpeed m
      | _ => m
      end
  | Request.kNone =>
      match state_ m with
      | State.kSafeTorqueOff | State.kLimitedSpeed | State.kOperatingStop =>
          with_state State.kOperational m
      | _ => m
      end
  end.

(** The machine after one cycle. *)
Definition next (m : SafetyStateMachine) (inputs : SafetyInputs) : SafetyStateMachine :=
  if unconditionalDemandActive inputs
  then enterSafeTorqueOff (unconditionalDemandReason inputs) m
  else if bool_decide (fault_ m ≠ Fault.kNone)
  then with_state State.kSafeTorqueOff
         (if acknowledge inputs then with_fault Fault.kNone m else m)
  else
    match state_monitor m inputs with
    | Some m => m
    | None =>
        if position_violated m inputs
        then enterSafeTorqueOff Fault.kPositionLimitExceeded m
        else handle_request m inputs
    end.

(** Every path of [evaluate] returns [outputsFor(state_)] of the machine it
    leaves behind. *)
Definition evaluate (m : SafetyStateMachine) (inputs : SafetyInputs)
  : SafetyOutputs * SafetyStateMachine :=
  let m := next m inputs in (outputsFor m (state_ m), m).

(** ** Names *)

Definition state_toString (s : SafetyState) : string :=
  match s with
  | State.kSelfTest => "SelfTest"%string
  | State.kSafeTorqueOff => "STO"%string
  | State.kStopping => "SS1-Stopping"%string
  | State.kOperatingStop => "SOS"%string
  | State.kLimitedSpeed => "SLS"%string
  | State.kOperational => "Operational"%string
  end.

Definition fault_toString (f : FaultReason) : string :=
  match f with
  | Fault.kNone => "none"%string
  | Fault.kSelfTestFailed => "self-test failed"%string
  | Fault.kEmergencyStop => "emergency stop"%string
  | Fault.kSpeedLimitExceeded => "speed limit exceeded"%string
  | Fault.kPositionLimitExceeded => "position limit exceeded"%string
  | Fault.kStandstillDeviation => "standstill deviation"%string
  | Fault.kStopTimeExceeded => "stop time exceeded"%string
  | Fault.kCommunicationFault => "communication fault"%string
  | Fault.kWatchdogTimeout => "watchdog timeout"%string
  | Fault.kChannelDiscrepancy => "channel discrepancy"%string
  | Fault.kInvalidRequest => "invalid request"%string
  end.

Definition function_toString (f : SafetyFunction) : string :=
  match f with
  | Request.kNone => "none"%string
  | Request.kSafeTorqueOff => "STO"%string
  | Request.kSafeStop1 => "SS1"%string
  | Request.kSafeOperatingStop => "SOS"%string
  | Request.kSafelyLimitedSpeed => "SLS"%string
  end.
