(* ===== verification/SafetyStateMachineSafety.v ===== *)
(** * The IEC 61800-5-2 supervisor: theorems

    What the supervisor of [SafetyStateMachine] guarantees: unconditional
    demands remove torque from every state, faults latch with their first
    cause until an acknowledgement that never restarts motion, every monitor is
    enforced before any request, SS1 ends in STO in bounded time, and the
    machine moves along exactly the edges of the state diagram given here. *)

From Stdlib Require Import SpecFloat.
From stdpp Require Import base numbers list option.
From S2P Require Import Prelude Float64 SafetyStateMachine.

(** ** Case analysis of a cycle *)

(** [cycle_cases] splits a goal about one cycle into its branches, with the
    decisions of the source as hypotheses. *)
Ltac cycle_cases :=
  unfold evaluate, next, state_monitor, handle_request, position_violated,
    enterSafeTorqueOff in *;
  repeat (first
    [ progress (simplify_eq/=)
    | case_bool_decide
    | case_match ]).

Ltac by_cycle := cycle_cases; try done.

(** The machine after a sequence of cycles. *)
Definition cycles (m : SafetyStateMachine) (inputs : list SafetyInputs) : SafetyStateMachine :=
  foldl (λ m i, (evaluate m i).2) m inputs.

Lemma cycles_app m l l' : cycles m (l ++ l') = cycles (cycles m l) l'.
Proof. apply foldl_app. Qed.

Lemma cycles_snoc m l i : cycles m (l ++ [i]) = next (cycles m l) i.
Proof. by rewrite cycles_app. Qed.

(** ** Shape of the outputs *)

(** The restrictive outputs: everything removed, the brake engaged. *)
Definition torque_off (o : SafetyOutputs) : Prop :=
  torque_permitted o = false ∧ motion_permitted o = false ∧
  speed_limit o = dzero ∧ brake_engaged o = true.

#[export] Instance torque_off_dec o : Decision (torque_off o).
Proof. unfold torque_off; apply _. Defined.

Lemma outputs_sto m : torque_off (outputsFor m State.kSafeTorqueOff).
Proof. done. Qed.

Lemma outputs_state m s : state (outputsFor m s) = s.
Proof. by destruct s. Qed.

Lemma outputs_fault m s : fault (outputsFor m s) = fault_ m.
Proof. by destruct s. Qed.

Lemma outputs_latched m s : fault_latched (outputsFor m s) = faultLatched m.
Proof. by destruct s. Qed.

Lemma faultLatched_false m : faultLatched m = false ↔ fault_ m = Fault.kNone.
Proof.
  unfold faultLatched. destruct (decide (fault_ m = Fault.kNone)) as [H|H].
  - by rewrite bool_decide_false by (by intros []).
  - by rewrite bool_decide_true.
Qed.

Lemma torque_off_iff m s :
  torque_off (outputsFor m s) ↔ s = State.kSafeTorqueOff ∨ s = State.kSelfTest.
Proof. unfold torque_off; destruct s; simpl; intuition congruence. Qed.

Lemma torque_permitted_iff m s :
  torque_permitted (outputsFor m s) = true ↔
  s ≠ State.kSafeTorqueOff ∧ s ≠ State.kSelfTest.
Proof. destruct s; simpl; intuition congruence. Qed.

(** ** The latch *)

(** A latched fault means STO. *)
Definition machine_ok (m : SafetyStateMachine) : Prop :=
  fault_ m ≠ Fault.kNone → state_ m = State.kSafeTorqueOff.

#[export] Instance machine_ok_dec m : Decision (machine_ok m).
Proof. unfold machine_ok; apply _. Defined.

Lemma machine_ok_enter reason m : machine_ok (enterSafeTorqueOff reason m).
Proof. unfold machine_ok; by_cycle. Qed.

Lemma machine_ok_next m i : machine_ok m → machine_ok (next m i).
Proof. unfold machine_ok. intros Hm. by_cycle. Qed.

Lemma machine_ok_new limits : machine_ok (newMachine limits).
Proof. by intros []. Qed.

Lemma machine_ok_cycles m l : machine_ok m → machine_ok (cycles m l).
Proof.
  revert m; induction l as [|i l IH]; intros m Hm; [done|].
  apply IH. by apply machine_ok_next.
Qed.

#[export] Hint Resolve machine_ok_enter machine_ok_next machine_ok_new machine_ok_cycles : safeedge.

Lemma enter_state reason m : state_ (enterSafeTorqueOff reason m) = State.kSafeTorqueOff.
Proof. by_cycle. Qed.

Lemma enter_fault reason m :
  fault_ (enterSafeTorqueOff reason m) =
  if bool_decide (fault_ m = Fault.kNone) then reason else fault_ m.
Proof. by_cycle. Qed.

Lemma demand_reason_spec i :
  unconditionalDemandReason i ≠ Fault.kNone ↔ unconditionalDemandActive i = true.
Proof.
  unfold unconditionalDemandReason, unconditionalDemandActive.
  by destruct (emergency_stop_asserted i), (communication_ok i), (heartbeat_ok i).
Qed.

Lemma next_demand m i :
  unconditionalDemandActive i = true →
  next m i = enterSafeTorqueOff (unconditionalDemandReason i) m.
Proof. intros Hd. unfold next. by rewrite Hd. Qed.

(** A cycle that does not clear the latch. *)
Definition holds_latch (i : SafetyInputs) : Prop :=
  unconditionalDemandActive i = true ∨ acknowledge i = false.

#[export] Instance holds_latch_dec i : Decision (holds_latch i).
Proof. unfold holds_latch; apply _. Defined.

Lemma next_holds_latch m i :
  fault_ m ≠ Fault.kNone → holds_latch i →
  fault_ (next m i) = fault_ m ∧ state_ (next m i) = State.kSafeTorqueOff.
Proof. intros Hf [Hd|Ha]; by_cycle; intuition congruence. Qed.

Lemma cycles_hold_latch m l :
  fault_ m ≠ Fault.kNone → state_ m = State.kSafeTorqueOff → Forall holds_latch l →
  fault_ (cycles m l) = fault_ m ∧ state_ (cycles m l) = State.kSafeTorqueOff.
Proof.
  intros Hf Hs Hl; revert m Hf Hs; induction Hl as [|i l Hi Hl IH]; intros m Hf Hs; [done|].
  destruct (next_holds_latch m i Hf Hi) as [Hf' Hs']. simpl.
  destruct (IH (next m i)) as [-> ->]; [congruence|done|done].
Qed.

(** While a fault is latched every cycle ends in STO. *)
Lemma next_latched m i :
  fault_ m ≠ Fault.kNone → state_ (next m i) = State.kSafeTorqueOff.
Proof.
  intros Hf. unfold next. destruct (unconditionalDemandActive i); [apply enter_state|].
  by rewrite bool_decide_true.
Qed.

Lemma first_release l :
  Forall holds_latch l ∨
  ∃ before ack after, l = before ++ ack :: after ∧ Forall holds_latch before ∧ ¬ holds_latch ack.
Proof.
  induction l as [|i l IH]; [by left|].
  destruct (decide (holds_latch i)) as [Hi|Hi]; [|by right; exists [], i, l].
  destruct IH as [IH|(b & a & c & -> & Hb & Ha)]; [left; by constructor|].
  right. exists (i :: b), a, c. split; [done|]. split; [by constructor|done].
Qed.

(** ** Instances used by the witnesses *)

Definition demo_limits : SafetyLimits :=
  mkLimits (double_of_Z 5) (double_of_Z (-100)) (double_of_Z 100) true
    (double_of_Z 1) (double_of_Z 1) 500.

(** A healthy cycle at time [t]: no demand, at [pos] with speed [v]. *)
Definition demo_inputs (v pos : Z) (r : SafetyFunction) (ack : bool) (t : Z) : SafetyInputs :=
  mkInputs (double_of_Z v) (double_of_Z pos) false true true true r ack t.

Definition demo_estop (ack : bool) : SafetyInputs :=
  mkInputs dzero dzero true true true true Request.kNone ack 0.

(** A machine in state [s] with no fault, its stop begun at time [10] and its
    standstill reference at zero. *)
Definition demo_machine (s : SafetyState) : SafetyStateMachine :=
  mkMachine demo_limits s Fault.kNone 10 dzero.

(** ** Demands *)

(** C6: An emergency stop, a lost communication channel or a missed heartbeat
    removes torque and motion and engages the brake in the same cycle, from
    every state and whatever is requested or acknowledged; the fault is latched
    with the demand's reason unless an earlier fault is latched already, whose
    reason is then kept. *)
Theorem demand_removes_torque m i :
  unconditionalDemandActive i = true →
  let o := (evaluate m i).1 in
  torque_off o ∧ state o = State.kSafeTorqueOff ∧ fault_latched o = true ∧
  fault o = (if bool_decide (fault_ m = Fault.kNone) then
               if emergency_stop_asserted i then Fault.kEmergencyStop
               else if communication_ok i then Fault.kWatchdogTimeout
               else Fault.kCommunicationFault
             else fault_ m).
Proof.
  intros Hd. pose proof (proj2 (demand_reason_spec i) Hd) as Hr.
  cbv zeta; unfold evaluate; simpl; rewrite (next_demand m i Hd), enter_state.
  rewrite outputs_state, outputs_fault, outputs_latched; unfold faultLatched.
  rewrite enter_fault. split; [apply outputs_sto|]. split; [done|].
  destruct (decide (fault_ m = Fault.kNone)) as [Hn|Hn].
  - rewrite !(bool_decide_true (fault_ m = _)), bool_decide_true by done.
    unfold unconditionalDemandActive, unconditionalDemandReason in *.
    by destruct (emergency_stop_asserted i), (communication_ok i), (heartbeat_ok i).
  - by rewrite !(bool_decide_false (fault_ m = _)), bool_decide_true by done.
Qed.

Lemma demand_removes_torque_witness :
  fault (evaluate (demo_machine State.kOperational) (demo_estop true)).1 = Fault.kEmergencyStop.
Proof.
  destruct (demand_removes_torque (demo_machine State.kOperational) (demo_estop true))
    as (_ & _ & _ & ->); [reflexivity|vm_compute; reflexivity].
Defined.

(** ** The latch over time *)

(** C7: Acknowledgement gates every restart. Once any cycle has left a fault
    latched, a later cycle permits torque only if, strictly between the two,
    there was a cycle without an unconditional demand in which the operator
    acknowledged; until that cycle the machine is in STO with torque off and
    reports the first fault, and the acknowledging cycle itself still keeps
    torque off. *)
Theorem restart_needs_acknowledge m l i :
  machine_ok m → fault_ m ≠ Fault.kNone →
  torque_permitted (evaluate (cycles m l) i).1 = true →
  ∃ before ack after, l = before ++ ack :: after ∧
    acknowledge ack = true ∧ unconditionalDemandActive ack = false ∧
    (∀ k, (k ≤ length before)%nat →
       fault_ (cycles m (take k before)) = fault_ m ∧
       state_ (cycles m (take k before)) = State.kSafeTorqueOff) ∧
    torque_off (evaluate (cycles m before) ack).1.
Proof.
  intros Hok Hf Ht. assert (Hs := Hok Hf).
  destruct (first_release l) as [Hall|(before & ack & after & -> & Hb & Ha)].
  { destruct (cycles_hold_latch m l Hf Hs Hall) as [Hf' _].
    unfold evaluate in Ht; simpl in Ht.
    rewrite next_latched in Ht by congruence. done. }
  exists before, ack, after. split; [done|].
  split; [|split; [|split]].
  - destruct (acknowledge ack) eqn:E; [done|]. by destruct Ha; right.
  - destruct (unconditionalDemandActive ack) eqn:E; [|done]. by destruct Ha; left.
  - intros k _. apply cycles_hold_latch; [done|done|]. by apply Forall_take.
  - destruct (cycles_hold_latch m before Hf Hs Hb) as [Hf' _].
    unfold evaluate; simpl. rewrite next_latched by congruence. apply outputs_sto.
Qed.

Lemma restart_needs_acknowledge_witness :
  ∃ before ack after,
    [demo_estop true; demo_inputs 0 0 Request.kNone true 1] = before ++ ack :: after ∧
    acknowledge ack = true.
Proof.
  destruct (restart_needs_acknowledge
    (enterSafeTorqueOff Fault.kStandstillDeviation (demo_machine State.kOperatingStop))
    [demo_estop true; demo_inputs 0 0 Request.kNone true 1]
    (demo_inputs 0 0 Request.kNone false 2)) as (b & a & c & H & H' & _);
    [by_compute|by_compute|vm_compute; reflexivity|].
  exists b, a, c. by split.
Defined.

Lemma position_violation_sto m i :
  position_violated m i = true → state_ (next m i) = State.kSafeTorqueOff.
Proof.
  intros Hp. unfold next. destruct (unconditionalDemandActive i); [apply enter_state|].
  case_bool_decide; [done|]. rewrite Hp.
  destruct (state_monitor m i) as [m'|] eqn:Hm; [|apply enter_state].
  revert Hp Hm. unfold position_violated, state_monitor.
  destruct (state_ m); rewrite ?andb_false_r; try done; simpl; intros;
    repeat case_match; simplify_eq; apply enter_state.
Qed.

(** A machine in motion that is not stopped by a cycle is inside its band. *)
Lemma in_band_unless_sto m i :
  state_ (next m i) ≠ State.kSafeTorqueOff →
  position_monitoring_enabled (limits_ m) = true →
  state_ m = State.kOperational ∨ state_ m = State.kLimitedSpeed →
  (position i <? position_min (limits_ m))%dbl = false ∧
  (position i >? position_max (limits_ m))%dbl = false.
Proof.
  intros Hn Hen Hs. destruct (position_violated m i) eqn:Hp.
  { by destruct Hn; apply position_violation_sto. }
  revert Hp. unfold position_violated. rewrite Hen.
  destruct Hs as [-> | ->]; simpl; intros ?%orb_false_iff; done.
Qed.

(** A cycle that permits torque has passed every monitor: no demand was
    active, no fault was or is latched; under SLS the speed is not above the
    limit; under SOS it is not above the standstill speed and, once the
    position is held, the drift is not above the window; an SS1 in progress is
    still moving and within its time limit; and a machine that was in motion
    under position monitoring is inside the band. "Not above" is the negation
    of the C++ comparison, which a NaN also satisfies. *)
Theorem torque_passes_monitors m i :
  torque_permitted (evaluate m i).1 = true →
  unconditionalDemandActive i = false ∧ fault_ m = Fault.kNone ∧
  fault_latched (evaluate m i).1 = false ∧
  match state (evaluate m i).1 with
  | State.kLimitedSpeed => (speed_magnitude i >? limited_speed (limits_ m))%dbl = false
  | State.kOperatingStop =>
      (speed_magnitude i >? standstill_speed (limits_ m))%dbl = false ∧
      (state_ m = State.kOperatingStop →
       (dfabs (position i - standstill_reference_ m) >? standstill_window (limits_ m))%dbl = false)
  | State.kStopping =>
      state_ m = State.kStopping →
      (speed_magnitude i <=? standstill_speed (limits_ m))%dbl = false ∧
      elapsed (timestamp_ns i) (stop_started_ns_ m) ≤ stop_time_limit_ns (limits_ m)
  | _ => True
  end ∧
  (position_monitoring_enabled (limits_ m) = true →
   state_ m = State.kOperational ∨ state_ m = State.kLimitedSpeed →
   (position i <? position_min (limits_ m))%dbl = false ∧
   (position i >? position_max (limits_ m))%dbl = false).
Proof.
  unfold evaluate; simpl; rewrite outputs_state, outputs_latched, torque_permitted_iff.
  unfold faultLatched. intros [Hsto Hself].
  destruct (unconditionalDemandActive i) eqn:Hd; [by rewrite next_demand, enter_state in Hsto|].
  destruct (decide (fault_ m = Fault.kNone)) as [Hf|Hf]; [|by rewrite next_latched in Hsto].
  split; [done|]. split; [done|].
  split; [|split; [|by apply (in_band_unless_sto m i)]];
    revert Hsto Hself; unfold next; rewrite Hd, bool_decide_false by (by intros []).
  all: by_cycle; intros; split_and?; try done; lia.
Qed.

Lemma torque_passes_monitors_witness :
  (position (demo_inputs 3 99 Request.kSafelyLimitedSpeed false 7) >?
   position_max demo_limits)%dbl = false.
Proof.
  destruct (torque_passes_monitors (demo_machine State.kOperational)
    (demo_inputs 3 99 Request.kSafelyLimitedSpeed false 7)) as (_ & _ & _ & _ & H);
    [vm_compute; reflexivity|].
  apply H; [reflexivity|by left].
Defined.

(** ** Faults and their causes *)

(** The monitor violations, by state and in order of precedence. *)
Definition violation (m : SafetyStateMachine) (i : SafetyInputs) : option FaultReason :=
  match state_ m with
  | State.kLimitedSpeed =>
      if (speed_magnitude i >? limited_speed (limits_ m))%dbl then Some Fault.kSpeedLimitExceeded
      else if position_violated m i then Some Fault.kPositionLimitExceeded else None
  | State.kOperational =>
      if position_violated m i then Some Fault.kPositionLimitExceeded else None
  | State.kOperatingStop =>
      if (dfabs (position i - standstill_reference_ m) >? standstill_window (limits_ m))%dbl
         || (speed_magnitude i >? standstill_speed (limits_ m))%dbl
      then Some Fault.kStandstillDeviation else None
  | State.kStopping =>
      if negb (speed_magnitude i <=? standstill_speed (limits_ m))%dbl
         && (stop_time_limit_ns (limits_ m) <? elapsed (timestamp_ns i) (stop_started_ns_ m))
      then Some Fault.kStopTimeExceeded else None
  | State.kSelfTest | State.kSafeTorqueOff => None
  end.

(** The requests that are refused, given that no monitor is violated. *)
Definition refused (m : SafetyStateMachine) (i : SafetyInputs) : option FaultReason :=
  match request i, state_ m with
  | Request.kSafeOperatingStop, State.kSafeTorqueOff => Some Fault.kInvalidRequest
  | Request.kSafeOperatingStop, (State.kOperational | State.kLimitedSpeed) =>
      if (speed_magnitude i >? standstill_speed (limits_ m))%dbl
      then Some Fault.kInvalidRequest else None
  | Request.kSafelyLimitedSpeed,
    (State.kSafeTorqueOff | State.kOperational | State.kOperatingStop) =>
      if (speed_magnitude i >? limited_speed (limits_ m))%dbl
      then Some Fault.kSpeedLimitExceeded else None
  | _, _ => None
  end.

(** The causes of a fault are exactly the documented ones. In a machine
    without a latched fault and without an unconditional demand, a violated
    monitor faults with its own reason in the same cycle whatever is requested;
    with no violation the only other faults are refused requests (SOS while
    moving or from STO, SLS above the limit); otherwise the cycle ends without
    a fault. A faulting cycle removes torque at once. *)
Theorem fault_causes m i :
  unconditionalDemandActive i = false → fault_ m = Fault.kNone →
  let o := (evaluate m i).1 in
  (fault o = match violation m i with
             | Some reason => reason
             | None => match refused m i with Some reason => reason | None => Fault.kNone end
             end) ∧
  (fault o ≠ Fault.kNone → torque_off o ∧ state o = State.kSafeTorqueOff).
Proof.
  intros Hd Hf. cbv zeta. unfold evaluate; simpl. rewrite outputs_state, outputs_fault.
  split.
  - unfold violation, refused, next. rewrite Hd, bool_decide_false by (by intros []).
    unfold state_monitor, handle_request.
    destruct (state_ m) eqn:Hs; unfold position_violated; rewrite ?Hs; simpl;
      rewrite ?andb_false_r; simpl; repeat (case_match; simplify_eq/=; try done); by rewrite ?enter_fault, ?Hf.
  - intros Hfault. assert (Hsto : state_ (next m i) = State.kSafeTorqueOff).
    { apply (machine_ok_next m i); [|done]. unfold machine_ok. by intros []. }
    by rewrite Hsto.
Qed.

Lemma fault_causes_witness :
  fault (evaluate (demo_machine State.kLimitedSpeed)
    (demo_inputs 6 0 Request.kNone false 0)).1 = Fault.kSpeedLimitExceeded.
Proof.
  destruct (fault_causes (demo_machine State.kLimitedSpeed)
    (demo_inputs 6 0 Request.kNone false 0)) as [-> _]; vm_compute; reflexivity.
Defined.

(** ** The state diagram

    The edges are the pairs of states of the transition table in
    tests/test_safety_state_machine.cpp, and the three that table leaves out: a
    self test that has not finished, and SS1 going on or ending in STO. *)

(** Motion is permitted. *)
Definition in_motion (s : SafetyState) : Prop :=
  s = State.kLimitedSpeed ∨ s = State.kOperational.

(** Energised and controllable, or safely stopped. *)
Definition powered (s : SafetyState) : Prop := in_motion s ∨ s = State.kOperatingStop.

Inductive edge : SafetyState → SafetyState → Prop :=
| edge_stop s : edge s State.kSafeTorqueOff
| edge_self_test : edge State.kSelfTest State.kSelfTest
| edge_decelerating : edge State.kStopping State.kStopping
| edge_enable s' : in_motion s' → edge State.kSafeTorqueOff s'
| edge_move s s' : powered s → in_motion s' → edge s s'
| edge_hold s : powered s → edge s State.kOperatingStop
| edge_safe_stop s : powered s → edge s State.kStopping.

#[local] Hint Constructors edge : core.
#[local] Hint Unfold powered in_motion : core.

Lemma next_edge m i : machine_ok m → edge (state_ m) (state_ (next m i)).
Proof.
  intros Hm. destruct (unconditionalDemandActive i) eqn:Hd.
  { rewrite next_demand, enter_state by done. auto. }
  destruct (decide (fault_ m = Fault.kNone)) as [Hf|Hf].
  - unfold next; rewrite Hd, bool_decide_false by (by intros []).
    unfold state_monitor, handle_request.
    destruct (state_ m) eqn:Hs; repeat (case_match; simplify_eq/=; rewrite ?enter_state, ?Hs; auto 7).
  - rewrite next_latched by done. auto.
Qed.

Lemma stopping_edge s' :
  edge State.kStopping s' → s' = State.kStopping ∨ s' = State.kSafeTorqueOff.
Proof. inversion 1; unfold powered, in_motion in *; intuition congruence. Qed.

Lemma self_test_edge s' :
  edge State.kSelfTest s' → s' = State.kSelfTest ∨ s' = State.kSafeTorqueOff.
Proof. inversion 1; unfold powered, in_motion in *; intuition congruence. Qed.

Lemma edge_to_self_test s : edge s State.kSelfTest → s = State.kSelfTest.
Proof. inversion 1; unfold powered, in_motion in *; intuition congruence. Qed.

Lemma edge_from_sto s' :
  edge State.kSafeTorqueOff s' → s' = State.kSafeTorqueOff ∨ in_motion s'.
Proof. inversion 1; unfold powered, in_motion in *; intuition congruence. Qed.

(** An input that takes the edge into [s'] from [demo_machine]. *)
Definition edge_input (s' : SafetyState) : SafetyInputs :=
  match s' with
  | State.kSafeTorqueOff => demo_estop false
  | State.kSelfTest => mkInputs dzero dzero false true true false Request.kNone false 0
  | State.kStopping => demo_inputs 1 0 Request.kSafeStop1 false 20
  | State.kOperatingStop => demo_inputs 0 0 Request.kSafeOperatingStop false 20
  | State.kLimitedSpeed => demo_inputs 0 0 Request.kSafelyLimitedSpeed false 20
  | State.kOperational => demo_inputs 0 0 Request.kNone false 20
  end.

(** C26: The transitions of the machine are exactly the edges of the diagram. A cycle of
    a well-formed machine moves along an edge, and every edge is taken by some
    machine and input. So motion is entered only from STO, SOS, SLS or
    unrestricted motion, SS1 ends only in STO and is never interrupted by a
    request, and the self test leads only to STO and is never re-entered. *)
Theorem state_diagram s s' :
  edge s s' ↔ ∃ m i, machine_ok m ∧ state_ m = s ∧ state (evaluate m i).1 = s'.
Proof.
  split.
  - intros He.
    exists (demo_machine s),
      (if decide (s = State.kStopping ∧ s' = State.kStopping)
       then demo_inputs 3 0 Request.kNone false 20 else edge_input s').
    split; [by intros []|]. split; [done|].
    destruct s, s'; first [vm_compute; reflexivity | exfalso; clear -He ].
    all: first [by destruct (stopping_edge _ He) | by destruct (self_test_edge _ He)
      | by apply edge_to_self_test in He | destruct (edge_from_sto _ He) as [?|[?|?]]; done].
  - intros (m & i & Hm & <- & <-). unfold evaluate; simpl. rewrite outputs_state.
    by apply next_edge.
Qed.


(** ** SS1 *)

Lemma next_stopping m i :
  state_ m = State.kStopping → fault_ m = Fault.kNone →
  state_ (next m i) = State.kSafeTorqueOff ∨
  next m i = m ∧ elapsed (timestamp_ns i) (stop_started_ns_ m) ≤ stop_time_limit_ns (limits_ m).
Proof.
  intros Hs Hf. unfold next, state_monitor. rewrite Hs.
  rewrite (bool_decide_false (fault_ m ≠ _)) by (by intros []).
  repeat case_match; simplify_eq; rewrite ?enter_state; try (by left); right; split; [done|lia].
Qed.

(** C25: A controlled stop ends in STO in bounded time and cannot be
    interrupted. From the cycle in which SS1 has begun, whatever the inputs
    ask for, the machine stays in SS1 with torque applied and motion prohibited
    up to some cycle in which it enters STO, and that cycle comes no later than
    the first one whose timestamp is more than the stop time limit after the
    start of the stop. *)
Theorem safe_stop_bounded m l i :
  state_ m = State.kStopping → fault_ m = Fault.kNone →
  stop_time_limit_ns (limits_ m) < elapsed (timestamp_ns i) (stop_started_ns_ m) →
  ∃ k, (k ≤ length l)%nat ∧
    state_ (cycles m (take (S k) (l ++ [i]))) = State.kSafeTorqueOff ∧
    ∀ j, (j ≤ k)%nat → cycles m (take j (l ++ [i])) = m ∧
      torque_permitted (outputsFor m (state_ m)) = true ∧
      motion_permitted (outputsFor m (state_ m)) = false.
Proof.
  intros Hs Hf Ht.
  assert (Hnow : ∀ j, (j ≤ 0)%nat → ∀ l', cycles m (take j l') = m).
  { intros j Hj l'. by replace j with 0%nat by lia. }
  induction l as [|i' l IH].
  - exists 0%nat. split; [done|]. split.
    + destruct (next_stopping m i Hs Hf) as [?|[_ ?]]; [done|lia].
    + intros j Hj. rewrite Hnow, Hs by done. done.
  - destruct (next_stopping m i' Hs Hf) as [Hsto|[Heq _]].
    + exists 0%nat. split; [lia|]. split; [done|].
      intros j Hj. rewrite Hnow, Hs by done. done.
    + destruct IH as (k & Hk & Hsto & Hbefore). exists (S k). simpl length.
      split; [lia|]. change (take (S (S k)) ((i' :: l) ++ [i])) with (i' :: take (S k) (l ++ [i])).
      unfold cycles in *; simpl; rewrite Heq. split; [done|].
      intros [|j] Hj; [rewrite Hs; done|]. simpl. rewrite Heq. apply Hbefore; lia.
Qed.

Lemma safe_stop_bounded_witness :
  ∃ k, (k ≤ 2)%nat ∧
    state_ (cycles (demo_machine State.kStopping) (take (S k)
      ([demo_inputs 3 0 Request.kNone false 300; demo_inputs 2 0 Request.kNone true 400] ++
       [demo_inputs 2 0 Request.kNone true 511]))) = State.kSafeTorqueOff.
Proof.
  destruct (safe_stop_bounded (demo_machine State.kStopping)
    [demo_inputs 3 0 Request.kNone false 300; demo_inputs 2 0 Request.kNone true 400]
    (demo_inputs 2 0 Request.kNone true 511)) as (k & Hk & H & _);
    [reflexivity|reflexivity|by_compute|].
  by exists k.
Defined.

(** ** The self test *)

Lemma next_self_test m i :
  state_ m = State.kSelfTest → fault_ m = Fault.kNone → unconditionalDemandActive i = false →
  next m i = if self_test_passed i then with_state State.kSafeTorqueOff m else m.
Proof.
  intros Hs Hf Hd. unfold next, state_monitor. rewrite Hs, Hd.
  rewrite bool_decide_false by (by intros []). by destruct (self_test_passed i).
Qed.

(** Diagnostics gate enabling. As long as no unconditional demand is active
    the machine stays in the self test, with torque off, through any number of
    cycles without a passed self test, and the first cycle that reports success
    leads to STO with torque off and no fault, whatever is requested. *)
Theorem self_test_gates limits l i :
  Forall (λ j, unconditionalDemandActive j = false ∧ self_test_passed j = false) l →
  unconditionalDemandActive i = false →
  let o := (evaluate (cycles (newMachine limits) l) i).1 in
  cycles (newMachine limits) l = newMachine limits ∧ torque_off o ∧
  fault o = Fault.kNone ∧
  state o = if self_test_passed i then State.kSafeTorqueOff else State.kSelfTest.
Proof.
  intros Hl Hi. cbv zeta.
  assert (Hc : cycles (newMachine limits) l = newMachine limits).
  { induction Hl as [|j l [Hd Hj] Hl IH]; [done|]. unfold cycles; simpl.
    rewrite next_self_test, Hj by done. apply IH. }
  rewrite Hc. unfold evaluate; simpl. rewrite next_self_test by done.
  by destruct (self_test_passed i).
Qed.

Lemma self_test_gates_witness :
  state (evaluate (cycles (newMachine demo_limits) [edge_input State.kSelfTest])
    (demo_inputs 0 0 Request.kNone true 5)).1 = State.kSafeTorqueOff.
Proof.
  destruct (self_test_gates demo_limits [edge_input State.kSelfTest]
    (demo_inputs 0 0 Request.kNone true 5)) as (_ & _ & _ & ->);
    [by_compute|reflexivity|reflexivity].
Defined.

(** An unconditional demand during the self test bypasses it: for every
    configuration there are three cycles, none of which reports a passed self
    test, after which unrestricted motion is permitted. *)
Theorem self_test_bypass limits :
  ∃ l i, Forall (λ j, self_test_passed j = false) (l ++ [i]) ∧ length l = 2%nat ∧
    state (evaluate (cycles (newMachine limits) l) i).1 = State.kOperational ∧
    motion_permitted (evaluate (cycles (newMachine limits) l) i).1 = true.
Proof.
  pose (run r ack estop := mkInputs dzero dzero estop true true false r ack 0).
  exists [run Request.kNone false true; run Request.kNone true false], (run Request.kNone false false).
  split; [by repeat constructor|]. split; [done|].
  destruct limits as [? ? ? [] ? ? ?]; by split.
Qed.

(** ** The position band *)

(** The position band is not checked in the cycle that enters motion. From
    STO without a fault a request for unrestricted motion is granted at any
    position, also outside the band; the next cycle at that position faults. *)
Theorem band_unchecked_on_entry m i j :
  state_ m = State.kSafeTorqueOff → fault_ m = Fault.kNone →
  unconditionalDemandActive i = false → request i = Request.kNone →
  unconditionalDemandActive j = false → position j = position i →
  position_monitoring_enabled (limits_ m) = true →
  (position i >? position_max (limits_ m))%dbl = true →
  motion_permitted (evaluate m i).1 = true ∧
  fault (evaluate (evaluate m i).2 j).1 = Fault.kPositionLimitExceeded.
Proof.
  intros Hs Hf Hi Hr Hj Hpos Hen Hout.
  assert (Hnext : next m i = with_state State.kOperational m).
  { unfold next, state_monitor, position_violated, handle_request.
    rewrite Hs, Hi, Hr, bool_decide_false by (by intros []). simpl. by rewrite andb_false_r. }
  unfold evaluate; simpl. rewrite Hnext. split; [done|].
  rewrite outputs_fault. unfold next, state_monitor, position_violated.
  rewrite Hj. simpl. rewrite bool_decide_false by (by intros []).
  rewrite Hen, Hpos, Hout, orb_true_r. simpl. by rewrite enter_fault, bool_decide_true.
Qed.

Lemma band_unchecked_on_entry_witness :
  motion_permitted (evaluate (demo_machine State.kSafeTorqueOff)
    (demo_inputs 0 500 Request.kNone false 0)).1 = true.
Proof.
  apply (band_unchecked_on_entry (demo_machine State.kSafeTorqueOff)
    (demo_inputs 0 500 Request.kNone false 0) (demo_inputs 0 500 Request.kNone false 1));
    vm_compute; reflexivity.
Defined.

(** ** The invariant of every operation *)

(** The calls a client can make. *)
Inductive operation :=
| op_evaluate (i : SafetyInputs)
| op_forceFault (reason : FaultReason)
| op_setLimits (limits : SafetyLimits)
| op_reset.

Definition apply_operation (m : SafetyStateMachine) (op : operation) : SafetyStateMachine :=
  match op with
  | op_evaluate i => (evaluate m i).2
  | op_forceFault reason => forceFault reason m
  | op_setLimits limits => setLimits limits m
  | op_reset => reset m
  end.

(** After any sequence of calls on a fresh machine a latched fault means
    STO, so nothing but the brake is ever commanded while a fault is pending;
    what the machine reports agrees with its state: torque is permitted exactly
    outside STO and the self test, motion exactly under SLS and unrestricted
    motion, and the brake is released exactly when torque is permitted. *)
Theorem machine_invariant limits ops :
  let m := foldl apply_operation (newMachine limits) ops in
  let o := outputsFor m (state_ m) in
  machine_ok m ∧ (fault_latched o = true → torque_off o) ∧
  torque_permitted o = negb (brake_engaged o) ∧
  (torque_permitted o = false ↔ state_ m = State.kSafeTorqueOff ∨ state_ m = State.kSelfTest) ∧
  (motion_permitted o = true ↔ in_motion (state_ m)).
Proof.
  cbv zeta. set (m := foldl _ _ _).
  assert (Hok : machine_ok m).
  { subst m. generalize (machine_ok_new limits). generalize (newMachine limits).
    induction ops as [|op ops IH]; intros m Hm; [done|]. apply IH.
    destruct op; simpl; auto with safeedge; intros []; done. }
  clearbody m. split; [done|]. split.
  - rewrite outputs_latched. unfold faultLatched. intros Hl%bool_decide_eq_true.
    rewrite (Hok Hl). apply outputs_sto.
  - unfold in_motion. destruct (state_ m); simpl; intuition congruence.
Qed.
