(* ===== verification/DualChannel.v ===== *)
(** * The 1oo2D supervisor

    [src/include/safeedge/safety/dual_channel.hpp] and
    [src/src/safety/dual_channel.cpp]: two supervisor channels, the combination
    of their outputs, the cross-comparison with its tolerance timer and the
    discrepancy latch. *)

From Stdlib Require Import SpecFloat.
From stdpp Require Import base numbers list option.
From S2P Require Import Prelude Float64 SafetyStateMachine SafetyStateMachineSafety.

Module DualChannelSupervisor.

Record Config := mkConfig {
  config_limits : SafetyLimits;
  discrepancy_tolerance_ns : Z
}.

Record Diagnostics := mkDiagnostics {
  disagreeing_cycles : Z;
  discrepancy_faults : Z;
  longest_disagreement_ns : Z
}.

Definition newDiagnostics : Diagnostics := mkDiagnostics 0 0 0.

Record DualChannelSupervisor := mkDual {
  config_ : Config;
  channel_a_ : SafetyStateMachine;
  channel_b_ : SafetyStateMachine;
  disagreement_since_ns_ : Z;
  discrepancy_latched_ : bool;
  diagnostics_ : Diagnostics
}.

Definition newDual (config : Config) : DualChannelSupervisor :=
  mkDual config (newMachine (config_limits config)) (newMachine (config_limits config))
    (-1) false newDiagnostics.

Definition disagreeing (d : DualChannelSupervisor) : bool := 0 <=? disagreement_since_ns_ d.

(** [std::min] on the enumeration. *)
Definition min_state (a b : SafetyState) : SafetyState :=
  if state_value b <? state_value a then b else a.

Definition combine (a b : SafetyOutputs) : SafetyOutputs :=
  mkOutputs
    (torque_permitted a && torque_permitted b)
    (motion_permitted a && motion_permitted b)
    (dmin (speed_limit a) (speed_limit b))
    (brake_engaged a || brake_engaged b)
    (min_state (state a) (state b))
    (if bool_decide (fault a ≠ Fault.kNone) then fault a else fault b)
    (fault_latched a || fault_latched b).

Definition reset (d : DualChannelSupervisor) : DualChannelSupervisor :=
  mkDual (config_ d) (SafetyStateMachine.reset (channel_a_ d))
    (SafetyStateMachine.reset (channel_b_ d)) (-1) false newDiagnostics.

(** The start of the current disagreement once a disagreeing cycle at [now_ns]
    has been seen. *)
Definition since (d : DualChannelSupervisor) (now_ns : Z) : Z :=
  if disagreement_since_ns_ d <? 0 then now_ns else disagreement_since_ns_ d.

(** The cross-comparison of two channel results, [d] holding the channels after
    their evaluation. *)
Definition cross_compare (d : DualChannelSupervisor) (a b : SafetyOutputs) (now_ns : Z)
  : DualChannelSupervisor :=
  if bool_decide (state a ≠ state b) then
    let start := since d now_ns in
    let duration := elapsed now_ns start in
    let diag := diagnostics_ d in
    let longest := Z.max (longest_disagreement_ns diag) duration in
    if (discrepancy_tolerance_ns (config_ d) <? duration) && negb (discrepancy_latched_ d) then
      mkDual (config_ d)
        (forceFault Fault.kChannelDiscrepancy (channel_a_ d))
        (forceFault Fault.kChannelDiscrepancy (channel_b_ d)) start true
        (mkDiagnostics (u64 (disagreeing_cycles diag + 1))
           (u64 (discrepancy_faults diag + 1)) longest)
    else
      mkDual (config_ d) (channel_a_ d) (channel_b_ d) start (discrepancy_latched_ d)
        (mkDiagnostics (u64 (disagreeing_cycles diag + 1)) (discrepancy_faults diag) longest)
  else
    mkDual (config_ d) (channel_a_ d) (channel_b_ d) (-1) (discrepancy_latched_ d)
      (diagnostics_ d).

Definition with_channels (a b : SafetyStateMachine) (d : DualChannelSupervisor)
  : DualChannelSupervisor :=
  mkDual (config_ d) a b (disagreement_since_ns_ d) (discrepancy_latched_ d) (diagnostics_ d).

Definition release_latch (d : DualChannelSupervisor) : DualChannelSupervisor :=
  mkDual (config_ d) (channel_a_ d) (channel_b_ d) (disagreement_since_ns_ d) false
    (diagnostics_ d).

(** The outputs while a discrepancy is latched. *)
Definition discrepancy_outputs : SafetyOutputs :=
  mkOutputs false false dzero true State.kSafeTorqueOff Fault.kChannelDiscrepancy true.

Definition evaluate (d : DualChannelSupervisor) (channel_a_inputs channel_b_inputs : SafetyInputs)
    (now_ns : Z) : SafetyOutputs * DualChannelSupervisor :=
  let (a, channel_a) := SafetyStateMachine.evaluate (channel_a_ d) channel_a_inputs in
  let (b, channel_b) := SafetyStateMachine.evaluate (channel_b_ d) channel_b_inputs in
  let d := cross_compare (with_channels channel_a channel_b d) a b now_ns in
  if discrepancy_latched_ d then
    if negb (faultLatched (channel_a_ d)) && negb (faultLatched (channel_b_ d))
    then (combine a b, release_latch d)
    else (discrepancy_outputs, d)
  else (combine a b, d).

(** ** Combination *)

Lemma state_value_inj s s' : state_value s = state_value s' → s = s'.
Proof. by destruct s, s'. Qed.

Lemma min_state_comm s s' : min_state s s' = min_state s' s.
Proof.
  unfold min_state. destruct (Z.ltb_spec (state_value s) (state_value s')),
    (Z.ltb_spec (state_value s') (state_value s)); try lia; auto.
  apply state_value_inj; lia.
Qed.

Lemma min_state_spec s s' :
  (min_state s s' = s ∨ min_state s s' = s') ∧
  state_value (min_state s s') = state_value s `min` state_value s'.
Proof.
  unfold min_state. destruct (Z.ltb_spec (state_value s') (state_value s)); split; auto; lia.
Qed.

(** What a result permits, as the drive sees it. *)
Definition permits (o : SafetyOutputs) : bool * bool * double * bool * SafetyState :=
  (torque_permitted o, motion_permitted o, speed_limit o, brake_engaged o, state o).

(** A usable speed limit: a number that is not below zero, and not the negative
    zero. *)
Definition speed_limit_ok (limits : SafetyLimits) : Prop :=
  (dzero <=? limited_speed limits)%dbl = true ∧ limited_speed limits ≠ S754_zero true.

#[export] Instance speed_limit_ok_dec limits : Decision (speed_limit_ok limits).
Proof. unfold speed_limit_ok; apply _. Defined.

Lemma dmin_zero_l x : (dzero <=? x)%dbl = true → dmin dzero x = dzero.
Proof. unfold dmin. destruct x as [[]|[]| |[] ? ?]; simpl; done. Qed.

Lemma dmin_zero_r x : (dzero <=? x)%dbl = true → x ≠ S754_zero true → dmin x dzero = dzero.
Proof. unfold dmin. destruct x as [[]|[]| |[] ? ?]; simpl; done. Qed.

Lemma dmin_infinity_l x : (dzero <=? x)%dbl = true → dmin dinfinity x = x.
Proof. unfold dmin. destruct x as [[]|[]| |[] ? ?]; simpl; done. Qed.

Lemma dmin_infinity_r x : (dzero <=? x)%dbl = true → dmin x dinfinity = x.
Proof. unfold dmin. destruct x as [[]|[]| |[] ? ?]; simpl; done. Qed.

Lemma dmin_idem x : dmin x x = x.
Proof. unfold dmin. by destruct (x <? x)%dbl. Qed.

(** The combination is the more restrictive channel: for channels with the
    same limits (a speed limit that is a number not below zero) what the
    combination of two results permits is, in every field, what a channel in
    the lower of the two states permits, so the order of the channels does not
    matter; a fault of either channel is reported. *)
Theorem combine_most_restrictive (ma mb : SafetyStateMachine) :
  limits_ ma = limits_ mb → speed_limit_ok (limits_ ma) →
  let a := outputsFor ma (state_ ma) in
  let b := outputsFor mb (state_ mb) in
  permits (combine a b) = permits (outputsFor ma (min_state (state_ ma) (state_ mb))) ∧
  permits (combine a b) = permits (combine b a) ∧
  fault_latched (combine a b) = faultLatched ma || faultLatched mb ∧
  (fault_latched (combine a b) = true ↔ fault (combine a b) ≠ Fault.kNone).
Proof.
  intros Hl [Hok Hz]; cbv zeta. set (sa := state_ ma); set (sb := state_ mb); clearbody sa sb.
  assert (Hab : permits (combine (outputsFor ma sa) (outputsFor mb sb)) =
                permits (outputsFor ma (min_state sa sb)) ∧
                permits (combine (outputsFor mb sb) (outputsFor ma sa)) =
                permits (outputsFor ma (min_state sa sb))).
  { destruct sa, sb; unfold permits, combine, outputsFor; cbn -[dmin]; rewrite <- ?Hl;
      by rewrite ?dmin_idem, ?dmin_zero_l, ?dmin_zero_r, ?dmin_infinity_l, ?dmin_infinity_r. }
  destruct Hab as [Hab Hba]. split; [done|]. split; [by rewrite Hab, Hba|].
  simpl. rewrite !outputs_latched, !outputs_fault. split; [done|].
  unfold faultLatched. repeat case_bool_decide; simpl; intuition congruence.
Qed.

Lemma combine_most_restrictive_witness :
  permits (combine (outputsFor (demo_machine State.kOperational) State.kOperational)
             (outputsFor (demo_machine State.kLimitedSpeed) State.kLimitedSpeed)) =
  permits (outputsFor (demo_machine State.kOperational) State.kLimitedSpeed).
Proof.
  destruct (combine_most_restrictive (demo_machine State.kOperational)
    (demo_machine State.kLimitedSpeed)) as [H _]; [reflexivity|by_compute|exact H].
Defined.

(** ** One cycle of both channels *)

Lemma cross_compare_channels d a b now :
  let d' := cross_compare d a b now in
  (channel_a_ d' = channel_a_ d ∧ channel_b_ d' = channel_b_ d) ∨
  (channel_a_ d' = forceFault Fault.kChannelDiscrepancy (channel_a_ d) ∧
   channel_b_ d' = forceFault Fault.kChannelDiscrepancy (channel_b_ d)).
Proof.
  cbv zeta. unfold cross_compare. case_bool_decide; [|by left].
  destruct (_ && _); [by right|by left].
Qed.

Lemma evaluate_channels d ia ib now :
  let d' := (evaluate d ia ib now).2 in
  (channel_a_ d' = next (channel_a_ d) ia ∧ channel_b_ d' = next (channel_b_ d) ib) ∨
  (channel_a_ d' = forceFault Fault.kChannelDiscrepancy (next (channel_a_ d) ia) ∧
   channel_b_ d' = forceFault Fault.kChannelDiscrepancy (next (channel_b_ d) ib)).
Proof.
  cbv zeta. unfold evaluate, SafetyStateMachine.evaluate.
  match goal with |- context [cross_compare ?d ?a ?b ?n] =>
    pose proof (cross_compare_channels d a b n) as H; simpl in H;
    set (c := cross_compare d a b n) in * end.
  clearbody c. destruct (discrepancy_latched_ c); [destruct (_ && _)|]; simpl; done.
Qed.

Lemma force_keeps_latch reason m :
  fault_ m ≠ Fault.kNone → fault_ (forceFault reason m) = fault_ m.
Proof. intros Hf. unfold forceFault. rewrite enter_fault. by rewrite bool_decide_false. Qed.

(** Either channel's latch survives every cycle that does not acknowledge it. *)
Lemma evaluate_holds_latch_a d ia ib now :
  fault_ (channel_a_ d) ≠ Fault.kNone → holds_latch ia →
  fault_ (channel_a_ (evaluate d ia ib now).2) ≠ Fault.kNone.
Proof.
  intros Hf Hi. destruct (next_holds_latch _ _ Hf Hi) as [Hn _].
  destruct (evaluate_channels d ia ib now) as [[-> _]|[-> _]];
    rewrite ?force_keeps_latch; congruence.
Qed.

Lemma evaluate_holds_latch_b d ia ib now :
  fault_ (channel_b_ d) ≠ Fault.kNone → holds_latch ib →
  fault_ (channel_b_ (evaluate d ia ib now).2) ≠ Fault.kNone.
Proof.
  intros Hf Hi. destruct (next_holds_latch _ _ Hf Hi) as [Hn _].
  destruct (evaluate_channels d ia ib now) as [[_ ->]|[_ ->]];
    rewrite ?force_keeps_latch; congruence.
Qed.

Lemma forced_latched reason m :
  reason ≠ Fault.kNone → fault_ (forceFault reason m) ≠ Fault.kNone.
Proof. intros. unfold forceFault. rewrite enter_fault. by case_bool_decide. Qed.

(** Some channel holds a fault. *)
Definition latched (d : DualChannelSupervisor) : bool :=
  faultLatched (channel_a_ d) || faultLatched (channel_b_ d).

(** The outputs report a latched fault exactly when a channel holds one. *)
Lemma evaluate_latched d ia ib now :
  fault_latched (evaluate d ia ib now).1 = latched (evaluate d ia ib now).2.
Proof.
  unfold evaluate, SafetyStateMachine.evaluate, latched.
  set (ma := next (channel_a_ d) ia). set (mb := next (channel_b_ d) ib).
  assert (Hf : ∀ m, faultLatched (forceFault Fault.kChannelDiscrepancy m) = true).
  { intros m. apply bool_decide_eq_true. by apply forced_latched. }
  unfold cross_compare. cbn [channel_a_ channel_b_ with_channels discrepancy_latched_].
  repeat match goal with
  | |- context [if ?b then _ else _] => destruct b eqn:?
  end; cbn [channel_a_ channel_b_ release_latch combine discrepancy_outputs fault_latched fst snd
    discrepancy_latched_] in *; rewrite ?outputs_latched, ?Hf in *; try done.
  all: destruct (faultLatched ma), (faultLatched mb); done.
Qed.

(** A latch that is not acknowledged stays. *)
Lemma evaluate_keeps_latched d i now :
  latched d = true → acknowledge i = false → latched (evaluate d i i now).2 = true.
Proof.
  unfold latched. intros Hl Hi. apply orb_true_iff in Hl. apply orb_true_iff.
  unfold faultLatched in *. rewrite !bool_decide_eq_true in *.
  destruct Hl; [left; apply evaluate_holds_latch_a|right; apply evaluate_holds_latch_b];
    try done; by right.
Qed.

(** A cycle: the inputs of both channels and its time. *)
Record Cycle := mkCycle { inputs_a : SafetyInputs; inputs_b : SafetyInputs; now : Z }.

Definition step (d : DualChannelSupervisor) (c : Cycle) : SafetyOutputs * DualChannelSupervisor :=
  evaluate d (inputs_a c) (inputs_b c) (now c).

Definition steps (d : DualChannelSupervisor) (l : list Cycle) : DualChannelSupervisor :=
  foldl (λ d c, (step d c).2) d l.

(** The results the channels report in a cycle. *)
Definition result_a (d : DualChannelSupervisor) (c : Cycle) : SafetyOutputs :=
  (SafetyStateMachine.evaluate (channel_a_ d) (inputs_a c)).1.
Definition result_b (d : DualChannelSupervisor) (c : Cycle) : SafetyOutputs :=
  (SafetyStateMachine.evaluate (channel_b_ d) (inputs_b c)).1.

Lemma step_outputs d c :
  (step d c).1 = combine (result_a d c) (result_b d c) ∨ (step d c).1 = discrepancy_outputs.
Proof.
  unfold step, evaluate, result_a, result_b. repeat case_match; simplify_eq/=; auto.
Qed.

Lemma result_torque m i :
  torque_permitted (SafetyStateMachine.evaluate m i).1 = true →
  unconditionalDemandActive i = false ∧ fault_ m = Fault.kNone.
Proof.
  unfold SafetyStateMachine.evaluate; simpl; rewrite torque_permitted_iff; intros [Hsto _].
  destruct (unconditionalDemandActive i) eqn:Hd; [by rewrite next_demand, enter_state in Hsto|].
  destruct (decide (fault_ m = Fault.kNone)) as [Hf|Hf]; [done|].
  by rewrite next_latched in Hsto.
Qed.

(** C9: One channel suffices to demand the safe reaction. If the supervisor
    permits torque (motion), both channels permitted it in that cycle, from
    their own inputs and neither with a demand or a latched fault; the speed
    limit is not above either channel's, and the brake is released only if
    both channels release it. *)
Theorem one_channel_suffices d c :
  let o := (step d c).1 in
  let a := result_a d c in let b := result_b d c in
  (torque_permitted o = true →
     torque_permitted a = true ∧ torque_permitted b = true ∧
     unconditionalDemandActive (inputs_a c) = false ∧
     unconditionalDemandActive (inputs_b c) = false ∧
     fault_ (channel_a_ d) = Fault.kNone ∧ fault_ (channel_b_ d) = Fault.kNone) ∧
  (motion_permitted o = true →
     motion_permitted a = true ∧ motion_permitted b = true ∧
     (speed_limit a <? speed_limit o)%dbl = false ∧ (speed_limit b <? speed_limit o)%dbl = false) ∧
  (brake_engaged o = false → brake_engaged a = false ∧ brake_engaged b = false).
Proof.
  cbv zeta. destruct (step_outputs d c) as [-> | ->]; [|done].
  split; [|split].
  - intros [Ha Hb]%andb_true_iff.
    destruct (result_torque _ _ Ha), (result_torque _ _ Hb). split_and!; done.
  - intros [Ha Hb]%andb_true_iff. split; [done|]. split; [done|]. simpl. unfold dmin.
    destruct (speed_limit (result_b d c) <? speed_limit (result_a d c))%dbl eqn:E.
    + split; [by apply dlt_not_lt|]. by apply dlt_irrefl.
    + split; [by apply dlt_irrefl|done].
  - by intros ?%orb_false_iff.
Qed.

(** ** Discrepancies *)

(** The channels report different states in the cycle. *)
Definition disagree (d : DualChannelSupervisor) (c : Cycle) : Prop :=
  state (result_a d c) ≠ state (result_b d c).

#[export] Instance disagree_dec d c : Decision (disagree d c).
Proof. unfold disagree; apply _. Defined.

Lemma step_disagree_tolerated d c :
  disagree d c → discrepancy_latched_ d = false →
  elapsed (now c) (since d (now c)) ≤ discrepancy_tolerance_ns (config_ d) →
  (step d c).1 = combine (result_a d c) (result_b d c) ∧
  config_ (step d c).2 = config_ d ∧
  discrepancy_latched_ (step d c).2 = false ∧
  disagreement_since_ns_ (step d c).2 = since d (now c) ∧
  discrepancy_faults (diagnostics_ (step d c).2) = discrepancy_faults (diagnostics_ d).
Proof.
  unfold disagree, result_a, result_b, step, evaluate, SafetyStateMachine.evaluate, cross_compare.
  simpl. intros Hd Hl Ht. rewrite bool_decide_true by done. simpl. unfold since in *; simpl.
  rewrite (proj2 (Z.ltb_ge _ _)) by done. simpl. by rewrite Hl.
Qed.

Lemma step_disagree_faults d c :
  disagree d c → discrepancy_latched_ d = false →
  discrepancy_tolerance_ns (config_ d) < elapsed (now c) (since d (now c)) →
  (step d c).1 = discrepancy_outputs ∧
  discrepancy_latched_ (step d c).2 = true ∧
  channel_a_ (step d c).2 =
    forceFault Fault.kChannelDiscrepancy (next (channel_a_ d) (inputs_a c)) ∧
  channel_b_ (step d c).2 =
    forceFault Fault.kChannelDiscrepancy (next (channel_b_ d) (inputs_b c)).
Proof.
  unfold disagree, result_a, result_b, step, evaluate, SafetyStateMachine.evaluate, cross_compare.
  simpl. intros Hd Hl Ht. rewrite bool_decide_true by done. simpl. unfold since in *; simpl.
  rewrite (proj2 (Z.ltb_lt _ _)), Hl by done. simpl.
  unfold faultLatched, forceFault. rewrite bool_decide_true; [done|].
  rewrite enter_fault. by case_bool_decide.
Qed.

(** A run of cycles in which the channels disagree without a break. *)
Fixpoint disagree_throughout (d : DualChannelSupervisor) (l : list Cycle) : Prop :=
  match l with
  | [] => True
  | c :: l => disagree d c ∧ disagree_throughout (step d c).2 l
  end.

#[export] Instance disagree_throughout_dec d l : Decision (disagree_throughout d l).
Proof. revert d; induction l; intros d; simpl; apply _. Defined.

Lemma tolerated_run d l t0 :
  discrepancy_latched_ d = false → disagreement_since_ns_ d = t0 → 0 ≤ t0 → is_i64 t0 →
  disagree_throughout d l →
  Forall (λ c, 0 ≤ now c ∧ is_i64 (now c) ∧ now c - t0 ≤ discrepancy_tolerance_ns (config_ d)) l →
  discrepancy_latched_ (steps d l) = false ∧ disagreement_since_ns_ (steps d l) = t0 ∧
  config_ (steps d l) = config_ d ∧
  discrepancy_faults (diagnostics_ (steps d l)) = discrepancy_faults (diagnostics_ d).
Proof.
  intros Hl Hs H0 Hr Hd Hall. revert d Hl Hs Hd Hall.
  induction l as [|c l IH]; intros d Hl Hs Hd Hall; [done|].
  destruct Hd as [Hc Hd]. apply Forall_cons_1 in Hall as [(Hn0 & Hn & Ht) Hall].
  assert (Hsince : since d (now c) = t0).
  { unfold since. by rewrite Hs, (proj2 (Z.ltb_ge _ _)). }
  destruct (step_disagree_tolerated d c Hc Hl) as (_ & Hcfg & Hl' & Hs' & Hf').
  { by rewrite Hsince, elapsed_exact. }
  destruct (IH (step d c).2) as (H1 & H2 & H3 & H4); [done|congruence|done| |].
  - by rewrite Hcfg.
  - unfold steps in *; simpl. split_and!; congruence.
Qed.

Lemma disagree_throughout_app d l l' :
  disagree_throughout d (l ++ l') ↔ disagree_throughout d l ∧ disagree_throughout (steps d l) l'.
Proof.
  revert d; induction l as [|c l IH]; intros d; simpl; [tauto|].
  rewrite IH. change (steps d (c :: l)) with (steps (step d c).2 l). tauto.
Qed.

Definition demo_dual : DualChannelSupervisor :=
  mkDual (mkConfig demo_limits 100) (demo_machine State.kOperational)
    (demo_machine State.kOperational) (-1) false newDiagnostics.

(** Channel A asks for unrestricted motion, channel B for SLS. *)
Definition demo_disagreement (t : Z) : Cycle :=
  mkCycle (demo_inputs 1 0 Request.kNone false t)
    (demo_inputs 1 0 Request.kSafelyLimitedSpeed false t) t.



(** ** Recovery *)

(** What holds between cycles. *)
Definition dual_ok (d : DualChannelSupervisor) : Prop :=
  machine_ok (channel_a_ d) ∧ machine_ok (channel_b_ d) ∧
  (discrepancy_latched_ d = true →
   faultLatched (channel_a_ d) = true ∨ faultLatched (channel_b_ d) = true).

#[export] Instance dual_ok_dec d : Decision (dual_ok d).
Proof. unfold dual_ok; apply _. Defined.

(** The power-on condition, also after a reset. *)
Lemma dual_ok_new config limits limits' diag :
  dual_ok (mkDual config (newMachine limits) (newMachine limits') (-1) false diag).
Proof. split; [by intros []|]. split; [by intros []|done]. Qed.

Lemma dual_ok_step d c : dual_ok d → dual_ok (step d c).2.
Proof.
  intros (Ha & Hb & _). unfold dual_ok.
  assert (Hch : machine_ok (channel_a_ (step d c).2) ∧ machine_ok (channel_b_ (step d c).2)).
  { unfold step. destruct (evaluate_channels d (inputs_a c) (inputs_b c) (now c))
      as [[-> ->]|[-> ->]]; split; unfold forceFault; auto with safeedge. }
  destruct Hch as [Ha' Hb']. split; [done|]. split; [done|]. clear.
  unfold step, evaluate, SafetyStateMachine.evaluate.
  match goal with |- context [cross_compare ?d ?a ?b ?n] =>
    generalize (cross_compare d a b n); intros d' end.
  destruct (discrepancy_latched_ d') eqn:E; [|simpl; congruence].
  destruct (faultLatched (channel_a_ d')) eqn:Fa, (faultLatched (channel_b_ d')) eqn:Fb;
    simpl; intros; try done; auto.
Qed.

(** After any sequence of cycles, resets included, both channels are well
    formed and a pending discrepancy latch is backed by a latched channel, so
    torque is off while it is pending. *)
Theorem dual_invariant config l :
  let d := foldl (λ d (c : option Cycle),
             match c with Some c => (step d c).2 | None => reset d end) (newDual config) l in
  dual_ok d ∧
  ∀ c, discrepancy_latched_ (step d c).2 = true → torque_off (step d c).1.
Proof.
  cbv zeta. set (d := foldl _ _ _).
  assert (Hok : dual_ok d).
  { subst d. assert (Hn : dual_ok (newDual config)) by apply dual_ok_new.
    revert Hn. generalize (newDual config). induction l as [|[c|] l IH]; intros d Hd; [done| |];
      apply IH; [by apply dual_ok_step|by apply dual_ok_new]. }
  split; [done|]. intros c. clear. unfold step, evaluate, SafetyStateMachine.evaluate.
  match goal with |- context [cross_compare ?d ?a ?b ?n] =>
    generalize (cross_compare d a b n); intros d' end.
  destruct (discrepancy_latched_ d') eqn:E; [|simpl; congruence].
  destruct (_ && _); simpl; done.
Qed.

Lemma steps_hold_latch d l :
  (fault_ (channel_a_ d) ≠ Fault.kNone → Forall (λ c, holds_latch (inputs_a c)) l →
   fault_ (channel_a_ (steps d l)) ≠ Fault.kNone) ∧
  (fault_ (channel_b_ d) ≠ Fault.kNone → Forall (λ c, holds_latch (inputs_b c)) l →
   fault_ (channel_b_ (steps d l)) ≠ Fault.kNone).
Proof.
  revert d; induction l as [|c l IH]; intros d; [done|].
  destruct (IH (step d c).2) as [IHa IHb]. split; intros Hf [Hc Hl]%Forall_cons_1.
  - apply IHa; [|done]. by apply evaluate_holds_latch_a.
  - apply IHb; [|done]. by apply evaluate_holds_latch_b.
Qed.

Lemma not_all_hold (f : Cycle → SafetyInputs) l :
  ¬ Forall (λ c, holds_latch (f c)) l →
  ∃ c, c ∈ l ∧ acknowledge (f c) = true ∧ unconditionalDemandActive (f c) = false.
Proof.
  intros H%not_Forall_Exists; [|intros; apply _]. apply Exists_exists in H as (c & Hc & Hn).
  exists c. split; [by apply list_elem_of_In|]. unfold holds_latch in Hn.
  destruct (acknowledge (f c)) eqn:Ea; [|by destruct Hn; right].
  by destruct (unconditionalDemandActive (f c)) eqn:Ed; [destruct Hn; left|].
Qed.

(** Recovery from a discrepancy needs both channels. The latch is released
    exactly when neither channel reports a fault any more; and from the moment
    a discrepancy is latched on both channels, torque is permitted again only
    after each of the two channels has been acknowledged, through its own
    inputs and with no demand active, in an earlier cycle. Agreement of the
    channels alone never releases it. *)
Theorem discrepancy_recovery d l c :
  fault_ (channel_a_ d) ≠ Fault.kNone → fault_ (channel_b_ d) ≠ Fault.kNone →
  (discrepancy_latched_ d = true →
   discrepancy_latched_ (step d c).2 = false ↔
   fault_ (channel_a_ (step d c).2) = Fault.kNone ∧ fault_ (channel_b_ (step d c).2) = Fault.kNone) ∧
  (torque_permitted (step (steps d l) c).1 = true →
   (∃ x, x ∈ l ∧ acknowledge (inputs_a x) = true ∧
         unconditionalDemandActive (inputs_a x) = false) ∧
   (∃ x, x ∈ l ∧ acknowledge (inputs_b x) = true ∧
         unconditionalDemandActive (inputs_b x) = false)).
Proof.
  intros Ha Hb. split.
  - intros Hl. unfold step, evaluate, SafetyStateMachine.evaluate.
    match goal with |- context [cross_compare ?d ?a ?b ?n] =>
      assert (Hd' : discrepancy_latched_ (cross_compare d a b n) = true);
      [|revert Hd'; generalize (cross_compare d a b n)] end.
    { unfold cross_compare. repeat case_match; simpl; congruence. }
    intros d' Hd'. rewrite Hd'. rewrite <- !faultLatched_false.
    destruct (faultLatched (channel_a_ d')) eqn:Ea, (faultLatched (channel_b_ d')) eqn:Eb;
      simpl; rewrite ?Ea, ?Eb; intuition congruence.
  - intros Ht. destruct (steps_hold_latch d l) as [Hla Hlb].
    destruct (step_outputs (steps d l) c) as [Ho|Ho]; rewrite Ho in Ht; [|done].
    apply andb_true_iff in Ht as [Hta Htb].
    apply result_torque in Hta as [_ Hfa]. apply result_torque in Htb as [_ Hfb].
    split; apply not_all_hold; intros Hall; [by apply Hla|by apply Hlb].
Qed.

Definition demo_latched : DualChannelSupervisor :=
  mkDual (mkConfig demo_limits 100)
    (forceFault Fault.kChannelDiscrepancy (demo_machine State.kOperational))
    (forceFault Fault.kChannelDiscrepancy (demo_machine State.kOperational)) 0 true newDiagnostics.

Definition demo_ack : Cycle :=
  mkCycle (demo_inputs 0 0 Request.kNone true 200) (demo_inputs 0 0 Request.kNone true 200) 200.

Lemma discrepancy_recovery_witness :
  ∃ x, x ∈ [demo_ack] ∧ acknowledge (inputs_b x) = true.
Proof.
  destruct (discrepancy_recovery demo_latched [demo_ack]
    (mkCycle (demo_inputs 0 0 Request.kNone false 201) (demo_inputs 0 0 Request.kNone false 201) 201))
    as [_ H]; [by_compute|by_compute|].
  destruct H as [_ (x & Hx & Hb & _)]; [vm_compute; reflexivity|]. by exists x.
Defined.

End DualChannelSupervisor.
