(* ===== verification/SpscRing.v ===== *)
(** * The single-producer single-consumer ring

    [src/include/safeedge/concurrent/spsc_ring.hpp]: the free-running 64-bit
    positions, the cached copies, the slots, [tryPush] and [tryPop]. The
    operations are split at their accesses to shared memory, and an interleaving
    semantics runs a producer and a consumer against one ring: a load of the
    other side's position returns any value published since the last one seen
    (the staleness that acquire loads permit), and the slot accesses are steps
    of their own, so that a race on a slot is a reachable state to be excluded. *)

From stdpp Require Import base numbers list option.
From S2P Require Import Prelude.

Definition kCacheLineSize : Z := 64.

(** ** The ring *)

Section Ring.
Context {T : Type}.
(** [Capacity] is [2 ^ bits], at least two and representable. *)
Context (bits : Z).
(** What [std::move] leaves in the slot it moved from. *)
Context (moved_from : T → T).

Definition Capacity : Z := 2 ^ bits.
Definition kIndexMask : Z := Capacity - 1.

Record SpscRing := mkRing {
  write_pos : Z;
  cached_read_pos : Z;
  read_pos : Z;
  cached_write_pos : Z;
  slots_ : list T
}.

Definition newRing (default : T) : SpscRing :=
  mkRing 0 0 0 0 (replicate (Z.to_nat Capacity) default).

Definition slot_index (pos : Z) : nat := Z.to_nat (Z.land pos kIndexMask).

Definition with_cached_read (pos : Z) (r : SpscRing) : SpscRing :=
  mkRing (write_pos r) pos (read_pos r) (cached_write_pos r) (slots_ r).
Definition with_cached_write (pos : Z) (r : SpscRing) : SpscRing :=
  mkRing (write_pos r) (cached_read_pos r) (read_pos r) pos (slots_ r).
Definition with_slots (slots : list T) (r : SpscRing) : SpscRing :=
  mkRing (write_pos r) (cached_read_pos r) (read_pos r) (cached_write_pos r) slots.

(** ** Producer *)

Definition looks_full (r : SpscRing) : bool :=
  Capacity <=? u64 (write_pos r - cached_read_pos r).

(** [emplaceFrom] up to the decision: [observed] is what the acquire load of
    [read_pos] returns when the cached position makes the ring look full. *)
Definition reserve_write (observed : Z) (r : SpscRing) : option Z * SpscRing :=
  if looks_full r then
    let r := with_cached_read observed r in
    if looks_full r then (None, r) else (Some (write_pos r), r)
  else (Some (write_pos r), r).

Definition assign_slot (write : Z) (value : T) (r : SpscRing) : SpscRing :=
  with_slots (<[slot_index write := value]> (slots_ r)) r.

Definition publish_write (write : Z) (r : SpscRing) : SpscRing :=
  mkRing (u64 (write + 1)) (cached_read_pos r) (read_pos r) (cached_write_pos r) (slots_ r).

Definition emplaceFrom (value : T) (r : SpscRing) : bool * SpscRing :=
  match reserve_write (read_pos r) r with
  | (None, r) => (false, r)
  | (Some write, r) => (true, publish_write write (assign_slot write value r))
  end.

Definition tryPush (value : T) (r : SpscRing) : bool * SpscRing := emplaceFrom value r.

(** ** Consumer *)

Definition looks_empty (r : SpscRing) : bool := read_pos r =? cached_write_pos r.

(** [tryPop] up to the decision, [observed] being the load of [write_pos]. *)
Definition reserve_read (observed : Z) (r : SpscRing) : option Z * SpscRing :=
  if looks_empty r then
    let r := with_cached_write observed r in
    if looks_empty r then (None, r) else (Some (read_pos r), r)
  else (Some (read_pos r), r).

(** [out = std::move(slots_[read & kIndexMask])]. *)
Definition move_slot (read : Z) (r : SpscRing) : option T * SpscRing :=
  match slots_ r !! slot_index read with
  | Some x => (Some x, with_slots (<[slot_index read := moved_from x]> (slots_ r)) r)
  | None => (None, r)
  end.

Definition publish_read (read : Z) (r : SpscRing) : SpscRing :=
  mkRing (write_pos r) (cached_read_pos r) (u64 (read + 1)) (cached_write_pos r) (slots_ r).

(** [None] is the [false] return. *)
Definition tryPop (r : SpscRing) : option T * SpscRing :=
  match reserve_read (write_pos r) r with
  | (None, r) => (None, r)
  | (Some read, r) => let (out, r) := move_slot read r in (out, publish_read read r)
  end.

(** ** Occupancy *)

(** The two loads of [sizeApprox]. *)
Definition sizeApprox (write read : Z) : Z := u64 (write - read).
Definition emptyApprox (write read : Z) : bool := sizeApprox write read =? 0.
Definition fullApprox (write read : Z) : bool := Capacity <=? sizeApprox write read.

(** ** Two threads *)

(** Where the producer is in [emplaceFrom]. *)
Inductive Producer :=
| PIdle
| PReserved (write : Z) (value : T)   (* about to assign the slot *)
| PAssigned (write : Z) (value : T).  (* about to publish *)

(** Where the consumer is in [tryPop]. *)
Inductive Consumer :=
| CIdle
| CReserved (read : Z)                (* about to move the slot out *)
| CMoved (read : Z) (out : T).        (* about to publish *)

(** The ring, both threads, and the history: every value ever published by the
    producer, every value ever returned by the consumer, and how many pops
    (pushes) the producer (consumer) has seen. *)
Record System := mkSystem {
  ring : SpscRing;
  producer : Producer;
  consumer : Consumer;
  pushed : list T;
  popped : list T;
  seen_read : nat;
  seen_write : nat
}.

Definition newSystem (default : T) : System :=
  mkSystem (newRing default) PIdle CIdle [] [] 0 0.

Inductive event :=
| internal
| push_done (value : T)
| push_full (observed : nat)
| pop_done (value : T)
| pop_empty (observed : nat).

(** The value of a position after [k] publications. *)
Definition position_of (k : nat) : Z := u64 (Z.of_nat k).

Inductive step : System → event → System → Prop :=
| step_push_full r c pu po sr sw k r' :
    (sr ≤ k ≤ length po)%nat →
    reserve_write (position_of k) r = (None, r') →
    step (mkSystem r PIdle c pu po sr sw) (push_full k) (mkSystem r' PIdle c pu po k sw)
| step_push_reserve r c pu po sr sw k value write r' :
    (sr ≤ k ≤ length po)%nat →
    reserve_write (position_of k) r = (Some write, r') →
    step (mkSystem r PIdle c pu po sr sw) internal
      (mkSystem r' (PReserved write value) c pu po (if looks_full r then k else sr) sw)
| step_push_assign r c pu po sr sw write value :
    step (mkSystem r (PReserved write value) c pu po sr sw) internal
      (mkSystem (assign_slot write value r) (PAssigned write value) c pu po sr sw)
| step_push_publish r c pu po sr sw write value :
    step (mkSystem r (PAssigned write value) c pu po sr sw) (push_done value)
      (mkSystem (publish_write write r) PIdle c (pu ++ [value]) po sr sw)
| step_pop_empty r p pu po sr sw k r' :
    (sw ≤ k ≤ length pu)%nat →
    reserve_read (position_of k) r = (None, r') →
    step (mkSystem r p CIdle pu po sr sw) (pop_empty k) (mkSystem r' p CIdle pu po sr k)
| step_pop_reserve r p pu po sr sw k read r' :
    (sw ≤ k ≤ length pu)%nat →
    reserve_read (position_of k) r = (Some read, r') →
    step (mkSystem r p CIdle pu po sr sw) internal
      (mkSystem r' p (CReserved read) pu po sr (if looks_empty r then k else sw))
| step_pop_move r p pu po sr sw read out r' :
    move_slot read r = (Some out, r') →
    step (mkSystem r p (CReserved read) pu po sr sw) internal
      (mkSystem r' p (CMoved read out) pu po sr sw)
| step_pop_publish r p pu po sr sw read out :
    step (mkSystem r p (CMoved read out) pu po sr sw) (pop_done out)
      (mkSystem (publish_read read r) p CIdle pu (po ++ [out]) sr sw).

Inductive reachable (s0 : System) : System → Prop :=
| reachable_start : reachable s0 s0
| reachable_step s e s' : reachable s0 s → step s e s' → reachable s0 s'.

End Ring.

Arguments SpscRing : clear implicits.
Arguments System : clear implicits.
Arguments Producer : clear implicits.
Arguments Consumer : clear implicits.
Arguments event : clear implicits.
