(* ===== verification/SpscRingSafety.v ===== *)
(** * The ring: theorems

    The interleaving semantics of [SpscRing] implements a bounded FIFO queue:
    nothing is lost, duplicated or reordered, also across the wrap of the 64-bit
    positions; producer and consumer never touch the same slot at once; and a
    refused operation means the ring was full (empty) when the other side's
    position was published. *)

From stdpp Require Import base numbers list option.
From S2P Require Import Prelude SpscRing.

Section Safety.
Context {T : Type} (bits : Z) (moved_from : T → T).
Hypothesis Hbits : 1 ≤ bits < 64.

Local Abbreviation cap := (Z.to_nat (Capacity bits)).
Local Abbreviation step := (step bits moved_from).
Local Abbreviation reachable := (reachable bits moved_from).

(** ** Positions *)

Lemma Capacity_bounds : 2 ≤ Capacity bits < 2 ^ 64.
Proof.
  unfold Capacity. split.
  - change 2 with (2 ^ 1) at 1. apply Z.pow_le_mono_r; lia.
  - apply Z.pow_lt_mono_r; lia.
Qed.

Lemma cap_Z : Z.of_nat cap = Capacity bits.
Proof. pose proof Capacity_bounds. lia. Qed.

Lemma cap_pos : (0 < cap)%nat.
Proof. pose proof Capacity_bounds. lia. Qed.

Lemma slot_index_position k : slot_index bits (position_of k) = (k mod cap)%nat.
Proof.
  unfold slot_index, kIndexMask, position_of, unsigned_wrap. pose proof Capacity_bounds.
  replace (Capacity bits - 1) with (Z.ones bits)
    by (rewrite Z.ones_equiv; unfold Capacity; lia).
  rewrite Z.land_ones by lia. change (2 ^ bits) with (Capacity bits).
  rewrite Z.mod_mod_divide.
  - apply Nat2Z.inj. rewrite Nat2Z.inj_mod, cap_Z. apply Z2Nat.id, Z.mod_pos_bound. lia.
  - exists (2 ^ (64 - bits)). unfold Capacity. rewrite <- Z.pow_add_r by lia. f_equal; lia.
Qed.

Lemma mod_cap_distinct i j :
  (i < j)%nat → (j < i + cap)%nat → (i mod cap)%nat ≠ (j mod cap)%nat.
Proof.
  intros Hij Hj Heq. pose proof cap_pos.
  pose proof (Nat.div_mod_eq i cap). pose proof (Nat.div_mod_eq j cap).
  assert (j = i + cap * (j / cap - i / cap))%nat as Hji by nia.
  destruct (j / cap - i / cap)%nat; nia.
Qed.

(** The wrapped difference of two positions is their distance. *)
Lemma position_distance i j :
  (i ≤ j)%nat → Z.of_nat j - Z.of_nat i < 2 ^ 64 →
  u64 (position_of j - position_of i) = Z.of_nat j - Z.of_nat i.
Proof.
  intros Hij Hd. unfold position_of, unsigned_wrap.
  rewrite Zminus_mod_idemp_l, Zminus_mod_idemp_r. apply Z.mod_small. lia.
Qed.

Lemma position_eq i j :
  (i ≤ j)%nat → Z.of_nat j - Z.of_nat i < 2 ^ 64 → position_of i = position_of j → i = j.
Proof.
  intros Hij Hd Heq. pose proof (position_distance i j Hij Hd) as H.
  rewrite Heq, Z.sub_diag in H. change (u64 0) with 0 in H. lia.
Qed.

Lemma position_succ k : u64 (position_of k + 1) = position_of (S k).
Proof.
  unfold position_of, unsigned_wrap. rewrite Zplus_mod_idemp_l. f_equal. lia.
Qed.

(** ** The invariant *)

(** The consumer has moved the oldest element out of its slot already. *)
Definition oldest_moved (c : Consumer T) : bool :=
  match c with CMoved _ _ => true | _ => false end.

(** What a thread in the middle of an operation relies on: with [w] pushes and
    [r] pops done, the producer owns slot [w mod cap], the consumer [r mod cap]. *)
Definition producer_ok (p : Producer T) (w seen : nat) (slots : list T) : Prop :=
  match p with
  | PIdle => True
  | PReserved write _ => write = position_of w ∧ (w < seen + cap)%nat
  | PAssigned write value =>
      write = position_of w ∧ (w < seen + cap)%nat ∧ slots !! (w mod cap)%nat = Some value
  end.

Definition consumer_ok (c : Consumer T) (r seen : nat) (pushed : list T) : Prop :=
  match c with
  | CIdle => True
  | CReserved read => read = position_of r ∧ (r < seen)%nat
  | CMoved read out => read = position_of r ∧ (r < seen)%nat ∧ pushed !! r = Some out
  end.

Record ring_inv (s : System T) : Prop := {
  inv_prefix : popped s = take (length (popped s)) (pushed s);
  inv_order : (length (popped s) ≤ length (pushed s))%nat;
  inv_seen_read : (seen_read s ≤ length (popped s))%nat;
  inv_seen_write : (length (popped s) ≤ seen_write s ≤ length (pushed s))%nat;
  inv_space : (length (pushed s) ≤ seen_read s + cap)%nat;
  inv_write : write_pos (ring s) = position_of (length (pushed s));
  inv_read : read_pos (ring s) = position_of (length (popped s));
  inv_cached_read : cached_read_pos (ring s) = position_of (seen_read s);
  inv_cached_write : cached_write_pos (ring s) = position_of (seen_write s);
  inv_length : length (slots_ (ring s)) = cap;
  inv_slots i : (length (popped s) ≤ i < length (pushed s))%nat →
    (oldest_moved (consumer s) = true → i ≠ length (popped s)) →
    slots_ (ring s) !! (i mod cap)%nat = pushed s !! i;
  inv_producer : producer_ok (producer s) (length (pushed s)) (seen_read s) (slots_ (ring s));
  inv_consumer : consumer_ok (consumer s) (length (popped s)) (seen_write s) (pushed s)
}.

Lemma ring_inv_new default : ring_inv (newSystem bits default).
Proof.
  pose proof cap_pos. constructor; simpl; try done; try lia.
  by rewrite length_replicate.
Qed.

(** ** The decisions *)

(** A decision of the producer that observed [k] pops. *)
Lemma reserve_write_spec s k r' res :
  ring_inv s → (seen_read s ≤ k ≤ length (popped s))%nat →
  reserve_write bits (position_of k) (ring s) = (res, r') →
  let seen := if looks_full bits (ring s) then k else seen_read s in
  r' = with_cached_read (position_of seen) (ring s) ∧
  match res with
  | Some write => write = position_of (length (pushed s)) ∧ (length (pushed s) < seen + cap)%nat
  | None => looks_full bits (ring s) = true ∧ (length (pushed s) = k + cap)%nat
  end.
Proof.
  intros Hi Hk. pose proof Capacity_bounds. pose proof cap_Z.
  destruct Hi as [_ ? ? ? ? Hw _ Hcr _ _ _ _ _].
  unfold reserve_write, looks_full. cbn [with_cached_read write_pos cached_read_pos].
  rewrite Hw, Hcr, !position_distance by lia.
  destruct (Z.leb_spec (Capacity bits) (Z.of_nat (length (pushed s)) - Z.of_nat (seen_read s)));
    [destruct (Z.leb_spec (Capacity bits) (Z.of_nat (length (pushed s)) - Z.of_nat k))|];
    intros [= <- <-]; simpl; (split; [|split; [done||lia|lia]]); try done.
  destruct (ring s); unfold with_cached_read; simpl in *; congruence.
Qed.

Lemma reserve_read_spec s k r' res :
  ring_inv s → (seen_write s ≤ k ≤ length (pushed s))%nat →
  reserve_read (position_of k) (ring s) = (res, r') →
  let seen := if looks_empty (ring s) then k else seen_write s in
  r' = with_cached_write (position_of seen) (ring s) ∧
  match res with
  | Some read => read = position_of (length (popped s)) ∧ (length (popped s) < seen)%nat
  | None => looks_empty (ring s) = true ∧ (k = length (popped s))%nat
  end.
Proof.
  intros Hi Hk. pose proof Capacity_bounds. pose proof cap_Z.
  destruct Hi as [_ ? ? ? ? _ Hr _ Hcw _ _ _ _].
  unfold reserve_read, looks_empty. cbn [with_cached_write read_pos cached_write_pos].
  rewrite Hr, Hcw.
  destruct (Z.eqb_spec (position_of (length (popped s))) (position_of (seen_write s))) as [E|E];
    [destruct (Z.eqb_spec (position_of (length (popped s))) (position_of k)) as [E'|E']|];
    intros [= <- <-]; simpl; (split; [try done|split; [done|]]).
  - apply position_eq in E'; lia.
  - destruct (decide (length (popped s) = k)); [congruence|lia].
  - destruct (ring s); unfold with_cached_write; simpl in *; congruence.
  - destruct (decide (length (popped s) = seen_write s)); [congruence|lia].
Qed.

(** ** Preservation *)

Lemma move_slot_spec s read :
  ring_inv s → consumer s = CReserved read →
  ∃ out, pushed s !! length (popped s) = Some out ∧
    move_slot bits moved_from read (ring s) =
      (Some out, with_slots (<[(length (popped s) mod cap)%nat := moved_from out]>
                               (slots_ (ring s))) (ring s)).
Proof.
  intros Hi Hc. pose proof (inv_consumer s Hi) as Hcons. rewrite Hc in Hcons.
  destruct Hcons as [-> Hlt]. pose proof (inv_seen_write s Hi) as Hsw.
  destruct (lookup_lt_is_Some_2 (pushed s) (length (popped s))) as [out Hout]; [lia|].
  exists out. split; [done|]. unfold move_slot. rewrite slot_index_position.
  rewrite (inv_slots s Hi); [by rewrite Hout|lia|by rewrite Hc].
Qed.

Lemma producer_ok_moved p (r w seen : nat) slots x :
  (r < w ≤ seen + cap)%nat → (seen ≤ r)%nat → producer_ok p w seen slots →
  producer_ok p w seen (<[(r mod cap)%nat := x]> slots).
Proof.
  intros Hlen Hsr. destruct p as [|wr v|wr v]; [done|done|]. intros (? & ? & Hs).
  split; [done|]. split; [done|]. rewrite list_lookup_insert_ne; [done|].
  apply mod_cap_distinct; lia.
Qed.

(** The steps of the consumer. *)
Lemma pop_reserve_inv r p pu po sr sw k res r' c' :
  let s := mkSystem r p CIdle pu po sr sw in
  ring_inv s → (sw ≤ k ≤ length pu)%nat → reserve_read (position_of k) r = (res, r') →
  c' = from_option CReserved CIdle res →
  ring_inv (mkSystem r' p c' pu po sr (if looks_empty r then k else sw)).
Proof.
  intros s Hi Hk Hr ->. destruct (reserve_read_spec s _ _ _ Hi Hk Hr) as [-> Hres].
  simpl in *. destruct Hi; constructor; simpl in *; auto; destruct (looks_empty r), res; simpl; auto; lia.
Qed.

Lemma pop_move_inv r p pu po sr sw read out r' :
  ring_inv (mkSystem r p (CReserved read) pu po sr sw) →
  move_slot bits moved_from read r = (Some out, r') →
  ring_inv (mkSystem r' p (CMoved read out) pu po sr sw).
Proof.
  intros Hi Hm. destruct (move_slot_spec _ read Hi eq_refl) as (out' & Hout & Hm').
  simpl in *. rewrite Hm in Hm'. simplify_eq.
  destruct Hi as [? ? ? ? ? ? ? ? ? Hlen Hslots Hp [-> Hlt]]; constructor; simpl in *; auto.
  - by rewrite length_insert.
  - intros i Hr Hmv. rewrite list_lookup_insert_ne; [by apply Hslots|].
    apply mod_cap_distinct; [|lia]. specialize (Hmv eq_refl). lia.
  - apply producer_ok_moved; [lia|lia|done].
Qed.

Lemma pop_publish_inv r p pu po sr sw read out :
  ring_inv (mkSystem r p (CMoved read out) pu po sr sw) →
  ring_inv (mkSystem (publish_read read r) p CIdle pu (po ++ [out]) sr sw).
Proof.
  intros [Hpre ? ? ? ? ? ? ? ? Hlen Hslots Hp (-> & Hlt & Hout)].
  constructor; simpl in *; rewrite ?length_app; simpl; auto; try lia.
  - rewrite Nat.add_1_r, (take_S_r _ _ out) by done. by f_equal.
  - by rewrite position_succ, Nat.add_1_r.
  - intros i Hr _. apply Hslots; [lia|]. intros _. lia.
Qed.

Lemma step_inv s e s' : ring_inv s → step s e s' → ring_inv s'.
Proof.
  intros Hi Hstep. destruct Hstep; simpl in *;
    eauto using pop_move_inv, pop_publish_inv.
  - destruct (reserve_write_spec _ _ _ _ Hi H H0) as [-> [Hfull Hk]]. simpl in *. rewrite Hfull in *.
    destruct Hi; constructor; simpl in *; auto; lia.
  - destruct (reserve_write_spec _ _ _ _ Hi H H0) as [-> [-> Hlt]]. simpl in *.
    destruct Hi; constructor; simpl in *; auto; destruct (looks_full bits r); lia.
  - destruct Hi as [? ? ? ? ? ? ? ? ? Hlen Hslots [-> Hlt] ?]; constructor; simpl in *; auto.
    + by rewrite length_insert.
    + intros i Hr Hm. rewrite slot_index_position, list_lookup_insert_ne; [by apply Hslots|].
      apply not_eq_sym, mod_cap_distinct; lia.
    + rewrite slot_index_position, list_lookup_insert_eq; [done|].
      rewrite Hlen. apply Nat.mod_upper_bound. pose proof cap_pos; lia.
  - destruct Hi as [Hpre ? ? ? ? ? ? ? ? Hlen Hslots (-> & Hlt & Hs) Hcons].
    constructor; simpl in *; rewrite ?length_app; simpl; auto; try lia.
    + by rewrite take_app_le.
    + by rewrite position_succ, Nat.add_1_r.
    + intros i Hr Hm. destruct (decide (i = length pu)) as [->|].
      * rewrite Hs. by rewrite lookup_app_r, Nat.sub_diag by lia.
      * rewrite lookup_app_l by lia. apply Hslots; [lia|done].
    + destruct c as [|rd|rd out]; [done|done|]. destruct Hcons as (? & ? & Ho).
      split; [done|]. split; [done|]. rewrite lookup_app_l; [done|lia].
  - destruct (reserve_read_spec _ _ _ _ Hi H H0) as [_ [He _]]. simpl in He.
    pose proof (pop_reserve_inv _ _ _ _ _ _ _ _ _ CIdle Hi H H0 eq_refl) as Hinv.
    by rewrite He in Hinv.
  - by eapply pop_reserve_inv.
Qed.

Lemma reachable_inv default s : reachable (newSystem bits default) s → ring_inv s.
Proof. induction 1; eauto using ring_inv_new, step_inv. Qed.


(** ** The abstract queue *)

(** What is in the ring. *)
Definition content (s : System T) : list T := drop (length (popped s)) (pushed s).

(** A bounded FIFO queue after [r] pops. A refused push has observed [k] pops,
    at which count the queue was full; a refused pop has observed [k] pushes,
    at which count it was empty. *)
Inductive fifo_step (r : nat) : list T → event T → list T → Prop :=
| fifo_internal q : fifo_step r q internal q
| fifo_push q value :
    (length q < cap)%nat → fifo_step r q (push_done value) (q ++ [value])
| fifo_full q k :
    (k ≤ r)%nat → (r + length q = k + cap)%nat → fifo_step r q (push_full k) q
| fifo_pop q value : fifo_step r (value :: q) (pop_done value) q
| fifo_empty q k :
    k = r → (k ≤ r + length q)%nat → fifo_step r q (pop_empty k) q.

Lemma length_content s :
  ring_inv s → length (content s) = (length (pushed s) - length (popped s))%nat.
Proof. intros Hi. unfold content. by rewrite length_drop. Qed.

Lemma step_fifo s e s' :
  ring_inv s → step s e s' → fifo_step (length (popped s)) (content s) e (content s').
Proof.
  intros Hi Hstep. pose proof (length_content s Hi) as Hlen.
  pose proof (inv_order s Hi) as Hord. pose proof (inv_seen_read s Hi) as Hsr.
  destruct Hstep; try (constructor; fail); unfold content in *; simpl in *.
  - destruct (reserve_write_spec _ _ _ _ Hi H H0) as [_ [_ Hk]]. simpl in *.
    constructor; lia.
  - pose proof (inv_producer _ Hi) as (_ & Hlt & _). simpl in *.
    rewrite drop_app_le by lia. constructor. lia.
  - destruct (reserve_read_spec _ _ _ _ Hi H H0) as [_ [_ Hk]]. simpl in *.
    constructor; lia.
  - pose proof (inv_consumer _ Hi) as (_ & Hlt & Hout). simpl in *.
    rewrite length_app, (drop_S pu out) by done. simpl. rewrite Nat.add_1_r. constructor.
Qed.

(** C4: The ring is a bounded FIFO queue, under every interleaving of one
    producer and one consumer and with stale views of the other side's
    position: each step of the implementation is a step of the abstract queue.
    A completed push appends its value to a queue that has room, a completed
    pop removes the head and returns it, a refused push (pop) means the queue
    was full (empty) at the observed count, and no other step changes the
    queue; what was popped followed by what is in the ring is what was pushed,
    in order, and at most the capacity is in the ring. *)
Theorem ring_refines_fifo default s e s' :
  reachable (newSystem bits default) s → step s e s' →
  fifo_step (length (popped s)) (content s) e (content s') ∧
  pushed s' = popped s' ++ content s' ∧ (length (content s') ≤ cap)%nat.
Proof.
  intros Hr Hstep. pose proof (reachable_inv _ _ Hr) as Hi.
  split; [by apply step_fifo|]. pose proof (step_inv _ _ _ Hi Hstep) as Hi'.
  rewrite length_content by done. unfold content. split.
  - rewrite (inv_prefix s' Hi') at 1. by rewrite take_drop.
  - pose proof (inv_space s' Hi'). pose proof (inv_seen_read s' Hi'). lia.
Qed.

(** The two threads never touch the same slot at once: when the producer is
    about to assign a slot and the consumer is about to move one out, the two
    slots are different. *)
Theorem slot_race_free default s write value read :
  reachable (newSystem bits default) s →
  producer s = PReserved write value → consumer s = CReserved read →
  slot_index bits write ≠ slot_index bits read.
Proof.
  intros Hr Hp Hc. pose proof (reachable_inv _ _ Hr) as Hi.
  pose proof (inv_producer s Hi) as Hpo. pose proof (inv_consumer s Hi) as Hco.
  rewrite Hp in Hpo; rewrite Hc in Hco. destruct Hpo as [-> Hlt], Hco as [-> Hlt'].
  pose proof (inv_seen_write s Hi). pose proof (inv_seen_read s Hi).
  rewrite !slot_index_position. apply not_eq_sym, mod_cap_distinct; lia.
Qed.

Lemma producer_decides s value :
  ring_inv s → producer s = PIdle →
  if decide (length (content s) < cap)%nat
  then ∃ w s', step s internal s' ∧ producer s' = PReserved w value ∧ content s' = content s
  else ∃ s', step s (push_full (length (popped s))) s'.
Proof.
  intros Hi Hp. pose proof (length_content s Hi) as Hlen.
  pose proof (inv_seen_read s Hi) as Hsr. pose proof (inv_order s Hi) as Hord.
  destruct (reserve_write bits (position_of (length (popped s))) (ring s)) as [res r'] eqn:Hr.
  destruct (reserve_write_spec s _ _ _ Hi (conj Hsr (le_n _)) Hr) as [_ Hres].
  destruct s as [r p c pu po sr sw]; simpl in *; subst p. destruct res as [w|].
  - rewrite decide_True by (destruct (looks_full bits r); lia).
    eexists w, _. split; [by apply (step_push_reserve bits moved_from) with (k := length po)|done].
  - rewrite decide_False by lia. eexists. by apply step_push_full.
Qed.

Lemma consumer_decides s :
  ring_inv s → consumer s = CIdle →
  if decide (content s = [])
  then ∃ s', step s (pop_empty (length (pushed s))) s'
  else ∃ r s', step s internal s' ∧ consumer s' = CReserved r ∧ content s' = content s.
Proof.
  intros Hi Hc. pose proof (length_content s Hi) as Hlen.
  pose proof (inv_seen_write s Hi) as [Hsw Hsw']. pose proof (inv_order s Hi) as Hord.
  destruct (reserve_read (position_of (length (pushed s))) (ring s)) as [res r'] eqn:Hr.
  destruct (reserve_read_spec s _ _ _ Hi (conj Hsw' (le_n _)) Hr) as [_ Hres].
  destruct s as [r p c pu po sr sw]; simpl in *; subst c. destruct res as [rd|].
  - rewrite decide_False by (intros E; rewrite E in Hlen; simpl in Hlen; destruct (looks_empty r); lia).
    eexists rd, _. split; [by apply (step_pop_reserve bits moved_from) with (k := length pu)|done].
  - rewrite decide_True by (apply nil_length_inv; lia). eexists. by apply step_pop_empty.
Qed.

(** No thread ever waits for the other. In every reachable state an idle
    producer can decide at once, with the current position: it reserves a slot
    when the queue has room and is refused when the queue is full; a producer
    or consumer inside its operation can take its next step, whatever the
    other thread is doing; and an idle consumer is refused only when empty. *)
Theorem ring_wait_free default s :
  reachable (newSystem bits default) s →
  (∀ value, producer s = PIdle →
     if decide (length (content s) < cap)%nat
     then ∃ w s', step s internal s' ∧ producer s' = PReserved w value ∧ content s' = content s
     else ∃ s', step s (push_full (length (popped s))) s') ∧
  (∀ w value, producer s = PReserved w value →
     ∃ s', step s internal s' ∧ producer s' = PAssigned w value) ∧
  (∀ w value, producer s = PAssigned w value → ∃ s', step s (push_done value) s') ∧
  (consumer s = CIdle →
     if decide (content s = [])
     then ∃ s', step s (pop_empty (length (pushed s))) s'
     else ∃ r s', step s internal s' ∧ consumer s' = CReserved r ∧ content s' = content s) ∧
  (∀ r, consumer s = CReserved r →
     ∃ out s', step s internal s' ∧ consumer s' = CMoved r out ∧ head (content s) = Some out) ∧
  (∀ r out, consumer s = CMoved r out → ∃ s', step s (pop_done out) s').
Proof.
  intros Hr. pose proof (reachable_inv _ _ Hr) as Hi. split_and!.
  - intros value Hp. by apply producer_decides.
  - intros w v Hp. destruct s; simpl in *; subst. eexists. split; [apply step_push_assign|done].
  - intros w v Hp. destruct s; simpl in *; subst. eexists. apply step_push_publish.
  - intros Hc. by apply consumer_decides.
  - intros r Hc. destruct (move_slot_spec s r Hi Hc) as (out & Hout & Hm).
    exists out. destruct s as [rg p c pu po sr sw]; simpl in *; subst.
    eexists. split; [by eapply step_pop_move|]. split; [done|].
    unfold content; simpl. by rewrite (drop_S pu out).
  - intros r out Hc. destruct s; simpl in *; subst. eexists. apply step_pop_publish.
Qed.

(** ** Whole operations *)

Lemma tryPush_run s0 s value :
  reachable s0 s → ring_inv s → producer s = PIdle → consumer s = CIdle →
  ∃ s', reachable s0 s' ∧ producer s' = PIdle ∧ consumer s' = CIdle ∧
    tryPush bits value (ring s) = (bool_decide (length (content s) < cap)%nat, ring s') ∧
    content s' = if decide (length (content s) < cap)%nat then content s ++ [value] else content s.
Proof.
  intros Hreach Hi Hp Hc. pose proof (length_content s Hi) as Hlen.
  pose proof (inv_seen_read s Hi) as Hsr. pose proof (inv_order s Hi) as Hord.
  unfold tryPush, emplaceFrom. rewrite (inv_read s Hi).
  destruct (reserve_write bits (position_of (length (popped s))) (ring s)) as [res r'] eqn:Hr.
  destruct (reserve_write_spec s _ _ _ Hi (conj Hsr (le_n _)) Hr) as [_ Hres].
  destruct s as [r p c pu po sr sw]; simpl in *; subst p c. destruct res as [w|].
  - assert (Hlt : (length (content (mkSystem r PIdle CIdle pu po sr sw)) < cap)%nat)
      by (destruct (looks_full bits r); lia).
    rewrite decide_True, bool_decide_true by done.
    eexists. split_and!.
    { eapply reachable_step; [|apply step_push_publish]. eapply reachable_step; [|apply step_push_assign].
      eapply reachable_step; [done|]. by apply step_push_reserve with (k := length po) (value := value). }
    all: try done. unfold content; simpl. by rewrite drop_app_le.
  - rewrite decide_False, bool_decide_false by lia. eexists. split_and!.
    { eapply reachable_step; [done|]. by apply step_push_full. }
    all: done.
Qed.

Lemma tryPop_run s0 s :
  reachable s0 s → ring_inv s → producer s = PIdle → consumer s = CIdle →
  ∃ s', reachable s0 s' ∧ producer s' = PIdle ∧ consumer s' = CIdle ∧
    tryPop bits moved_from (ring s) = (head (content s), ring s') ∧
    content s' = tail (content s).
Proof.
  intros Hreach Hi Hp Hc. pose proof (length_content s Hi) as Hlen.
  pose proof (inv_seen_write s Hi) as [Hsw Hsw']. pose proof (inv_order s Hi) as Hord.
  unfold tryPop. rewrite (inv_write s Hi).
  destruct (reserve_read (position_of (length (pushed s))) (ring s)) as [res r'] eqn:Hr.
  destruct (reserve_read_spec s _ _ _ Hi (conj Hsw' (le_n _)) Hr) as [_ Hres].
  destruct s as [r p c pu po sr sw]; simpl in *; subst p c. destruct res as [rd|].
  - assert (Hstep : step (mkSystem r PIdle CIdle pu po sr sw) internal
      (mkSystem r' PIdle (CReserved rd) pu po sr (if looks_empty r then length pu else sw)))
      by (by apply step_pop_reserve).
    destruct (move_slot_spec _ rd (step_inv _ _ _ Hi Hstep) eq_refl) as (out & Hout & Hm).
    simpl in Hout, Hm. rewrite Hm. eexists. split_and!.
    { eapply reachable_step; [|apply (step_pop_publish bits moved_from)].
      eapply reachable_step; [|by eapply (step_pop_move bits moved_from)].
      by eapply reachable_step. }
    all: try done; unfold content; simpl; rewrite ?length_app, (drop_S pu out (length po)) by done; simpl.
    + done.
    + by rewrite Nat.add_1_r.
  - assert (Hnil : content (mkSystem r PIdle CIdle pu po sr sw) = []) by (apply nil_length_inv; lia).
    rewrite Hnil. eexists. split_and!.
    { eapply reachable_step; [done|]. by apply step_pop_empty. }
    all: done.
Qed.

(** Run without interference, the operations are those of the queue:
    [tryPush] succeeds exactly when there is room and then appends, [tryPop]
    returns the head of a non-empty queue and removes it, and the ring they
    leave behind is again a reachable one. *)
Theorem ring_operations default s value :
  reachable (newSystem bits default) s → producer s = PIdle → consumer s = CIdle →
  (∃ s', reachable (newSystem bits default) s' ∧ producer s' = PIdle ∧ consumer s' = CIdle ∧
     tryPush bits value (ring s) = (bool_decide (length (content s) < cap)%nat, ring s') ∧
     content s' = if decide (length (content s) < cap)%nat then content s ++ [value] else content s) ∧
  (∃ s', reachable (newSystem bits default) s' ∧ producer s' = PIdle ∧ consumer s' = CIdle ∧
     tryPop bits moved_from (ring s) = (head (content s), ring s') ∧
     content s' = tail (content s)).
Proof.
  intros Hr Hp Hc. pose proof (reachable_inv _ _ Hr) as Hi.
  split; [by apply tryPush_run|by apply tryPop_run].
Qed.

(** [sizeApprox] is exact up to the staleness of the position of the other
    side. Called by the producer it lies between the number of elements and the
    capacity, called by the consumer between zero and the number of elements. *)
Theorem sizeApprox_bounds default s k :
  reachable (newSystem bits default) s →
  ((seen_read s ≤ k ≤ length (popped s))%nat →
   Z.of_nat (length (content s)) ≤ sizeApprox (write_pos (ring s)) (position_of k) ≤ Capacity bits) ∧
  ((seen_write s ≤ k ≤ length (pushed s))%nat →
   0 ≤ sizeApprox (position_of k) (read_pos (ring s)) ≤ Z.of_nat (length (content s))).
Proof.
  intros Hr. pose proof (reachable_inv _ _ Hr) as Hi. pose proof Capacity_bounds. pose proof cap_Z.
  pose proof (length_content s Hi) as ->.
  destruct Hi as [_ ? ? ? ? Hw Hrd _ _ _ _ _ _]. unfold sizeApprox.
  split; intros Hk; rewrite ?Hw, ?Hrd, position_distance; lia.
Qed.

End Safety.

(** ** Instances used by the witnesses *)

Definition demo_moved (_ : Z) : Z := 0.

(** A two-slot ring that holds 7, the producer about to store 8 and the
    consumer about to take 7. *)
Definition demo_quiet : System Z := mkSystem (mkRing 1 0 0 0 [7; 0]) PIdle CIdle [7] [] 0 0.
Definition demo_busy : System Z :=
  mkSystem (mkRing 1 0 0 1 [7; 0]) (PReserved 1 8) (CReserved 0) [7] [] 0 1.

Lemma demo_quiet_reachable : reachable 1 demo_moved (newSystem 1 0) demo_quiet.
Proof.
  apply (reachable_step _ _ _ (mkSystem (mkRing 0 0 0 0 [7; 0]) (PAssigned 0 7) CIdle [] [] 0 0)
    (push_done 7)).
  2: apply (step_push_publish 1 demo_moved (mkRing 0 0 0 0 [7; 0])).
  apply (reachable_step _ _ _ (mkSystem (mkRing 0 0 0 0 [0; 0]) (PReserved 0 7) CIdle [] [] 0 0)
    internal).
  2: apply (step_push_assign 1 demo_moved (mkRing 0 0 0 0 [0; 0])).
  apply (reachable_step _ _ _ (newSystem 1 0) internal); [constructor|].
  apply (step_push_reserve 1 demo_moved (newRing 1 0) CIdle [] [] 0 0 0 7 0); [simpl; lia|done].
Qed.

Lemma demo_busy_step :
  step 1 demo_moved (mkSystem (mkRing 1 0 0 0 [7; 0]) (PReserved 1 8) CIdle [7] [] 0 0) internal
    demo_busy.
Proof.
  apply (step_pop_reserve 1 demo_moved (mkRing 1 0 0 0 [7; 0]) (PReserved 1 8) [7] [] 0 0 1 0);
    [simpl; lia|done].
Qed.

Lemma demo_busy_reachable : reachable 1 demo_moved (newSystem 1 0) demo_busy.
Proof.
  eapply reachable_step; [|apply demo_busy_step].
  apply (reachable_step _ _ _ demo_quiet internal); [apply demo_quiet_reachable|].
  apply (step_push_reserve 1 demo_moved (mkRing 1 0 0 0 [7; 0]) CIdle [7] [] 0 0 0 8 1);
    [simpl; lia|done].
Qed.

Lemma ring_refines_fifo_witness :
  pushed demo_busy = popped demo_busy ++ content demo_busy.
Proof.
  apply (ring_refines_fifo 1 demo_moved ltac:(lia) 0
    (mkSystem (mkRing 1 0 0 0 [7; 0]) (PReserved 1 8) CIdle [7] [] 0 0) internal demo_busy);
    [|exact demo_busy_step].
  apply (reachable_step _ _ _ demo_quiet internal); [apply demo_quiet_reachable|].
  apply (step_push_reserve 1 demo_moved (mkRing 1 0 0 0 [7; 0]) CIdle [7] [] 0 0 0 8 1);
    [simpl; lia|done].
Defined.

Lemma slot_race_free_witness : slot_index 1 1 ≠ slot_index 1 0.
Proof.
  apply (slot_race_free 1 demo_moved ltac:(lia) 0 demo_busy 1 8 0 demo_busy_reachable);
    reflexivity.
Defined.

Lemma ring_wait_free_witness :
  ∃ out s', step 1 demo_moved demo_busy internal s' ∧ consumer s' = CMoved 0 out ∧
    head (content demo_busy) = Some out.
Proof.
  destruct (ring_wait_free 1 demo_moved ltac:(lia) 0 demo_busy demo_busy_reachable)
    as (_ & _ & _ & _ & H & _).
  exact (H 0 eq_refl).
Defined.

Lemma ring_operations_witness :
  ∃ s', tryPop 1 demo_moved (ring demo_quiet) = (Some 7, ring s') ∧ content s' = [].
Proof.
  destruct (ring_operations 1 demo_moved ltac:(lia) 0 demo_quiet 9 demo_quiet_reachable eq_refl eq_refl)
    as [_ (s' & _ & _ & _ & H & H')].
  exists s'. split; [exact H|exact H'].
Defined.

Lemma sizeApprox_bounds_witness : 1 ≤ sizeApprox 1 0 ≤ Capacity 1.
Proof.
  apply (sizeApprox_bounds 1 demo_moved ltac:(lia) 0 demo_quiet 0 demo_quiet_reachable).
  by_compute.
Defined.
