(* ===== verification/Seqlock.v ===== *)
(** * The seqlock slot

    [src/include/safeedge/ipc/seqlock_slot.hpp]: the sequence counter, the
    payload words, [store] and [tryLoad]. The writer is a step relation with
    one step per atomic store; a reader is run against a timeline of slot
    states, one (later or equal) state per atomic load, so every interleaving
    of one writer with a reader is covered. All counter accesses and the
    reader's loads are sequentially consistent in the source, and the writer's
    word stores are ordered between its counter stores. *)

From stdpp Require Import base numbers list option.
From S2P Require Import Prelude.

(** ** The slot *)

Section Slot.
(** [sizeof(T)]. *)
Context (size_of_T : nat).

Definition kWordBytes : nat := 8.
Definition kWordCount : nat := ((size_of_T + kWordBytes - 1) / kWordBytes)%nat.

Record SeqlockSlot := mkSlot { sequence_ : Z; words_ : list Z }.

Definition newSlot : SeqlockSlot := mkSlot 0 (replicate kWordCount 0).

(** [memcpy] of the value into the zeroed staging words, and back. *)
Fixpoint pack_words (count : nat) (bytes : list Z) : list Z :=
  match count with
  | O => []
  | S count =>
      le_value (take kWordBytes bytes) :: pack_words count (drop kWordBytes bytes)
  end.

Definition pack (value : list Z) : list Z := pack_words kWordCount value.

Definition unpack (staging : list Z) : list Z :=
  take size_of_T (staging ≫= le_bytes kWordBytes).

(** ** Writer *)

Definition begin_store (s : SeqlockSlot) : SeqlockSlot :=
  mkSlot (u64 (sequence_ s + 1)) (words_ s).
Definition store_word (index : nat) (word : Z) (s : SeqlockSlot) : SeqlockSlot :=
  mkSlot (sequence_ s) (<[index := word]> (words_ s)).
Definition end_store (start : Z) (s : SeqlockSlot) : SeqlockSlot :=
  mkSlot (u64 (start + 2)) (words_ s).

(** The word loop of [store], from [index]. *)
Fixpoint store_words (index : nat) (staging : list Z) (s : SeqlockSlot) : SeqlockSlot :=
  match staging with
  | [] => s
  | word :: staging => store_words (S index) staging (store_word index word s)
  end.

Definition store (value : list Z) (s : SeqlockSlot) : SeqlockSlot :=
  let start := sequence_ s in
  end_store start (store_words 0 (pack value) (begin_store s)).

(** Where the writer is: between stores, or in the loop of one that loaded
    [start], with the words before [index] stored. *)
Inductive Writer :=
| WIdle
| WStoring (start : Z) (value : list Z) (index : nat).

(** The slot and its writer; [count] is the number of counter stores ever made,
    of which [sequence_] shows the low 64 bits, and [published] the values of
    the completed stores, newest first. *)
Record System := mkSystem {
  slot : SeqlockSlot;
  writer : Writer;
  count : nat;
  published : list (list Z)
}.

Definition newSystem : System := mkSystem newSlot WIdle 0 [].

Definition well_sized (value : list Z) : Prop :=
  length value = size_of_T ∧ Forall is_u8 value.

#[export] Instance well_sized_dec value : Decision (well_sized value).
Proof. unfold well_sized; apply _. Defined.

Inductive writer_step : System → System → Prop :=
| writer_begin s c p value :
    well_sized value →
    writer_step (mkSystem s WIdle c p)
      (mkSystem (begin_store s) (WStoring (sequence_ s) value 0) (S c) p)
| writer_word s c p start value index word :
    pack value !! index = Some word →
    writer_step (mkSystem s (WStoring start value index) c p)
      (mkSystem (store_word index word s) (WStoring start value (S index)) c p)
| writer_end s c p start value :
    writer_step (mkSystem s (WStoring start value kWordCount) c p)
      (mkSystem (end_store start s) WIdle (S c) (value :: p)).

(** The history of a slot: from one moment to the next the writer makes one
    step, or none (it may be idle, preempted, or dead). *)
Definition timeline (states : nat → System) : Prop :=
  states 0%nat = newSystem ∧
  ∀ t, states (S t) = states t ∨ writer_step (states t) (states (S t)).

(** ** Reader *)

(** The reader's [k]-th atomic load sees the slot [mem k]. One attempt that
    starts with load [k]: the outcome and the number of the next load. *)
Definition attempt_load (mem : nat → SeqlockSlot) (k : nat) : option (list Z) * nat :=
  let before := sequence_ (mem k) in
  if negb (Z.land before 1 =? 0) then (None, S k)
  else
    let staging := imap (λ index _, nth index (words_ (mem (S k + index)%nat)) 0)
                     (replicate kWordCount ()) in
    if sequence_ (mem (S k + kWordCount)%nat) =? before
    then (Some staging, (S (S k) + kWordCount)%nat)
    else (None, (S (S k) + kWordCount)%nat).

(** [None] is the [false] return; the number of loads made is returned too. *)
Fixpoint tryLoad (mem : nat → SeqlockSlot) (max_attempts : nat) (k : nat)
  : option (list Z) * nat :=
  match max_attempts with
  | O => (None, k)
  | S attempts =>
      match attempt_load mem k with
      | (Some staging, k) => (Some (unpack staging), k)
      | (None, k) => tryLoad mem attempts k
      end
  end.

(** The default of [max_attempts]. *)
Definition kDefaultAttempts : nat := 32.

Definition generation (s : SeqlockSlot) : Z := sequence_ s / 2.
Definition writeInProgress (s : SeqlockSlot) : bool := negb (Z.land (sequence_ s) 1 =? 0).

(** ** Packing *)

Lemma length_pack_words n bytes : length (pack_words n bytes) = n.
Proof. revert bytes; induction n as [|n IH]; intros; simpl; [done|by rewrite IH]. Qed.

Lemma length_pack value : length (pack value) = kWordCount.
Proof. apply length_pack_words. Qed.

Lemma word_capacity : (size_of_T ≤ 8 * kWordCount)%nat.
Proof.
  unfold kWordCount, kWordBytes.
  pose proof (Nat.div_mod_eq (size_of_T + 8 - 1) 8).
  pose proof (Nat.mod_upper_bound (size_of_T + 8 - 1) 8 ltac:(lia)). lia.
Qed.

(** [n] words hold every byte string of at most [8 n] bytes, zero padded. *)
Lemma pack_words_spec n bytes :
  Forall is_u8 bytes → (length bytes ≤ 8 * n)%nat →
  take (length bytes) (pack_words n bytes ≫= le_bytes kWordBytes) = bytes.
Proof.
  revert bytes; induction n as [|n IH]; intros bytes Hb Hlen.
  { destruct bytes; [done|simpl in Hlen; lia]. }
  change (pack_words (S n) bytes ≫= le_bytes kWordBytes) with
    (le_bytes 8 (le_value (take 8 bytes)) ++ (pack_words n (drop 8 bytes) ≫= le_bytes kWordBytes)).
  rewrite le_bytes_value_pad by (by apply Forall_take || (rewrite length_take; lia)).
  destruct (decide (length bytes ≤ 8)%nat) as [Hs|Hs].
  - rewrite (take_ge bytes) by lia. rewrite <- app_assoc. apply take_app_length.
  - rewrite length_take, Nat.min_l, Nat.sub_diag, app_nil_r by lia.
    rewrite take_app_ge; rewrite length_take, Nat.min_l by lia; [|lia].
    rewrite <- (length_drop bytes 8), IH by (by apply Forall_drop || (rewrite length_drop; lia)).
    apply take_drop.
Qed.

(** The two copies of a value through the staging words restore it. *)
Lemma unpack_pack value : well_sized value → unpack (pack value) = value.
Proof.
  intros [Hlen Hb]. unfold unpack, pack. rewrite <- Hlen at 1.
  apply pack_words_spec; [done|]. rewrite Hlen. apply word_capacity.
Qed.

End Slot.
