(* ===== verification/SeqlockSafety.v ===== *)
(** * The seqlock slot: theorems

    No accepted read is torn: what [tryLoad] returns is a value whose store had
    completed, the current one at some moment of the call. Reads are bounded,
    succeed at once against a quiet writer, and fail after the given number of
    attempts against one that died in the middle of a store. *)

From stdpp Require Import base numbers list option relations.
From S2P Require Import Prelude Seqlock.

Section Safety.
Context (size_of_T : nat).

Local Abbreviation kWordCount := (kWordCount size_of_T).
Local Abbreviation pack := (pack size_of_T).
Local Abbreviation writer_step := (writer_step size_of_T).
Local Abbreviation timeline := (timeline size_of_T).

(** ** The writer's invariant *)

(** The words of the last completed store. *)
Definition stable_words (published : list (list Z)) : list Z :=
  match published with [] => replicate kWordCount 0 | value :: _ => pack value end.

Definition writer_ok (s : System) : Prop :=
  match writer s with
  | WIdle => count s = (2 * length (published s))%nat ∧ words_ (slot s) = stable_words (published s)
  | WStoring start value index =>
      count s = S (2 * length (published s)) ∧
      start = u64 (Z.of_nat (2 * length (published s))) ∧
      (index ≤ kWordCount)%nat ∧ well_sized size_of_T value ∧
      words_ (slot s) = take index (pack value) ++ drop index (stable_words (published s))
  end.

Record slot_inv (s : System) : Prop := {
  inv_sequence : sequence_ (slot s) = u64 (Z.of_nat (count s));
  inv_published : Forall (well_sized size_of_T) (published s);
  inv_writer : writer_ok s
}.

Lemma length_stable_words p : length (stable_words p) = kWordCount.
Proof. destruct p; simpl; [apply length_replicate|apply length_pack]. Qed.

Lemma slot_inv_new : slot_inv (newSystem size_of_T).
Proof. by constructor. Qed.

Lemma u64_succ n : u64 (u64 (Z.of_nat n) + 1) = u64 (Z.of_nat (S n)).
Proof. unfold unsigned_wrap. rewrite Zplus_mod_idemp_l. f_equal. lia. Qed.

Lemma insert_take_drop (l l' : list Z) i w :
  l !! i = Some w → length l = length l' →
  <[i := w]> (take i l ++ drop i l') = take (S i) l ++ drop (S i) l'.
Proof.
  intros Hw Hlen. pose proof (lookup_lt_Some _ _ _ Hw) as Hi.
  rewrite insert_app_r_alt by (rewrite length_take; lia).
  rewrite length_take, Nat.min_l, Nat.sub_diag by lia.
  destruct (lookup_lt_is_Some_2 l' i) as [w' Hw']; [lia|].
  rewrite (drop_S l' w' i Hw'), (take_S_r l i w Hw), <- app_assoc. done.
Qed.

Lemma slot_inv_step s s' : slot_inv s → writer_step s s' → slot_inv s'.
Proof.
  intros [Hseq Hpub Hw] Hstep. destruct Hstep as [s c p value Hv|s c p start value index word Hword|s c p start value];
    unfold writer_ok in *; simpl in *.
  - destruct Hw as [Hc Hwords]. split; simpl; [by rewrite Hseq, u64_succ|done|].
    unfold writer_ok; simpl. rewrite Hseq. split_and!; try done; first [lia | by subst c].
  - destruct Hw as (Hc & Hst & Hi & Hv & Hwords). split; simpl; [done|done|].
    unfold writer_ok; simpl. pose proof (lookup_lt_Some _ _ _ Hword) as Hlt.
    rewrite length_pack in Hlt. split_and!; try done.
    rewrite Hwords. apply insert_take_drop; [done|]. by rewrite length_pack, length_stable_words.
  - destruct Hw as (Hc & Hst & Hi & Hv & Hwords). constructor; simpl.
    + subst start c. unfold unsigned_wrap. rewrite Zplus_mod_idemp_l. f_equal. lia.
    + by constructor.
    + unfold writer_ok; simpl. split; [lia|]. rewrite Hwords.
      rewrite take_ge by (by rewrite length_pack). rewrite drop_ge by (by rewrite length_stable_words).
      apply app_nil_r.
Qed.

Lemma timeline_inv states t : timeline states → slot_inv (states t).
Proof.
  intros [H0 Hs]. induction t as [|t IH]; [rewrite H0; apply slot_inv_new|].
  destruct (Hs t) as [-> |Hstep]; [done|]. by eapply slot_inv_step.
Qed.

(** ** Timelines *)

Lemma count_step s s' : writer_step s s' → (count s ≤ count s')%nat.
Proof. destruct 1; simpl; lia. Qed.

Lemma count_mono states t t' :
  timeline states → (t ≤ t')%nat → (count (states t) ≤ count (states t'))%nat.
Proof.
  intros [_ Hs] Ht. induction Ht as [|t' Ht IH]; [done|].
  destruct (Hs t') as [-> |Hstep]; [done|]. apply count_step in Hstep. lia.
Qed.

(** Between two moments with the same count the writer, idle at the first one,
    has done nothing. *)
Lemma idle_unchanged states t t' :
  timeline states → (t ≤ t')%nat → writer (states t) = WIdle →
  count (states t') = count (states t) → states t' = states t.
Proof.
  intros Htl Ht Hidle. pose proof Htl as [_ Hs]. induction Ht as [|t' Ht IH]; [done|]. intros Hc.
  pose proof (count_mono states t t' Htl Ht) as H1.
  pose proof (count_mono states t' (S t') Htl ltac:(lia)) as H2.
  assert (Heq : states t' = states t) by (apply IH; lia).
  destruct (Hs t') as [-> |Hstep]; [done|]. rewrite Heq in Hstep.
  inversion Hstep as [x c p v Hv E1 E2|x c p start v i w Hw E1 E2|x c p start v E1 E2];
    rewrite <- E1, <- E2 in *; simpl in *; [lia|done|done].
Qed.

Lemma odd_count_land n : Z.land (u64 (Z.of_nat n)) 1 = Z.of_nat n mod 2.
Proof.
  unfold unsigned_wrap. change 1 with (Z.ones 1). rewrite Z.land_ones by lia.
  change (2 ^ 1) with 2. apply Z.mod_mod_divide. exists (2 ^ 63). reflexivity.
Qed.

(** An even counter means that no store is in progress. *)
Lemma even_sequence_idle s :
  slot_inv s → Z.land (sequence_ (slot s)) 1 = 0 ↔ writer s = WIdle.
Proof.
  intros [Hseq _ Hw]. rewrite Hseq, odd_count_land. unfold writer_ok in Hw.
  destruct (writer s) as [|start v i].
  - destruct Hw as [-> _]. split; [done|intros _].
    rewrite Nat2Z.inj_mul, Z.mul_comm. apply Z.mod_mul. lia.
  - destruct Hw as [-> _]. split; [|done]. intros H. exfalso. revert H.
    replace (Z.of_nat (S (2 * length (published s)))) with (1 + Z.of_nat (length (published s)) * 2) by lia.
    rewrite Z.mod_add by lia. done.
Qed.

(** Equal counters less than a full wrap apart are equal counts. *)
Lemma sequence_eq_count s s' :
  slot_inv s → slot_inv s' → (count s ≤ count s')%nat →
  Z.of_nat (count s') - Z.of_nat (count s) < 2 ^ 64 →
  sequence_ (slot s') = sequence_ (slot s) → count s' = count s.
Proof.
  intros [Hs _ _] [Hs' _ _] Hle Hd Heq. rewrite Hs, Hs' in Heq. unfold unsigned_wrap in Heq.
  assert (Hm : (Z.of_nat (count s') - Z.of_nat (count s)) mod 2 ^ 64 = 0).
  { rewrite Zminus_mod, Heq, Z.sub_diag. done. }
  rewrite Z.mod_small in Hm by lia. lia.
Qed.

(** ** One attempt *)

Section Reader.
Context (states : nat → System) (time : nat → nat).
Hypothesis Htl : timeline states.
(** The reader's loads happen one after the other. *)
Hypothesis Htime : ∀ k k', (k ≤ k')%nat → (time k ≤ time k')%nat.

Local Abbreviation mem := (λ k, slot (states (time k))).

Lemma imap_words (f : nat → list Z) (l : list Z) :
  length l = kWordCount → (∀ i, (i < kWordCount)%nat → f i = l) →
  imap (λ i _, nth i (f i) 0) (replicate kWordCount ()) = l.
Proof.
  intros Hlen Hf. apply list_eq. intros i. rewrite list_lookup_imap.
  destruct (decide (i < kWordCount)%nat) as [Hi|Hi].
  - rewrite lookup_replicate_2 by done. simpl. rewrite (Hf i) by done.
    destruct (lookup_lt_is_Some_2 l i) as [x Hx]; [lia|]. rewrite Hx. f_equal.
    by apply nth_lookup_Some.
  - rewrite (lookup_ge_None_2 (replicate _ _)) by (rewrite length_replicate; lia). simpl. symmetry.
    apply lookup_ge_None_2. lia.
Qed.

Lemma attempt_load_next k res k' :
  attempt_load size_of_T mem k = (res, k') →
  (k < k' ≤ k + (kWordCount + 2))%nat.
Proof.
  unfold attempt_load. destruct (negb _); [intros [= _ <-]; lia|].
  destruct (_ =? _); intros [= _ <-]; lia.
Qed.

(** An accepted attempt saw an idle writer throughout, and its words. *)
Lemma attempt_accepted k staging k' :
  attempt_load size_of_T mem k = (Some staging, k') →
  Z.of_nat (count (states (time k'))) - Z.of_nat (count (states (time k))) < 2 ^ 64 →
  writer (states (time k)) = WIdle ∧ staging = stable_words (published (states (time k))) ∧
  states (time (pred k')) = states (time k).
Proof.
  intros Hatt Hd. pose proof (attempt_load_next _ _ _ Hatt) as Hk'. revert Hatt. unfold attempt_load.
  destruct (Z.eqb_spec (Z.land (sequence_ (slot (states (time k)))) 1) 0) as [Heven|]; [|done].
  cbn [negb]. destruct (Z.eqb_spec (sequence_ (slot (states (time (S k + kWordCount)))))
    (sequence_ (slot (states (time k))))) as [Hsame|]; [|done]. intros [= <- Hlast].
  pose proof (timeline_inv _ (time k) Htl) as Hi.
  apply even_sequence_idle in Heven; [|done].
  pose proof (count_mono _ _ _ Htl (Htime k (S k + kWordCount) ltac:(lia))) as Hm.
  pose proof (count_mono _ _ _ Htl (Htime (S k + kWordCount) k' ltac:(lia))) as Hm'.
  apply sequence_eq_count in Hsame; [|done|by apply timeline_inv|done|lia].
  assert (Hconst : ∀ j, (k ≤ j ≤ S k + kWordCount)%nat → states (time j) = states (time k)).
  { intros j Hj. apply idle_unchanged; [done|apply Htime; lia|done|].
    pose proof (count_mono _ _ _ Htl (Htime k j ltac:(lia))).
    pose proof (count_mono _ _ _ Htl (Htime j (S k + kWordCount) ltac:(lia))). lia. }
  split; [done|]. split; [|apply Hconst; lia].
  assert (Hwords : words_ (slot (states (time k))) = stable_words (published (states (time k)))).
  { pose proof (inv_writer _ Hi) as Hw. unfold writer_ok in Hw. rewrite Heven in Hw. tauto. }
  rewrite <- Hwords. apply imap_words; [by rewrite Hwords, length_stable_words|].
  intros i Hlt. by rewrite Hconst by lia.
Qed.

(** ** The whole read *)

(** The value a reader sees in a quiet slot: that of the last completed store,
    or the zeroed one before the first. *)
Definition current_value (s : System) : list Z :=
  match published s with [] => unpack size_of_T (replicate kWordCount 0) | value :: _ => value end.

Lemma unpack_stable s :
  slot_inv s → unpack size_of_T (stable_words (published s)) = current_value s.
Proof.
  intros [_ Hp _]. unfold current_value. destruct (published s) as [|v p]; [done|].
  apply Forall_cons_1 in Hp as [Hv _]. by apply unpack_pack.
Qed.

Lemma tryLoad_loads n k res k' :
  tryLoad size_of_T mem n k = (res, k') → (k ≤ k' ≤ k + n * (kWordCount + 2))%nat.
Proof.
  revert k; induction n as [|n IH]; intros k; simpl; [intros [= _ <-]; lia|].
  destruct (attempt_load size_of_T mem k) as [[st|] k''] eqn:Ha;
    pose proof (attempt_load_next _ _ _ Ha).
  - intros [= _ <-]. lia.
  - intros H'%IH. lia.
Qed.

Lemma tryLoad_accepted n k value k' :
  tryLoad size_of_T mem n k = (Some value, k') →
  Z.of_nat (count (states (time k'))) - Z.of_nat (count (states (time k))) < 2 ^ 64 →
  ∃ j, (k ≤ j < k')%nat ∧ writer (states (time j)) = WIdle ∧
    value = current_value (states (time j)).
Proof.
  revert k; induction n as [|n IH]; intros k; simpl; [done|].
  destruct (attempt_load size_of_T mem k) as [[st|] k''] eqn:Ha;
    pose proof (attempt_load_next _ _ _ Ha) as Hk.
  - intros [= <- <-] Hd. destruct (attempt_accepted _ _ _ Ha Hd) as (Hidle & -> & _).
    exists k. split; [lia|]. split; [done|]. by apply unpack_stable, timeline_inv.
  - intros Ht Hd. pose proof (tryLoad_loads _ _ _ _ Ht).
    destruct (IH k'' Ht) as (j & Hj & Hv); [|exists j; split; [lia|done]].
    pose proof (count_mono _ _ _ Htl (Htime k k'' ltac:(lia))). lia.
Qed.

(** No torn reads. Whatever the interleaving with the writer, a value that
    [tryLoad] returns is the value of a completed store (or the initial one),
    and it was the current value at a moment of the call at which no store was
    in progress, provided the writer does not bring the 64-bit counter around
    during the call. *)
Theorem tryLoad_never_torn n k value k' :
  tryLoad size_of_T mem n k = (Some value, k') →
  Z.of_nat (count (states (time k'))) - Z.of_nat (count (states (time k))) < 2 ^ 64 →
  ∃ j, (k ≤ j < k')%nat ∧ writer (states (time j)) = WIdle ∧
    value = match published (states (time j)) with
            | [] => unpack size_of_T (replicate kWordCount 0)
            | last :: _ => last
            end.
Proof. apply tryLoad_accepted. Qed.

(** A quiet slot is read in one attempt, a slot left in the middle of a store
    never. *)
Lemma attempt_quiet (mem' : nat → SeqlockSlot) k s :
  (∀ j, (k ≤ j)%nat → mem' j = slot s) → slot_inv s → writer s = WIdle →
  attempt_load size_of_T mem' k = (Some (stable_words (published s)), (S (S k) + kWordCount)%nat).
Proof.
  intros Hm Hi Hidle. pose proof (inv_writer _ Hi) as Hw. unfold writer_ok in Hw.
  rewrite Hidle in Hw. destruct Hw as [_ Hwords]. unfold attempt_load. rewrite !Hm by lia.
  rewrite (proj2 (even_sequence_idle s Hi) Hidle), !Z.eqb_refl. cbn [negb]. do 2 f_equal.
  rewrite <- Hwords. apply (imap_words (λ i, words_ (mem' (S k + i)%nat)));
    [by rewrite Hwords, length_stable_words|].
  intros i Hlt. by rewrite Hm by lia.
Qed.

Lemma attempt_dead (mem' : nat → SeqlockSlot) k s :
  mem' k = slot s → slot_inv s → writer s ≠ WIdle →
  attempt_load size_of_T mem' k = (None, S k).
Proof.
  intros Hm Hi Hbusy. unfold attempt_load. rewrite Hm.
  destruct (Z.eqb_spec (Z.land (sequence_ (slot s)) 1) 0) as [E|E]; [|done].
  by apply even_sequence_idle in E.
Qed.

Lemma tryLoad_dead (mem' : nat → SeqlockSlot) n k s :
  (∀ j, (k ≤ j)%nat → mem' j = slot s) → slot_inv s → writer s ≠ WIdle →
  tryLoad size_of_T mem' n k = (None, (k + n)%nat).
Proof.
  intros Hm Hi Hbusy; revert k Hm; induction n as [|n IH]; intros k Hm; simpl.
  { by rewrite Nat.add_0_r. }
  rewrite (attempt_dead _ _ s) by (auto || apply Hm; lia). rewrite IH by (intros; apply Hm; lia).
  f_equal. lia.
Qed.

Lemma tryLoad_quiet (mem' : nat → SeqlockSlot) n k s :
  (∀ j, (k ≤ j)%nat → mem' j = slot s) → slot_inv s → writer s = WIdle → (0 < n)%nat →
  tryLoad size_of_T mem' n k = (Some (current_value s), (k + (kWordCount + 2))%nat).
Proof.
  intros Hm Hi Hidle Hn. destruct n as [|n]; [lia|]. simpl.
  rewrite (attempt_quiet _ _ s), unpack_stable by done. f_equal. lia.
Qed.

(** C33: Reads are bounded. [tryLoad] makes at most [kWordCount + 2] loads per
    attempt, so it returns; against a writer that does nothing from the call on
    it returns the current value in its first attempt when the writer is
    between stores, and fails, after one load per attempt and no more, when the
    writer stopped in the middle of a store. *)
Theorem tryLoad_bounded n k res k' :
  tryLoad size_of_T mem n k = (res, k') →
  (k ≤ k' ≤ k + n * (kWordCount + 2))%nat ∧
  ((∀ j, (k ≤ j)%nat → states (time j) = states (time k)) → (0 < n)%nat →
   match writer (states (time k)) with
   | WIdle => res = Some (current_value (states (time k))) ∧ k' = (k + (kWordCount + 2))%nat
   | WStoring _ _ _ => res = None ∧ k' = (k + n)%nat
   end).
Proof.
  intros Ht. split; [by eapply tryLoad_loads|]. intros Hconst Hn.
  pose proof (timeline_inv _ (time k) Htl) as Hi.
  assert (Hm : ∀ j, (k ≤ j)%nat → slot (states (time j)) = slot (states (time k))).
  { intros j Hj. by rewrite Hconst. }
  destruct (writer (states (time k))) eqn:Hw.
  - rewrite (tryLoad_quiet _ n k (states (time k))) in Ht by done. by simplify_eq.
  - rewrite (tryLoad_dead _ n k (states (time k))) in Ht by (done || congruence). by simplify_eq.
Qed.

End Reader.

(** ** A whole store *)

Lemma store_words_steps start value s c p index :
  (index ≤ kWordCount)%nat →
  rtc writer_step (mkSystem s (WStoring start value index) c p)
    (mkSystem (store_words index (drop index (pack value)) s) (WStoring start value kWordCount) c p).
Proof.
  remember (kWordCount - index)%nat as n eqn:Hn. revert s index Hn.
  induction n as [|n IH]; intros s index Hn Hi.
  - rewrite drop_ge by (rewrite length_pack; lia). simpl.
    replace index with kWordCount by lia. apply rtc_refl.
  - destruct (lookup_lt_is_Some_2 (pack value) index) as [w Hw]; [rewrite length_pack; lia|].
    rewrite (drop_S _ _ _ Hw). simpl. eapply rtc_l; [by apply writer_word|]. apply IH; lia.
Qed.

(** A store publishes its value. From any moment between stores the writer
    can run [store] to its end, in the steps of the interleaving semantics; the
    slot it leaves behind is the one [store] computes, its value is the newest
    of the published ones, the number of completed writes is one more, and a
    reader that is not disturbed gets exactly that value. *)
Theorem store_publishes states t value :
  timeline states → writer (states t) = WIdle → well_sized size_of_T value →
  ∃ s', rtc writer_step (states t) s' ∧ slot s' = store size_of_T value (slot (states t)) ∧
    writer s' = WIdle ∧ published s' = value :: published (states t) ∧
    (Z.of_nat (count (states t)) + 2 < 2 ^ 64 →
     generation (slot s') = generation (slot (states t)) + 1) ∧
    ∀ n k, (0 < n)%nat →
      (tryLoad size_of_T (λ _, store size_of_T value (slot (states t))) n k).1 = Some value.
Proof.
  intros Htl Hidle Hv. pose proof (timeline_inv _ t Htl) as Hi.
  destruct (states t) as [s w c p] eqn:Hst; simpl in *; subst w.
  set (s' := mkSystem (store size_of_T value s) WIdle (S (S c)) (value :: p)).
  assert (Hsteps : rtc writer_step (mkSystem s WIdle c p) s').
  { eapply rtc_l; [by apply writer_begin|].
    eapply rtc_r; [apply store_words_steps; lia|]. apply writer_end. }
  assert (Hi' : slot_inv s').
  { clear -Hi Hsteps. induction Hsteps; eauto using slot_inv_step. }
  exists s'. split_and!; try done.
  - intros Hc. unfold generation. rewrite (inv_sequence _ Hi').
    pose proof (inv_sequence _ Hi) as Hseq. simpl in Hseq. rewrite Hseq. cbn [count s'].
    rewrite !unsigned_wrap_id by solve_range.
    replace (Z.of_nat (S (S c))) with (Z.of_nat c + 1 * 2) by lia. apply Z.div_add. lia.
  - intros n k Hn. by rewrite (tryLoad_quiet _ n k s').
Qed.

End Safety.

(** ** Instances used by the witnesses *)

(** A 12-byte value, and a writer that stores it once and then stops. *)
Definition demo_value : list Z := [1; 2; 3; 4; 5; 6; 7; 8; 9; 10; 11; 12].

Definition demo_states (t : nat) : System :=
  let words := pack 12 demo_value in
  match t with
  | 0%nat => newSystem 12
  | 1%nat => mkSystem (mkSlot 1 [0; 0]) (WStoring 0 demo_value 0) 1 []
  | 2%nat => mkSystem (mkSlot 1 (take 1 words ++ [0])) (WStoring 0 demo_value 1) 1 []
  | 3%nat => mkSystem (mkSlot 1 words) (WStoring 0 demo_value 2) 1 []
  | _ => mkSystem (mkSlot 2 words) WIdle 2 [demo_value]
  end.

Lemma demo_timeline : timeline 12 demo_states.
Proof.
  split; [done|]. intros [|[|[|[|t]]]]; [right..|by left].
  - apply (writer_begin 12 (newSlot 12)). by_compute.
  - by apply (writer_word 12 (mkSlot 1 [0; 0]) 1 [] 0 demo_value 0).
  - by apply (writer_word 12 (mkSlot 1 (take 1 (pack 12 demo_value) ++ [0])) 1 [] 0 demo_value 1).
  - apply (writer_end 12 (mkSlot 1 (pack 12 demo_value)) 1 [] 0 demo_value).
Qed.

(** A reader whose first attempts fall into the store. *)
Lemma tryLoad_never_torn_witness :
  ∃ j, (1 ≤ j < 8)%nat ∧ writer (demo_states j) = WIdle ∧
    demo_value = match published (demo_states j) with
                 | [] => unpack 12 (replicate (kWordCount 12) 0)
                 | last :: _ => last
                 end.
Proof.
  apply (tryLoad_never_torn 12 demo_states id demo_timeline (λ k k' H, H) 32 1 demo_value 8);
    [vm_compute; reflexivity|by_compute].
Defined.

(** A writer that dies in the middle of the store. *)
Lemma tryLoad_bounded_witness :
  tryLoad 12 (λ k, slot (demo_states (Nat.min k 2))) 32 2 = (None, 34%nat).
Proof.
  destruct (tryLoad 12 (λ k, slot (demo_states (Nat.min k 2))) 32 2) as [res k'] eqn:H.
  destruct (tryLoad_bounded 12 demo_states (λ k, Nat.min k 2) demo_timeline
    32 2 res k' H) as [_ Hq].
  destruct Hq as [Hres Hk]; [intros j Hj; by replace (Nat.min j 2) with 2%nat by lia|by_compute|].
  rewrite Hres, Hk. reflexivity.
Defined.

Lemma store_publishes_witness :
  ∃ s', published s' = [demo_value; demo_value] ∧
    generation (slot s') = generation (slot (demo_states 4)) + 1.
Proof.
  destruct (store_publishes 12 demo_states 4 demo_value demo_timeline) as (s' & _ & _ & _ & Hp & Hg & _);
    [reflexivity|by_compute|].
  exists s'. split; [exact Hp|]. apply Hg. by_compute.
Defined.
