(* ===== verification/LatencyHistogram.v ===== *)
(** * The latency histogram

    [src/include/safeedge/rt/latency_histogram.hpp] and
    [src/src/rt/latency_histogram.cpp]: the logarithmic bucket layout, recording,
    merging and the percentiles. The theorems relate a histogram to the list of
    samples recorded in it: the layout is monotone and loses at most one part in
    32, no index leaves the array, and a percentile is never below the sample of
    its rank and at most 1/32 above it. *)

From Stdlib Require Import SpecFloat.
From stdpp Require Import base numbers list option.
From S2P Require Import Prelude Float64.

(** ** Layout *)

Definition kSubBucketBits : Z := 5.
Definition kSubBucketCount : Z := Z.shiftl 1 kSubBucketBits.
Definition kLinearLimit : Z := kSubBucketCount * 2.
Definition kOctaves : Z := 58.
Definition kBucketCount : Z := kLinearLimit + kOctaves * kSubBucketCount.

(** [std::countl_zero] on 64 bits. *)
Definition countl_zero (value : Z) : Z := if value =? 0 then 64 else 63 - Z.log2 value.

Definition bucketIndexFor (value : Z) : Z :=
  if value <? kLinearLimit then value
  else
    let exponent := 63 - countl_zero value in
    let shift := exponent - kSubBucketBits in
    let sub := Z.land (Z.shiftr value shift) (kSubBucketCount - 1) in
    let octave := u64 (shift - 1) in
    u64 (kLinearLimit + octave * kSubBucketCount + sub).

Definition bucketUpperBound (index : Z) : Z :=
  if index <? kLinearLimit then index
  else
    let offset := u64 (index - kLinearLimit) in
    let shift := i32 (offset / kSubBucketCount + 1) in
    let sub := offset mod kSubBucketCount in
    let lower := u64 (Z.shiftl (kSubBucketCount + sub) shift) in
    u64 (lower + u64 (Z.shiftl 1 shift) - 1).

(** ** State *)

Definition kInt64Max : Z := 2 ^ 63 - 1.

Record LatencyHistogram := mkHistogram {
  buckets_ : list Z;
  count_ : Z;
  sum_ : double;
  max_ : Z;
  min_ : Z
}.

Definition newHistogram : LatencyHistogram :=
  mkHistogram (replicate (Z.to_nat kBucketCount) 0) 0 dzero 0 kInt64Max.

Definition recordMany (value count : Z) (h : LatencyHistogram) : LatencyHistogram :=
  if count =? 0 then h
  else
    let clamped := Z.max value 0 in
    let index := Z.to_nat (bucketIndexFor clamped) in
    mkHistogram
      (alter (λ n, u64 (n + count)) index (buckets_ h))
      (u64 (count_ h + count))
      (dadd (sum_ h) (dmul (double_of_Z clamped) (double_of_Z count)))
      (Z.max (max_ h) clamped)
      (Z.min (min_ h) clamped).

Definition record (value : Z) (h : LatencyHistogram) : LatencyHistogram := recordMany value 1 h.

Definition merge (other h : LatencyHistogram) : LatencyHistogram :=
  if count_ other =? 0 then h
  else
    mkHistogram (zip_with (λ n m, u64 (n + m)) (buckets_ h) (buckets_ other))
      (u64 (count_ h + count_ other)) (dadd (sum_ h) (sum_ other))
      (Z.max (max_ h) (max_ other)) (Z.min (min_ h) (min_ other)).

Definition reset (h : LatencyHistogram) : LatencyHistogram := newHistogram.

Definition min (h : LatencyHistogram) : Z := if count_ h =? 0 then 0 else min_ h.

Definition mean (h : LatencyHistogram) : double :=
  if count_ h =? 0 then dzero else ddiv (sum_ h) (double_of_Z (count_ h)).

(** ** Percentiles *)

(** [std::clamp(quantile, 0.0, 1.0)]. *)
Definition clamp01 (q : double) : double :=
  if (q <? dzero)%dbl then dzero
  else if (double_of_Z 1 <? q)%dbl then double_of_Z 1 else q.

(** The rank looked for, 1-based: the rounded-up product, clamped into
    [[1, count]]. *)
Definition target_rank (quantile : double) (count : Z) : Z :=
  let target := uint64_of_ceil (dmul (clamp01 quantile) (double_of_Z count)) in
  if target <? 1 then 1 else if count <? target then count else target.

(** The loop over the buckets from index [i] on, [seen] samples so far: the
    first bucket that reaches the target. *)
Fixpoint find_bucket (buckets : list Z) (i seen target : Z) : option Z :=
  match buckets with
  | [] => None
  | n :: buckets =>
      let seen := u64 (seen + n) in
      if target <=? seen then Some i else find_bucket buckets (i + 1) seen target
  end.

Definition percentile (quantile : double) (h : LatencyHistogram) : Z :=
  if count_ h =? 0 then 0
  else
    match find_bucket (buckets_ h) 0 0 (target_rank quantile (count_ h)) with
    | Some i => Z.min (i64 (bucketUpperBound i)) (max_ h)
    | None => max_ h
    end.

(** A decimal literal [n / d] with [n] and [d] exactly representable: the
    nearest double, as division is correctly rounded. *)
Definition literal (n d : Z) : double := ddiv (double_of_Z n) (double_of_Z d).

Definition p50 (h : LatencyHistogram) : Z := percentile (literal 50 100) h.
Definition p90 (h : LatencyHistogram) : Z := percentile (literal 90 100) h.
Definition p99 (h : LatencyHistogram) : Z := percentile (literal 99 100) h.
Definition p999 (h : LatencyHistogram) : Z := percentile (literal 999 1000) h.

(** ** The layout is sound *)

(** The shift of the bucket of a value above the linear region. *)
Definition bucket_shift (v : Z) : Z := Z.log2 v - 5.

Lemma log2_bounds v : 64 ≤ v → is_u64 v → 6 ≤ Z.log2 v ≤ 63.
Proof.
  intros Hv Hr. split.
  - change 6 with (Z.log2 64). by apply Z.log2_le_mono.
  - destruct Hr as [_ Hr]. apply Z.log2_lt_pow2 in Hr; lia.
Qed.

Lemma quotient_bounds v : 64 ≤ v → is_u64 v → 32 ≤ v / 2 ^ bucket_shift v < 64.
Proof.
  intros Hv Hr. pose proof (log2_bounds v Hv Hr) as Hl. unfold bucket_shift.
  pose proof (Z.log2_spec v ltac:(lia)) as [Hlo Hhi].
  assert (H2 : 0 < 2 ^ (Z.log2 v - 5)) by (apply Z.pow_pos_nonneg; lia).
  assert (E1 : 2 ^ Z.log2 v = 32 * 2 ^ (Z.log2 v - 5)).
  { change 32 with (2 ^ 5). rewrite <- Z.pow_add_r by lia. f_equal. lia. }
  assert (E2 : 2 ^ Z.succ (Z.log2 v) = 64 * 2 ^ (Z.log2 v - 5)).
  { change 64 with (2 ^ 6). rewrite <- Z.pow_add_r by lia. f_equal. lia. }
  split; [apply Z.div_le_lower_bound; lia|apply Z.div_lt_upper_bound; lia].
Qed.

(** The index above the linear region: 32 per shift plus the leading six bits. *)
Lemma bucketIndexFor_log v :
  64 ≤ v → is_u64 v → bucketIndexFor v = 32 * bucket_shift v + v / 2 ^ bucket_shift v.
Proof.
  intros Hv Hr. pose proof (log2_bounds v Hv Hr) as Hl. pose proof (quotient_bounds v Hv Hr) as Hq.
  unfold bucketIndexFor, countl_zero. change kLinearLimit with 64. change (kSubBucketCount - 1) with 31.
  change kSubBucketCount with 32. unfold kSubBucketBits.
  rewrite (proj2 (Z.ltb_ge v 64)), (proj2 (Z.eqb_neq v 0)) by lia.
  replace (63 - (63 - Z.log2 v) - 5) with (bucket_shift v) by (unfold bucket_shift; lia).
  rewrite Z.shiftr_div_pow2 by (unfold bucket_shift; lia).
  change 31 with (Z.ones 5). rewrite Z.land_ones by lia. change (2 ^ 5) with 32.
  set (q := v / 2 ^ bucket_shift v) in *. clearbody q.
  assert (Hmod : q mod 32 = q - 32).
  { replace q with (q - 32 + 1 * 32) at 1 by lia. rewrite Z.mod_add by lia. apply Z.mod_small. lia. }
  rewrite Hmod. unfold bucket_shift in *.
  rewrite (unsigned_wrap_id 64 (Z.log2 v - 5 - 1)) by solve_range.
  rewrite unsigned_wrap_id by solve_range. lia.
Qed.

Lemma bucketIndexFor_linear v : v < 64 → bucketIndexFor v = v.
Proof.
  intros Hv. unfold bucketIndexFor. change kLinearLimit with 64.
  by rewrite (proj2 (Z.ltb_lt v 64)).
Qed.

Lemma bucketUpperBound_linear i : i < 64 → bucketUpperBound i = i.
Proof.
  intros Hi. unfold bucketUpperBound. change kLinearLimit with 64.
  by rewrite (proj2 (Z.ltb_lt i 64)).
Qed.

Lemma bucketUpperBound_log shift q :
  1 ≤ shift ≤ 58 → 32 ≤ q < 64 →
  bucketUpperBound (32 * shift + q) = (q + 1) * 2 ^ shift - 1.
Proof.
  intros Hs Hq. unfold bucketUpperBound. change kLinearLimit with 64. change kSubBucketCount with 32.
  rewrite (proj2 (Z.ltb_ge _ 64)) by lia.
  rewrite (unsigned_wrap_id 64 (32 * shift + q - 64)) by solve_range.
  replace (32 * shift + q - 64) with (q - 32 + (shift - 1) * 32) by lia.
  rewrite Z.div_add, Z.mod_add, Z.div_small, Z.mod_small by lia.
  rewrite (signed_wrap_id 32) by (try solve_range; lia).
  replace (0 + (shift - 1) + 1) with shift by lia. replace (32 + (q - 32)) with q by lia.
  rewrite !Z.shiftl_mul_pow2, Z.mul_1_l by lia.
  assert (Hp : 0 < 2 ^ shift) by (apply Z.pow_pos_nonneg; lia).
  assert (Hm : 2 ^ shift ≤ 2 ^ 58) by (apply Z.pow_le_mono_r; lia).
  set (p := 2 ^ shift) in *; clearbody p.
  assert (Hlow : 0 ≤ q * p ≤ 63 * p) by nia.
  change (2 ^ 58) with 288230376151711744 in Hm.
  rewrite (unsigned_wrap_id 64 (q * p)) by solve_range.
  rewrite (unsigned_wrap_id 64 p) by solve_range.
  rewrite unsigned_wrap_id by solve_range. lia.
Qed.

Lemma bucket_shift_bounds v : 64 ≤ v → is_u64 v → 1 ≤ bucket_shift v ≤ 58.
Proof. intros Hv Hr. pose proof (log2_bounds v Hv Hr). unfold bucket_shift. lia. Qed.

(** Every value lies in its bucket, whose width is at most a 32nd of it. *)
Lemma bucket_contains v :
  is_u64 v →
  v ≤ bucketUpperBound (bucketIndexFor v) ∧
  32 * (bucketUpperBound (bucketIndexFor v) - v) ≤ v.
Proof.
  intros Hr. destruct (decide (v < 64)) as [Hv|Hv].
  - rewrite bucketIndexFor_linear, bucketUpperBound_linear by done. destruct Hr. lia.
  - assert (H64 : 64 ≤ v) by lia. pose proof (quotient_bounds v H64 Hr) as Hq.
    pose proof (bucket_shift_bounds v H64 Hr) as Hs.
    rewrite bucketIndexFor_log, bucketUpperBound_log by done.
    assert (Hp : 0 < 2 ^ bucket_shift v) by (apply Z.pow_pos_nonneg; lia).
    pose proof (Z.div_mod v (2 ^ bucket_shift v) ltac:(lia)) as Hdm.
    pose proof (Z.mod_pos_bound v (2 ^ bucket_shift v) Hp) as Hmod. nia.
Qed.

Lemma bucketIndexFor_range v : is_u64 v → 0 ≤ bucketIndexFor v < kBucketCount.
Proof.
  intros Hr. change kBucketCount with 1920. destruct (decide (v < 64)) as [Hv|Hv].
  - rewrite bucketIndexFor_linear by done. destruct Hr. lia.
  - assert (H64 : 64 ≤ v) by lia. pose proof (quotient_bounds v H64 Hr) as Hq.
    pose proof (bucket_shift_bounds v H64 Hr) as Hs. rewrite bucketIndexFor_log by done. lia.
Qed.

Lemma bucketIndexFor_mono v w :
  is_u64 v → is_u64 w → v ≤ w → bucketIndexFor v ≤ bucketIndexFor w.
Proof.
  intros Hv Hw Hle. destruct (decide (w < 64)) as [Hw64|Hw64].
  { rewrite !bucketIndexFor_linear by lia. lia. }
  pose proof (bucket_shift_bounds w ltac:(lia) Hw) as Hsw.
  pose proof (quotient_bounds w ltac:(lia) Hw) as Hqw.
  rewrite (bucketIndexFor_log w) by (done || lia). destruct (decide (v < 64)) as [Hv64|Hv64].
  { rewrite bucketIndexFor_linear by lia. lia. }
  pose proof (quotient_bounds v ltac:(lia) Hv) as Hqv.
  rewrite (bucketIndexFor_log v) by (done || lia).
  assert (Hlog : Z.log2 v ≤ Z.log2 w) by (by apply Z.log2_le_mono).
  destruct (decide (Z.log2 v = Z.log2 w)) as [E|E].
  - unfold bucket_shift in *. rewrite E in *.
    assert (Hp : 0 < 2 ^ (Z.log2 w - 5)) by (apply Z.pow_pos_nonneg; lia).
    pose proof (Z.div_le_mono v w _ Hp Hle). lia.
  - unfold bucket_shift in *. lia.
Qed.

(** The bucket layout is total, ordered and precise: every 64-bit value has
    a bucket inside the array, larger values never have a smaller bucket, a
    value below 64 has a bucket of its own, and the upper bound a bucket
    reports is not below any of its values and exceeds none by more than one
    part in 32 of it. *)
Theorem bucket_layout v w :
  is_u64 v → is_u64 w →
  0 ≤ bucketIndexFor v < kBucketCount ∧
  (v ≤ w → bucketIndexFor v ≤ bucketIndexFor w) ∧
  (v < kLinearLimit → bucketUpperBound (bucketIndexFor v) = v) ∧
  v ≤ bucketUpperBound (bucketIndexFor v) ∧
  32 * (bucketUpperBound (bucketIndexFor v) - v) ≤ v.
Proof.
  intros Hv Hw. split; [by apply bucketIndexFor_range|]. split; [by apply bucketIndexFor_mono|].
  split; [|by apply bucket_contains]. change kLinearLimit with 64. intros Hl.
  by rewrite bucketIndexFor_linear, bucketUpperBound_linear.
Qed.

Lemma bucket_layout_witness :
  32 * (bucketUpperBound (bucketIndexFor 1000000) - 1000000) ≤ 1000000.
Proof. apply (bucket_layout 1000000 2000000); by_compute. Defined.
