(* ===== verification/HistogramSamples.v ===== *)
(** * Histograms and their samples

    A histogram stands for the list of samples recorded in it, in any order and
    through any mixture of single, repeated and merged recordings; percentiles,
    count, minimum and maximum are functions of that list. *)

From Stdlib Require Import SpecFloat.
From stdpp Require Import base numbers list option.
From S2P Require Import Prelude Float64 LatencyHistogram.

(** ** Counting samples *)

(** The bucket of a sample; negative samples count as zero. *)
Definition sample_index (v : Z) : Z := bucketIndexFor (Z.max v 0).

(** The number of samples that satisfy a decidable property. *)
Definition tally (P : Z → Prop) `{∀ x, Decision (P x)} (l : list Z) : Z :=
  Z.of_nat (length (filter P l)).

Lemma tally_app P `{∀ x, Decision (P x)} l l' : tally P (l ++ l') = tally P l + tally P l'.
Proof. unfold tally. rewrite list.filter_app, length_app. lia. Qed.

Lemma tally_nonneg P `{∀ x, Decision (P x)} l : 0 ≤ tally P l.
Proof. unfold tally. lia. Qed.

Lemma tally_le_length P `{∀ x, Decision (P x)} l : tally P l ≤ Z.of_nat (length l).
Proof. unfold tally. pose proof (list.length_filter P l). lia. Qed.

Lemma tally_replicate P `{∀ x, Decision (P x)} n v :
  tally P (replicate n v) = if decide (P v) then Z.of_nat n else 0.
Proof.
  unfold tally. induction n as [|n IH]; simpl; [by destruct (decide (P v))|].
  rewrite list.filter_cons. destruct (decide (P v)); simpl in *; lia.
Qed.

Lemma tally_mono P Q `{∀ x, Decision (P x)} `{∀ x, Decision (Q x)} l :
  (∀ x, x ∈ l → P x → Q x) → tally P l ≤ tally Q l.
Proof.
  intros HPQ. unfold tally. induction l as [|x l IH]; [done|]. rewrite !list.filter_cons.
  assert (IH' : Z.of_nat (length (filter P l)) ≤ Z.of_nat (length (filter Q l)))
    by (apply IH; intros; apply HPQ; [by apply elem_of_cons; right|done]).
  destruct (decide (P x)) as [Hp|Hp], (decide (Q x)) as [Hq|Hq]; simpl; try lia.
  destruct Hq. apply HPQ; [apply elem_of_cons; by left|done].
Qed.

Lemma tally_none P `{∀ x, Decision (P x)} l : (∀ x, x ∈ l → ¬ P x) → tally P l = 0.
Proof.
  intros HP. unfold tally. induction l as [|x l IH]; [done|].
  rewrite list.filter_cons_False by (apply HP, elem_of_cons; by left).
  apply IH. intros y Hy. apply HP, elem_of_cons. by right.
Qed.

Lemma tally_split (f : Z → Z) k l :
  tally (λ v, f v ≤ k) l = tally (λ v, f v < k) l + tally (λ v, f v = k) l.
Proof.
  unfold tally. induction l as [|x l IH]; [done|]. rewrite !list.filter_cons.
  repeat case_decide; simpl; lia.
Qed.

(** ** Representation *)

(** The samples of bucket [i]. *)
Definition bucket_tally (l : list Z) (i : Z) : Z := tally (λ v, sample_index v = i) l.

Definition bucket_list (l : list Z) : list Z := bucket_tally l <$> seqZ 0 kBucketCount.

Record represents (h : LatencyHistogram) (l : list Z) : Prop := {
  rep_buckets : buckets_ h = bucket_list l;
  rep_count : count_ h = Z.of_nat (length l);
  rep_max : max_ h = foldr Z.max 0 l;
  rep_min : min_ h = foldr (λ v m, Z.min (Z.max v 0) m) kInt64Max l
}.

Lemma bucket_list_lookup l i :
  0 ≤ i < kBucketCount → bucket_list l !! Z.to_nat i = Some (bucket_tally l i).
Proof.
  intros Hi. unfold bucket_list. rewrite list_lookup_fmap, lookup_seqZ_lt by lia.
  simpl. do 2 f_equal. lia.
Qed.

Lemma length_bucket_list l : length (bucket_list l) = Z.to_nat kBucketCount.
Proof. unfold bucket_list. by rewrite length_fmap, length_seqZ. Qed.

Lemma represents_new : represents newHistogram [].
Proof. split; [by vm_compute|done|done|done]. Qed.

Lemma foldr_max_app l l' : foldr Z.max 0 (l ++ l') = Z.max (foldr Z.max 0 l) (foldr Z.max 0 l').
Proof.
  assert (Hpos : ∀ l, 0 ≤ foldr Z.max 0 l) by (induction l0; simpl; lia).
  induction l as [|x l IH]; simpl; [specialize (Hpos l'); lia|lia].
Qed.

Lemma foldr_min_app l l' :
  Forall is_i64 l' →
  foldr (λ v m, Z.min (Z.max v 0) m) kInt64Max (l ++ l') =
  Z.min (foldr (λ v m, Z.min (Z.max v 0) m) kInt64Max l)
        (foldr (λ v m, Z.min (Z.max v 0) m) kInt64Max l').
Proof.
  intros Hl'. assert (Hmax : ∀ l, foldr (λ v m, Z.min (Z.max v 0) m) kInt64Max l ≤ kInt64Max)
    by (induction l0; simpl; lia).
  induction l as [|x l IH]; simpl; [specialize (Hmax l'); lia|lia].
Qed.

Lemma sample_index_range v : is_i64 v → 0 ≤ sample_index v < kBucketCount.
Proof. intros Hv. apply bucketIndexFor_range. solve_range. Qed.

Lemma bucket_tally_range l i :
  Z.of_nat (length l) < 2 ^ 64 → in_unsigned 64 (bucket_tally l i).
Proof.
  intros Hl. unfold bucket_tally. split; [apply tally_nonneg|].
  eapply Z.le_lt_trans; [apply tally_le_length|done].
Qed.

Lemma bucket_list_ext l (bs : list Z) :
  length bs = Z.to_nat kBucketCount →
  (∀ i, 0 ≤ i < kBucketCount → bs !! Z.to_nat i = Some (bucket_tally l i)) →
  bs = bucket_list l.
Proof.
  intros Hlen Hi. apply list_eq_same_length with (n := Z.to_nat kBucketCount);
    [by rewrite length_bucket_list|done|].
  intros i x y Hlt Hx Hy. specialize (Hi (Z.of_nat i) ltac:(lia)).
  pose proof (bucket_list_lookup l (Z.of_nat i) ltac:(lia)) as Hb.
  rewrite Nat2Z.id in Hi, Hb. congruence.
Qed.

Lemma foldr_max_replicate n v : (0 < n)%nat → foldr Z.max 0 (replicate n v) = Z.max v 0.
Proof.
  induction n as [|[|n] IH]; intros Hn; [lia|done|].
  change (replicate (S (S n)) v) with (v :: replicate (S n) v). cbn [foldr].
  rewrite IH by lia. lia.
Qed.

Lemma foldr_min_replicate n v :
  (0 < n)%nat → is_i64 v →
  foldr (λ v m, Z.min (Z.max v 0) m) kInt64Max (replicate n v) = Z.max v 0.
Proof.
  intros Hn Hv. assert (Hm : Z.max v 0 ≤ kInt64Max) by (unfold kInt64Max; solve_range).
  revert Hn. induction n as [|[|n] IH]; intros Hn; [lia|simpl; lia|].
  change (replicate (S (S n)) v) with (v :: replicate (S n) v). cbn [foldr].
  rewrite IH by lia. lia.
Qed.

Lemma represents_recordMany h l v n :
  represents h l → is_i64 v → 0 ≤ n → Z.of_nat (length l) + n < 2 ^ 64 →
  represents (recordMany v n h) (l ++ replicate (Z.to_nat n) v).
Proof.
  intros [Hb Hc Hmax Hmin] Hv Hn Hlen. unfold recordMany.
  destruct (Z.eqb_spec n 0) as [->|Hn0]; [by rewrite app_nil_r|].
  pose proof (sample_index_range v Hv) as Hidx.
  split; cbn [buckets_ count_ max_ min_].
  - apply bucket_list_ext; [by rewrite length_alter, Hb, length_bucket_list|].
    intros i Hi. rewrite Hb. fold (sample_index v). unfold bucket_tally.
    rewrite tally_app, tally_replicate. destruct (decide (sample_index v = i)) as [<-|Hne].
    + rewrite list_lookup_alter_eq, bucket_list_lookup by done. simpl. unfold bucket_tally.
      pose proof (tally_le_length (λ x, sample_index x = sample_index v) l).
      pose proof (tally_nonneg (λ x, sample_index x = sample_index v) l).
      rewrite unsigned_wrap_id by solve_range. f_equal. lia.
    + rewrite list_lookup_alter_ne, bucket_list_lookup by (done || lia).
      by rewrite Z.add_0_r.
  - rewrite Hc, length_app, length_replicate, unsigned_wrap_id by solve_range. lia.
  - rewrite foldr_max_app, foldr_max_replicate, Hmax by lia. done.
  - rewrite foldr_min_app by (by apply Forall_replicate). by rewrite foldr_min_replicate, Hmin by (done || lia).
Qed.

Lemma represents_merge h l other l' :
  represents h l → represents other l' → Forall is_i64 l' →
  Z.of_nat (length l) + Z.of_nat (length l') < 2 ^ 64 →
  represents (merge other h) (l ++ l').
Proof.
  intros [Hb Hc Hmax Hmin] [Hb' Hc' Hmax' Hmin'] Hl' Hlen. unfold merge.
  rewrite Hc'. destruct (Z.eqb_spec (Z.of_nat (length l')) 0) as [E|E].
  { assert (l' = []) as -> by (apply nil_length_inv; lia). by rewrite app_nil_r. }
  split; cbn [buckets_ count_ max_ min_].
  - apply bucket_list_ext.
    { rewrite length_zip_with, Hb, Hb', !length_bucket_list. lia. }
    intros i Hi. rewrite lookup_zip_with, Hb, Hb', !bucket_list_lookup by done. simpl.
    unfold bucket_tally. rewrite tally_app.
    pose proof (tally_le_length (λ x, sample_index x = i) l).
    pose proof (tally_nonneg (λ x, sample_index x = i) l).
    pose proof (tally_le_length (λ x, sample_index x = i) l').
    pose proof (tally_nonneg (λ x, sample_index x = i) l').
    by rewrite unsigned_wrap_id by solve_range.
  - rewrite Hc, length_app, unsigned_wrap_id by solve_range. lia.
  - by rewrite foldr_max_app, Hmax, Hmax'.
  - by rewrite foldr_min_app, Hmin, Hmin'.
Qed.

(** ** Percentiles *)

(** The scan stops at the first bucket up to which there are [target] samples. *)
Lemma find_bucket_spec l target n k :
  Z.of_nat (length l) < 2 ^ 64 → 0 ≤ n →
  tally (λ v, sample_index v < k) l < target →
  match find_bucket (bucket_tally l <$> seqZ k n) k (tally (λ v, sample_index v < k) l) target with
  | Some i => k ≤ i < k + n ∧ tally (λ v, sample_index v < i) l < target ∧
              target ≤ tally (λ v, sample_index v ≤ i) l
  | None => tally (λ v, sample_index v < k + n) l < target
  end.
Proof.
  intros Hlen Hn. revert k. pattern n. apply natlike_ind; [| |done].
  { intros k Hk. simpl. by rewrite Z.add_0_r. }
  intros m Hm IH k Hk. rewrite seqZ_cons by lia. rewrite Z.pred_succ. cbn [fmap list_fmap find_bucket].
  assert (Hseen : u64 (tally (λ v, sample_index v < k) l + bucket_tally l k) =
                  tally (λ v, sample_index v ≤ k) l).
  { unfold bucket_tally. rewrite <- tally_split.
    pose proof (tally_le_length (λ v, sample_index v ≤ k) l).
    pose proof (tally_nonneg (λ v, sample_index v ≤ k) l).
    apply unsigned_wrap_id. solve_range. }
  assert (Hnext : tally (λ v, sample_index v ≤ k) l = tally (λ v, sample_index v < Z.succ k) l).
  { apply Z.le_antisymm; apply tally_mono; lia. }
  rewrite Hseen. destruct (Z.leb_spec target (tally (λ v, sample_index v ≤ k) l)) as [Ht|Ht].
  { split; [lia|done]. }
  rewrite Hnext in *. specialize (IH (Z.succ k) Ht). fold (Z.succ k).
  destruct (find_bucket _ _ _ _); [|by replace (k + Z.succ m) with (Z.succ k + m) by lia].
  destruct IH as (Hi & H1 & H2). split; [lia|done].
Qed.

Lemma target_rank_range q count : 1 ≤ count → 1 ≤ target_rank q count ≤ count.
Proof.
  intros Hc. unfold target_rank.
  repeat match goal with |- context [?a <? ?b] => destruct (Z.ltb_spec a b) end; lia.
Qed.

(** A count times a power of two is exact. *)
Lemma dmul_power p f :
  (digits2_pos p ≤ 53)%positive → -53 ≤ f ≤ -52 →
  ∃ m e, dmul (S754_finite false 4503599627370496 f) (double_of_Z (Z.pos p)) =
    S754_finite false m (e + (f + 52)) ∧ -52 ≤ e ≤ 0 ∧ Z.pos m = Z.pos p * 2 ^ (- e).
Proof.
  intros Hp Hf. destruct (double_of_pos p Hp) as (m & e & -> & Hm & He & Hv).
  exists m, e. split; [|done]. unfold dmul, SFmul. cbn [xorb].
  replace (4503599627370496 * m)%positive with (Pos.iter xO m 52) by (cbn [Pos.iter]; lia).
  rewrite round_aux_zeros by (done || lia). f_equal. lia.
Qed.

(** The rank rounds up: the quantile 0 is the first sample, 1 the last, and 1/2
    the middle one or the lower of the two in the middle. *)
Lemma target_rank_rounds_up count :
  1 ≤ count < 2 ^ 53 →
  target_rank dzero count = 1 ∧ target_rank (double_of_Z 1) count = count ∧
  target_rank (literal 50 100) count = (count + 1) / 2.
Proof.
  intros Hc. destruct count as [|p|p]; [lia| |lia].
  assert (Hp : (digits2_pos p ≤ 53)%positive) by (apply digits2_bound; lia).
  assert (E0 : clamp01 dzero = dzero) by by_compute.
  assert (E1 : clamp01 (double_of_Z 1) = S754_finite false 4503599627370496 (-52)) by by_compute.
  assert (E2 : clamp01 (literal 50 100) = S754_finite false 4503599627370496 (-53)) by by_compute.
  assert (Hr : ∀ x, 1 ≤ x ≤ Z.pos p → (if u64 x <? 1 then 1 else
      if Z.pos p <? u64 x then Z.pos p else u64 x) = x).
  { intros x Hx. rewrite unsigned_wrap_id by solve_range.
    destruct (Z.ltb_spec x 1), (Z.ltb_spec (Z.pos p) x); lia. }
  unfold target_rank, uint64_of_ceil. rewrite E0, E1, E2. split_and!.
  - assert (E : dmul dzero (double_of_Z (Z.pos p)) = dzero).
    { destruct (double_of_pos p Hp) as (m & e & -> & _). done. }
    rewrite E. done.
  - destruct (dmul_power p (-52) Hp ltac:(lia)) as (m & e & -> & He & Hm).
    replace (e + (-52 + 52)) with e by lia.
    assert (E : ceil_Z (S754_finite false m e) = Z.pos p).
    { cbn [ceil_Z]. destruct (Z.leb_spec 0 e); [replace e with 0 in * by lia; lia|].
      rewrite Hm, <- Z.mul_opp_l, Z.div_mul by (apply Z.pow_nonzero; lia). lia. }
    rewrite E. apply Hr. lia.
  - destruct (dmul_power p (-53) Hp ltac:(lia)) as (m & e & -> & He & Hm).
    assert (E : ceil_Z (S754_finite false m (e + (-53 + 52))) = (Z.pos p + 1) / 2).
    { cbn [ceil_Z]. rewrite (proj2 (Z.leb_gt _ _)) by lia.
      replace (- (e + (-53 + 52))) with (Z.succ (- e)) by lia.
      rewrite Hm, <- Z.mul_opp_l, Z.pow_succ_r by lia.
      rewrite Z.div_mul_cancel_r by (try apply Z.pow_nonzero; lia).
      Z.to_euclidean_division_equations. lia. }
    rewrite E. apply Hr. Z.to_euclidean_division_equations. lia.
Qed.

(** [v] is the sample of rank [t]: fewer than [t] samples are below it, at least
    [t] are not above it. Negative samples count as zero. *)
Definition has_rank (l : list Z) (t v : Z) : Prop :=
  tally (λ x, Z.max x 0 < v) l < t ≤ tally (λ x, Z.max x 0 ≤ v) l.

#[export] Instance has_rank_dec l t v : Decision (has_rank l t v).
Proof. unfold has_rank; apply _. Defined.

Lemma has_rank_sample l t v : has_rank l t v → ∃ x, x ∈ l ∧ Z.max x 0 = v.
Proof.
  intros [Hlt Hle]. rewrite (tally_split (λ x, Z.max x 0)) in Hle. unfold tally in *.
  destruct (filter (λ x, Z.max x 0 = v) l) as [|x xs] eqn:E; [simpl in Hle; lia|].
  exists x. assert (Hx : x ∈ filter (λ x, Z.max x 0 = v) l) by (rewrite E; apply elem_of_cons; by left).
  apply list_elem_of_filter in Hx. tauto.
Qed.

Lemma foldr_max_ge l x : x ∈ l → x ≤ foldr Z.max 0 l.
Proof. induction 1; simpl; lia. Qed.

(** The bucket found is the bucket of the sample of the rank. *)
Lemma rank_bucket l t v i :
  Forall is_i64 l → has_rank l t v →
  tally (λ x, sample_index x < i) l < t → t ≤ tally (λ x, sample_index x ≤ i) l →
  bucketIndexFor v = i.
Proof.
  intros Hl Hrank Hlo Hhi. destruct (has_rank_sample _ _ _ Hrank) as (x & Hx & Hxv).
  rewrite list.Forall_forall in Hl. destruct Hrank as [Hbelow Habove].
  assert (Hu : ∀ y, y ∈ l → is_u64 (Z.max y 0)) by (intros y Hy; specialize (Hl y Hy); solve_range).
  assert (Hv : is_u64 v) by (rewrite <- Hxv; auto). unfold sample_index in *.
  apply Z.le_antisymm; apply Z.nlt_ge; intros Hcontra.
  - enough (tally (λ x, bucketIndexFor (Z.max x 0) ≤ i) l ≤ tally (λ x, Z.max x 0 < v) l) by lia.
    apply tally_mono. intros y Hy Hyi. apply Z.nle_gt. intros Hle.
    pose proof (bucketIndexFor_mono v (Z.max y 0) Hv (Hu y Hy) Hle). lia.
  - enough (tally (λ x, Z.max x 0 ≤ v) l ≤ tally (λ x, bucketIndexFor (Z.max x 0) < i) l) by lia.
    apply tally_mono. intros y Hy Hle.
    pose proof (bucketIndexFor_mono (Z.max y 0) v (Hu y Hy) Hv Hle). lia.
Qed.

(** Upper bounds of the buckets of [int64_t] samples stay in range. *)
Lemma bucketUpperBound_i64 v :
  0 ≤ v → is_i64 v → is_i64 (bucketUpperBound (bucketIndexFor v)).
Proof.
  intros Hv Hr. assert (Hu : is_u64 v) by solve_range.
  pose proof (bucket_contains v Hu) as [Hlo _].
  destruct (decide (v < 64)) as [Hl|Hl].
  { rewrite bucketIndexFor_linear, bucketUpperBound_linear by done. done. }
  pose proof (bucket_shift_bounds v ltac:(lia) Hu) as Hs.
  pose proof (quotient_bounds v ltac:(lia) Hu) as Hq.
  revert Hlo. rewrite bucketIndexFor_log, bucketUpperBound_log by (done || lia). intros Hlo.
  assert (Hlog : Z.log2 v < 63) by (apply Z.log2_lt_pow2; [lia|]; destruct Hr; simpl in *; lia).
  assert (Hp : 0 < 2 ^ bucket_shift v ≤ 2 ^ 57).
  { split; [apply Z.pow_pos_nonneg; lia|]. apply Z.pow_le_mono_r; unfold bucket_shift; lia. }
  change (2 ^ 57) with 144115188075855872 in Hp.
  assert (Hup : (v / 2 ^ bucket_shift v + 1) * 2 ^ bucket_shift v ≤ 64 * 144115188075855872) by nia.
  solve_range.
Qed.

Lemma percentile_bounds h l q v :
  represents h l → Forall is_i64 l → l ≠ [] → Z.of_nat (length l) < 2 ^ 64 →
  has_rank l (target_rank q (count_ h)) v →
  v ≤ percentile q h ∧ 32 * (percentile q h - v) ≤ v ∧ percentile q h ≤ foldr Z.max 0 l.
Proof.
  intros [Hb Hc Hmax _] Hl Hne Hlen Hrank.
  assert (Hpos : 1 ≤ count_ h) by (rewrite Hc; destruct l; [done|simpl; lia]).
  pose proof (target_rank_range q (count_ h) Hpos) as Ht.
  destruct (has_rank_sample _ _ _ Hrank) as (x & Hx & Hxv).
  assert (Hxr : is_i64 x) by (rewrite list.Forall_forall in Hl; auto).
  assert (Hvr : 0 ≤ v ∧ is_i64 v) by (subst v; split; [lia|solve_range]). destruct Hvr as [Hv0 Hvr].
  assert (Hvmax : v ≤ foldr Z.max 0 l).
  { subst v. pose proof (foldr_max_ge l x Hx).
    assert (0 ≤ foldr Z.max 0 l) by (clear; induction l; simpl; lia). lia. }
  unfold percentile. rewrite (proj2 (Z.eqb_neq _ _)), Hb, Hmax by lia.
  assert (Hzero : tally (λ y, sample_index y < 0) l = 0).
  { apply tally_none. intros y Hy Hlt. rewrite list.Forall_forall in Hl.
    pose proof (sample_index_range y (Hl y Hy)). lia. }
  pose proof (find_bucket_spec l (target_rank q (count_ h)) kBucketCount 0 Hlen ltac:(done)) as Hfind.
  rewrite Hzero in Hfind. specialize (Hfind ltac:(lia)). fold (bucket_list l) in Hfind.
  destruct (find_bucket _ _ _ _) as [i|].
  - destruct Hfind as (_ & Hlo & Hhi). rewrite <- (rank_bucket l _ v i Hl Hrank Hlo Hhi).
    rewrite signed_wrap_id by (done || by apply bucketUpperBound_i64).
    destruct (bucket_contains v ltac:(solve_range)). lia.
  - exfalso. destruct Hrank as [_ Hle].
    enough (tally (λ x, Z.max x 0 ≤ v) l ≤ tally (λ y, sample_index y < 0 + kBucketCount) l) by lia.
    apply tally_mono. intros y Hy _. rewrite list.Forall_forall in Hl.
    apply (sample_index_range y). auto.
Qed.

(** C17: A percentile is conservative and precise. For a histogram that stands
    for a non-empty list of fewer than 2^64 samples, the value reported for a
    quantile is not below the sample of the rank looked for, exceeds it by at
    most one part in 32, and never exceeds the largest sample. The rank rounds
    up: of fewer than 2^53 samples the quantile 0 looks for the first, 1 for the
    last, and 1/2 for the middle one, or the lower of the two in the middle. *)
Theorem percentile_conservative h l q v :
  represents h l → Forall is_i64 l → l ≠ [] → Z.of_nat (length l) < 2 ^ 64 →
  has_rank l (target_rank q (count_ h)) v →
  v ≤ percentile q h ∧ 32 * (percentile q h - v) ≤ v ∧ percentile q h ≤ foldr Z.max 0 l ∧
  (Z.of_nat (length l) < 2 ^ 53 →
   target_rank dzero (count_ h) = 1 ∧
   target_rank (double_of_Z 1) (count_ h) = Z.of_nat (length l) ∧
   target_rank (literal 50 100) (count_ h) = (Z.of_nat (length l) + 1) / 2).
Proof.
  intros Hh Hl Hne Hlen Hrank.
  destruct (percentile_bounds h l q v Hh Hl Hne Hlen Hrank) as (H1 & H2 & H3).
  split_and!; [done..|]. intros H53. rewrite (rep_count _ _ Hh). apply target_rank_rounds_up.
  destruct l; [done|]. cbn [length] in *. lia.
Qed.

Definition demo_samples : list Z := [5; 70; 1000; -3; 100000; 1000].
Definition demo_histogram : LatencyHistogram :=
  foldl (λ h v, record v h) newHistogram demo_samples.

Lemma represents_record l :
  Forall is_i64 l → Z.of_nat (length l) < 2 ^ 64 →
  represents (foldl (λ h v, record v h) newHistogram l) l.
Proof.
  intros Hl. induction l as [|v l IH] using rev_ind; intros Hlen; [apply represents_new|].
  rewrite foldl_app. apply Forall_app in Hl as [Hl Hv].
  rewrite length_app in Hlen. simpl in Hlen.
  apply (represents_recordMany _ l v 1); [apply IH; [done|lia]| |lia|lia].
  by apply Forall_cons_1 in Hv as [? _].
Qed.

Lemma percentile_conservative_witness :
  1000 ≤ percentile (literal 80 100) demo_histogram ∧
  target_rank (literal 50 100) (count_ demo_histogram) = 3.
Proof.
  destruct (percentile_conservative demo_histogram demo_samples (literal 80 100) 1000)
    as (H & _ & _ & Hr);
    [apply represents_record; by_compute|by_compute|discriminate|by_compute|by_compute|].
  split; [exact H|]. destruct Hr as (_ & _ & Hr); [by_compute|exact Hr].
Defined.

(** Histograms that stand for the same samples answer alike. *)
Lemma represents_observe h h' l :
  represents h l → represents h' l →
  count_ h = count_ h' ∧ max_ h = max_ h' ∧ min h = min h' ∧
  ∀ q, percentile q h = percentile q h'.
Proof.
  intros [Hb Hc Hx Hm] [Hb' Hc' Hx' Hm']. unfold min, percentile.
  rewrite Hb, Hb', Hc, Hc', Hx, Hx', Hm, Hm'. done.
Qed.

Definition record_all (l : list Z) : LatencyHistogram :=
  foldl (λ h v, record v h) newHistogram l.

(** Merging per-thread histograms loses nothing: the merge of two
    histograms, and recording a value [n] times at once, have the count, the
    minimum, the maximum and every percentile of a histogram that recorded all
    the samples one by one. *)
Theorem merge_records_all l l' v n :
  Forall is_i64 (l ++ l') → is_i64 v → 0 ≤ n →
  Z.of_nat (length (l ++ l')) < 2 ^ 64 → Z.of_nat (length l) + n < 2 ^ 64 →
  (let h := merge (record_all l') (record_all l) in
   let h' := record_all (l ++ l') in
   count_ h = count_ h' ∧ max_ h = max_ h' ∧ min h = min h' ∧
   ∀ q, percentile q h = percentile q h') ∧
  (let h := recordMany v n (record_all l) in
   let h' := record_all (l ++ replicate (Z.to_nat n) v) in
   count_ h = count_ h' ∧ max_ h = max_ h' ∧ min h = min h' ∧
   ∀ q, percentile q h = percentile q h').
Proof.
  intros Hall Hv Hn Hlen Hlen'. pose proof Hall as [Hl Hl']%Forall_app.
  rewrite length_app, Nat2Z.inj_add in Hlen. unfold record_all. split; cbv zeta.
  - apply (represents_observe _ _ (l ++ l')).
    + apply represents_merge; [by apply represents_record; [|lia]|by apply represents_record; [|lia]|done|done].
    + apply represents_record; [done|]. rewrite length_app. lia.
  - apply (represents_observe _ _ (l ++ replicate (Z.to_nat n) v)).
    + by apply represents_recordMany; [apply represents_record; [|lia]|..].
    + apply represents_record; [apply Forall_app; split; [done|by apply Forall_replicate]|].
      rewrite length_app, length_replicate. lia.
Qed.

Lemma merge_records_all_witness :
  max_ (merge (record_all [7; 900]) (record_all [12; 80])) = max_ (record_all [12; 80; 7; 900]).
Proof.
  destruct (merge_records_all [12; 80] [7; 900] 3 4) as [(_ & H & _) _];
    [by_compute|by_compute|by_compute|by_compute|by_compute|exact H].
Defined.
