(* ===== verification/Strings.v ===== *)
(** * Strings

    Lemmas on string concatenation, length and substrings, the C formatting
    buffer, and decimal digits, shared by the components that produce text. *)

From Stdlib Require Import Ascii String.
From stdpp Require Import base numbers list option strings pretty.
From S2P Require Import Prelude.

Lemma length_append a b : String.length (a ++ b)%string = (String.length a + String.length b)%nat.
Proof. induction a as [|x a IH]; simpl; [done|by rewrite IH]. Qed.

Lemma append_nil (a : string) : (a ++ EmptyString)%string = a.
Proof.
  induction a as [|x a IH]; [done|].
  change (String x (a ++ EmptyString) = String x a). by rewrite IH.
Qed.

Lemma append_assoc (a b c : string) : (a ++ (b ++ c))%string = ((a ++ b) ++ c)%string.
Proof.
  induction a as [|x a IH]; [done|].
  change (String x (a ++ (b ++ c)) = String x ((a ++ b) ++ c))%string. by rewrite IH.
Qed.

Lemma substring_all (s : string) : String.substring 0 (String.length s) s = s.
Proof. induction s as [|x s IH]; simpl; [done|by rewrite IH]. Qed.

(** Cutting a string in two and putting it together again. *)
Lemma substring_split n (s : string) :
  (String.substring 0 n s ++ String.substring n (String.length s - n) s)%string = s.
Proof.
  revert n; induction s as [|x s IH]; intros [|n]; [done|done| |].
  - rewrite Nat.sub_0_r. apply (substring_all (String x s)).
  - change (String x (String.substring 0 n s ++ String.substring n (String.length s - n) s)
      = String x s). by rewrite IH.
Qed.

Lemma substring_ge n (s : string) : (String.length s ≤ n)%nat → String.substring 0 n s = s.
Proof.
  revert n; induction s as [|x s IH]; intros n Hn; [by destruct n|].
  destruct n as [|n]; simpl in *; [lia|]. by rewrite IH by lia.
Qed.

Lemma substring_substring m n (s : string) :
  (m ≤ n)%nat → String.substring 0 m (String.substring 0 n s) = String.substring 0 m s.
Proof.
  revert m n; induction s as [|x s IH]; intros m n Hmn; [by destruct n, m|].
  destruct m as [|m]; [by destruct n|]. destruct n as [|n]; simpl; [lia|]. by rewrite IH by lia.
Qed.

(** [snprintf] into a buffer of [size] bytes. *)
Definition snprintf (size : nat) (text : string) : string := substring 0 (size - 1) text.

Lemma snprintf_fits size text : (String.length text < size)%nat → snprintf size text = text.
Proof. intros H. apply substring_ge. lia. Qed.

(** What holds of a text and is kept by putting a digit in front holds after
    printing a number there. *)
Lemma pretty_N_go_ind (P : string → Prop) x s :
  (∀ d s, (d < 10)%N → P s → P (String (pretty_N_char d) s)) → P s → P (pretty_N_go x s).
Proof.
  intros Hd. revert s. induction (N.lt_wf_0 x) as [x _ IH]; intros s Hs.
  destruct (N.eq_0_gt_0_cases x) as [->|H0]; [by rewrite pretty_N_go_0|].
  rewrite pretty_N_go_step by lia. apply IH; [apply N.div_lt; lia|].
  apply Hd; [apply N.mod_lt; lia|done].
Qed.

(** The length of a printed number. *)
Lemma length_pretty_N_go x s k :
  (x < 10 ^ N.of_nat k)%N → (String.length (pretty_N_go x s) ≤ k + String.length s)%nat.
Proof.
  revert x s. induction k as [|k IH]; intros x s Hx.
  { replace x with 0%N by (simpl in Hx; lia). by rewrite pretty_N_go_0. }
  destruct (N.eq_0_gt_0_cases x) as [->|H0]; [rewrite pretty_N_go_0; lia|].
  rewrite pretty_N_go_step by lia. etrans; [apply IH|simpl; lia].
  apply N.Div0.div_lt_upper_bound. by rewrite Nat2N.inj_succ, N.pow_succ_r' in Hx.
Qed.

Lemma length_pretty_Z (n : Z) k :
  (0 < k)%nat → 0 ≤ n < 10 ^ Z.of_nat k → (String.length (pretty n) ≤ k)%nat.
Proof.
  intros Hk Hn. destruct n as [|p|p]; [simpl; lia| |lia].
  change (pretty (Z.pos p)) with (pretty_N_go (N.pos p) EmptyString).
  etrans; [apply (length_pretty_N_go _ _ k)|simpl; lia].
  apply N2Z.inj_lt. rewrite N2Z.inj_pow, nat_N_Z. simpl. lia.
Qed.
