(* ===== verification/NoAllocGuard.v ===== *)
(** * The allocation guard

    [src/include/safeedge/rt/no_alloc_guard.hpp], [src/src/rt/no_alloc_guard.cpp]
    and the hook in [src/src/rt/no_alloc_guard_hooks.cpp]: the thread-local scope
    depths, the violation report, the policy and the message written before an
    abort. Code that runs under the guard is a tree of scopes and allocations,
    as the scopes are RAII objects. *)

From Stdlib Require Import Ascii String.
From stdpp Require Import base numbers list option.
From S2P Require Import Prelude Strings.

Inductive AllocationPolicy := kIgnore | kCount | kAbort.

#[export] Instance policy_eq_dec : EqDecision AllocationPolicy.
Proof. solve_decision. Defined.

(** The thread's depths and the process-wide bookkeeping. *)
Record Guard := mkGuard {
  t_no_alloc_depth : Z;
  t_allow_depth : Z;
  g_violations : Z;
  g_largest_bytes : Z;
  g_policy : AllocationPolicy;
  g_guard_installed : bool
}.

Definition newGuard : Guard := mkGuard 0 0 0 0 kAbort false.

(** The rest of the program, or the text written by an abort. *)
Definition outcome : Type := Guard + string.

(** ** Scopes, policy and report *)

Definition with_no_alloc (d : Z) (g : Guard) : Guard :=
  mkGuard d (t_allow_depth g) (g_violations g) (g_largest_bytes g) (g_policy g) (g_guard_installed g).
Definition with_allow (d : Z) (g : Guard) : Guard :=
  mkGuard (t_no_alloc_depth g) d (g_violations g) (g_largest_bytes g) (g_policy g)
    (g_guard_installed g).
Definition with_report (violations largest : Z) (g : Guard) : Guard :=
  mkGuard (t_no_alloc_depth g) (t_allow_depth g) violations largest (g_policy g)
    (g_guard_installed g).

Definition enterNoAllocScope (g : Guard) : Guard := with_no_alloc (i32 (t_no_alloc_depth g + 1)) g.
Definition leaveNoAllocScope (g : Guard) : Guard := with_no_alloc (i32 (t_no_alloc_depth g - 1)) g.
Definition enterAllowAllocScope (g : Guard) : Guard := with_allow (i32 (t_allow_depth g + 1)) g.
Definition leaveAllowAllocScope (g : Guard) : Guard := with_allow (i32 (t_allow_depth g - 1)) g.

Definition setAllocationPolicy (policy : AllocationPolicy) (g : Guard) : Guard :=
  mkGuard (t_no_alloc_depth g) (t_allow_depth g) (g_violations g) (g_largest_bytes g) policy
    (g_guard_installed g).

Definition markGuardInstalled (g : Guard) : Guard :=
  mkGuard (t_no_alloc_depth g) (t_allow_depth g) (g_violations g) (g_largest_bytes g) (g_policy g) true.

Definition allocationReport (g : Guard) : Z * Z := (g_violations g, g_largest_bytes g).
Definition resetAllocationReport (g : Guard) : Guard := with_report 0 0 g.

Definition inNoAllocScope (g : Guard) : bool :=
  (0 <? t_no_alloc_depth g) && (t_allow_depth g =? 0).

Definition allocationPolicy (g : Guard) : AllocationPolicy := g_policy g.
Definition guardIsInstalled (g : Guard) : bool := g_guard_installed g.

(** ** The message *)

Definition digit (d : Z) : ascii := ascii_of_N (Z.to_N (48 + d)).

(** The digits of [value], least significant first, at most [room] of them. *)
Fixpoint digits_of (room : nat) (value : Z) : list ascii :=
  match room with
  | O => []
  | S room => if 0 <? value then digit (value mod 10) :: digits_of room (value / 10) else []
  end.

(** [appendUnsigned]: the text after appending [value] to a text of the given
    length in a buffer of [capacity] characters, one of them the terminator. *)
Definition appendUnsigned (capacity : Z) (text : string) (value : Z) : string :=
  let digits := if value =? 0 then [digit 0] else digits_of 24 value in
  let room := Z.to_nat (capacity - 1 - Z.of_nat (String.length text)) in
  (text ++ string_of_list_ascii (take room (reverse digits)))%string.

Definition prefix : string := (String "010" "safeedge: FATAL -- allocation of ")%string.
Definition suffix : string :=
  (" bytes inside a NoAllocScope (real-time path)" ++ String "010" EmptyString)%string.

Definition abort_message (bytes : Z) : string :=
  let message := appendUnsigned 192 prefix bytes in
  if Z.of_nat (String.length message) + Z.of_nat (String.length suffix) <? 192
  then (message ++ suffix)%string else message.

(** [emitRaw] on the results of [write]: the text written, and whether the loop
    has ended. *)
Fixpoint emitRaw (answers : list Z) (text : string) : string * bool :=
  match text, answers with
  | EmptyString, _ => (EmptyString, true)
  | _, [] => (EmptyString, false)
  | _, written :: answers =>
      if written <=? 0 then (EmptyString, true)
      else
        let n := Z.to_nat written in
        let (out, ended) := emitRaw answers (String.substring n (String.length text - n) text) in
        ((String.substring 0 n text ++ out)%string, ended)
  end.

(** ** Violations *)

Definition reportViolation (bytes : Z) (g : Guard) : outcome :=
  let g := with_report (u64 (g_violations g + 1)) (Z.max (g_largest_bytes g) bytes) g in
  if bool_decide (g_policy g ≠ kAbort) then inl g else inr (abort_message bytes).

Definition noteAllocation (bytes : Z) (g : Guard) : outcome :=
  if (0 <? t_no_alloc_depth g) && (t_allow_depth g =? 0) then reportViolation bytes g else inl g.

(** Code under the guard: allocations ([operator new]) and scopes, each
    followed by the rest of the code. *)
Inductive code :=
| nothing
| alloc (bytes : Z) (rest : code)
| no_alloc_scope (body rest : code)
| allow_alloc_scope (body rest : code).

Definition bind (o : outcome) (f : Guard → outcome) : outcome :=
  match o with inl g => f g | inr message => inr message end.

Fixpoint exec (c : code) (g : Guard) : outcome :=
  match c with
  | nothing => inl g
  | alloc bytes rest => bind (noteAllocation bytes g) (exec rest)
  | no_alloc_scope body rest =>
      bind (exec body (enterNoAllocScope g)) (λ g, exec rest (leaveNoAllocScope g))
  | allow_alloc_scope body rest =>
      bind (exec body (enterAllowAllocScope g)) (λ g, exec rest (leaveAllowAllocScope g))
  end.

(** ** The specification: lexical scopes *)

(** The sizes of the allocations of [c] that are inside a no-allocation scope
    and outside every exemption, in order. *)
Fixpoint forbidden (inside allowed : bool) (c : code) : list Z :=
  match c with
  | nothing => []
  | alloc bytes rest =>
      (if inside && negb allowed then [bytes] else []) ++ forbidden inside allowed rest
  | no_alloc_scope body rest => forbidden true allowed body ++ forbidden inside allowed rest
  | allow_alloc_scope body rest => forbidden inside true body ++ forbidden inside allowed rest
  end.

(** The nesting depth. *)
Fixpoint depth (c : code) : Z :=
  match c with
  | nothing => 0
  | alloc _ rest => depth rest
  | no_alloc_scope body rest | allow_alloc_scope body rest =>
      Z.max (1 + depth body) (depth rest)
  end.

(** What is left after a write. *)
Lemma length_substring_rest n s :
  String.length (String.substring n (String.length s - n) s) = (String.length s - n)%nat.
Proof.
  revert n. induction s as [|c s IH]; intros [|n]; [done|done| |apply IH].
  by rewrite Nat.sub_0_r, substring_all.
Qed.

(** What reaches the terminal is a prefix of the message, and all of it when no
    [write] fails. *)
Lemma emitRaw_prefix answers text : ∃ rest, ((emitRaw answers text).1 ++ rest)%string = text.
Proof.
  revert text. induction answers as [|w answers IH]; intros [|c text]; try (by exists EmptyString);
    [by eexists|]. cbn [emitRaw]. destruct (w <=? 0); [by eexists|].
  set (t := String c text). set (n := Z.to_nat w).
  destruct (IH (String.substring n (String.length t - n) t)) as [rest Hr].
  exists rest. destruct (emitRaw answers _) as [out ended]. cbn [fst] in *.
  rewrite <- append_assoc, Hr. apply substring_split.
Qed.

Lemma emitRaw_complete answers text :
  Forall (λ w, 0 < w) answers → (String.length text ≤ length answers)%nat →
  emitRaw answers text = (text, true).
Proof.
  intros Ha. revert text. induction Ha as [|w answers Hw _ IH]; intros [|c text] Hl;
    simpl in Hl; [done|lia|done|]. cbn [emitRaw]. destruct (Z.leb_spec w 0); [lia|].
  set (t := String c text). rewrite IH.
  - by rewrite substring_split.
  - rewrite length_substring_rest. subst t. simpl. lia.
Qed.

Lemma depth_nonneg c : 0 ≤ depth c.
Proof. induction c; simpl; lia. Qed.

(** What the guard shall do for a list of forbidden allocations. *)
Definition guard_spec (sizes : list Z) (g : Guard) : outcome :=
  match g_policy g, sizes with
  | kAbort, bytes :: _ => inr (abort_message bytes)
  | _, _ => inl (with_report (u64 (g_violations g + Z.of_nat (length sizes)))
                   (foldl Z.max (g_largest_bytes g) sizes) g)
  end.

Lemma guard_spec_nil g : is_u64 (g_violations g) → guard_spec [] g = inl g.
Proof.
  intros Hv. unfold guard_spec. simpl. rewrite Z.add_0_r, unsigned_wrap_id by done.
  by destruct g as [? ? ? ? [] ?].
Qed.

Lemma guard_spec_app l l' g :
  bind (guard_spec l g) (guard_spec l') = guard_spec (l ++ l') g.
Proof.
  unfold guard_spec. rewrite foldl_app, length_app. destruct g as [na al v lb [] inst]; simpl;
    try (unfold with_report; simpl; unfold unsigned_wrap; rewrite Zplus_mod_idemp_l, Nat2Z.inj_add, Z.add_assoc; done).
  destruct l as [|b l]; simpl; [|done]. destruct l' as [|b' l']; simpl; [|done].
  unfold with_report; simpl. unfold unsigned_wrap. by rewrite Z.add_0_r, Z.mod_mod.
Qed.

Lemma guard_spec_frame l g g' :
  guard_spec l g = inl g' →
  t_no_alloc_depth g' = t_no_alloc_depth g ∧ t_allow_depth g' = t_allow_depth g ∧
  is_u64 (g_violations g').
Proof.
  unfold guard_spec. intros H. assert (∃ v b, is_u64 v ∧ g' = with_report v b g) as (v & b & Hv & ->).
  { destruct (g_policy g), l; simplify_eq;
      eexists _, _; (split; [|reflexivity]); by apply unsigned_wrap_range. }
  done.
Qed.

Lemma bind_ext o f f' : (∀ g, o = inl g → f g = f' g) → bind o f = bind o f'.
Proof. destruct o; simpl; auto. Qed.

Lemma bind_inl o (f : Guard → Guard) (k : Guard → outcome) :
  bind o (λ g, k (f g)) = bind (bind o (λ g, inl (f g))) k.
Proof. by destruct o. Qed.

(** A scope changes nothing but its depth. *)
Lemma no_alloc_scope_spec l g :
  is_i32 (t_no_alloc_depth g) → is_i32 (t_no_alloc_depth g + 1) →
  bind (guard_spec l (enterNoAllocScope g)) (λ g, inl (leaveNoAllocScope g)) = guard_spec l g.
Proof.
  intros H H1. unfold guard_spec, enterNoAllocScope, leaveNoAllocScope, with_no_alloc, with_report.
  destruct g as [na al v b [] inst]; simpl in *; destruct l; simpl; try done;
    by rewrite (signed_wrap_id 32 (na + 1)), Z.add_simpl_r, signed_wrap_id by done.
Qed.

Lemma allow_scope_spec l g :
  is_i32 (t_allow_depth g) → is_i32 (t_allow_depth g + 1) →
  bind (guard_spec l (enterAllowAllocScope g)) (λ g, inl (leaveAllowAllocScope g)) = guard_spec l g.
Proof.
  intros H H1. unfold guard_spec, enterAllowAllocScope, leaveAllowAllocScope, with_allow, with_report.
  destruct g as [na al v b [] inst]; simpl in *; destruct l; simpl; try done;
    by rewrite (signed_wrap_id 32 (al + 1)), Z.add_simpl_r, signed_wrap_id by done.
Qed.

(** A guard on which [c] cannot overflow the depth counters. *)
Definition guard_fits (c : code) (g : Guard) : Prop :=
  0 ≤ t_no_alloc_depth g ∧ t_no_alloc_depth g + depth c < 2 ^ 31 ∧
  0 ≤ t_allow_depth g ∧ t_allow_depth g + depth c < 2 ^ 31 ∧ is_u64 (g_violations g).

#[export] Instance guard_fits_dec c g : Decision (guard_fits c g).
Proof. unfold guard_fits; apply _. Defined.

(** The allocations [c] must not make when run under [g]. *)
Definition forbidden_in (g : Guard) (c : code) : list Z :=
  forbidden (0 <? t_no_alloc_depth g) (0 <? t_allow_depth g) c.

Lemma noteAllocation_spec bytes g :
  is_u64 (g_violations g) → 0 ≤ t_allow_depth g →
  noteAllocation bytes g = guard_spec (forbidden_in g (alloc bytes nothing)) g.
Proof.
  intros Hv Ha. unfold noteAllocation, forbidden_in; simpl.
  replace (t_allow_depth g =? 0) with (negb (0 <? t_allow_depth g))
    by (destruct (Z.eqb_spec (t_allow_depth g) 0), (Z.ltb_spec 0 (t_allow_depth g)); simpl; lia || done).
  destruct ((0 <? t_no_alloc_depth g) && _); simpl; [|by rewrite guard_spec_nil].
  unfold reportViolation, guard_spec. simpl.
  destruct g as [na al v b [] inst]; done.
Qed.

Lemma exec_rest l g rest :
  (∀ g, guard_fits rest g → exec rest g = guard_spec (forbidden_in g rest) g) →
  guard_fits rest g →
  bind (guard_spec l g) (exec rest) = guard_spec (l ++ forbidden_in g rest) g.
Proof.
  intros IH (Hn & Hn' & Ha & Ha' & Hv). rewrite <- guard_spec_app. apply bind_ext.
  intros g' (E1 & E2 & Hv')%guard_spec_frame. rewrite IH.
  - unfold forbidden_in. by rewrite E1, E2.
  - unfold guard_fits. by rewrite E1, E2.
Qed.

Lemma exec_spec c g : guard_fits c g → exec c g = guard_spec (forbidden_in g c) g.
Proof.
  revert g; induction c as [|bytes c IH|body IHb rest IHr|body IHb rest IHr];
    intros g Hfit; pose proof Hfit as (Hn & Hn' & Ha & Ha' & Hv); cbn [exec depth] in *.
  - unfold forbidden_in; simpl. by rewrite guard_spec_nil.
  - rewrite noteAllocation_spec, exec_rest by done.
    unfold forbidden_in; simpl. by rewrite app_nil_r.
  - pose proof (depth_nonneg body). pose proof (depth_nonneg rest).
    assert (Ei : t_no_alloc_depth (enterNoAllocScope g) = t_no_alloc_depth g + 1)
      by (apply signed_wrap_id; [lia|solve_range]).
    rewrite bind_inl, IHb by (unfold guard_fits; rewrite Ei; simpl; repeat split; try lia; apply Hv).
    rewrite no_alloc_scope_spec by solve_range.
    rewrite exec_rest by (done || (repeat split; try lia; apply Hv)).
    unfold forbidden_in. rewrite Ei. simpl.
    by rewrite (proj2 (Z.ltb_lt 0 (t_no_alloc_depth g + 1))) by lia.
  - pose proof (depth_nonneg body). pose proof (depth_nonneg rest).
    assert (Ei : t_allow_depth (enterAllowAllocScope g) = t_allow_depth g + 1)
      by (apply signed_wrap_id; [lia|solve_range]).
    rewrite bind_inl, IHb by (unfold guard_fits; rewrite Ei; simpl; repeat split; try lia; apply Hv).
    rewrite allow_scope_spec by solve_range.
    rewrite exec_rest by (done || (repeat split; try lia; apply Hv)).
    unfold forbidden_in. rewrite Ei. simpl.
    by rewrite (proj2 (Z.ltb_lt 0 (t_allow_depth g + 1))) by lia.
Qed.

(** C35: The guard reports exactly the forbidden allocations. Code whose scopes
    nest and which does not overflow the depth counters leaves the depths as it
    found them; without the abort policy it runs to its end, the violation
    count grows by the number of allocations made lexically inside a
    no-allocation scope and outside every exemption, and the largest size is
    kept; under the abort policy it runs to its end exactly when there is none,
    and otherwise stops at the first one with its size in the message. *)
Theorem guard_reports_exactly c g :
  guard_fits c g → g_violations g + Z.of_nat (length (forbidden_in g c)) < 2 ^ 64 →
  exec c g =
  match g_policy g, forbidden_in g c with
  | kAbort, bytes :: _ => inr (abort_message bytes)
  | _, sizes =>
      inl (mkGuard (t_no_alloc_depth g) (t_allow_depth g)
             (g_violations g + Z.of_nat (length sizes))
             (foldl Z.max (g_largest_bytes g) sizes) (g_policy g) (g_guard_installed g))
  end.
Proof.
  intros Hfit Hv. rewrite exec_spec by done. destruct Hfit as (_ & _ & _ & _ & Hu).
  unfold guard_spec, with_report. rewrite unsigned_wrap_id by solve_range.
  by destruct (g_policy g), (forbidden_in g c).
Qed.

Definition demo_code : code :=
  alloc 8 (no_alloc_scope (alloc 32 (allow_alloc_scope (alloc 4096 nothing) (alloc 64 nothing))) nothing).

Lemma guard_reports_exactly_witness :
  exec demo_code (setAllocationPolicy kCount newGuard) = inl (mkGuard 0 0 2 64 kCount false).
Proof.
  rewrite (guard_reports_exactly demo_code (setAllocationPolicy kCount newGuard));
    [reflexivity|by_compute|by_compute].
Defined.
