(* ===== verification/CyclicExecutor.v ===== *)
(** * The cyclic executor

    [src/include/safeedge/rt/cyclic_executor.hpp] and
    [src/src/rt/cyclic_executor.cpp]: the absolute-deadline loop, the overrun
    policies and the statistics. The clock, the stop flag and the callback are
    the environment: every iteration is given the stop flag it reads, the time
    it wakes and the time its callback returns, and the callback's allocations
    run under the allocation guard. *)

From Stdlib Require Import SpecFloat.
From stdpp Require Import base numbers list option.
From S2P Require Import Prelude Float64 LatencyHistogram NoAllocGuard.

Definition kNanosPerSecond : Z := 1000000000.

(** [timespec], with the C++ division that truncates towards zero. *)
Record timespec := mkTimespec { tv_sec : Z; tv_nsec : Z }.

Definition toNanos (ts : timespec) : Z := i64 (tv_sec ts * kNanosPerSecond + tv_nsec ts).
Definition fromNanos (nanos : Z) : timespec :=
  mkTimespec (Z.quot nanos kNanosPerSecond) (Z.rem nanos kNanosPerSecond).

(** [sleepUntil] on the return codes of [clock_nanosleep]: the number of calls
    made, the last of which did not return [EINTR]. *)
Definition EINTR : Z := 4.
Fixpoint sleepUntil (codes : list Z) : option nat :=
  match codes with
  | [] => None
  | rc :: codes =>
      if rc =? 0 then Some 1%nat
      else if negb (rc =? EINTR) then Some 1%nat
      else S <$> sleepUntil codes
  end.

Inductive OverrunPolicy := kSkipMissed | kRunLate.

#[export] Instance overrun_policy_eq_dec : EqDecision OverrunPolicy.
Proof. solve_decision. Defined.

Record CycleContext := mkContext {
  ctx_index : Z;
  wakeup_jitter_ns : Z;
  ctx_period_ns : Z
}.

Record ExecutorStats := mkStats {
  cycles_executed : Z;
  overruns : Z;
  skipped_cycles : Z;
  allocation_violations : Z;
  wakeup_jitter : LatencyHistogram;
  execution_time : LatencyHistogram;
  cycle_total : LatencyHistogram
}.

Definition newStats : ExecutorStats :=
  mkStats 0 0 0 0 newHistogram newHistogram newHistogram.
Definition resetStats (s : ExecutorStats) : ExecutorStats := newStats.

Record Config := mkExecConfig {
  period : Z;
  overrun_policy : OverrunPolicy;
  guard_allocations : bool
}.

(** What one iteration observes. *)
Record Iteration := mkIteration { stop_requested : bool; woke_ns : Z; finished_ns : Z }.

(** The loop's state: the next deadline, the statistics, the allocation guard,
    and the contexts the callback was invoked with, newest first. *)
Record Loop := mkLoop {
  deadline_ns : Z;
  stats_ : ExecutorStats;
  guard : Guard;
  invocations : list CycleContext
}.

(** ** The loop *)

(** The [while (deadline_ns <= finished_ns)] loop: the new deadline and the
    cycles skipped. [fuel] bounds its iterations. *)
Fixpoint skip_missed (fuel : nat) (deadline period finished skipped : Z) : option (Z * Z) :=
  if deadline <=? finished then
    match fuel with
    | O => None
    | S fuel => skip_missed fuel (i64 (deadline + period)) period finished (u64 (skipped + 1))
    end
  else Some (deadline, skipped).

(** Enough fuel for the loop to end: one iteration per period it is behind. *)
Definition skip_fuel (deadline period finished : Z) : nat :=
  Z.to_nat ((finished - deadline) / period + 1).

Section Run.
Context (config : Config).
(** The allocations the callback makes in a cycle. *)
Context (callback : CycleContext → code).

(** One iteration after its stop check; the outer [None] is an abort of the
    process by the allocation guard. *)
Definition one_cycle (index : Z) (it : Iteration) (l : Loop) : option Loop :=
  let period_ns := period config in
  let jitter_ns := i64 (woke_ns it - deadline_ns l) in
  let context := mkContext index jitter_ns period_ns in
  let body :=
    if guard_allocations config
    then exec (no_alloc_scope (callback context) nothing) (guard l)
    else exec (callback context) (guard l) in
  match body with
  | inr _ => None
  | inl guard =>
      let s := stats_ l in
      let jitter := record jitter_ns (wakeup_jitter s) in
      let execution := record (i64 (finished_ns it - woke_ns it)) (execution_time s) in
      let total := record (i64 (finished_ns it - deadline_ns l)) (cycle_total s) in
      let executed := u64 (cycles_executed s + 1) in
      let deadline := i64 (deadline_ns l + period_ns) in
      if deadline <=? finished_ns it then
        let overruns := u64 (overruns s + 1) in
        match overrun_policy config with
        | kSkipMissed =>
            match skip_missed (skip_fuel deadline period_ns (finished_ns it))
                    deadline period_ns (finished_ns it) (skipped_cycles s) with
            | Some (deadline, skipped) =>
                Some (mkLoop deadline
                  (mkStats executed overruns skipped (allocation_violations s) jitter execution total)
                  guard (context :: invocations l))
            | None => None
            end
        | kRunLate =>
            Some (mkLoop deadline
              (mkStats executed overruns (skipped_cycles s) (allocation_violations s)
                 jitter execution total) guard (context :: invocations l))
        end
      else
        Some (mkLoop deadline
          (mkStats executed (overruns s) (skipped_cycles s) (allocation_violations s)
             jitter execution total) guard (context :: invocations l))
  end.

(** The [for] loop over the iterations that happen; [Some (true, _)] has left
    the loop, [Some (false, _)] waits for its next iteration. *)
Fixpoint loop (max_cycles index : Z) (its : list Iteration) (l : Loop) : option (bool * Loop) :=
  if negb (max_cycles =? 0) && negb (index <? max_cycles) then Some (true, l)
  else
    match its with
    | [] => Some (false, l)
    | it :: its =>
        if stop_requested it then Some (true, l)
        else
          match one_cycle index it l with
          | None => None
          | Some l => loop max_cycles (u64 (index + 1)) its l
          end
    end.

Definition with_violations (violations : Z) (l : Loop) : Loop :=
  let s := stats_ l in
  mkLoop (deadline_ns l)
    (mkStats (cycles_executed s) (overruns s) (skipped_cycles s) violations
       (wakeup_jitter s) (execution_time s) (cycle_total s)) (guard l) (invocations l).

(** [run], started at [start_ns] with the given statistics and guard. *)
Definition run (max_cycles start_ns : Z) (its : list Iteration) (s : ExecutorStats) (g : Guard)
  : option (bool * Loop) :=
  if period config <=? 0 then Some (true, mkLoop 0 s g [])
  else
    let violations_at_start := (allocationReport g).1 in
    match loop max_cycles 0 its (mkLoop (i64 (start_ns + period config)) s g []) with
    | Some (true, l) =>
        Some (true, with_violations
          (u64 ((allocationReport (guard l)).1 - violations_at_start)) l)
    | other => other
    end.

End Run.
