(* ===== verification/CyclicExecutorTiming.v ===== *)
(** * The cyclic executor: theorems

    Deadlines are exact multiples of the period from the start of the run,
    whatever the wakeups and execution times; under [kSkipMissed] the loop
    resumes at the first deadline still in the future and counts what it
    skipped, under [kRunLate] it drops nothing; the callback is invoked once per
    executed cycle with consecutive indices; and the allocation guard's findings
    are reported when the run ends. *)

From Stdlib Require Import SpecFloat.
From stdpp Require Import base numbers list option.
From S2P Require Import Prelude Float64 LatencyHistogram NoAllocGuard CyclicExecutor.

(** ** Time conversions *)

Lemma toNanos_fromNanos n : is_i64 n → toNanos (fromNanos n) = n.
Proof.
  intros Hn. unfold toNanos, fromNanos; simpl.
  rewrite Z.mul_comm, <- Z.quot_rem by done. by apply signed_wrap_id.
Qed.

(** ** Skipping *)

(** The number of deadlines from [deadline] on, one every [period], that are
    not after [finished]. *)
Definition missed (deadline period finished : Z) : Z :=
  if deadline <=? finished then (finished - deadline) / period + 1 else 0.

Lemma missed_nonneg deadline period finished : 0 < period → 0 ≤ missed deadline period finished.
Proof.
  intros Hp. unfold missed. destruct (Z.leb_spec deadline finished); [|lia].
  pose proof (Z.div_pos (finished - deadline) period ltac:(lia) Hp). lia.
Qed.

(** The deadline after the missed ones is the first one in the future. *)
Lemma missed_first deadline period finished :
  0 < period →
  finished < deadline + period * missed deadline period finished ∧
  (∀ j, 0 ≤ j < missed deadline period finished → deadline + period * j ≤ finished).
Proof.
  intros Hp. unfold missed. destruct (Z.leb_spec deadline finished); [|split; [lia|intros; lia]].
  pose proof (Z.div_mod (finished - deadline) period ltac:(lia)) as Hdm.
  pose proof (Z.mod_pos_bound (finished - deadline) period Hp). split; [nia|intros j Hj; nia].
Qed.

Lemma missed_step deadline period finished :
  0 < period → deadline ≤ finished →
  missed deadline period finished = 1 + missed (deadline + period) period finished.
Proof.
  intros Hp Hle. unfold missed. rewrite (proj2 (Z.leb_le deadline finished)) by done.
  destruct (Z.leb_spec (deadline + period) finished) as [H|H].
  - replace (finished - deadline) with (finished - (deadline + period) + 1 * period) by lia.
    rewrite Z.div_add by lia. lia.
  - rewrite Z.div_small by lia. lia.
Qed.

Lemma u64_add a b : u64 (u64 a + b) = u64 (a + b).
Proof. unfold unsigned_wrap. by rewrite Zplus_mod_idemp_l. Qed.

Lemma skip_missed_spec fuel deadline period finished skipped :
  0 < period → is_i64 deadline → is_u64 skipped → finished + period < 2 ^ 63 →
  missed deadline period finished ≤ Z.of_nat fuel →
  skip_missed fuel deadline period finished skipped =
  Some (deadline + period * missed deadline period finished,
        u64 (skipped + missed deadline period finished)).
Proof.
  intros Hp. revert deadline skipped.
  induction fuel as [|fuel IH]; intros deadline skipped Hd Hs Hf Hm; cbn [skip_missed];
    pose proof (missed_nonneg deadline period finished Hp);
    destruct (Z.leb_spec deadline finished) as [Hle|Hgt].
  - pose proof (missed_step deadline period finished Hp Hle).
    pose proof (missed_nonneg (deadline + period) period finished Hp). lia.
  - unfold missed. rewrite (proj2 (Z.leb_gt deadline finished)) by done.
    rewrite Z.mul_0_r, !Z.add_0_r, unsigned_wrap_id by done. done.
  - pose proof (missed_step deadline period finished Hp Hle) as Hms.
    rewrite (signed_wrap_id 64) by (try solve_range; lia).
    rewrite IH; [|solve_range|by apply unsigned_wrap_range|done|lia].
    rewrite u64_add, Hms. do 2 f_equal; [lia|f_equal; lia].
  - unfold missed. rewrite (proj2 (Z.leb_gt deadline finished)) by done.
    rewrite Z.mul_0_r, !Z.add_0_r, unsigned_wrap_id by done. done.
Qed.

Lemma skip_fuel_enough deadline period finished :
  missed deadline period finished ≤ Z.of_nat (skip_fuel deadline period finished).
Proof. unfold missed, skip_fuel. destruct (Z.leb_spec deadline finished); lia. Qed.

(** ** One cycle *)

Section Timing.
Context (config : Config) (callback : CycleContext → code).
Hypothesis Hperiod : 0 < period config.
(** Scopes nest to a depth the counters can hold. *)
Hypothesis Hdepth : ∀ ctx, 1 + depth (callback ctx) < 2 ^ 31.

Local Abbreviation p := (period config).

(** The guard between cycles: outside every scope, and not aborting. *)
Definition guard_ready (g : Guard) : Prop :=
  t_no_alloc_depth g = 0 ∧ t_allow_depth g = 0 ∧ g_policy g ≠ kAbort ∧ is_u64 (g_violations g).

(** The forbidden allocations of a cycle. *)
Definition cycle_violations (ctx : CycleContext) : list Z :=
  forbidden (guard_allocations config) false (callback ctx).

Definition guard_after (ctx : CycleContext) (g : Guard) : Guard :=
  with_report (u64 (g_violations g + Z.of_nat (length (cycle_violations ctx))))
    (foldl Z.max (g_largest_bytes g) (cycle_violations ctx)) g.

Lemma guard_ready_after ctx g : guard_ready g → guard_ready (guard_after ctx g).
Proof. intros (? & ? & ? & ?). repeat split; try done; by apply unsigned_wrap_range. Qed.

Lemma cycle_exec ctx g :
  guard_ready g →
  (if guard_allocations config
   then exec (no_alloc_scope (callback ctx) nothing) g
   else exec (callback ctx) g) = inl (guard_after ctx g).
Proof.
  intros (Hn & Ha & Hpol & Hv). pose proof (Hdepth ctx). pose proof (depth_nonneg (callback ctx)).
  unfold guard_after, cycle_violations.
  destruct (guard_allocations config);
    (rewrite exec_spec by (unfold guard_fits; rewrite Hn, Ha; simpl; repeat split; try lia; apply Hv));
    unfold guard_spec, forbidden_in; rewrite Hn, Ha; simpl; rewrite ?app_nil_r;
    by destruct (g_policy g).
Qed.

(** How many deadlines the policy skips after a cycle whose successor is due at
    [next]. *)
Definition skips (next finished : Z) : Z :=
  match overrun_policy config with kSkipMissed => missed next p finished | kRunLate => 0 end.

Lemma skips_nonneg next finished : 0 ≤ skips next finished.
Proof. unfold skips. destruct (overrun_policy config); [by apply missed_nonneg|lia]. Qed.

(** The state after a cycle. *)
Definition cycle_result (index : Z) (it : Iteration) (l : Loop) : Loop :=
  let s := stats_ l in
  let next := deadline_ns l + p in
  let k := skips next (finished_ns it) in
  let ctx := mkContext index (i64 (woke_ns it - deadline_ns l)) p in
  mkLoop (next + p * k)
    (mkStats (u64 (cycles_executed s + 1))
       (u64 (overruns s + if next <=? finished_ns it then 1 else 0))
       (u64 (skipped_cycles s + k)) (allocation_violations s)
       (record (i64 (woke_ns it - deadline_ns l)) (wakeup_jitter s))
       (record (i64 (finished_ns it - woke_ns it)) (execution_time s))
       (record (i64 (finished_ns it - deadline_ns l)) (cycle_total s)))
    (guard_after ctx (guard l)) (ctx :: invocations l).

Lemma one_cycle_result index it l :
  guard_ready (guard l) → is_i64 (deadline_ns l) → is_i64 (deadline_ns l + p) →
  is_u64 (skipped_cycles (stats_ l)) → is_u64 (overruns (stats_ l)) →
  finished_ns it + p < 2 ^ 63 →
  one_cycle config callback index it l = Some (cycle_result index it l).
Proof.
  intros Hg Hd Hd' Hs Ho Hf. unfold one_cycle, cycle_result, skips.
  rewrite cycle_exec by done. rewrite (signed_wrap_id 64 (deadline_ns l + p)) by done.
  destruct (Z.leb_spec (deadline_ns l + p) (finished_ns it)) as [Hlate|Hlate].
  - destruct (overrun_policy config).
    + rewrite skip_missed_spec by (done || apply skip_fuel_enough). done.
    + by rewrite Z.mul_0_r, !Z.add_0_r, (unsigned_wrap_id 64 (skipped_cycles _)).
  - assert (Hk : match overrun_policy config with
                 | kSkipMissed => missed (deadline_ns l + p) p (finished_ns it)
                 | kRunLate => 0
                 end = 0).
    { destruct (overrun_policy config); [|done]. unfold missed. by rewrite (proj2 (Z.leb_gt _ _)). }
    by rewrite Hk, Z.mul_0_r, !Z.add_0_r, (unsigned_wrap_id 64 (skipped_cycles _)),
      (unsigned_wrap_id 64 (overruns _)).
Qed.

(** ** The run *)

(** The iterations' clock readings lie in [[0, horizon]], and the run is short
    enough for its deadlines to stay in range. *)
Definition well_timed (horizon start : Z) (its : list Iteration) : Prop :=
  0 ≤ start ≤ horizon ∧ Forall (λ it, 0 ≤ finished_ns it ≤ horizon) its ∧
  horizon + p * (Z.of_nat (length its) + 2) < 2 ^ 63.

(** The deadlines of the cycles of a run, and the one after them, from the
    clock readings alone. *)
Fixpoint schedule (deadline : Z) (its : list Iteration) : list Z :=
  deadline ::
  match its with
  | [] => []
  | it :: its => schedule (deadline + p + p * skips (deadline + p) (finished_ns it)) its
  end.

Record run_inv (start horizon : Z) (n : nat) (l : Loop) : Prop := {
  run_guard : guard_ready (guard l);
  run_cycles : cycles_executed (stats_ l) = Z.of_nat n;
  run_skipped : 0 ≤ skipped_cycles (stats_ l);
  run_late : overrun_policy config = kRunLate → skipped_cycles (stats_ l) = 0;
  run_overruns : 0 ≤ overruns (stats_ l) ≤ Z.of_nat n;
  run_deadline : deadline_ns l = start + p * (1 + Z.of_nat n + skipped_cycles (stats_ l));
  run_bound : deadline_ns l ≤ horizon + p * (Z.of_nat n + 1);
  run_invocations : length (invocations l) = n
}.

Lemma skips_bound next finished horizon :
  finished ≤ horizon → 0 ≤ skips next finished ∧
  (skips next finished = 0 ∨ next + p * skips next finished ≤ horizon + p).
Proof.
  intros Hf. split; [apply skips_nonneg|]. unfold skips.
  destruct (overrun_policy config); [|by left]. unfold missed.
  destruct (Z.leb_spec next finished) as [H|H]; [right|by left].
  pose proof (Z.div_mod (finished - next) p ltac:(lia)).
  pose proof (Z.mod_pos_bound (finished - next) p Hperiod). nia.
Qed.

Lemma run_inv_step start horizon n index it l :
  run_inv start horizon n l → 0 ≤ start → 0 ≤ finished_ns it ≤ horizon →
  horizon + p * (Z.of_nat n + 3) < 2 ^ 63 →
  one_cycle config callback index it l = Some (cycle_result index it l) ∧
  run_inv start horizon (S n) (cycle_result index it l).
Proof.
  intros [Hg Hc Hs Hl Ho Hd Hb Hi] H0 Hf Hh.
  pose proof (skips_bound (deadline_ns l + p) (finished_ns it) horizon ltac:(lia)) as [Hk0 Hk].
  assert (Hskip : skipped_cycles (stats_ l) + skips (deadline_ns l + p) (finished_ns it) < 2 ^ 63)
    by (destruct Hk as [Hk|Hk]; nia).
  split.
  { apply one_cycle_result; [done|..]; unfold in_signed, in_unsigned; simpl Z.sub;
      change (2 ^ 63) with 9223372036854775808 in *;
      change (2 ^ 64) with 18446744073709551616; nia. }
  split; simpl.
  - by apply guard_ready_after.
  - rewrite Hc, unsigned_wrap_id by (unfold in_unsigned; change (2 ^ 63) with 9223372036854775808 in *;
      change (2 ^ 64) with 18446744073709551616; nia). lia.
  - apply unsigned_wrap_range. lia.
  - intros Hpol. rewrite Hl by done. unfold skips. by rewrite Hpol.
  - destruct (deadline_ns l + p <=? finished_ns it);
      rewrite unsigned_wrap_id by (unfold in_unsigned; change (2 ^ 63) with 9223372036854775808 in *;
      change (2 ^ 64) with 18446744073709551616; nia); lia.
  - rewrite Hd in *. rewrite unsigned_wrap_id by (unfold in_unsigned; change (2 ^ 64) with (2 * 2 ^ 63); lia).
    lia.
  - destruct Hk as [Hk|Hk]; [rewrite Hk|]; nia.
  - by rewrite Hi.
Qed.

(** The iterations whose cycle is executed: up to the cycle limit and before
    the first stop request. *)
Fixpoint executed (max_cycles index : Z) (its : list Iteration) : list Iteration :=
  if negb (max_cycles =? 0) && negb (index <? max_cycles) then []
  else
    match its with
    | [] => []
    | it :: its => if stop_requested it then [] else it :: executed max_cycles (index + 1) its
    end.

Lemma length_executed max_cycles index its :
  (length (executed max_cycles index its) ≤ length its)%nat.
Proof.
  revert index; induction its as [|it its IH]; intros index; simpl; destruct (_ && _); simpl; try lia.
  destruct (stop_requested it); simpl; [lia|]. specialize (IH (index + 1)). lia.
Qed.

(** The contexts the callback shall see, from the clock readings alone. *)
Fixpoint contexts (index deadline : Z) (its : list Iteration) : list CycleContext :=
  match its with
  | [] => []
  | it :: its =>
      mkContext index (i64 (woke_ns it - deadline)) p ::
      contexts (index + 1) (deadline + p + p * skips (deadline + p) (finished_ns it)) its
  end.

Definition total_violations (ctxs : list CycleContext) : Z :=
  foldr (λ ctx n, Z.of_nat (length (cycle_violations ctx)) + n) 0 ctxs.

Lemma total_violations_nonneg ctxs : 0 ≤ total_violations ctxs.
Proof. induction ctxs; simpl; lia. Qed.

Lemma loop_spec start horizon max_cycles its n l :
  run_inv start horizon n l → 0 ≤ start →
  Forall (λ it, 0 ≤ finished_ns it ≤ horizon) its →
  horizon + p * (Z.of_nat n + Z.of_nat (length its) + 2) < 2 ^ 63 →
  ∃ b l', let ex := executed max_cycles (Z.of_nat n) its in
    let ctxs := contexts (Z.of_nat n) (deadline_ns l) ex in
    loop config callback max_cycles (Z.of_nat n) its l = Some (b, l') ∧
    run_inv start horizon (n + length ex) l' ∧
    invocations l' = reverse ctxs ++ invocations l ∧
    allocation_violations (stats_ l') = allocation_violations (stats_ l) ∧
    g_violations (guard l') = u64 (g_violations (guard l) + total_violations ctxs).
Proof.
  intros Hinv H0 Hits. revert n l Hinv.
  induction Hits as [|it its Hit Hits IH]; intros n l Hinv Hh; cbn [loop executed].
  - assert (Hg : is_u64 (g_violations (guard l))) by (destruct (run_guard _ _ _ _ Hinv); tauto).
    exists (negb (max_cycles =? 0) && negb (Z.of_nat n <? max_cycles)), l.
    destruct (negb (max_cycles =? 0) && _); simpl; rewrite Nat.add_0_r, Z.add_0_r, unsigned_wrap_id; done.
  - assert (Hg : is_u64 (g_violations (guard l))) by (destruct (run_guard _ _ _ _ Hinv); tauto).
    simpl length in Hh.
    destruct (_ && _); [exists true, l; simpl; rewrite Nat.add_0_r, Z.add_0_r, unsigned_wrap_id; done|].
    destruct (stop_requested it);
      [exists true, l; simpl; rewrite Nat.add_0_r, Z.add_0_r, unsigned_wrap_id; done|].
    destruct (run_inv_step start horizon n (Z.of_nat n) it l Hinv H0 Hit) as [-> Hinv']; [nia|].
    rewrite (unsigned_wrap_id 64 (Z.of_nat n + 1)) by (unfold in_unsigned;
      change (2 ^ 63) with 9223372036854775808 in Hh; change (2 ^ 64) with 18446744073709551616; nia).
    replace (Z.of_nat n + 1) with (Z.of_nat (S n)) by lia.
    destruct (IH (S n) _ Hinv' ltac:(lia)) as (b & l' & Hl & Hi & Hc & Hv & Hgv).
    exists b, l'. cbv zeta in *. simpl length. rewrite Nat.add_succ_r. split; [done|]. split; [done|].
    cbn [contexts total_violations foldr]. replace (Z.of_nat n + 1) with (Z.of_nat (S n)) by lia.
    split; [rewrite Hc, reverse_cons, <- app_assoc; done|]. split; [done|].
    rewrite Hgv. simpl. rewrite u64_add. f_equal. unfold total_violations. lia.
Qed.

Lemma run_inv_start start horizon g :
  guard_ready g → 0 ≤ start ≤ horizon →
  run_inv start horizon 0 (mkLoop (start + p) newStats g []).
Proof. intros Hg Hs. split; simpl; try done; lia. Qed.

Lemma run_spec horizon start max_cycles its g :
  guard_ready g → well_timed horizon start its →
  ∃ b l, let ex := executed max_cycles 0 its in
    let ctxs := contexts 0 (start + p) ex in
    run config callback max_cycles start its newStats g =
      Some (b, if (b : bool) then with_violations (u64 (g_violations (guard l) - g_violations g)) l else l) ∧
    run_inv start horizon (length ex) l ∧ reverse (invocations l) = ctxs ∧
    allocation_violations (stats_ l) = 0 ∧
    g_violations (guard l) = u64 (g_violations g + total_violations ctxs).
Proof.
  intros Hg (Hs & Hits & Hh). unfold run. rewrite (proj2 (Z.leb_gt p 0)) by done.
  assert (Hfirst : is_i64 (start + p)).
  { unfold in_signed; simpl Z.sub. change (2 ^ 63) with 9223372036854775808 in *. nia. }
  rewrite signed_wrap_id by done.
  destruct (loop_spec start horizon max_cycles its 0 _ (run_inv_start start horizon g Hg Hs))
    as (b & l & Hl & Hi & Hc & Hv & Hgv); [lia|done|simpl; lia|].
  exists b, l. change (Z.of_nat 0) with 0 in *. cbv zeta in *. simpl in Hi, Hc, Hv, Hgv.
  rewrite Hl. split; [by destruct b|]. split; [done|].
  split; [|done]. by rewrite Hc, app_nil_r, reverse_involutive.
Qed.

(** C12: The cadence never drifts. For any clock readings, the run returns; the
    callback has been invoked once per executed cycle, with indices 0, 1, 2 and
    so on and with the lateness of each wakeup against its own deadline; and
    the next deadline is exactly the start plus the period times one plus the
    number of executed and skipped cycles, of which there are none under
    [kRunLate]. *)
Theorem deadlines_never_drift horizon start max_cycles its g :
  guard_ready g → well_timed horizon start its →
  let ex := executed max_cycles 0 its in
  ∃ b l, run config callback max_cycles start its newStats g = Some (b, l) ∧
    cycles_executed (stats_ l) = Z.of_nat (length ex) ∧
    deadline_ns l =
      start + p * (1 + cycles_executed (stats_ l) + skipped_cycles (stats_ l)) ∧
    (overrun_policy config = kRunLate → skipped_cycles (stats_ l) = 0) ∧
    reverse (invocations l) = contexts 0 (start + p) ex.
Proof.
  intros Hg Hw. cbv zeta.
  destruct (run_spec horizon start max_cycles its g Hg Hw) as (b & l & Hr & Hi & Hc & _).
  cbv zeta in *. eexists b, _. split; [exact Hr|]. destruct Hi as [_ Hn Hs Hl _ Hd _ _].
  destruct b; simpl; rewrite Hn in *; done.
Qed.

(** A late cycle resumes at the right deadline. A cycle whose successor is
    due at [deadline + period] counts as an overrun exactly when it finishes at
    or after that moment. Under [kSkipMissed] the next deadline is then the
    first one of the schedule after the finish, every one before it having
    passed, and each of those counts as skipped; under [kRunLate] it is the
    successor itself, and nothing is skipped. *)
Theorem late_cycle_resumes start horizon n index it l :
  run_inv start horizon n l → 0 ≤ start → 0 ≤ finished_ns it ≤ horizon →
  horizon + p * (Z.of_nat n + 3) < 2 ^ 63 →
  ∃ l' k, one_cycle config callback index it l = Some l' ∧ 0 ≤ k ∧
    deadline_ns l' = deadline_ns l + p * (1 + k) ∧
    skipped_cycles (stats_ l') = skipped_cycles (stats_ l) + k ∧
    overruns (stats_ l') =
      overruns (stats_ l) + (if deadline_ns l + p <=? finished_ns it then 1 else 0) ∧
    match overrun_policy config with
    | kSkipMissed => finished_ns it < deadline_ns l' ∧
        ∀ j, 1 ≤ j ≤ k → deadline_ns l + p * j ≤ finished_ns it
    | kRunLate => k = 0
    end.
Proof.
  intros Hi H0 Hf Hh. pose proof (run_inv_step start horizon n index it l Hi H0 Hf Hh) as [Hone Hi'].
  exists (cycle_result index it l), (skips (deadline_ns l + p) (finished_ns it)).
  split; [done|]. split; [apply skips_nonneg|]. split; [simpl; lia|].
  assert (Hd := run_deadline _ _ _ _ Hi). assert (Hd' := run_deadline _ _ _ _ Hi').
  assert (Ho := run_overruns _ _ _ _ Hi). simpl in Hd'. split; [simpl; nia|]. split.
  { simpl. destruct (deadline_ns l + p <=? finished_ns it); rewrite unsigned_wrap_id;
      unfold in_unsigned; change (2 ^ 63) with 9223372036854775808 in *;
      change (2 ^ 64) with 18446744073709551616; nia. }
  unfold skips. simpl. destruct (overrun_policy config) eqn:Epol; [|done]. unfold skips. rewrite Epol.
  destruct (missed_first (deadline_ns l + p) p (finished_ns it) Hperiod) as [H1 H2].
  split; [lia|]. intros j Hj. specialize (H2 (j - 1) ltac:(lia)). lia.
Qed.

(** The guard's findings are reported when the run ends. A run that has left
    its loop reports exactly the forbidden allocations its cycles made; while
    the loop is running the reported number is still the one from before the
    run, whatever the cycles allocate. *)
Theorem run_reports_violations horizon start max_cycles its g :
  guard_ready g → well_timed horizon start its →
  let ctxs := contexts 0 (start + p) (executed max_cycles 0 its) in
  total_violations ctxs < 2 ^ 64 →
  ∃ b l, run config callback max_cycles start its newStats g = Some (b, l) ∧
    allocation_violations (stats_ l) = if (b : bool) then total_violations ctxs else 0.
Proof.
  intros Hg Hw. cbv zeta. intros Hv.
  destruct (run_spec horizon start max_cycles its g Hg Hw) as (b & l & Hr & _ & _ & Ha & Hgv).
  cbv zeta in *. eexists b, _. split; [exact Hr|]. destruct b; [|done]. simpl. rewrite Hgv.
  pose proof (total_violations_nonneg (contexts 0 (start + p) (executed max_cycles 0 its))) as Hn.
  unfold unsigned_wrap. rewrite Zminus_mod_idemp_l, Z.add_simpl_l. apply Z.mod_small. lia.
Qed.

End Timing.

(** ** Instances used by the witnesses *)

Definition demo_config : Config := mkExecConfig 1000 kSkipMissed true.

(** A callback that allocates in its second cycle. *)
Definition demo_callback (ctx : CycleContext) : code :=
  if ctx_index ctx =? 1 then alloc 64 nothing else nothing.

Lemma demo_callback_depth ctx : 1 + depth (demo_callback ctx) < 2 ^ 31.
Proof. unfold demo_callback. by destruct (ctx_index ctx =? 1). Qed.

Definition demo_guard : Guard := setAllocationPolicy kCount newGuard.

Lemma demo_guard_ready : guard_ready demo_guard.
Proof. by repeat split. Qed.

(** The second cycle takes three periods. *)
Definition demo_iterations : list Iteration :=
  [mkIteration false 1010 1200; mkIteration false 2005 5100; mkIteration false 6001 6300].

Lemma demo_well_timed : well_timed demo_config 10000 0 demo_iterations.
Proof. split; [by_compute|]. split; by_compute. Qed.

Lemma deadlines_never_drift_witness :
  ∃ b l, run demo_config demo_callback 3 0 demo_iterations newStats demo_guard = Some (b, l) ∧
    deadline_ns l = 0 + 1000 * (1 + cycles_executed (stats_ l) + skipped_cycles (stats_ l)).
Proof.
  destruct (deadlines_never_drift demo_config demo_callback ltac:(by_compute) demo_callback_depth
    10000 0 3 demo_iterations demo_guard demo_guard_ready demo_well_timed)
    as (b & l & Hr & _ & Hd & _).
  exists b, l. split; [exact Hr|exact Hd].
Defined.

Lemma late_cycle_resumes_witness :
  ∃ l' k, one_cycle demo_config demo_callback 0 (mkIteration false 1005 5100)
      (mkLoop 1000 newStats demo_guard []) = Some l' ∧
    skipped_cycles (stats_ l') = 0 + k ∧ 5100 < deadline_ns l'.
Proof.
  destruct (late_cycle_resumes demo_config demo_callback ltac:(by_compute) demo_callback_depth
    0 10000 0 0 (mkIteration false 1005 5100) (mkLoop 1000 newStats demo_guard []))
    as (l' & k & H1 & _ & _ & H2 & _ & H3 & _);
    [apply (run_inv_start demo_config 0 10000 demo_guard); [apply demo_guard_ready|lia]
    |lia|by_compute|by_compute|].
  exists l', k. split; [exact H1|]. split; [exact H2|exact H3].
Defined.

Lemma run_reports_violations_witness :
  ∃ b l, run demo_config demo_callback 3 0 demo_iterations newStats demo_guard = Some (b, l) ∧
    allocation_violations (stats_ l) = if (b : bool) then 1 else 0.
Proof.
  destruct (run_reports_violations demo_config demo_callback ltac:(by_compute) demo_callback_depth
    10000 0 3 demo_iterations demo_guard demo_guard_ready demo_well_timed ltac:(by_compute))
    as (b & l & Hr & Hv).
  exists b, l. split; [exact Hr|exact Hv].
Defined.
