(* ===== verification/SharedMemory.v ===== *)
(** * POSIX shared memory regions

    [src/include/safeedge/ipc/shared_memory.hpp] and
    [src/src/ipc/shared_memory.cpp]: name validation, exclusive creation, opening
    with the size check, closing, moving and unlinking. The system calls are the
    environment: an oracle answers each call as a function of the calls made
    before it, and the code's calls are recorded in a trace, newest first. *)

From Stdlib Require Import Ascii String.
From stdpp Require Import base numbers list option strings sets.
From S2P Require Import Prelude.

Definition EINVAL : Z := 22.

Record SharedMemoryError := mkError { operation : option string; error_number : Z }.

Definition noError : SharedMemoryError := mkError None 0.
Definition ok (e : SharedMemoryError) : bool := bool_decide (operation e = None).

Record SharedMemoryRegion := mkRegion {
  address_ : Z;
  size_ : Z;
  error_ : SharedMemoryError
}.

(** [nullptr] and [MAP_FAILED]. *)
Definition nullptr : Z := 0.
Definition MAP_FAILED : Z := -1.

Definition newRegion : SharedMemoryRegion := mkRegion nullptr 0 noError.
Definition valid (r : SharedMemoryRegion) : bool := negb (address_ r =? nullptr).

(** ** Names *)

(** [std::strchr] does not find the character. *)
Fixpoint no_slash (s : string) : bool :=
  match s with
  | EmptyString => true
  | String c s => negb (Ascii.eqb c "/") && no_slash s
  end.

(** [None] is the null pointer. *)
Definition nameIsWellFormed (name : option string) : bool :=
  match name with
  | None => false
  | Some EmptyString => false
  | Some (String c rest) =>
      if negb (Ascii.eqb c "/") then false
      else match rest with EmptyString => false | _ => no_slash rest end
  end.

(** ** Errors *)

(** What [strerror_r] gives: a text (its pointer or the filled buffer), or
    nothing (a null pointer or a nonzero code). *)
Definition resolvedErrorText (text : option string) : string := default "unknown error"%string text.

Definition what (strerror_r : Z → option string) (e : SharedMemoryError) : string :=
  if ok e then "ok"%string else resolvedErrorText (strerror_r (error_number e)).

(** Both constructors on a platform other than Linux, with the value it gives to
    [ENOSYS]. *)
Definition unsupported (ENOSYS : Z) : SharedMemoryRegion :=
  mkRegion nullptr 0 (mkError (Some "platform"%string) ENOSYS).

(** ** System calls *)

Inductive Call :=
| ShmOpen (name : string) (exclusive_create : bool)
| Ftruncate (fd bytes : Z)
| Fstat (fd : Z)
| Mmap (bytes fd : Z)
| Close (fd : Z)
| ShmUnlink (name : string)
| Munmap (address bytes : Z).

#[export] Instance call_eq_dec : EqDecision Call.
Proof. solve_decision. Defined.

(** What a call returns: its result, [errno], and for [Fstat] the size. *)
Record Reply := mkReply { result : Z; errno : Z; st_size : Z }.

Section Region.
Context (os : list Call → Call → Reply).

(** A computation makes calls and records them. *)
Definition M (A : Type) : Type := list Call → A * list Call.
#[global] Instance M_ret : MRet M := λ A x t, (x, t).
#[global] Instance M_bind : MBind M := λ A B f m t, let (x, t) := m t in f x t.
Definition call (c : Call) : M Reply := λ t, (os t c, c :: t).

(** [size_t] of an [off_t] and back. *)
Definition to_off_t (bytes : Z) : Z := i64 bytes.
Definition of_off_t (size : Z) : Z := u64 size.

Definition mapDescriptor (fd bytes : Z) : M (Z * SharedMemoryError) :=
  r ← call (Mmap bytes fd);
  if result r =? MAP_FAILED
  then mret (nullptr, mkError (Some "mmap"%string) (errno r))
  else mret (result r, noError).

Definition failed (operation : string) (error : Z) : SharedMemoryRegion :=
  mkRegion nullptr 0 (mkError (Some operation) error).

(** The end of both constructors: map, close the descriptor. *)
Definition map_and_close (fd bytes : Z) : M SharedMemoryRegion :=
  m ← mapDescriptor fd bytes;
  let region := mkRegion m.1 (if negb (m.1 =? nullptr) then bytes else 0) m.2 in
  call (Close fd) ;; mret region.

Definition create (name : option string) (bytes : Z) : M SharedMemoryRegion :=
  match name with
  | Some name' =>
      if negb (nameIsWellFormed name) then mret (failed "name" EINVAL)
      else if bytes =? 0 then mret (failed "size" EINVAL)
      else
        fd ← call (ShmOpen name' true);
        if result fd <? 0 then mret (failed "shm_open" (errno fd))
        else
          t ← call (Ftruncate (result fd) (to_off_t bytes));
          if negb (result t =? 0) then
            call (Close (result fd)) ;; call (ShmUnlink name') ;;
            mret (failed "ftruncate" (errno t))
          else
            region ← map_and_close (result fd) bytes;
            if negb (valid region) then call (ShmUnlink name') ;; mret region
            else mret region
  | None => mret (failed "name" EINVAL)
  end.

Definition openExisting (name : option string) (bytes : Z) : M SharedMemoryRegion :=
  match name with
  | Some name' =>
      if negb (nameIsWellFormed name) then mret (failed "name" EINVAL)
      else
        fd ← call (ShmOpen name' false);
        if result fd <? 0 then mret (failed "shm_open" (errno fd))
        else
          s ← call (Fstat (result fd));
          if negb (result s =? 0) then
            call (Close (result fd)) ;; mret (failed "fstat" (errno s))
          else if of_off_t (st_size s) <? bytes then
            call (Close (result fd)) ;; mret (failed "size" EINVAL)
          else map_and_close (result fd) bytes
  | None => mret (failed "name" EINVAL)
  end.

Definition close (r : SharedMemoryRegion) : M SharedMemoryRegion :=
  if negb (address_ r =? nullptr) then
    call (Munmap (address_ r) (size_ r)) ;; mret (mkRegion nullptr 0 (error_ r))
  else mret (mkRegion nullptr 0 (error_ r)).

(** The destructor. *)
Definition destroy (r : SharedMemoryRegion) : M () := close r ;; mret ().

(** Move construction: the new region and what is left of the old one. *)
Definition move (other : SharedMemoryRegion) : SharedMemoryRegion * SharedMemoryRegion :=
  (other, mkRegion nullptr 0 (error_ other)).

(** Move assignment between two different objects: the mapping the target held
    is released first. *)
Definition move_assign (target other : SharedMemoryRegion)
  : M (SharedMemoryRegion * SharedMemoryRegion) :=
  _ ← close target; mret (move other).

Definition unlinkName (name : option string) : M () :=
  match name with
  | Some name' => if nameIsWellFormed name then call (ShmUnlink name') ;; mret () else mret ()
  | None => mret ()
  end.

End Region.

(** ** What the calls leave behind *)

Section Properties.
Context (os : list Call → Call → Reply).
(** [mmap] without a fixed address never maps at the null pointer, and
    descriptors are not negative when a call succeeds. *)
Hypothesis Hmmap : ∀ t bytes fd, result (os t (Mmap bytes fd)) ≠ nullptr.

(** The descriptors a trace has left open, newest call first: those of the
    successful opens that no later call closed. *)
Fixpoint open_descriptors (t : list Call) : list Z :=
  match t with
  | [] => []
  | ShmOpen name x :: t =>
      if result (os t (ShmOpen name x)) <? 0 then open_descriptors t
      else result (os t (ShmOpen name x)) :: open_descriptors t
  | Close fd :: t => filter (λ d, d ≠ fd) (open_descriptors t)
  | _ :: t => open_descriptors t
  end.

(** A descriptor that is closed at once leaves the others as they were. *)
Lemma open_close_fresh (fd : Z) l : fd ∉ l → filter (λ d, d ≠ fd) (fd :: l) = l.
Proof.
  intros Hfd. rewrite list.filter_cons_False by (intros H; by apply H).
  induction l as [|x l IH]; [done|]. apply not_elem_of_cons in Hfd as [Hne Hfd].
  rewrite list.filter_cons_True by congruence. by rewrite IH.
Qed.

Lemma map_and_close_spec fd bytes t :
  let r := (map_and_close os fd bytes t).1 in
  (map_and_close os fd bytes t).2 = [Close fd; Mmap bytes fd] ++ t ∧
  valid r = ok (error_ r) ∧ size_ r = if valid r then bytes else 0.
Proof.
  unfold map_and_close, mapDescriptor, call, mbind, M_bind, mret, M_ret.
  pose proof (Hmmap t bytes fd) as Hm. unfold nullptr in *.
  destruct (Z.eqb_spec (result (os t (Mmap bytes fd))) MAP_FAILED); simpl; [done|].
  unfold valid, nullptr; simpl. by rewrite (proj2 (Z.eqb_neq _ _)).
Qed.

(** The calls of [create], by outcome. *)
Lemma create_calls name n bytes t :
  name = Some n → nameIsWellFormed name = true → 0 < bytes →
  let fd := result (os t (ShmOpen n true)) in
  let r := (create os name bytes t).1 in
  valid r = ok (error_ r) ∧ size_ r = (if valid r then bytes else 0) ∧
  ∃ new, (create os name bytes t).2 = new ++ t ∧
    (fd < 0 → valid r = false ∧ new = [ShmOpen n true]) ∧
    (0 ≤ fd → ∃ middle, Forall (λ c, match c with Ftruncate _ _ | Mmap _ _ => True | _ => False end) middle ∧
       new = (if valid r then [] else [ShmUnlink n]) ++ [Close fd] ++ middle ++ [ShmOpen n true]).
Proof.
  intros -> Hwf Hb. cbv zeta. unfold create. rewrite Hwf, (proj2 (Z.eqb_neq bytes 0)) by lia.
  unfold call, mbind, M_bind, mret, M_ret. cbn [negb].
  set (fd := result (os t (ShmOpen n true))).
  destruct (Z.ltb_spec fd 0) as [Hfd|Hfd]; simpl.
  { split; [done|]. split; [done|]. exists [ShmOpen n true]. split; [done|]. split; [done|lia]. }
  set (t1 := ShmOpen n true :: t). set (rep := os t1 (Ftruncate fd (to_off_t bytes))).
  destruct (Z.eqb_spec (result rep) 0) as [Ht|Ht]; simpl.
  - pose proof (map_and_close_spec fd bytes (Ftruncate fd (to_off_t bytes) :: t1)) as (Htr & Hv & Hs).
    destruct (map_and_close os fd bytes _) as [r t2]; simpl in *. subst t2.
    destruct (valid r) eqn:E; cbn [negb fst snd]; rewrite ?E; (split; [done|]); (split; [done|]).
    + exists [Close fd; Mmap bytes fd; Ftruncate fd (to_off_t bytes); ShmOpen n true].
      split; [done|]. split; [lia|]. intros _.
      exists [Mmap bytes fd; Ftruncate fd (to_off_t bytes)]. split; [by repeat constructor|done].
    + exists [ShmUnlink n; Close fd; Mmap bytes fd; Ftruncate fd (to_off_t bytes); ShmOpen n true].
      split; [done|]. split; [lia|]. intros _.
      exists [Mmap bytes fd; Ftruncate fd (to_off_t bytes)]. split; [by repeat constructor|done].
  - split; [done|]. split; [done|].
    exists [ShmUnlink n; Close fd; Ftruncate fd (to_off_t bytes); ShmOpen n true].
    split; [done|]. split; [lia|]. intros _.
    exists [Ftruncate fd (to_off_t bytes)]. split; [by repeat constructor|done].
Qed.

Lemma open_descriptors_middle middle t :
  Forall (λ c, match c with Ftruncate _ _ | Mmap _ _ | Fstat _ => True | _ => False end) middle →
  open_descriptors (middle ++ t) = open_descriptors t.
Proof. induction 1 as [|c middle Hc Hm IH]; [done|]. by destruct c. Qed.

(** C34: Exclusive creation is all or nothing. [create] succeeds exactly when the
    region is valid, and then has the requested size; on every failure the
    region is empty and names the call that failed. Every descriptor it opens
    is closed again, and a name it created is removed again unless the region
    is valid, so a failed creation leaves nothing behind. It opens the name for
    exclusive creation only, and a malformed name causes no call at all. *)
Theorem create_all_or_nothing name n bytes t :
  name = Some n → 0 < bytes → result (os t (ShmOpen n true)) ∉ open_descriptors t →
  let r := (create os name bytes t).1 in
  valid r = ok (error_ r) ∧ size_ r = (if valid r then bytes else 0) ∧
  ∃ new, (create os name bytes t).2 = new ++ t ∧
    (nameIsWellFormed name = false → new = []) ∧
    open_descriptors (new ++ t) = open_descriptors t ∧
    (∀ n' x, ShmOpen n' x ∈ new → n' = n ∧ x = true) ∧
    (ShmOpen n true ∈ new → 0 ≤ result (os t (ShmOpen n true)) →
     ShmUnlink n ∈ new ↔ valid r = false).
Proof.
  intros Hname Hb Hfresh. cbv zeta. destruct (nameIsWellFormed name) eqn:Hwf.
  2: { unfold create. rewrite Hwf. subst name. simpl. split; [done|]. split; [done|].
       exists []. split_and!; try done; intros; set_solver. }
  destruct (create_calls name n bytes t Hname Hwf Hb) as (Hv & Hs & new & Hnew & Hfail & Hok).
  split; [done|]. split; [done|]. exists new. split; [done|]. split; [done|].
  destruct (decide (result (os t (ShmOpen n true)) < 0)) as [Hlt|Hge].
  - destruct (Hfail Hlt) as [Hinv ->]. simpl. rewrite (proj2 (Z.ltb_lt _ _)) by done.
    split_and!; [done| |lia]. intros n' x Hin. set_solver.
  - destruct (Hok ltac:(lia)) as (middle & Hm & ->).
    assert (Hmid : ∀ c, c ∈ middle → match c with Ftruncate _ _ | Mmap _ _ => True | _ => False end)
      by (by apply list.Forall_forall).
    split_and!.
    + assert (Hclose : open_descriptors ([Close (result (os t (ShmOpen n true)))] ++ middle ++
        [ShmOpen n true] ++ t) = open_descriptors t).
      { simpl. rewrite open_descriptors_middle; [|by eapply Forall_impl; [|intros []]].
        simpl. rewrite (proj2 (Z.ltb_ge _ _)) by lia. by apply open_close_fresh. }
      rewrite <- !app_assoc. by destruct (valid _).
    + intros n' x Hin. repeat setoid_rewrite elem_of_app in Hin.
      destruct (valid _); destruct_or!; try (specialize (Hmid _ Hin); done); set_solver.
    + intros _ _. rewrite !elem_of_app. split.
      * intros Hin. destruct (valid _); [|done]. exfalso.
        destruct_or!; try (specialize (Hmid _ Hin); done); set_solver.
      * intros ->. left. set_solver.
Qed.

(** Opening never maps more than the region holds. [openExisting] maps only
    after reading a size of at least [bytes] from the descriptor it opened; a
    smaller region is reported as a size error without being mapped. It never
    creates or unlinks a name, closes every descriptor it opens, and succeeds
    exactly when the region is valid. *)
Theorem open_checks_size name n bytes t :
  name = Some n → 0 ≤ bytes → nameIsWellFormed name = true →
  result (os t (ShmOpen n false)) ∉ open_descriptors t →
  let fd := result (os t (ShmOpen n false)) in
  let size := os (ShmOpen n false :: t) (Fstat fd) in
  let r := (openExisting os name bytes t).1 in
  valid r = ok (error_ r) ∧ size_ r = (if valid r then bytes else 0) ∧
  ∃ new, (openExisting os name bytes t).2 = new ++ t ∧
    open_descriptors (new ++ t) = open_descriptors t ∧
    (∀ c, c ∈ new → match c with ShmOpen n' x => n' = n ∧ x = false | ShmUnlink _ => False | _ => True end) ∧
    (Mmap bytes fd ∈ new → 0 ≤ fd ∧ result size = 0 ∧ bytes ≤ of_off_t (st_size size)) ∧
    (0 ≤ fd → result size = 0 → of_off_t (st_size size) < bytes →
     error_ r = mkError (Some "size"%string) EINVAL ∧ Mmap bytes fd ∉ new).
Proof.
  intros -> Hb Hwf Hfresh. cbv zeta. unfold openExisting. rewrite Hwf.
  unfold call, mbind, M_bind, mret, M_ret. cbn [negb].
  set (fd := result (os t (ShmOpen n false))) in *.
  destruct (Z.ltb_spec fd 0) as [Hfd|Hfd]; simpl.
  { split; [done|]. split; [done|]. exists [ShmOpen n false]. simpl. fold fd.
    rewrite (proj2 (Z.ltb_lt _ _)) by done.
    split_and!; try done; [|set_solver|lia]. intros c Hc%list_elem_of_singleton. by subst. }
  set (t1 := ShmOpen n false :: t). set (rep := os t1 (Fstat fd)).
  assert (Hod : open_descriptors (Close fd :: Fstat fd :: t1) = open_descriptors t).
  { simpl. fold fd. rewrite (proj2 (Z.ltb_ge _ _)) by done. by apply open_close_fresh. }
  destruct (Z.eqb_spec (result rep) 0) as [Hst|Hst]; simpl.
  - destruct (Z.ltb_spec (of_off_t (st_size rep)) bytes) as [Hsz|Hsz]; simpl.
    + split; [done|]. split; [done|]. exists [Close fd; Fstat fd; ShmOpen n false].
      split_and!; [done|done|set_solver|set_solver|]. intros _ _ _. split; [done|set_solver].
    + pose proof (map_and_close_spec fd bytes (Fstat fd :: t1)) as (Htr & Hv & Hs).
      split; [done|]. split; [done|].
      exists [Close fd; Mmap bytes fd; Fstat fd; ShmOpen n false].
      split_and!; [done|done|set_solver|done|lia].
  - split; [done|]. split; [done|]. exists [Close fd; Fstat fd; ShmOpen n false].
    split_and!; [done|done|set_solver|set_solver|lia].
Qed.

(** A mapping is released exactly once. After a move assignment the target
    owns what the source owned and the source owns nothing; the mapping the
    target held before is released by the assignment. Closing both afterwards
    releases the moved mapping, once, and closing again makes no call. *)
Theorem mapping_released_once target other t :
  let unmap r := if valid r then [Munmap (address_ r) (size_ r)] else [] in
  let '((target', other'), t1) := move_assign os target other t in
  t1 = unmap target ++ t ∧ target' = other ∧ valid other' = false ∧ size_ other' = 0 ∧
  let (target'', t2) := close os target' t1 in
  let (other'', t3) := close os other' t2 in
  t3 = unmap other ++ t1 ∧ valid target'' = false ∧ valid other'' = false ∧
  (close os target'' t3).2 = t3 ∧ (close os other'' t3).2 = t3.
Proof.
  unfold move_assign, close, move, call, mbind, M_bind, mret, M_ret, valid.
  destruct (address_ target =? nullptr), (address_ other =? nullptr) eqn:E; simpl;
    rewrite ?E; simpl; repeat split.
Qed.

End Properties.

(** ** Instances used by the witnesses *)

(** A system with one free descriptor in which everything succeeds and existing
    regions have 4096 bytes. *)
Definition demo_os (_ : list Call) (c : Call) : Reply :=
  match c with
  | ShmOpen _ _ => mkReply 3 0 0
  | Mmap _ _ => mkReply 65536 0 0
  | Fstat _ => mkReply 0 0 4096
  | _ => mkReply 0 0 0
  end.

Lemma demo_os_mmap t bytes fd : result (demo_os t (Mmap bytes fd)) ≠ nullptr.
Proof. done. Qed.

Lemma create_all_or_nothing_witness :
  valid (create demo_os (Some "/safeedge"%string) 4096 []).1 =
  ok (error_ (create demo_os (Some "/safeedge"%string) 4096 []).1).
Proof.
  destruct (create_all_or_nothing demo_os demo_os_mmap (Some "/safeedge"%string) "/safeedge" 4096 [])
    as [H _]; [reflexivity|lia|by_compute|exact H].
Defined.

Lemma open_checks_size_witness :
  error_ (openExisting demo_os (Some "/safeedge"%string) 8192 []).1 =
  mkError (Some "size"%string) EINVAL.
Proof.
  destruct (open_checks_size demo_os demo_os_mmap (Some "/safeedge"%string) "/safeedge" 8192 [])
    as (_ & _ & new & _ & _ & _ & _ & H); [reflexivity|lia|reflexivity|by_compute|].
  apply H; by_compute.
Defined.
