(* ===== verification/ThreadConfig.v ===== *)
(** * Thread configuration

    [src/include/safeedge/rt/thread_config.hpp] and
    [src/src/rt/thread_config.cpp], the Linux branch: applying scheduling policy,
    affinity, memory locking and stack prefaulting, and the report of what took
    effect. The kernel is the environment: a record of the answers of the calls
    made. *)

From Stdlib Require Import Ascii String.
From stdpp Require Import base numbers list option strings.
From S2P Require Import Prelude.

Inductive SchedulingPolicy := kDefault | kFifo | kRoundRobin.

#[export] Instance scheduling_policy_eq_dec : EqDecision SchedulingPolicy.
Proof. solve_decision. Defined.

Record ThreadConfig := mkThreadConfig {
  policy : SchedulingPolicy;
  priority : Z;
  cpu : Z;
  lock_memory : bool;
  prefault_stack : bool;
  prefault_bytes : Z
}.

Definition defaultThreadConfig : ThreadConfig :=
  mkThreadConfig kDefault 0 (-1) false false (512 * 1024).

Record ThreadConfigReport := mkReport {
  scheduling_applied : bool;
  affinity_applied : bool;
  memory_locked : bool;
  stack_prefaulted : bool;
  effective_policy : Z;
  effective_priority : Z;
  diagnostics : string
}.

(** The text of the diagnostics is empty. *)
Definition fullyApplied (r : ThreadConfigReport) : bool :=
  match diagnostics r with EmptyString => true | _ => false end.

(** ** Diagnostics *)

Definition buffer_size : Z := 512.

(** [std::strncpy] of at most [n] characters. *)
Definition strncpy (n : Z) (text : string) : string := String.substring 0 (Z.to_nat n) text.

(** The text in the 512-byte buffer after appending, truncated. *)
Definition appendDiagnostic (buffer text : string) : string :=
  let used := Z.of_nat (String.length buffer) in
  let remaining := buffer_size - used - 1 in
  if remaining =? 0 then buffer
  else if (0 <? used) && (2 <? remaining)
  then (buffer ++ "; " ++ strncpy (remaining - 2) text)%string
  else (buffer ++ strncpy remaining text)%string.

(** ** The kernel *)

Definition SCHED_OTHER : Z := 0.
Definition SCHED_FIFO : Z := 1.
Definition SCHED_RR : Z := 2.

Record Kernel := mkKernel {
  setschedparam : Z;                    (* return code *)
  getschedparam : option (Z * Z);       (* policy and priority, if it succeeds *)
  setaffinity : Z;                      (* return code *)
  getaffinity : option (bool * Z);      (* the CPU is in the set, size of the set *)
  mlockall : option Z;                  (* [errno] on failure *)
  pagesize : Z
}.

Definition toPosixPolicy (policy : SchedulingPolicy) : Z :=
  match policy with kFifo => SCHED_FIFO | kRoundRobin => SCHED_RR | kDefault => SCHED_OTHER end.

Section Apply.
Context (config : ThreadConfig) (kernel : Kernel).
(** The decimal rendering of an [int] by [snprintf]. *)
Context (show_int : Z → string).

(** The 192-byte line holds every prefix in use with any [int]. *)
Definition appendErrno (buffer prefix : string) (error : Z) : string :=
  appendDiagnostic buffer
    (strncpy 191 (prefix ++ " failed (errno " ++ show_int error ++ ")")%string).

(** Scheduling: whether it applied, the effective policy and priority, and the
    diagnostics. *)
Definition apply_scheduling : bool * Z * Z * string :=
  let '(applied, succeeded, text) :=
    if bool_decide (policy config = kDefault) then (true, true, EmptyString)
    else if setschedparam kernel =? 0 then (true, true, EmptyString)
    else (false, false, appendErrno EmptyString "pthread_setschedparam" (setschedparam kernel)) in
  match getschedparam kernel with
  | Some (actual_policy, actual_priority) =>
      if succeeded && negb (bool_decide (policy config = kDefault)) &&
         negb (actual_policy =? toPosixPolicy (policy config))
      then (false, actual_policy, actual_priority,
            appendDiagnostic text
              "scheduling policy did not take effect despite a successful call")
      else (applied, actual_policy, actual_priority, text)
  | None => (applied, 0, 0, text)
  end.

Definition apply_affinity (text : string) : bool * string :=
  if cpu config <? 0 then (true, text)
  else if negb (setaffinity kernel =? 0)
  then (false, appendErrno text "pthread_setaffinity_np" (setaffinity kernel))
  else
    match getaffinity kernel with
    | Some (true, 1) => (true, text)
    | _ => (false, appendDiagnostic text "cpu affinity did not take effect")
    end.

Definition apply_lock (text : string) : bool * string :=
  if negb (lock_memory config) then (true, text)
  else
    match mlockall kernel with
    | None => (true, text)
    | Some error => (false, appendErrno text "mlockall" error)
    end.

(** The bytes of stack that are touched, if any: one per page of the scratch
    array of 65536 bytes. *)
Definition kScratchBytes : Z := 65536.
Definition page_size : Z := if 0 <? pagesize kernel then pagesize kernel else 4096.
Definition prefault_pages : Z := prefault_bytes config / page_size.
Definition touched_bytes : Z :=
  if prefault_pages * page_size <? kScratchBytes then prefault_pages * page_size
  else kScratchBytes.

Definition apply_prefault (text : string) : bool * string :=
  if negb (prefault_stack config) then (true, text)
  else if (0 <? prefault_pages) && (prefault_pages <? 65536) then (true, text)
  else (false, appendDiagnostic text "prefault_bytes out of supported range").

Definition applyThreadConfig : ThreadConfigReport :=
  let '(scheduling, effective_policy, effective_priority, text) := apply_scheduling in
  let (affinity, text) := apply_affinity text in
  let (locked, text) := apply_lock text in
  let (prefaulted, text) := apply_prefault text in
  mkReport scheduling affinity locked prefaulted effective_policy effective_priority text.

(** ** The report is honest *)


(** Appending a text never empties or leaves empty the diagnostics. *)
Lemma appendDiagnostic_nonempty buffer text :
  text ≠ EmptyString → appendDiagnostic buffer text ≠ EmptyString.
Proof.
  intros Ht. unfold appendDiagnostic. destruct buffer as [|c buffer].
  - simpl. destruct text as [|c text]; [done|]. done.
  - destruct (_ =? 0); [done|]. destruct (_ && _); done.
Qed.

Lemma appendErrno_nonempty buffer prefix error :
  prefix ≠ EmptyString → appendErrno buffer prefix error ≠ EmptyString.
Proof.
  intros Hp. apply appendDiagnostic_nonempty. destruct prefix as [|c prefix]; [done|]. done.
Qed.

(** A stage keeps the text when it applied and makes it non-empty otherwise. *)
Definition reports (applied : bool) (before after : string) : Prop :=
  if applied then after = before else after ≠ EmptyString.

Lemma scheduling_reports :
  let '(applied, _, _, text) := apply_scheduling in reports applied EmptyString text.
Proof.
  unfold apply_scheduling, reports. repeat case_match; simplify_eq/=; try done;
    first [apply appendDiagnostic_nonempty | apply appendErrno_nonempty]; done.
Qed.

Lemma affinity_reports text : reports (apply_affinity text).1 text (apply_affinity text).2.
Proof.
  unfold apply_affinity, reports. repeat case_match; simplify_eq/=; try done;
    first [apply appendDiagnostic_nonempty | apply appendErrno_nonempty]; done.
Qed.

Lemma lock_reports text : reports (apply_lock text).1 text (apply_lock text).2.
Proof.
  unfold apply_lock, reports. repeat case_match; simplify_eq/=; try done;
    by apply appendErrno_nonempty.
Qed.

Lemma prefault_reports text : reports (apply_prefault text).1 text (apply_prefault text).2.
Proof.
  unfold apply_prefault, reports. repeat case_match; simplify_eq/=; try done;
    by apply appendDiagnostic_nonempty.
Qed.

Lemma reports_nonempty applied before after :
  reports applied before after → before ≠ EmptyString → after ≠ EmptyString.
Proof. unfold reports. destruct applied; [by intros ->|done]. Qed.

Lemma fullyApplied_empty r : fullyApplied r = true ↔ diagnostics r = EmptyString.
Proof. unfold fullyApplied. by destruct (diagnostics r). Qed.

(** The report is honest. The diagnostics are empty exactly when every
    requested measure took effect; a scheduling policy is reported as applied
    only if setting it succeeded and the policy the kernel then reports, when
    it reports one, is the requested one; and affinity only if the kernel
    confirms that the thread is bound to that CPU alone. *)
Theorem report_honest :
  let r := applyThreadConfig in
  (fullyApplied r = true ↔
   scheduling_applied r = true ∧ affinity_applied r = true ∧
   memory_locked r = true ∧ stack_prefaulted r = true) ∧
  (scheduling_applied r = true → policy config ≠ kDefault →
   setschedparam kernel = 0 ∧
   ∀ actual prio, getschedparam kernel = Some (actual, prio) →
     actual = toPosixPolicy (policy config) ∧ effective_policy r = actual) ∧
  (affinity_applied r = true → 0 ≤ cpu config →
   setaffinity kernel = 0 ∧ getaffinity kernel = Some (true, 1)).
Proof.
  cbv zeta. split; [|split].
  - rewrite fullyApplied_empty. unfold applyThreadConfig.
    pose proof scheduling_reports as H1. destruct apply_scheduling as [[[b1 ep] er] t1].
    pose proof (affinity_reports t1) as H2. destruct (apply_affinity t1) as [b2 t2].
    pose proof (lock_reports t2) as H3. destruct (apply_lock t2) as [b3 t3].
    pose proof (prefault_reports t3) as H4. destruct (apply_prefault t3) as [b4 t4].
    simpl in *. split.
    + intros ->. destruct b4; [|done]. simpl in H4; subst t3. destruct b3; [|done].
      simpl in H3; subst t2. destruct b2; [|done]. simpl in H2; subst t1. by destruct b1.
    + intros (-> & -> & -> & ->). simpl in *. by subst.
  - unfold applyThreadConfig. destruct apply_scheduling as [[[b1 ep] er] t1] eqn:E.
    destruct (apply_affinity t1), (apply_lock _), (apply_prefault _). simpl. intros -> Hpol.
    revert E. unfold apply_scheduling. rewrite bool_decide_false by done.
    destruct (Z.eqb_spec (setschedparam kernel) 0) as [Hs|Hs]; simpl;
      repeat case_match; intros; simplify_eq/=; try done; (split; [done|]);
      intros actual prio [=]; subst; split; try done; lia.
  - unfold applyThreadConfig. destruct apply_scheduling as [[[b1 ep] er] t1].
    destruct (apply_affinity t1) as [b2 t2] eqn:E. destruct (apply_lock _), (apply_prefault _).
    simpl. intros -> Hcpu. revert E. unfold apply_affinity.
    rewrite (proj2 (Z.ltb_ge _ _)) by done.
    destruct (Z.eqb_spec (setaffinity kernel) 0) as [Ha|Ha]; simpl; [|done].
    repeat case_match; intros; simplify_eq/=; done.
Qed.

End Apply.

(** At most 64 KiB of stack are prefaulted. Whatever the requested number of
    bytes, in the supported range the report says that the stack was prefaulted
    while the bytes touched never exceed the 65536-byte scratch array; for the
    default request of 512 KiB and 4 KiB pages an eighth of it is touched. *)
Theorem prefault_limited config kernel show_int :
  prefault_stack config = true →
  0 < prefault_pages config kernel < 65536 →
  stack_prefaulted (applyThreadConfig config kernel show_int) = true ∧
  touched_bytes config kernel ≤ 65536.
Proof.
  intros Hp Hpages. split.
  - unfold applyThreadConfig. destruct (apply_scheduling _ _ _) as [[[b1 ep] er] t1].
    destruct (apply_affinity _ _ _ t1) as [b2 t2]. destruct (apply_lock _ _ _ t2) as [b3 t3].
    unfold apply_prefault. rewrite Hp. simpl.
    by rewrite (proj2 (Z.ltb_lt 0 _)), (proj2 (Z.ltb_lt _ 65536)) by lia.
  - unfold touched_bytes, kScratchBytes. destruct (Z.ltb_spec (prefault_pages config kernel * page_size kernel) 65536); lia.
Qed.

Definition demo_kernel : Kernel := mkKernel 0 (Some (1, 80)) 0 (Some (true, 1)) None 4096.

Lemma prefault_limited_witness :
  stack_prefaulted (applyThreadConfig
    (mkThreadConfig kFifo 80 1 true true (512 * 1024)) demo_kernel (λ _, "0"%string)) = true ∧
  touched_bytes (mkThreadConfig kFifo 80 1 true true (512 * 1024)) demo_kernel ≤ 65536.
Proof.
  apply (prefault_limited (mkThreadConfig kFifo 80 1 true true (512 * 1024)) demo_kernel
    (λ _, "0"%string)); [reflexivity|by_compute].
Defined.

(** ** Probing for real-time scheduling *)

(** What the kernel has for the calling thread. *)
Record Scheduling := mkScheduling { sched_policy : Z; sched_priority : Z }.

Section Probe.
(** Whether [sched_setscheduler] accepts a policy and a priority. *)
Context (accepts : Scheduling → Z → Z → bool).

Definition sched_setscheduler (policy priority : Z) (k : Scheduling) : bool * Scheduling :=
  if accepts k policy priority then (true, mkScheduling policy priority) else (false, k).

Definition limit_allows (rtprio_limit : option Z) : bool :=
  match rtprio_limit with Some limit => 0 <? limit | None => false end.

(** [rtprio_limit] is the soft limit, [None] if it cannot be read;
    [previous_policy] what [sched_getscheduler] returns. *)
Definition realTimeSchedulingAvailable (rtprio_limit : option Z) (previous_policy : Z)
    (k : Scheduling) : bool * Scheduling :=
  if limit_allows rtprio_limit then (true, k)
  else
    let (granted, k) := sched_setscheduler SCHED_FIFO 1 k in
    if granted then
      let (_, k) :=
        sched_setscheduler (if previous_policy <? 0 then SCHED_OTHER else previous_policy) 0 k in
      (true, k)
    else (false, k).

(** The kernel refuses the priority zero for a real-time policy, as POSIX asks,
    and lets a thread leave real-time scheduling. *)
Hypothesis refuses_zero : ∀ k policy,
  policy = SCHED_FIFO ∨ policy = SCHED_RR → accepts k policy 0 = false.
Hypothesis accepts_other : ∀ k, accepts k SCHED_OTHER 0 = true.

(** The probe puts back only what was not real-time. It answers without touching
    the thread when the limit allows real-time priorities, and otherwise
    truthfully; a thread with the default policy and priority is left as it was,
    but one that had a real-time policy ends at the lowest real-time priority
    instead of its own. *)
Theorem probe_restores_default_only rtprio_limit k :
  let r := realTimeSchedulingAvailable rtprio_limit (sched_policy k) k in
  (limit_allows rtprio_limit = true → r = (true, k)) ∧
  (k = mkScheduling SCHED_OTHER 0 → r.2 = k) ∧
  (limit_allows rtprio_limit = false →
   r.1 = accepts k SCHED_FIFO 1 ∧
   (sched_policy k = SCHED_FIFO ∨ sched_policy k = SCHED_RR → accepts k SCHED_FIFO 1 = true →
    r.2 = mkScheduling SCHED_FIFO 1)).
Proof.
  cbv zeta. unfold realTimeSchedulingAvailable, sched_setscheduler. split; [|split].
  - by intros ->.
  - intros ->. destruct (limit_allows rtprio_limit); [done|]. destruct (accepts _ SCHED_FIFO 1); [|done].
    cbn [sched_policy]. change (SCHED_OTHER <? 0) with false. cbv iota. by rewrite accepts_other.
  - intros ->. destruct (accepts k SCHED_FIFO 1) eqn:E; [|done]. split.
    + by destruct (accepts _ _ 0).
    + intros Hp _. assert (Hn : (sched_policy k <? 0) = false) by (destruct Hp as [-> | ->]; done).
      rewrite Hn. by rewrite refuses_zero.
Qed.
End Probe.

Lemma probe_restores_default_only_witness :
  let accepts := λ (_ : Scheduling) policy priority,
    if policy =? SCHED_OTHER then priority =? 0 else (1 <=? priority) && (priority <=? 99) in
  (realTimeSchedulingAvailable accepts (Some 0) SCHED_FIFO (mkScheduling SCHED_FIFO 80)).2 =
  mkScheduling SCHED_FIFO 1.
Proof.
  intros accepts.
  apply (probe_restores_default_only accepts) with (k := mkScheduling SCHED_FIFO 80);
    [by intros k policy [-> | ->]|done|reflexivity|by left|reflexivity].
Defined.
