(* ===== verification/HttpServer.v ===== *)
(** * The observability HTTP server

    [src/include/safeedge/edge/http_server.hpp] and
    [src/src/edge/http_server.cpp]: the bounded request reader, request parsing,
    routing, the response and its partial writes, and the running flag. Sockets
    and threads are the environment: the reader is given the chunks a
    connection delivers, the writer the byte counts [write] accepts, and the
    handlers are the responses they return. *)

From Stdlib Require Import Ascii String.
From stdpp Require Import base numbers list option strings gmap pretty.
From S2P Require Import Prelude Strings.

Record HttpResponse := mkResponse { status : Z; content_type : string; body : string }.

Definition defaultContentType : string := "text/plain; charset=utf-8".
Definition defaultResponse : HttpResponse := mkResponse 200 defaultContentType EmptyString.

Definition kMaxRequestBytes : Z := 8192.
(** The size of the buffer of one [read]. *)
Definition kBufferBytes : Z := 1024.

Definition CRLF : string := String "013" (String "010" EmptyString).

Definition reasonPhrase (status : Z) : string :=
  if status =? 200 then "OK"
  else if status =? 400 then "Bad Request"
  else if status =? 404 then "Not Found"
  else if status =? 405 then "Method Not Allowed"
  else if status =? 503 then "Service Unavailable"
  else "Error".

(** ** Reading *)

(** [request.find(pattern) != npos]. *)
Definition contains (pattern text : string) : bool :=
  match String.index 0 pattern text with Some _ => true | None => false end.

(** The read loop on the chunks that [poll] and [read] deliver; an empty chunk
    is a timeout, an error or the end of the stream, and [None] the early
    return it causes. *)
Fixpoint read_request (chunks : list string) (request : string) : option string :=
  if negb (contains (CRLF ++ CRLF)%string request) && (Z.of_nat (String.length request) <? kMaxRequestBytes) then
    match chunks with
    | [] => None
    | chunk :: chunks =>
        match chunk with
        | EmptyString => None
        | _ => read_request chunks (request ++ chunk)%string
        end
    end
  else Some request.

(** ** Parsing *)

(** The text before the first [c] and the text after it: [find] with the two
    [substr]. *)
Fixpoint split_at (c : ascii) (s : string) : option (string * string) :=
  match s with
  | EmptyString => None
  | String x s =>
      if Ascii.eqb x c then Some (EmptyString, s)
      else match split_at c s with
           | Some (before, after) => Some (String x before, after)
           | None => None
           end
  end.

(** Cut a query string off. *)
Definition strip_query (path : string) : string :=
  match split_at "?" path with Some (before, _) => before | None => path end.

(** The method and the path of a request; [None] if it is malformed. *)
Definition parse_request (request : string) : option (string * string) :=
  match split_at " " request with
  | Some (method, rest) =>
      match split_at " " rest with
      | Some (path, _) => Some (method, strip_query path)
      | None => None
      end
  | None => None
  end.

(** ** Serving *)

Record HttpServer := mkServer {
  running_ : bool;
  requests_ : Z;
  routes_ : gmap string HttpResponse
}.

Definition newServer : HttpServer := mkServer false 0 ∅.

Definition route (path : string) (handler : HttpResponse) (s : HttpServer) : HttpServer :=
  mkServer (running_ s) (requests_ s) (<[path := handler]> (routes_ s)).

Definition respond (routes : gmap string HttpResponse) (request : string) : HttpResponse :=
  match parse_request request with
  | None => mkResponse 400 defaultContentType ("malformed request" ++ String "010" EmptyString)%string
  | Some (method, path) =>
      if negb (String.eqb method "GET")
      then mkResponse 405 defaultContentType ("only GET is supported" ++ String "010" EmptyString)%string
      else
        match routes !! path with
        | Some response => response
        | None => mkResponse 404 defaultContentType ("no such endpoint" ++ String "010" EmptyString)%string
        end
  end.

Definition render_head (r : HttpResponse) : string :=
  ("HTTP/1.1 " ++ pretty (status r) ++ " " ++ reasonPhrase (status r) ++ CRLF ++
  "Content-Type: " ++ content_type r ++ CRLF ++
  "Content-Length: " ++ pretty (Z.of_nat (String.length (body r))) ++ CRLF ++
  "Connection: close" ++ CRLF ++ CRLF)%string.

(** [writeAll] against the counts [write] returns: what was sent, whether all
    of it was, and the counts left. Running out of counts means a write that
    has not returned. *)
Fixpoint writeAll (counts : list Z) (data : string) : string * bool * list Z :=
  match data with
  | EmptyString => (EmptyString, true, counts)
  | _ =>
      match counts with
      | [] => (EmptyString, false, [])
      | count :: counts =>
          if count <=? 0 then (EmptyString, false, counts)
          else
            let n := Z.to_nat count in
            let '(sent, complete, counts) :=
              writeAll counts (String.substring n (String.length data - n) data) in
            ((String.substring 0 n data ++ sent)%string, complete, counts)
      end
  end.

(** [serveConnection]: what is sent, and the server afterwards. *)
Definition serveConnection (chunks : list string) (counts : list Z) (s : HttpServer)
  : string * HttpServer :=
  match read_request chunks EmptyString with
  | None => (EmptyString, s)
  | Some request =>
      let response := respond (routes_ s) request in
      let '(sent, complete, counts) := writeAll counts (render_head response) in
      let sent :=
        if (complete : bool) then (sent ++ (writeAll counts (body response)).1.1)%string else sent in
      (sent, mkServer (running_ s) (u64 (requests_ s + 1)) (routes_ s))
  end.

(** ** Strings *)

Fixpoint no_char (c : ascii) (s : string) : bool :=
  match s with
  | EmptyString => true
  | String x s => negb (Ascii.eqb x c) && no_char c s
  end.

Lemma split_at_app c a b :
  no_char c a = true → split_at c (a ++ String c b)%string = Some (a, b).
Proof.
  induction a as [|x a IH]; simpl.
  - intros _. by rewrite Ascii.eqb_refl.
  - intros [Hx Ha]%andb_true_iff. apply negb_true_iff in Hx. by rewrite Hx, IH.
Qed.

Lemma split_at_none c a : no_char c a = true → split_at c a = None.
Proof.
  induction a as [|x a IH]; simpl; [done|].
  intros [Hx Ha]%andb_true_iff. apply negb_true_iff in Hx. by rewrite Hx, IH.
Qed.

Lemma no_char_app c a b : no_char c (a ++ b)%string = no_char c a && no_char c b.
Proof. induction a as [|x a IH]; simpl; [done|]. by rewrite IH, andb_assoc. Qed.

(** ** Requests *)

(** A well-formed GET is answered by its route. For a path without blanks
    and question marks, with or without a query string, whatever follows the
    path, the response is the one of the handler registered last for that path,
    or a 404 when there is none; another method gets a 405; and a request with
    fewer than two blanks a 400. *)
Theorem get_is_routed (s : HttpServer) path query rest handler method :
  no_char " " path = true → no_char "?" path = true → no_char " " query = true →
  no_char " " method = true → method ≠ "GET"%string →
  let target := (path ++ (if decide (query = EmptyString) then EmptyString
                          else String "?" query))%string in
  let request := ("GET " ++ target ++ " " ++ rest)%string in
  respond (routes_ (route path handler s)) request = handler ∧
  (routes_ s !! path = None → status (respond (routes_ s) request) = 404) ∧
  status (respond (routes_ s) (method ++ " " ++ target ++ " " ++ rest)%string) = 405 ∧
  status (respond (routes_ s) (method ++ " " ++ path)%string) = 400 ∧
  status (respond (routes_ s) method) = 400.
Proof.
  intros Hsp Hq Hqs Hms Hm. cbv zeta.
  set (target := (path ++ (if decide (query = EmptyString) then EmptyString
                          else String "?" query))%string).
  assert (Ht : no_char " " target = true).
  { unfold target. rewrite no_char_app, Hsp. destruct (decide _); simpl; [done|]. by rewrite Hqs. }
  assert (Hstrip : strip_query target = path).
  { unfold target, strip_query. destruct (decide (query = EmptyString)).
    - by rewrite append_nil, split_at_none.
    - by rewrite split_at_app. }
  assert (Hparse : ∀ m, no_char " " m = true →
    parse_request (m ++ " " ++ target ++ " " ++ rest)%string = Some (m, path)).
  { intros m Hm'. unfold parse_request.
    change (m ++ " " ++ target ++ " " ++ rest)%string
      with (m ++ String " " (target ++ String " " rest))%string.
    rewrite (split_at_app " " m) by done.
    by rewrite (split_at_app " " target), Hstrip. }
  assert (Hget : parse_request ("GET " ++ target ++ " " ++ rest)%string = Some ("GET"%string, path))
    by (apply (Hparse "GET"%string); done).
  unfold respond. rewrite Hget, Hparse by done. simpl. split_and!.
  - by rewrite lookup_insert_eq.
  - by intros ->.
  - by rewrite (proj2 (String.eqb_neq method "GET")).
  - unfold parse_request.
    change (method ++ " " ++ path)%string with (method ++ String " " path)%string.
    rewrite split_at_app by done. by rewrite split_at_none.
  - unfold parse_request. by rewrite split_at_none.
Qed.

Lemma get_is_routed_witness :
  respond (routes_ (route "/metrics" (mkResponse 200 defaultContentType "up 1") newServer))
    "GET /metrics?verbose=1 HTTP/1.1" = mkResponse 200 defaultContentType "up 1".
Proof.
  destruct (get_is_routed newServer "/metrics" "verbose=1" "HTTP/1.1"
    (mkResponse 200 defaultContentType "up 1") "POST") as [H _];
    [reflexivity|reflexivity|reflexivity|reflexivity|discriminate|exact H].
Defined.

(** ** The reader is bounded *)

Lemma read_request_bound chunks request r :
  Forall (λ c, Z.of_nat (String.length c) ≤ kBufferBytes) chunks →
  Z.of_nat (String.length request) < kMaxRequestBytes + kBufferBytes →
  read_request chunks request = Some r →
  Z.of_nat (String.length r) < kMaxRequestBytes + kBufferBytes.
Proof.
  intros Hc. revert request; induction Hc as [|c chunks Hlen Hc IH]; intros request Hr; simpl.
  - destruct (_ && _); [done|]. by intros [= <-].
  - destruct (negb _ && _) eqn:E; [|by intros [= <-]].
    apply andb_true_iff in E as [_ E%Z.ltb_lt].
    destruct c as [|x c]; [done|]. apply IH. rewrite length_append. lia.
Qed.

(** The number of times the loop waits for the client. *)
Fixpoint polls (chunks : list string) (request : string) : nat :=
  if negb (contains (CRLF ++ CRLF)%string request) &&
     (Z.of_nat (String.length request) <? kMaxRequestBytes) then
    match chunks with
    | [] => 1
    | chunk :: chunks =>
        match chunk with
        | EmptyString => 1
        | _ => S (polls chunks (request ++ chunk)%string)
        end
    end
  else 0.

Lemma polls_bound chunks request :
  Z.of_nat (polls chunks request) + Z.of_nat (String.length request) ≤
  Z.max kMaxRequestBytes (Z.of_nat (String.length request)).
Proof.
  revert request; induction chunks as [|c chunks IH]; intros request; cbn [polls].
  - destruct (negb _ && _) eqn:E; [|lia]. apply andb_true_iff in E as [_ E%Z.ltb_lt]. lia.
  - destruct (negb _ && _) eqn:E; [|lia]. apply andb_true_iff in E as [_ E%Z.ltb_lt].
    destruct c as [|x c]; [lia|]. specialize (IH (request ++ String x c)%string).
    rewrite length_append in IH. simpl String.length in IH. lia.
Qed.

Lemma polls_return chunks request :
  Forall (λ c, c ≠ EmptyString) chunks →
  kMaxRequestBytes ≤ Z.of_nat (String.length request) + Z.of_nat (length chunks) →
  ∃ r, read_request chunks request = Some r.
Proof.
  intros Hc. revert request; induction Hc as [|c chunks Hne Hc IH]; intros request Hlen; simpl.
  - simpl in Hlen. rewrite (proj2 (Z.ltb_ge _ _)) by lia. rewrite andb_false_r. eauto.
  - destruct (negb _ && _); [|eauto]. destruct c as [|x c]; [done|]. apply IH.
    rewrite length_append. simpl in *. lia.
Qed.

(** The request reader is bounded. With reads of at most 1024 bytes an
    accepted request is shorter than 9216 bytes; the reader waits for the
    client at most 8192 times in all, and it returns a request as soon as the
    client has delivered that many non-empty reads at the latest. *)
Theorem reader_bounded chunks :
  Forall (λ c, Z.of_nat (String.length c) ≤ kBufferBytes) chunks →
  (∀ r, read_request chunks EmptyString = Some r → Z.of_nat (String.length r) < 9216) ∧
  Z.of_nat (polls chunks EmptyString) ≤ kMaxRequestBytes ∧
  (Forall (λ c, c ≠ EmptyString) chunks → kMaxRequestBytes ≤ Z.of_nat (length chunks) →
   ∃ r, read_request chunks EmptyString = Some r).
Proof.
  intros Hc. split; [|split].
  - intros r Hr. by apply (read_request_bound chunks EmptyString r Hc) in Hr.
  - pose proof (polls_bound chunks EmptyString) as H.
    change (String.length EmptyString) with 0%nat in H. unfold kMaxRequestBytes in *. lia.
  - intros Hne Hlen. apply polls_return; [done|]. simpl. lia.
Qed.

Lemma reader_bounded_witness :
  Z.of_nat (polls ["GET /x HTTP/1.1"%string] EmptyString) ≤ kMaxRequestBytes.
Proof. apply (reader_bounded ["GET /x HTTP/1.1"%string]). by_compute. Defined.

(** ** The writer *)

Lemma writeAll_prefix counts data :
  let '(sent, complete, _) := writeAll counts data in
  ∃ rest, data = (sent ++ rest)%string ∧ (complete = true ↔ rest = EmptyString).
Proof.
  revert data; induction counts as [|n counts IH]; intros [|x data].
  - exists EmptyString. done.
  - simpl. exists (String x data). done.
  - exists EmptyString. done.
  - cbn [writeAll]. destruct (Z.leb_spec n 0) as [Hn|Hn]; [by exists (String x data)|].
    specialize (IH (String.substring (Z.to_nat n) (String.length (String x data) - Z.to_nat n) (String x data))).
    destruct (writeAll counts _) as [[sent complete] counts']. destruct IH as (rest & Hrest & Hc).
    exists rest. split; [|done].
    rewrite <- append_assoc, <- Hrest. symmetry. apply substring_split.
Qed.

Lemma length_tail n (s : string) :
  String.length (String.substring n (String.length s - n) s) = (String.length s - n)%nat.
Proof.
  revert n; induction s as [|x s IH]; intros [|n]; [done|done| |apply IH].
  rewrite Nat.sub_0_r. by rewrite (substring_all (String x s)).
Qed.

(** As many writes as there are bytes, none of them refused, send everything. *)
Lemma writeAll_complete counts data :
  Forall (λ n, 0 < n) counts → (String.length data ≤ length counts)%nat →
  ∃ counts', writeAll counts data = (data, true, counts') ∧ Forall (λ n, 0 < n) counts' ∧
    (length counts ≤ length counts' + String.length data)%nat.
Proof.
  intros Hc. revert data; induction Hc as [|n counts Hn Hc IH]; intros [|x data] Hlen.
  - by exists [].
  - simpl in Hlen. lia.
  - exists (n :: counts). split_and!; [done|by constructor|simpl; lia].
  - cbn [writeAll]. rewrite (proj2 (Z.leb_gt n 0)) by lia.
    assert (Hk : (0 < Z.to_nat n)%nat) by lia.
    set (k := Z.to_nat n) in *. set (tail := String.substring k (String.length (String x data) - k) (String x data)).
    assert (Ht : String.length tail = (String.length (String x data) - k)%nat) by apply length_tail.
    destruct (IH tail) as (counts' & -> & Hc' & Hl'); [simpl in *; lia|].
    exists counts'. split_and!; [|done|simpl in *; lia]. do 2 f_equal. apply substring_split.
Qed.

(** Whatever [write] accepts per call, what a client receives is a prefix of
    the head followed by the body of the response to its request, and it is all
    of it when there are enough calls that accept at least one byte each; the
    request is counted once. *)
Theorem response_is_prefix chunks counts s request :
  read_request chunks EmptyString = Some request →
  let response := respond (routes_ s) request in
  ∃ rest,
    (render_head response ++ body response)%string =
      ((serveConnection chunks counts s).1 ++ rest)%string ∧
    requests_ (serveConnection chunks counts s).2 = u64 (requests_ s + 1) ∧
    (Forall (λ n, 0 < n) counts →
     (String.length (render_head response) + String.length (body response) ≤ length counts)%nat →
     rest = EmptyString).
Proof.
  intros Hr. cbv zeta. unfold serveConnection. rewrite Hr.
  set (head := render_head (respond (routes_ s) request)).
  set (text := body (respond (routes_ s) request)). clearbody head text.
  pose proof (writeAll_prefix counts head) as Hh.
  destruct (writeAll counts _) as [[sent complete] counts'] eqn:E. destruct Hh as (rest & Hrest & Hc).
  pose proof (writeAll_prefix counts' text) as Hb.
  destruct (writeAll counts' _) as [[sent' complete'] counts''] eqn:E'. destruct Hb as (rest' & Hrest' & Hc').
  simpl. destruct complete.
  - exists rest'. split; [|split; [done|]].
    + rewrite Hrest, (proj1 Hc eq_refl), append_nil. by rewrite <- append_assoc, <- Hrest'.
    + intros Hpos Hlen. destruct (writeAll_complete counts head Hpos)
        as (cs & Hw & Hpos' & Hl); [lia|]. rewrite Hw in E. injection E as _ Ecs. subst counts'.
      destruct (writeAll_complete cs text Hpos')
        as (cs' & Hw' & _); [lia|]. rewrite Hw' in E'. injection E' as _ Et _. by apply Hc'.
  - exists (rest ++ text)%string. split; [|split; [done|]].
    + by rewrite Hrest, <- append_assoc.
    + intros Hpos Hlen. destruct (writeAll_complete counts head Hpos)
        as (cs & Hw & _); [lia|]. rewrite Hw in E. done.
Qed.

Lemma response_is_prefix_witness :
  ∃ rest,
    (render_head (respond ∅ "GET /") ++ body (respond ∅ "GET /"))%string =
      ((serveConnection ["GET /"%string; (CRLF ++ CRLF)%string] [5; 7; 0] newServer).1 ++ rest)%string.
Proof.
  destruct (response_is_prefix ["GET /"%string; (CRLF ++ CRLF)%string] [5; 7; 0] newServer
    ("GET /" ++ CRLF ++ CRLF)%string) as (rest & H & _); [vm_compute; reflexivity|].
  exists rest. exact H.
Defined.
