(* ===== verification/Snapshot.v ===== *)
(** * The published snapshot

    [src/include/safeedge/edge/runtime_snapshot.hpp]: what the control loop
    publishes once per cycle and every reader outside it looks at. The module
    is the C++ namespace [safeedge::edge], since the executor statistics and the
    supervisor outputs have fields of the same names. *)

From stdpp Require Import base numbers.
From S2P Require Import Prelude.

Module Edge.

Record RuntimeSnapshot := mkSnapshot {
  cycles_executed : Z;
  overruns : Z;
  skipped_cycles : Z;
  allocation_violations : Z;
  jitter_p50_ns : Z;
  jitter_p99_ns : Z;
  jitter_p999_ns : Z;
  jitter_max_ns : Z;
  execution_p50_ns : Z;
  execution_p99_ns : Z;
  execution_max_ns : Z;
  safety_state : Z;
  fault_reason : Z;
  torque_permitted : Z;
  fault_latched : Z;
  safety_transition_monotonic_ns : Z;
  safety_sequence : Z;
  safety_state_age_ns : Z;
  estop_asserted : Z;
  telegrams_accepted : Z;
  telegrams_rejected : Z;
  realtime_scheduling_granted : Z;
  uptime_ns : Z
}.

(** A default-constructed snapshot. *)
Definition newSnapshot : RuntimeSnapshot :=
  mkSnapshot 0 0 0 0 0 0 0 0 0 0 0 0 0 0 0 0 0 0 0 0 0 0 0.

End Edge.

#[export] Instance snapshot_eq_dec : EqDecision Edge.RuntimeSnapshot.
Proof. solve_decision. Defined.
