(* ===== verification/Runtime.v ===== *)
(** * The control loop of safeedged

    [src/src/apps/safeedged.cpp]: the cycle that sends a telegram through the
    black channel, evaluates the dual-channel supervisor and publishes a
    snapshot; the file watchers that feed it the emergency stop and the
    acknowledgement; and the HTTP handlers that read what it publishes. *)

From Stdlib Require Import SpecFloat Ascii String.
From stdpp Require Import base numbers list option strings pretty.
From S2P Require Import Prelude Float64 BlackChannel SafetyStateMachine SafetyStateMachineSafety DualChannel LatencyHistogram CyclicExecutor Strings HttpServer Snapshot.

(** The enumerators' values of [FaultReason]. *)
Definition fault_value (f : FaultReason) : Z :=
  match f with
  | Fault.kNone => 0
  | Fault.kSelfTestFailed => 1
  | Fault.kEmergencyStop => 2
  | Fault.kSpeedLimitExceeded => 3
  | Fault.kPositionLimitExceeded => 4
  | Fault.kStandstillDeviation => 5
  | Fault.kStopTimeExceeded => 6
  | Fault.kCommunicationFault => 7
  | Fault.kWatchdogTimeout => 8
  | Fault.kChannelDiscrepancy => 9
  | Fault.kInvalidRequest => 10
  end.

(** ** Configuration *)

(** [executor_config.period] for a frequency in Hz; [None] is the fatal exit. *)
Definition period_for (frequency_hz : Z) : option Z :=
  if (frequency_hz <=? 0) || (100000 <? frequency_hz) then None
  else Some (Z.quot 1000000000 frequency_hz).

Definition supervisor_limits : SafetyLimits :=
  mkLimits (double_of_Z 10) (dopp dinfinity) dinfinity false (literal 1 2) (literal 1 10)
    500000000.

Definition supervisor_config : DualChannelSupervisor.Config :=
  DualChannelSupervisor.mkConfig supervisor_limits 5000000.

Definition address : SafetyAddress := mkAddress 0x0011 0x2200 0xDEADBEEF.

Definition watchdog_ns : Z := 50000000.

Definition payload_in : list Z := [1; 2; 3; 4; 5; 6; 7; 8].

(** [monotonicNanos] of a clock reading. *)
Definition monotonicNanos (ts : timespec) : Z :=
  u64 (u64 (u64 (tv_sec ts) * 1000000000) + u64 (tv_nsec ts)).

(** ** The cycle *)

(** The variables the cycle captures. *)
Record Runtime := mkRuntime {
  supervisor : DualChannelSupervisor.DualChannelSupervisor;
  sender : SafetySender;
  rt_receiver : SafetyReceiver;
  telegram : Telegram;
  rt_payload_out : list Z;
  rt_accepted : Z;
  rt_rejected : Z;
  last_safety_state : SafetyState;
  last_torque_permitted : bool;
  last_transition_ns : Z;
  safety_sequence : Z
}.

Definition newRuntime (clock : timespec) : Runtime :=
  mkRuntime (DualChannelSupervisor.newDual supervisor_config) (newSender address)
    (newReceiver address watchdog_ns) newTelegram (replicate kMaxPayloadBytes 0) 0 0
    State.kSafeTorqueOff false (monotonicNanos clock) 0.

(** What one cycle reads from its surroundings: its context, the two watchers
    (the emergency stop flag is loaded once for the inputs and once for the
    snapshot), the executor's statistics, and the clocks. *)
Record Cycle := mkCycle {
  context : CycleContext;
  estop_asserted : bool;
  acknowledge_taken : bool;
  stats : ExecutorStats;
  transition_clock : timespec;
  age_clock : timespec;
  estop_asserted_again : bool;
  scheduling_applied : bool;
  uptime : Z
}.

(** The telegram round trip. *)
Definition exchange (rt : Runtime) (now_ns : Z) : Runtime :=
  match encode (sender rt) payload_in 0 (telegram rt) with
  | (true, sender, telegram) =>
      let rx := receive (rt_receiver rt) (view telegram) now_ns (rt_payload_out rt) in
      let valid := bool_decide (result rx = kValid) in
      mkRuntime (supervisor rt) sender (receiver rx) telegram (payload_out rx)
        (if valid then u64 (rt_accepted rt + 1) else rt_accepted rt)
        (if valid then rt_rejected rt else u64 (rt_rejected rt + 1))
        (last_safety_state rt) (last_torque_permitted rt) (last_transition_ns rt)
        (safety_sequence rt)
  | (false, sender, telegram) =>
      mkRuntime (supervisor rt) sender (rt_receiver rt) telegram (rt_payload_out rt)
        (rt_accepted rt) (rt_rejected rt) (last_safety_state rt) (last_torque_permitted rt)
        (last_transition_ns rt) (safety_sequence rt)
  end.

Definition inputs_for (rt : Runtime) (c : Cycle) (now_ns : Z) : SafetyInputs :=
  mkInputs (double_of_Z 5) dzero (estop_asserted c) (negb (safe_state_ (rt_receiver rt)))
    true true Request.kSafelyLimitedSpeed (acknowledge_taken c) now_ns.

(** The transition stamp and number. *)
Definition note_transition (rt : Runtime) (outputs : SafetyOutputs) (clock : timespec)
    (d : DualChannelSupervisor.DualChannelSupervisor) : Runtime :=
  if bool_decide (state outputs ≠ last_safety_state rt) ||
     bool_decide (torque_permitted outputs ≠ last_torque_permitted rt)
  then
    mkRuntime d (sender rt) (rt_receiver rt) (telegram rt) (rt_payload_out rt)
      (rt_accepted rt) (rt_rejected rt) (state outputs) (torque_permitted outputs)
      (monotonicNanos clock) (u64 (safety_sequence rt + 1))
  else
    mkRuntime d (sender rt) (rt_receiver rt) (telegram rt) (rt_payload_out rt)
      (rt_accepted rt) (rt_rejected rt) (last_safety_state rt) (last_torque_permitted rt)
      (last_transition_ns rt) (safety_sequence rt).

Definition flag (b : bool) : Z := if b then 1 else 0.

Definition snapshot_of (rt : Runtime) (outputs : SafetyOutputs) (c : Cycle)
  : Edge.RuntimeSnapshot :=
  let s := stats c in
  Edge.mkSnapshot
    (cycles_executed s) (overruns s) (skipped_cycles s) (allocation_violations s)
    (p50 (wakeup_jitter s)) (p99 (wakeup_jitter s)) (p999 (wakeup_jitter s))
    (max_ (wakeup_jitter s))
    (p50 (execution_time s)) (p99 (execution_time s)) (max_ (execution_time s))
    (state_value (state outputs)) (fault_value (fault outputs))
    (flag (torque_permitted outputs)) (flag (fault_latched outputs))
    (last_transition_ns rt) (safety_sequence rt)
    (u64 (monotonicNanos (age_clock c) - last_transition_ns rt))
    (flag (estop_asserted_again c))
    (rt_accepted rt) (rt_rejected rt) (flag (scheduling_applied c)) (uptime c).

(** The loop time the cycle derives from its index. *)
Definition now_of (c : CycleContext) : Z := i64 (ctx_period_ns c * i64 (ctx_index c)).

Definition cycle (rt : Runtime) (c : Cycle) : Edge.RuntimeSnapshot * Runtime :=
  let now_ns := now_of (context c) in
  let rt := exchange rt now_ns in
  let inputs := inputs_for rt c now_ns in
  let (outputs, d) := DualChannelSupervisor.evaluate (supervisor rt) inputs inputs now_ns in
  let rt := note_transition rt outputs (transition_clock c) d in
  (snapshot_of rt outputs c, rt).

(** A run of the loop: the published snapshots and the final variables. *)
Fixpoint run_cycles (rt : Runtime) (cs : list Cycle) : list Edge.RuntimeSnapshot * Runtime :=
  match cs with
  | [] => ([], rt)
  | c :: cs =>
      let (s, rt) := cycle rt c in
      let (ss, rt) := run_cycles rt cs in (s :: ss, rt)
  end.

(** ** The file watchers *)

Inductive Mode := kLevel | kLatchOnce.

(** Where a watcher thread is between its atomic steps: before [access], before
    [unlink], or before the store of the flag. *)
Inductive WatcherPc := AtAccess | AtUnlink | AtStore (present : bool).

Record FileFlagWatcher := mkWatcher { mode_ : Mode; asserted_ : bool; pc : WatcherPc }.

Definition newWatcher (mode : Mode) : FileFlagWatcher := mkWatcher mode false AtAccess.

Definition asserted (w : FileFlagWatcher) : bool := asserted_ w.

Definition takeOnce (w : FileFlagWatcher) : bool * FileFlagWatcher :=
  (asserted_ w, mkWatcher (mode_ w) false (pc w)).

(** One step of [FileFlagWatcher::run] on whether the file exists; [unlink_ok]
    is the outcome of [unlink], which the code does not look at. *)
Definition watcher_step (unlink_ok file : bool) (w : FileFlagWatcher)
  : bool * FileFlagWatcher :=
  match pc w with
  | AtAccess =>
      match mode_ w with
      | kLatchOnce =>
          (file, mkWatcher (mode_ w) (asserted_ w) (if file then AtUnlink else AtAccess))
      | kLevel =>
          (file, mkWatcher (mode_ w) (asserted_ w)
                   (if bool_decide (file ≠ asserted_ w) then AtStore file else AtAccess))
      end
  | AtUnlink => (if unlink_ok then false else file, mkWatcher (mode_ w) (asserted_ w) (AtStore true))
  | AtStore present => (file, mkWatcher (mode_ w) present AtAccess)
  end.

(** ** The process *)

(** The loop's variables, both watchers and both files. *)
Record System := mkSystem {
  runtime : Runtime;
  estop : FileFlagWatcher;
  estop_file : bool;
  acknowledge : FileFlagWatcher;
  ack_file : bool
}.

Definition newSystem (clock : timespec) (estop_file ack_file : bool) : System :=
  mkSystem (newRuntime clock) (newWatcher kLevel) estop_file (newWatcher kLatchOnce) ack_file.

(** What can happen next: somebody creates or removes a file, a watcher takes a
    step, or the loop runs a cycle. *)
Inductive Event :=
  | TouchEstop
  | RemoveEstop
  | TouchAck
  | RemoveAck
  | EstopWatcher
  | AckWatcher (unlink_ok : bool)
  | LoopCycle (surroundings : Cycle).

(** The cycle with the watchers' flags in place of the surroundings' ones. *)
Definition with_flags (estop_now ack : bool) (c : Cycle) : Cycle :=
  mkCycle (context c) estop_now ack (stats c) (transition_clock c) (age_clock c)
    (estop_asserted_again c) (scheduling_applied c) (uptime c).

Definition system_step (s : System) (e : Event) : System :=
  match e with
  | TouchEstop => mkSystem (runtime s) (estop s) true (acknowledge s) (ack_file s)
  | RemoveEstop => mkSystem (runtime s) (estop s) false (acknowledge s) (ack_file s)
  | TouchAck => mkSystem (runtime s) (estop s) (estop_file s) (acknowledge s) true
  | RemoveAck => mkSystem (runtime s) (estop s) (estop_file s) (acknowledge s) false
  | EstopWatcher =>
      let (file, w) := watcher_step true (estop_file s) (estop s) in
      mkSystem (runtime s) w file (acknowledge s) (ack_file s)
  | AckWatcher unlink_ok =>
      let (file, w) := watcher_step unlink_ok (ack_file s) (acknowledge s) in
      mkSystem (runtime s) (estop s) (estop_file s) w file
  | LoopCycle c =>
      let (ack, w) := takeOnce (acknowledge s) in
      let (_, rt) := cycle (runtime s) (with_flags (asserted (estop s)) ack c) in
      mkSystem rt (estop s) (estop_file s) w (ack_file s)
  end.

Definition system_steps (s : System) (es : list Event) : System := foldl system_step s es.

(** The cycles the loop runs in an execution, with the flags they read. *)
Fixpoint loop_cycles (s : System) (es : list Event) : list Cycle :=
  match es with
  | [] => []
  | e :: es =>
      let rest := loop_cycles (system_step s e) es in
      match e with
      | LoopCycle c => with_flags (asserted (estop s)) (asserted_ (acknowledge s)) c :: rest
      | _ => rest
      end
  end.

(** ** The HTTP handlers *)

(** [/healthz] loads the running flag once for the body and once for the status. *)
Definition healthz (running_body running_status : bool) : HttpResponse :=
  mkResponse (if running_status then 200 else 503) defaultContentType
    (if running_body then "ok" +:+ String "010"%char EmptyString
     else "starting" +:+ String "010"%char EmptyString).

Definition unavailable (content : string) : HttpResponse :=
  mkResponse 503 content ("snapshot unavailable" +:+ String "010"%char EmptyString).

Definition readyz (loaded : option Edge.RuntimeSnapshot) : HttpResponse :=
  match loaded with
  | None => unavailable defaultContentType
  | Some s =>
      if negb (Edge.fault_latched s =? 0) then
        mkResponse 503 defaultContentType
          ("safety fault latched" +:+ String "010"%char EmptyString)
      else mkResponse 200 defaultContentType ("ready" +:+ String "010"%char EmptyString)
  end.

Definition safety_line (s : Edge.RuntimeSnapshot) : string :=
  pretty (Edge.safety_sequence s) +:+ " " +:+ pretty (Edge.torque_permitted s) +:+ " " +:+
  pretty (Edge.safety_transition_monotonic_ns s) +:+ String "010"%char EmptyString.

Definition safety (loaded : option Edge.RuntimeSnapshot) : HttpResponse :=
  match loaded with
  | None => unavailable "text/plain"
  | Some s => mkResponse 200 "text/plain" (snprintf 128 (safety_line s))
  end.
