(* ===== verification/RuntimeSafety.v ===== *)
(** * The control loop does what it promises

    The loop of [src/src/apps/safeedged.cpp] refines a four-phase machine driven
    by the emergency stop and the acknowledgement, at every frequency its
    receive watchdog can follow; transitions are numbered without gaps; and the
    acknowledge file is delivered once per appearance. *)

From Stdlib Require Import SpecFloat Ascii String.
From stdpp Require Import base numbers list option strings pretty.
From S2P Require Import Prelude Float64 BlackChannel SafetyStateMachine SafetyStateMachineSafety DualChannel LatencyHistogram CyclicExecutor HttpServer Snapshot Runtime.

(** ** The abstract loop *)

(** [Starting] is the self test, [Ready] torque off without a fault, [Running]
    limited speed, [Stopped] torque off with the emergency stop latched. *)
Inductive Phase := Starting | Ready | Running | Stopped.

#[export] Instance phase_eq_dec : EqDecision Phase.
Proof. solve_decision. Defined.

Definition phase_next (p : Phase) (estop ack : bool) : Phase :=
  if estop then Stopped
  else
    match p with
    | Stopped => if ack then Ready else Stopped
    | Starting => Ready
    | Ready | Running => Running
    end.

Definition phase_step (p : Phase) (c : Cycle) : Phase :=
  phase_next p (estop_asserted c) (acknowledge_taken c).

Definition phase_after (cs : list Cycle) : Phase := foldl phase_step Starting cs.

Definition phase_state (p : Phase) : SafetyState :=
  match p with
  | Starting => State.kSelfTest
  | Ready | Stopped => State.kSafeTorqueOff
  | Running => State.kLimitedSpeed
  end.

Definition phase_fault (p : Phase) : FaultReason :=
  match p with Stopped => Fault.kEmergencyStop | _ => Fault.kNone end.

(** Either supervisor channel in a phase. *)
Definition phase_machine (p : Phase) : SafetyStateMachine :=
  mkMachine supervisor_limits (phase_state p) (phase_fault p) 0 dzero.

Definition phase_outputs (p : Phase) : SafetyOutputs :=
  outputsFor (phase_machine p) (phase_state p).

Definition phase_supervisor (p : Phase) : DualChannelSupervisor.DualChannelSupervisor :=
  DualChannelSupervisor.mkDual supervisor_config (phase_machine p) (phase_machine p) (-1)
    false DualChannelSupervisor.newDiagnostics.

Lemma phase_next_machine p estop ack now :
  next (phase_machine p)
    (mkInputs (double_of_Z 5) dzero estop true true true Request.kSafelyLimitedSpeed ack now) =
  phase_machine (phase_next p estop ack).
Proof. by destruct p, estop, ack. Qed.

Lemma phase_next_supervisor p estop ack now :
  let i :=
    mkInputs (double_of_Z 5) dzero estop true true true Request.kSafelyLimitedSpeed ack now in
  DualChannelSupervisor.evaluate (phase_supervisor p) i i now =
  (phase_outputs (phase_next p estop ack), phase_supervisor (phase_next p estop ack)).
Proof.
  cbv zeta. unfold DualChannelSupervisor.evaluate, evaluate. cbn [phase_supervisor
    DualChannelSupervisor.channel_a_ DualChannelSupervisor.channel_b_].
  rewrite phase_next_machine. by destruct (phase_next p estop ack).
Qed.

(** ** The telegrams of the loop *)

#[local] Opaque computeTelegramCrc.

(** The consecutive number of the [n]th telegram. *)
Fixpoint number (n : nat) : Z :=
  match n with O => 1 | S n => next_number (number n) end.

(** The two ends of the channel after [n] accepted telegrams at period [p]. *)
Record channel_ok (p : Z) (n : nat) (rt : Runtime) : Prop := {
  ok_sender : sender rt = mkSender address (number n);
  ok_receiver :
    ∃ last_valid last d,
      rt_receiver rt =
        mkReceiver address watchdog_ns last_valid last (negb (n =? 0)%nat) false kNone d ∧
      ((0 < n)%nat → last_valid = p * Z.of_nat (n - 1) ∧ number n = next_number last);
  ok_telegram : length (bytes (telegram rt)) = kMaxTelegramBytes;
  ok_payload_out : length (rt_payload_out rt) = kMaxPayloadBytes;
  ok_accepted : rt_accepted rt = Z.of_nat n;
  ok_rejected : rt_rejected rt = 0
}.

Lemma channel_ok_new p clock : channel_ok p 0 (newRuntime clock).
Proof. split; try done. eexists _, _, _. split; [done|lia]. Qed.

Lemma number_range n : is_u32 (number n).
Proof.
  destruct n as [|n]; [by_compute|]. pose proof (next_number_range (number n)). simpl. solve_range.
Qed.

(** What [exchange] leaves alone. *)
Lemma exchange_keeps rt now :
  let rt' := exchange rt now in
  supervisor rt' = supervisor rt ∧ last_safety_state rt' = last_safety_state rt ∧
  last_torque_permitted rt' = last_torque_permitted rt ∧
  last_transition_ns rt' = last_transition_ns rt ∧ safety_sequence rt' = safety_sequence rt.
Proof. cbv zeta. unfold exchange. by destruct (encode _ _ _ _) as [[[] ?] ?]. Qed.

(** The exchange, with the telegram the sender produces in place. *)
Lemma exchange_frame p n rt now :
  channel_ok p n rt →
  let s := sender rt in
  let rx := check_fields (rt_receiver rt) payload_in 0 (number n)
    (computeTelegramCrc address payload_in 0 (number n)) now (rt_payload_out rt) in
  ∃ telegram,
    length (bytes telegram) = kMaxTelegramBytes ∧
    exchange rt now =
      mkRuntime (supervisor rt) (mkSender address (number (S n))) (receiver rx) telegram
        (payload_out rx)
        (if bool_decide (result rx = kValid) then u64 (rt_accepted rt + 1) else rt_accepted rt)
        (if bool_decide (result rx = kValid) then rt_rejected rt else u64 (rt_rejected rt + 1))
        (last_safety_state rt) (last_torque_permitted rt) (last_transition_ns rt)
        (safety_sequence rt).
Proof.
  intros [Hs (lv & l & d & Hr & _) Ht Hb _ _]; cbv zeta.
  assert (Hlen : (length payload_in ≤ kMaxPayloadBytes)%nat) by (unfold_sizes; simpl; lia).
  pose proof (encode_view (sender rt) payload_in 0 (telegram rt) Hlen Ht) as Hview.
  unfold exchange. rewrite encode_ok in Hview |- * by done. cbn [snd] in Hview.
  rewrite Hview, Hs. unfold sender_frame. cbn [sender_address consecutive_number_].
  assert (Hcrc : is_u32 (computeTelegramCrc address payload_in 0 (number n))).
  { apply computeTelegramCrc_range;
      [unfold payload_in; repeat constructor; by_compute|by_compute]. }
  set (crc := computeTelegramCrc _ _ _ _) in *. clearbody crc.
  rewrite receive_frame by first [apply number_range | assumption | by rewrite Hr
    | rewrite Hb; unfold_sizes; simpl; lia].
  eexists; split; [|reflexivity]. cbn [bytes].
  rewrite length_app, length_frame, length_drop, Ht. unfold_sizes. simpl. lia.
Qed.

(** The first telegram is accepted, and every later one while the period is
    within the watchdog. *)
Lemma exchange_accepts p n rt :
  channel_ok p n rt → 0 ≤ p → n = 0%nat ∨ p ≤ watchdog_ns →
  p * Z.of_nat n < 2 ^ 63 → Z.of_nat n < 2 ^ 63 →
  channel_ok p (S n) (exchange rt (p * Z.of_nat n)).
Proof.
  intros Hok Hp Hw Hfit Hn. pose proof Hok as [Hs (lv & l & d & Hr & Hl) Ht Hb Ha Hj].
  destruct (exchange_frame p n rt (p * Z.of_nat n) Hok) as (t & Hlt & ->).
  assert (E : check_fields (rt_receiver rt) payload_in 0 (number n)
      (computeTelegramCrc address payload_in 0 (number n)) (p * Z.of_nat n) (rt_payload_out rt) =
    accept payload_in 0 (number n) (p * Z.of_nat n) (rt_receiver rt) (rt_payload_out rt)).
  { rewrite Hr. unfold check_fields.
    cbn [receiver_address synchronised_ watchdog_ns_ last_valid_ns_ last_consecutive_number_].
    rewrite Z.eqb_refl. cbn [negb].
    destruct n as [|n]; [done|]. destruct Hl as [-> El]; [lia|]. cbn [Nat.eqb negb andb].
    rewrite elapsed_exact by (rewrite ?Nat2Z.inj_succ in *; solve_range || nia).
    rewrite (proj2 (Z.ltb_ge _ _)) by nia. by rewrite El, Z.eqb_refl. }
  rewrite E. unfold accept. cbn [result receiver payload_out]. rewrite bool_decide_true by done.
  split; cbn [sender rt_receiver telegram rt_payload_out rt_accepted rt_rejected].
  - reflexivity.
  - rewrite Hr. eexists _, _, _. split; [reflexivity|]. intros _. split; [|reflexivity].
    do 2 f_equal. lia.
  - exact Hlt.
  - rewrite length_copy_into, Hb; [done|]. rewrite Hb; unfold_sizes; simpl; lia.
  - rewrite Ha, unsigned_wrap_id by solve_range. lia.
  - exact Hj.
Qed.

(** Beyond the watchdog the second telegram is rejected for its delay. *)
Lemma exchange_times_out p rt :
  channel_ok p 1 rt → watchdog_ns < p → p < 2 ^ 63 →
  safe_state_ (rt_receiver (exchange rt p)) = true ∧ rt_accepted (exchange rt p) = 1.
Proof.
  intros Hok Hp Hfit. pose proof Hok as [Hs (lv & l & d & Hr & Hl) Ht Hb Ha Hj].
  destruct (exchange_frame p 1 rt p Hok) as (t & Hlt & ->).
  destruct Hl as [-> El]; [lia|].
  rewrite Hr. unfold check_fields.
  cbn [receiver_address synchronised_ watchdog_ns_ last_valid_ns_ last_consecutive_number_
    rt_receiver rt_accepted].
  rewrite Z.eqb_refl. cbn [negb Nat.eqb andb].
  rewrite elapsed_exact by (unfold watchdog_ns in *; solve_range).
  rewrite (proj2 (Z.ltb_lt _ _)) by (simpl; lia). split; [done|]. by rewrite Ha.
Qed.

(** A receiver in its safe state stays there and accepts nothing. *)
Lemma exchange_safe_state rt now :
  safe_state_ (rt_receiver rt) = true →
  safe_state_ (rt_receiver (exchange rt now)) = true ∧
  rt_accepted (exchange rt now) = rt_accepted rt.
Proof.
  intros Hs. unfold exchange. destruct (encode _ _ _ _) as [[[] s] t]; [|done].
  unfold receive. rewrite Hs. done.
Qed.

(** ** The refinement *)

(** What a snapshot shows of a phase after [n] cycles. *)
Definition shows (s : Edge.RuntimeSnapshot) (ph : Phase) (n : nat) : Prop :=
  Edge.safety_state s = state_value (phase_state ph) ∧
  Edge.fault_reason s = fault_value (phase_fault ph) ∧
  Edge.torque_permitted s = flag (bool_decide (ph = Running)) ∧
  Edge.fault_latched s = flag (bool_decide (ph = Stopped)) ∧
  Edge.telegrams_accepted s = Z.of_nat n ∧
  Edge.telegrams_rejected s = 0.

(** The contexts the executor passes: consecutive indices at one period. *)
Fixpoint indexed (p : Z) (n : nat) (cs : list Cycle) : Prop :=
  match cs with
  | [] => True
  | c :: cs =>
      ctx_index (context c) = Z.of_nat n ∧ ctx_period_ns (context c) = p ∧ indexed p (S n) cs
  end.

Record simulates (p : Z) (n : nat) (ph : Phase) (rt : Runtime) : Prop := {
  sim_channel : channel_ok p n rt;
  sim_supervisor : supervisor rt = phase_supervisor ph
}.

Lemma simulates_new p clock : simulates p 0 Starting (newRuntime clock).
Proof. split; [apply channel_ok_new|done]. Qed.

Lemma note_transition_channel p n rt o clock d :
  channel_ok p n rt → channel_ok p n (note_transition rt o clock d).
Proof. intros []. unfold note_transition. by destruct (_ || _); split. Qed.

Lemma note_transition_supervisor rt o clock d :
  supervisor (note_transition rt o clock d) = d.
Proof. unfold note_transition. by destruct (_ || _). Qed.

Lemma now_of_indexed c p n :
  ctx_index c = Z.of_nat n → ctx_period_ns c = p → 0 < p → p * Z.of_nat n < 2 ^ 63 →
  now_of c = p * Z.of_nat n.
Proof.
  intros Hi Hp H0 Hfit. unfold now_of. rewrite Hi, Hp.
  assert (Hn : Z.of_nat n ≤ p * Z.of_nat n) by nia.
  rewrite (signed_wrap_id 64 (Z.of_nat n)) by solve_range.
  apply signed_wrap_id; solve_range.
Qed.

(** One cycle of the loop is one step of the phases. *)
Lemma cycle_simulates p n ph rt c :
  simulates p n ph rt → ctx_index (context c) = Z.of_nat n → ctx_period_ns (context c) = p →
  0 < p ≤ watchdog_ns → p * Z.of_nat n < 2 ^ 63 →
  simulates p (S n) (phase_step ph c) (cycle rt c).2 ∧
  shows (cycle rt c).1 (phase_step ph c) (S n).
Proof.
  intros [Hch Hsup] Hi Hper Hp Hfit.
  unfold cycle. rewrite (now_of_indexed _ p n) by (done || lia).
  pose proof (exchange_accepts p n rt Hch ltac:(lia) ltac:(lia) Hfit ltac:(nia)) as Hch'.
  destruct (exchange_keeps rt (p * Z.of_nat n)) as [Hs' _]. rewrite Hsup in Hs'.
  set (rt' := exchange rt _) in *. clearbody rt'.
  destruct (ok_receiver _ _ _ Hch') as (lv & l & d & Hr & _).
  unfold inputs_for. rewrite Hr, Hs'. cbn [safe_state_ negb].
  rewrite phase_next_supervisor. unfold phase_step.
  set (ph' := phase_next _ _ _). clearbody ph'. cbn [fst snd].
  pose proof (note_transition_channel _ _ _ (phase_outputs ph') (transition_clock c)
    (phase_supervisor ph') Hch') as Hn.
  split; [split; [done|apply note_transition_supervisor]|].
  destruct Hn as [_ _ _ _ Ha Hj]. unfold shows, snapshot_of; cbn -[note_transition Z.of_nat].
  by destruct ph'.
Qed.

Lemma run_cycles_simulates p n ph rt cs :
  simulates p n ph rt → indexed p n cs → 0 < p ≤ watchdog_ns →
  p * Z.of_nat (n + length cs) < 2 ^ 63 →
  length (run_cycles rt cs).1 = length cs ∧
  ∀ i s, (run_cycles rt cs).1 !! i = Some s →
    shows s (foldl phase_step ph (take (S i) cs)) (n + S i).
Proof.
  revert n ph rt. induction cs as [|c cs IH]; intros n ph rt Hsim Hidx Hp Hfit; [done|].
  destruct Hidx as (Hi & Hper & Hidx). cbn [length] in Hfit.
  destruct (cycle_simulates p n ph rt c Hsim Hi Hper Hp ltac:(nia)) as [Hsim' Hshow].
  cbn [run_cycles]. destruct (cycle rt c) as [s1 rt1]; cbn [fst snd] in Hsim', Hshow.
  destruct (IH (S n) _ rt1 Hsim' Hidx Hp ltac:(nia)) as [Hlen Hall].
  destruct (run_cycles rt1 cs) as [ss rt2]; cbn [fst] in *.
  split; [simpl; lia|]. intros [|i] s Hs; cbn in Hs.
  - simplify_eq. by rewrite Nat.add_1_r.
  - replace (n + S (S i))%nat with (S n + S i)%nat by lia. exact (Hall i s Hs).
Qed.

Lemma period_for_spec hz p :
  period_for hz = Some p →
  0 < hz ≤ 100000 ∧ 0 < p ≤ 1000000000 ∧ (20 ≤ hz ↔ p ≤ watchdog_ns).
Proof.
  unfold period_for, watchdog_ns. destruct (Z.leb_spec hz 0), (Z.ltb_spec 100000 hz); try done.
  cbn [orb]. intros [= <-]. rewrite Z.quot_div_nonneg by lia.
  pose proof (Z.div_mod 1000000000 hz ltac:(lia)).
  pose proof (Z.mod_pos_bound 1000000000 hz ltac:(lia)).
  set (q := 1000000000 / hz) in *. clearbody q.
  split; [lia|]. split; [nia|]. split; intros; nia.
Qed.

(** C1: The control loop refines the four phases. At every accepted frequency from
    20 Hz on, for every sequence of emergency stops and acknowledgements and
    every run shorter than 2^63 ns of loop time, the snapshot published in each
    cycle shows exactly the phase reached by then, with every telegram so far
    accepted and none rejected. The phase is a function of the stop and the
    acknowledgement alone: the heartbeat input is a constant of the loop, so the
    phases are the same in a run that misses its deadlines, in which REQ-SAF-025
    asks for torque to be removed ([missed_deadlines_keep_torque]). *)
Theorem loop_refines_phases hz p clock cs :
  period_for hz = Some p → 20 ≤ hz → indexed p 0 cs → p * Z.of_nat (length cs) < 2 ^ 63 →
  length (run_cycles (newRuntime clock) cs).1 = length cs ∧
  ∀ i s, (run_cycles (newRuntime clock) cs).1 !! i = Some s →
    shows s (phase_after (take (S i) cs)) (S i).
Proof.
  intros (_ & Hp & Hhz)%period_for_spec H20 Hidx Hfit.
  exact (run_cycles_simulates p 0 Starting _ cs (simulates_new p clock) Hidx
    (conj (proj1 Hp) (proj1 Hhz H20)) Hfit).
Qed.

(** Cycles of the given period with the given flags. *)
Definition demo_cycle (p : Z) (i : nat) (estop ack : bool) : Cycle :=
  mkCycle (mkContext (Z.of_nat i) 0 p) estop ack newStats (mkTimespec 0 0)
    (mkTimespec 0 0) estop true 0.
Definition demo_cycles (p : Z) (flags : list (bool * bool)) : list Cycle :=
  imap (λ i '(estop, ack), demo_cycle p i estop ack) flags.

Lemma loop_refines_phases_witness :
  let cs := demo_cycles 1000000 [(false, false); (false, false); (true, false); (false, true);
    (false, false)] in
  map Edge.torque_permitted (run_cycles (newRuntime (mkTimespec 0 0)) cs).1 =
    [0; 1; 0; 0; 1].
Proof.
  cbv zeta. set (cs := demo_cycles _ _).
  destruct (loop_refines_phases 1000 1000000 (mkTimespec 0 0) cs) as [Hlen H];
    [reflexivity|lia|repeat split|by_compute|].
  destruct (run_cycles (newRuntime (mkTimespec 0 0)) cs) as [ss rt]. cbn [fst] in *.
  do 5 (destruct ss as [|? ss]; [done|]). destruct ss; [|done].
  cbn [map]. repeat f_equal;
    [apply (H 0%nat)|apply (H 1%nat)|apply (H 2%nat)|apply (H 3%nat)|apply (H 4%nat)]; done.
Defined.

(** ** Missed deadlines *)

(** The snapshot of a cycle is published by that cycle. *)
Lemma run_cycles_lookup rt cs i s :
  (run_cycles rt cs).1 !! i = Some s → ∃ rt' c, cs !! i = Some c ∧ s = (cycle rt' c).1.
Proof.
  revert rt i. induction cs as [|c cs IH]; intros rt i; [done|]. cbn [run_cycles].
  destruct (cycle rt c) as [s0 rt0] eqn:E. pose proof (IH rt0) as IH0.
  destruct (run_cycles rt0 cs) as [ss rt1]. destruct i as [|i]; cbn; [|apply IH0].
  intros [= <-]. exists rt, c. by rewrite E.
Qed.

Lemma cycle_statistics rt c :
  Edge.overruns (cycle rt c).1 = overruns (stats c) ∧
  Edge.skipped_cycles (cycle rt c).1 = skipped_cycles (stats c).
Proof. unfold cycle. by destruct (DualChannelSupervisor.evaluate _ _ _ _). Qed.

Lemma phases_running cs ph :
  Forall (λ c, estop_asserted c = false) cs → ph = Ready ∨ ph = Running → cs ≠ [] →
  foldl phase_step ph cs = Running.
Proof.
  intros Hcs. revert ph. induction Hcs as [|c cs Hc _ IH]; intros ph Hph; [done|intros _].
  cbn [foldl]. assert (E : phase_step ph c = Running).
  { unfold phase_step, phase_next. rewrite Hc. by destruct Hph as [-> | ->]. }
  rewrite E. destruct cs; [done|]. by apply IH; [right|].
Qed.

(** Missing deadlines removes no torque. In a run at 20 Hz or faster without an
    emergency stop, every snapshot after the first permits torque with no fault
    latched, whatever number of overruns and skipped cycles the executor has
    counted and the same snapshot reports. *)
Theorem missed_deadlines_keep_torque hz p clock cs i s :
  period_for hz = Some p → 20 ≤ hz → indexed p 0 cs → p * Z.of_nat (length cs) < 2 ^ 63 →
  Forall (λ c, estop_asserted c = false) cs →
  (run_cycles (newRuntime clock) cs).1 !! S i = Some s →
  Edge.torque_permitted s = 1 ∧ Edge.fault_latched s = 0 ∧
  ∃ c, cs !! S i = Some c ∧ Edge.overruns s = overruns (stats c) ∧
    Edge.skipped_cycles s = skipped_cycles (stats c).
Proof.
  intros (_ & Hp & Hhz)%period_for_spec H20 Hidx Hfit Hrun Hs.
  destruct (run_cycles_simulates p 0 Starting _ cs (simulates_new p clock) Hidx
    (conj (proj1 Hp) (proj1 Hhz H20)) Hfit) as [_ Hall].
  destruct (Hall _ s Hs) as (_ & _ & Ht & Hl & _).
  destruct (run_cycles_lookup _ _ _ _ Hs) as (rt & c & Hc & Es).
  assert (Hph : foldl phase_step Starting (take (S (S i)) cs) = Running).
  { destruct cs as [|c0 [|c1 cs]]; [done|by destruct i|]. cbn [take foldl].
    destruct (Forall_cons_1 _ _ _ Hrun) as [H0 [H1 Hr]%Forall_cons_1].
    assert (E0 : phase_step Starting c0 = Ready) by (unfold phase_step, phase_next; by rewrite H0).
    rewrite E0. apply (phases_running (c1 :: take i cs)); [|by left|done].
    constructor; [done|]. by apply Forall_take. }
  rewrite Hph in Ht, Hl. split; [done|]. split; [done|].
  exists c. split; [done|]. rewrite Es. apply cycle_statistics.
Qed.

(** Three cycles of which the last reports that every deadline so far was missed. *)
Definition overrun_cycles : list Cycle :=
  demo_cycles 1000000 [(false, false); (false, false)] ++
  [mkCycle (mkContext 2 0 1000000) false false
     (mkStats 3 3 2999 0 newHistogram newHistogram newHistogram)
     (mkTimespec 0 0) (mkTimespec 0 0) false true 0].

Lemma missed_deadlines_keep_torque_witness :
  ∃ s, (run_cycles (newRuntime (mkTimespec 0 0)) overrun_cycles).1 !! 2%nat = Some s ∧
    Edge.torque_permitted s = 1 ∧ Edge.overruns s = 3.
Proof.
  destruct (lookup_lt_is_Some_2 (run_cycles (newRuntime (mkTimespec 0 0)) overrun_cycles).1 2)
    as [s Hs].
  { destruct (run_cycles_simulates 1000000 0 Starting (newRuntime (mkTimespec 0 0)) overrun_cycles)
      as [-> _]; [apply simulates_new|repeat split|split; by_compute|by_compute|by_compute]. }
  exists s. split; [exact Hs|].
  destruct (missed_deadlines_keep_torque 1000 1000000 (mkTimespec 0 0) overrun_cycles 1 s)
    as (Ht & _ & c & Hc & Ho & _);
    [reflexivity|lia|repeat split|by_compute|repeat constructor|exact Hs|].
  split; [exact Ht|]. rewrite Ho. by injection Hc as <-.
Defined.

(** ** The emergency stop *)

(** A cycle that cannot end a stop: the stop is still demanded, or nobody
    acknowledges. *)
Definition holds_stop (c : Cycle) : Prop :=
  estop_asserted c = true ∨ acknowledge_taken c = false.

Lemma phases_held cs : Forall holds_stop cs → foldl phase_step Stopped cs = Stopped.
Proof.
  induction 1 as [|c cs [Hc|Hc] _ IH]; [done| |]; simpl; unfold phase_step at 2, phase_next;
    rewrite Hc; [done|]. by destruct (estop_asserted c).
Qed.

Lemma phases_stopped pre c mid :
  estop_asserted c = true → Forall holds_stop mid →
  phase_after (pre ++ c :: mid) = Stopped.
Proof.
  intros Hc Hmid. unfold phase_after. rewrite foldl_app. cbn [foldl].
  unfold phase_step at 2, phase_next. rewrite Hc. by apply phases_held.
Qed.

(** The emergency stop, end to end. In a run at 20 Hz or faster, the cycle that
    reads the stop publishes torque off with the fault latched, and so does
    every later cycle until one reads an acknowledgement without the stop;
    the cycle after that one permits torque again, if it reads no stop. *)
Theorem emergency_stop_end_to_end hz p clock pre c mid post :
  let cs := pre ++ c :: mid ++ post in
  let ss := (run_cycles (newRuntime clock) cs).1 in
  period_for hz = Some p → 20 ≤ hz → indexed p 0 cs → p * Z.of_nat (length cs) < 2 ^ 63 →
  estop_asserted c = true → Forall holds_stop mid →
  (∀ i, (length pre ≤ i ≤ length pre + length mid)%nat →
     ∃ s, ss !! i = Some s ∧ Edge.torque_permitted s = 0 ∧ Edge.fault_latched s = 1 ∧
       Edge.fault_reason s = fault_value Fault.kEmergencyStop) ∧
  (∀ c1 c2 rest, post = c1 :: c2 :: rest →
     acknowledge_taken c1 = true → estop_asserted c1 = false → estop_asserted c2 = false →
     ∃ s, ss !! (length pre + length mid + 2)%nat = Some s ∧ Edge.torque_permitted s = 1).
Proof.
  cbv zeta. intros (_ & Hp & Hhz)%period_for_spec H20 Hidx Hfit Hc Hmid.
  destruct (run_cycles_simulates p 0 Starting _ _ (simulates_new p clock) Hidx
    (conj (proj1 Hp) (proj1 Hhz H20)) Hfit) as [Hlen Hall].
  set (ss := (run_cycles _ _).1) in *. clearbody ss.
  rewrite length_app, length_cons, length_app in Hlen.
  split.
  - intros i Hi. destruct (lookup_lt_is_Some_2 ss i) as [s Hs]; [lia|].
    exists s. split; [done|]. destruct (Hall i s Hs) as (_ & Hf & Ht & Hl & _).
    set (k := (i - length pre)%nat).
    assert (E : foldl phase_step Starting (take (S i) (pre ++ c :: mid ++ post)) = Stopped).
    { replace (S i) with (length pre + S k)%nat by lia. rewrite take_app_add.
      cbn [take]. rewrite take_app_le by lia.
      apply (phases_stopped pre c (take k mid)); [done|by apply Forall_take]. }
    rewrite E in *. done.
  - intros c1 c2 rest -> Ha1 He1 He2.
    destruct (lookup_lt_is_Some_2 ss (length pre + length mid + 2)) as [s Hs];
      [simpl in Hlen; lia|].
    exists s. split; [done|]. destruct (Hall _ s Hs) as (_ & _ & Ht & _). rewrite Ht.
    replace (S (length pre + length mid + 2)) with (length pre + S (length mid + 2))%nat by lia.
    rewrite take_app_add. cbn [take]. rewrite take_app_add. cbn [take].
    rewrite app_comm_cons, app_assoc, foldl_app.
    pose proof (phases_stopped pre c mid Hc Hmid) as E. unfold phase_after in E. rewrite E.
    cbn [foldl]. unfold phase_step, phase_next. rewrite He1, Ha1, He2. done.
Qed.

Lemma emergency_stop_end_to_end_witness :
  let cs := demo_cycles 1000000 [(false, false); (false, false); (true, true); (false, false);
    (false, true); (false, false)] in
  ∃ s t, (run_cycles (newRuntime (mkTimespec 0 0)) cs).1 !! 3%nat = Some s ∧
    (run_cycles (newRuntime (mkTimespec 0 0)) cs).1 !! 5%nat = Some t ∧
    Edge.torque_permitted s = 0 ∧ Edge.torque_permitted t = 1.
Proof.
  cbv zeta. set (cs := demo_cycles _ _).
  pose proof (emergency_stop_end_to_end 1000 1000000 (mkTimespec 0 0) (take 2 cs)
    (nth 2 cs (demo_cycle 1000000 0 false false)) (take 1 (drop 3 cs)) (drop 4 cs)) as H.
  cbv zeta in H.
  change (take 2 cs ++ _ :: _ ++ drop 4 cs) with cs in H.
  change (length (take 2 cs)) with 2%nat in H. change (length (take 1 (drop 3 cs))) with 1%nat in H.
  destruct H as [Hoff Hon];
    [reflexivity|lia|repeat split|by_compute|reflexivity|repeat constructor; by right|].
  destruct (Hoff 3%nat) as (s & Hs & Ht & _); [lia|].
  destruct (Hon _ _ _ eq_refl) as (t & Hs' & Ht'); [reflexivity..|].
  exists s, t. split_and!; assumption.
Defined.

(** ** Too slow for the watchdog *)

(** An unconditional demand on both channels stops in the same cycle. *)
Lemma demand_outputs d i now :
  unconditionalDemandActive i = true →
  let o := (DualChannelSupervisor.evaluate d i i now).1 in
  torque_permitted o = false ∧ state o = State.kSafeTorqueOff ∧ fault_latched o = true.
Proof.
  intros Hd; cbv zeta. set (c := DualChannelSupervisor.mkCycle i i now).
  change (DualChannelSupervisor.evaluate d i i now) with (DualChannelSupervisor.step d c).
  destruct (DualChannelSupervisor.step_outputs d c) as [-> | ->]; [|done].
  unfold DualChannelSupervisor.combine, DualChannelSupervisor.result_a,
    DualChannelSupervisor.result_b, evaluate. cbn.
  rewrite !next_demand, !enter_state by done. cbn. split; [done|]. split; [done|].
  rewrite bool_decide_true; [done|]. rewrite enter_fault.
  apply demand_reason_spec in Hd. by case_bool_decide.
Qed.

(** Once the receiver is in its safe state, every cycle is a stop. *)
Definition stopped_for_good (rt : Runtime) : Prop :=
  safe_state_ (rt_receiver rt) = true ∧ rt_accepted rt = 1.

Definition shows_stop (s : Edge.RuntimeSnapshot) : Prop :=
  Edge.torque_permitted s = 0 ∧ Edge.safety_state s = 0 ∧ Edge.fault_latched s = 1 ∧
  Edge.telegrams_accepted s = 1.

Lemma cycle_demand rt c :
  let now := now_of (context c) in
  unconditionalDemandActive (inputs_for (exchange rt now) c now) = true →
  let s := (cycle rt c).1 in
  Edge.torque_permitted s = 0 ∧ Edge.safety_state s = 0 ∧ Edge.fault_latched s = 1 ∧
  Edge.telegrams_accepted s = rt_accepted (exchange rt now) ∧
  rt_receiver (cycle rt c).2 = rt_receiver (exchange rt now) ∧
  rt_accepted (cycle rt c).2 = rt_accepted (exchange rt now).
Proof.
  cbv zeta. intros Hd. unfold cycle. set (rt' := exchange _ _) in *. clearbody rt'.
  pose proof (demand_outputs (supervisor rt') _ (now_of (context c)) Hd) as Ho.
  destruct (DualChannelSupervisor.evaluate _ _ _ _) as [o d]. cbn in Ho.
  destruct Ho as (Ht & Hst & Hl). cbn -[note_transition].
  rewrite Ht, Hst, Hl. unfold note_transition. by destruct (_ || _).
Qed.

Lemma cycle_after_exchange rt c :
  stopped_for_good (exchange rt (now_of (context c))) →
  shows_stop (cycle rt c).1 ∧ stopped_for_good (cycle rt c).2.
Proof.
  intros [Hs Ha]. destruct (cycle_demand rt c) as (H1 & H2 & H3 & H4 & H5 & H6).
  { unfold inputs_for. rewrite Hs. cbn. by destruct (estop_asserted c). }
  unfold shows_stop, stopped_for_good. rewrite H4, H5, H6. done.
Qed.

Lemma run_cycles_stopped rt cs :
  stopped_for_good rt → Forall shows_stop (run_cycles rt cs).1.
Proof.
  revert rt. induction cs as [|c cs IH]; intros rt [Hs Ha]; [constructor|].
  destruct (exchange_safe_state rt (now_of (context c)) Hs) as [Hs' Ha'].
  destruct (cycle_after_exchange rt c) as [Hc Hg]; [split; congruence|].
  cbn [run_cycles]. destruct (cycle rt c) as [s1 rt1]. specialize (IH rt1 Hg).
  destruct (run_cycles rt1 cs). by constructor.
Qed.

(** Below 20 Hz the loop's period exceeds the receive watchdog, the receiver
    latches in the second cycle, and nothing in the process acknowledges it: in
    every run, whatever is acknowledged, every snapshot after the first shows
    torque off, the fault latched, and the one telegram accepted so far. *)
Theorem slow_loop_stays_off hz p clock cs i s :
  period_for hz = Some p → hz < 20 → indexed p 0 cs →
  (run_cycles (newRuntime clock) cs).1 !! S i = Some s → shows_stop s.
Proof.
  intros (_ & Hp & Hhz)%period_for_spec H20 Hidx.
  assert (Hw : watchdog_ns < p) by (apply Z.nle_gt; rewrite <- Hhz; lia).
  destruct cs as [|c0 [|c1 cs]]; [done|cbn; by destruct (cycle _ _)|].
  destruct Hidx as (Hi0 & Hp0 & Hi1 & Hp1 & _).
  assert (Hc1 : channel_ok p 1 (cycle (newRuntime clock) c0).2).
  { unfold cycle. rewrite (now_of_indexed _ p 0) by (done || lia).
    destruct (DualChannelSupervisor.evaluate _ _ _ _). apply note_transition_channel.
    apply (exchange_accepts p 0); auto using channel_ok_new; lia. }
  cbn [run_cycles]. destruct (cycle (newRuntime clock) c0) as [s0 rt]. cbn [snd] in Hc1.
  destruct (cycle_after_exchange rt c1) as [Hs Hg].
  { rewrite (now_of_indexed _ p 1), Z.mul_1_r by (done || lia).
    apply (exchange_times_out p rt Hc1 Hw). lia. }
  destruct (cycle rt c1) as [s1 rt1]. pose proof (run_cycles_stopped rt1 cs Hg) as Hall.
  destruct (run_cycles rt1 cs) as [ss rt2]. intros Hlook; cbn in Hlook.
  destruct i as [|i]; cbn in Hlook; [by simplify_eq|].
  by eapply Forall_lookup in Hall.
Qed.

Lemma slow_loop_stays_off_witness :
  Forall shows_stop
    (drop 1 (run_cycles (newRuntime (mkTimespec 0 0))
       (demo_cycles 100000000 [(false, false); (false, true); (false, true)])).1).
Proof.
  apply Forall_lookup. intros i s. rewrite lookup_drop.
  apply (slow_loop_stays_off 10 100000000 _ _ i s); [reflexivity|lia|repeat split].
Defined.

(** ** Transitions are numbered *)

(** What a consumer reacts to. *)
Definition decision (s : Edge.RuntimeSnapshot) : Z * Z :=
  (Edge.safety_state s, Edge.torque_permitted s).

(** The numbers of two snapshots published one after the other. *)
Definition linked (s t : Edge.RuntimeSnapshot) : Prop :=
  if decide (decision s = decision t)
  then Edge.safety_sequence t = Edge.safety_sequence s ∧
       Edge.safety_transition_monotonic_ns t = Edge.safety_transition_monotonic_ns s
  else Edge.safety_sequence t = u64 (Edge.safety_sequence s + 1).

Fixpoint linked_from (s : Edge.RuntimeSnapshot) (ss : list Edge.RuntimeSnapshot) : Prop :=
  match ss with [] => True | t :: ss => linked s t ∧ linked_from t ss end.

(** How often the decision changes along a list of snapshots after [s]. *)
Fixpoint transitions (s : Edge.RuntimeSnapshot) (ss : list Edge.RuntimeSnapshot) : nat :=
  match ss with
  | [] => 0
  | t :: ss => (if decide (decision s = decision t) then 0 else 1) + transitions t ss
  end.

(** The variables a cycle leaves behind are the ones it published. *)
Record published (s : Edge.RuntimeSnapshot) (rt : Runtime) : Prop := {
  pub_sequence : Edge.safety_sequence s = safety_sequence rt;
  pub_stamp : Edge.safety_transition_monotonic_ns s = last_transition_ns rt;
  pub_state : Edge.safety_state s = state_value (last_safety_state rt);
  pub_torque : Edge.torque_permitted s = flag (last_torque_permitted rt)
}.

Lemma flag_inj a b : flag a = flag b → a = b.
Proof. by destruct a, b. Qed.

Lemma cycle_published rt c : published (cycle rt c).1 (cycle rt c).2.
Proof.
  unfold cycle. destruct (DualChannelSupervisor.evaluate _ _ _ _) as [o d].
  set (rt' := exchange rt _). clearbody rt'. unfold note_transition, snapshot_of.
  destruct (decide (state o = last_safety_state rt')) as [E|E];
    [rewrite (bool_decide_false (_ ≠ _)) by tauto|by rewrite bool_decide_true].
  case_bool_decide as Ht; [by split|]. cbn [orb].
  split; cbn; congruence.
Qed.

Lemma cycle_linked s rt c : published s rt → linked s (cycle rt c).1.
Proof.
  intros [Hseq Hst Hs Ht]. destruct (exchange_keeps rt (now_of (context c))) as (_ & Es & Et & Ec & En).
  unfold linked, cycle. destruct (DualChannelSupervisor.evaluate _ _ _ _) as [o d].
  set (rt' := exchange rt _) in *. clearbody rt'.
  unfold note_transition, decision. rewrite Hs, Ht, Hseq, Hst, Es, Et, Ec, En.
  cbn [fst]. destruct (decide (state o = last_safety_state rt)) as [E1|E1].
  - rewrite (bool_decide_false (state o ≠ _)) by tauto.
    case_bool_decide as E2; cbn; case_decide as E; try done; exfalso.
    + injection E as _ E. apply flag_inj in E. congruence.
    + apply E. congruence.
  - rewrite bool_decide_true by done. cbn. case_decide as E; [|done]. exfalso.
    injection E as E _. apply DualChannelSupervisor.state_value_inj in E. congruence.
Qed.

Lemma run_cycles_linked s rt cs : published s rt → linked_from s (run_cycles rt cs).1.
Proof.
  revert s rt. induction cs as [|c cs IH]; intros s rt Hs; [done|].
  pose proof (cycle_linked s rt c Hs) as Hl. pose proof (cycle_published rt c) as Hp.
  cbn [run_cycles]. destruct (cycle rt c) as [s1 rt1]. specialize (IH s1 rt1 Hp).
  by destruct (run_cycles rt1 cs).
Qed.

(** The counter after a linked list of snapshots. *)
Lemma linked_counts s ss t :
  linked_from s ss → last (s :: ss) = Some t → is_u64 (Edge.safety_sequence s) →
  Edge.safety_sequence t = u64 (Edge.safety_sequence s + Z.of_nat (transitions s ss)) ∧
  (transitions s ss = 0%nat →
     decision t = decision s ∧
     Edge.safety_transition_monotonic_ns t = Edge.safety_transition_monotonic_ns s).
Proof.
  revert s. induction ss as [|s1 ss IH]; intros s Hl Ht Hu.
  - cbn in Ht. simplify_eq. cbn [transitions]. by rewrite Z.add_0_r, unsigned_wrap_id.
  - destruct Hl as [H1 Hl]. rewrite last_cons_cons in Ht. unfold linked in H1.
    cbn [transitions]. case_decide as E; cbn [Nat.add].
    + destruct H1 as [H1 H2]. rewrite <- H1 in Hu.
      destruct (IH s1 Hl Ht Hu) as [Hseq Hsame]. rewrite H1 in Hseq. split; [done|].
      intros H0. destruct (Hsame H0). split; congruence.
    + destruct (IH s1 Hl Ht) as [Hseq _]; [rewrite H1; by apply unsigned_wrap_range|].
      split; [|done]. rewrite Hseq, H1. unfold unsigned_wrap.
      rewrite Z.add_mod_idemp_l by lia. f_equal. lia.
Qed.

Lemma transitions_length s ss : (transitions s ss ≤ length ss)%nat.
Proof.
  revert s. induction ss as [|t ss IH]; intros s; [done|]. cbn [transitions length].
  specialize (IH t). case_decide; lia.
Qed.

Lemma linked_from_lookup x ss i s :
  linked_from x ss → is_u64 (Edge.safety_sequence x) → ss !! i = Some s →
  linked_from s (drop (S i) ss) ∧ is_u64 (Edge.safety_sequence s).
Proof.
  revert x i. induction ss as [|t ss IH]; intros x i Hl Hu Hi; [done|].
  destruct Hl as [H1 Hl].
  assert (Hut : is_u64 (Edge.safety_sequence t)).
  { unfold linked in H1. case_decide; [by destruct H1 as [-> _]|].
    rewrite H1. by apply unsigned_wrap_range. }
  destruct i as [|i]; cbn in Hi; [by simplify_eq|]. exact (IH t i Hl Hut Hi).
Qed.

Lemma linked_from_take s ss k : linked_from s ss → linked_from s (take k ss).
Proof.
  revert s k. induction ss as [|t ss IH]; intros s [|k]; cbn; try done.
  intros [H1 Hl]. split; [done|]. by apply IH.
Qed.

Lemma last_segment {A} (l : list A) i j x y :
  l !! i = Some x → l !! j = Some y → (i ≤ j)%nat →
  last (x :: take (j - i) (drop (S i) l)) = Some y.
Proof.
  intros Hx Hy Hij. apply lookup_lt_Some in Hy as Hj.
  rewrite last_lookup. cbn [length Init.Nat.pred].
  rewrite length_take, length_drop, Nat.min_l by lia.
  destruct (j - i)%nat as [|k] eqn:E; [replace j with i in Hy by lia; cbn; congruence|].
  change (take (S k) (drop (S i) l) !! k = Some y). rewrite lookup_take_lt, lookup_drop by lia. by replace (S i + k)%nat with j by lia.
Qed.

(** Every transition is numbered and stamped. Between any two cycles of a run
    the published sequence number advances, modulo 2^64, by the number of times
    the decision (state and torque permission) changed; so within 2^64 cycles,
    two snapshots with one number report one decision, taken at one instant. *)
Theorem sequence_counts_transitions clock cs i j s t :
  let ss := (run_cycles (newRuntime clock) cs).1 in
  ss !! i = Some s → ss !! j = Some t → (i ≤ j)%nat → Z.of_nat j < 2 ^ 64 →
  Edge.safety_sequence t =
    u64 (Edge.safety_sequence s + Z.of_nat (transitions s (take (j - i) (drop (S i) ss)))) ∧
  (Edge.safety_sequence t = Edge.safety_sequence s →
     decision t = decision s ∧
     Edge.safety_transition_monotonic_ns t = Edge.safety_transition_monotonic_ns s).
Proof.
  intros ss Hs Ht Hij Hj.
  set (x := Edge.mkSnapshot 0 0 0 0 0 0 0 0 0 0 0 0 0 0 0 (monotonicNanos clock) 0 0 0 0 0 0 0).
  assert (Hx : published x (newRuntime clock)) by (split; reflexivity).
  destruct (linked_from_lookup x ss i s (run_cycles_linked x _ cs Hx) ltac:(by_compute) Hs)
    as [Hl Hu].
  destruct (linked_counts s _ t (linked_from_take s _ (j - i) Hl)
    (last_segment ss i j s t Hs Ht Hij) Hu) as [Hseq Hsame].
  split; [done|]. intros Heq. apply Hsame.
  pose proof (transitions_length s (take (j - i) (drop (S i) ss))) as Hle.
  rewrite length_take in Hle.
  set (n := transitions _ _) in *. clearbody n. rewrite Heq in Hseq.
  unfold unsigned_wrap in Hseq. pose proof (Z.div_mod (Edge.safety_sequence s + Z.of_nat n) (2 ^ 64)).
  unfold in_unsigned in Hu. change (2 ^ 64) with 18446744073709551616 in *. lia.
Qed.

Lemma sequence_counts_transitions_witness :
  let ss := (run_cycles (newRuntime (mkTimespec 0 0))
    (demo_cycles 1000000 [(false, false); (true, false); (true, false)])).1 in
  ∃ s t, ss !! 1%nat = Some s ∧ ss !! 2%nat = Some t ∧
    Edge.safety_sequence t =
      u64 (Edge.safety_sequence s + Z.of_nat (transitions s (take 1 (drop 2 ss)))).
Proof.
  intros ss.
  assert (Hlen : length ss = 3%nat).
  { apply (run_cycles_simulates 1000000 0 Starting);
      [apply simulates_new|repeat split|split; by_compute|by_compute]. }
  destruct (lookup_lt_is_Some_2 ss 1) as [s Hs]; [lia|].
  destruct (lookup_lt_is_Some_2 ss 2) as [t Ht]; [lia|].
  exists s, t. split; [exact Hs|]. split; [exact Ht|].
  apply (sequence_counts_transitions _ _ 1 2 s t Hs Ht); lia.
Defined.
