(* ===== verification/WatcherSafety.v ===== *)
(** * The file watchers of safeedged

    [FileFlagWatcher] of [src/src/apps/safeedged.cpp] beside the control loop,
    under every interleaving of file operations, watcher steps and cycles: an
    acknowledge file is delivered once per appearance and once more per [unlink]
    that leaves it in place, so again and again when it cannot be removed; the
    emergency stop flag follows its file. *)

From Stdlib Require Import SpecFloat Ascii String.
From stdpp Require Import base numbers list option strings pretty.
From S2P Require Import Prelude Float64 SafetyStateMachine SafetyStateMachineSafety DualChannel CyclicExecutor Snapshot Runtime RuntimeSafety.

(** ** Acknowledgements are delivered once *)

Definition bool_nat (b : bool) : nat := if b then 1 else 0.

(** The acknowledgements under way: the flag, a store about to happen, and the
    file, which the watcher may already have seen. *)
Definition pending (s : System) : nat :=
  bool_nat (asserted_ (acknowledge s)) +
  match pc (acknowledge s) with
  | AtStore b => bool_nat b + bool_nat (ack_file s)
  | AtUnlink => 1
  | AtAccess => bool_nat (ack_file s)
  end.

Definition is_touch (e : Event) : bool := match e with TouchAck => true | _ => false end.

(** The step runs an [unlink] that fails on a file that is there. *)
Definition leaves_file (s : System) (e : Event) : bool :=
  match e, pc (acknowledge s) with AckWatcher false, AtUnlink => ack_file s | _, _ => false end.

(** How often the watcher left the acknowledge file in place. *)
Fixpoint files_left (s : System) (es : list Event) : nat :=
  match es with
  | [] => 0
  | e :: es => bool_nat (leaves_file s e) + files_left (system_step s e) es
  end.

(** How many cycles took an acknowledgement. *)
Fixpoint deliveries (cs : list Cycle) : nat :=
  match cs with
  | [] => 0
  | c :: cs => bool_nat (acknowledge_taken c) + deliveries cs
  end.

(** How often the acknowledge file was created. *)
Fixpoint touches (es : list Event) : nat :=
  match es with [] => 0 | e :: es => bool_nat (is_touch e) + touches es end.

(** The watcher threads' modes never change, and a flag is only written with
    [true] in latch mode. *)
Record system_ok (s : System) : Prop := {
  ok_ack_mode : mode_ (acknowledge s) = kLatchOnce;
  ok_estop_mode : mode_ (estop s) = kLevel;
  ok_ack_store : ∀ b, pc (acknowledge s) = AtStore b → b = true;
  ok_estop_pc : pc (estop s) ≠ AtUnlink
}.

Lemma system_ok_new clock e a : system_ok (newSystem clock e a).
Proof. by split. Qed.

Lemma system_ok_step s e : system_ok s → system_ok (system_step s e).
Proof.
  intros [Hm He Hs Hp]. destruct e; try (by split).
  - unfold system_step, watcher_step. rewrite He.
    destruct (pc (estop s)); [|done|]; split; cbn; try done; by case_bool_decide.
  - unfold system_step, watcher_step. rewrite Hm.
    destruct (pc (acknowledge s)); split; cbn; try done; try (by destruct (ack_file s)).
    intros b [= <-]. done.
  - unfold system_step, takeOnce. destruct (cycle _ _). by split.
Qed.

(** Deliveries plus acknowledgements under way never exceed appearances, files
    left in place included. *)
Lemma pending_step s e :
  system_ok s →
  (deliveries (loop_cycles s [e]) + pending (system_step s e) ≤
   bool_nat (is_touch e) + bool_nat (leaves_file s e) + pending s)%nat.
Proof.
  intros [Hm _ Hs _]. unfold pending, leaves_file, system_step.
  destruct e as [| | | | |ok|c];
    cbn [loop_cycles deliveries is_touch acknowledge ack_file bool_nat].
  5: { destruct (watcher_step true (estop_file s) (estop s)). cbn. lia. }
  5: { unfold watcher_step. rewrite Hm. destruct (pc (acknowledge s)) as [| |b] eqn:E; cbn.
       1, 2: destruct (ack_file s), ok; cbn; lia.
       rewrite (Hs b eq_refl). destruct (asserted_ (acknowledge s)), (ack_file s), ok; cbn; lia. }
  5: { cbn [takeOnce]. destruct (cycle _ _). cbn. lia. }
  all: destruct (pc (acknowledge s)), (ack_file s); cbn; lia.
Qed.

Lemma loop_cycles_cons s e es :
  loop_cycles s (e :: es) = loop_cycles s [e] ++ loop_cycles (system_step s e) es.
Proof. by destruct e. Qed.

Lemma deliveries_app cs cs' : deliveries (cs ++ cs') = (deliveries cs + deliveries cs')%nat.
Proof. induction cs as [|c cs IH]; simpl; [done|]. rewrite IH. lia. Qed.

Lemma deliveries_bounded s es :
  system_ok s →
  (deliveries (loop_cycles s es) ≤ touches es + files_left s es + pending s)%nat.
Proof.
  revert s. induction es as [|e es IH]; intros s Hs; [cbn; lia|].
  rewrite loop_cycles_cons, deliveries_app. cbn [touches files_left].
  pose proof (pending_step s e Hs). specialize (IH _ (system_ok_step s e Hs)). lia.
Qed.

(** The loop's part of an execution is a run of the loop. *)
Lemma loop_cycles_run s es :
  runtime (system_steps s es) = (run_cycles (runtime s) (loop_cycles s es)).2.
Proof.
  revert s. induction es as [|e es IH]; intros s; [done|].
  change (system_steps s (e :: es)) with (system_steps (system_step s e) es). rewrite IH.
  destruct e; try done; cbn [loop_cycles system_step].
  - by destruct (watcher_step _ _ _).
  - by destruct (watcher_step _ _ _).
  - cbn [takeOnce run_cycles]. destruct (cycle _ _) as [s1 rt1].
    cbn [runtime]. by destruct (run_cycles rt1 _).
Qed.

(** How often a latched fault was released along published snapshots. *)
Fixpoint releases (latched : Z) (ss : list Edge.RuntimeSnapshot) : nat :=
  match ss with
  | [] => 0
  | s :: ss =>
      bool_nat ((latched =? 1) && (Edge.fault_latched s =? 0)) +
      releases (Edge.fault_latched s) ss
  end.

(** What a cycle publishes of the latch is what the supervisor holds after it,
    and only a cycle that takes an acknowledgement clears it. *)
Lemma cycle_latch rt c :
  let was := DualChannelSupervisor.latched (supervisor rt) in
  let now := DualChannelSupervisor.latched (supervisor (cycle rt c).2) in
  Edge.fault_latched (cycle rt c).1 = flag now ∧
  (was = true → acknowledge_taken c = false → now = true).
Proof.
  cbv zeta. unfold cycle.
  destruct (exchange_keeps rt (now_of (context c))) as (<- & _). set (rt' := exchange rt _).
  pose proof (DualChannelSupervisor.evaluate_latched (supervisor rt')
    (inputs_for rt' c (now_of (context c))) (inputs_for rt' c (now_of (context c)))
    (now_of (context c))) as Hl.
  pose proof (DualChannelSupervisor.evaluate_keeps_latched (supervisor rt')
    (inputs_for rt' c (now_of (context c))) (now_of (context c))) as Hk.
  destruct (DualChannelSupervisor.evaluate _ _ _ _) as [o d]. cbn [fst snd] in *.
  rewrite note_transition_supervisor. split; [by cbn; rewrite Hl|exact Hk].
Qed.

Lemma releases_acknowledged rt cs :
  (releases (flag (DualChannelSupervisor.latched (supervisor rt))) (run_cycles rt cs).1 ≤
   deliveries cs)%nat.
Proof.
  revert rt. induction cs as [|c cs IH]; intros rt; [done|].
  destruct (cycle_latch rt c) as [Hl Hk]. cbn [run_cycles].
  destruct (cycle rt c) as [s1 rt1]. cbn [fst snd] in *. specialize (IH rt1).
  destruct (run_cycles rt1 cs) as [ss rt2]. cbn [fst releases deliveries] in *. rewrite Hl.
  destruct (DualChannelSupervisor.latched (supervisor rt)),
    (DualChannelSupervisor.latched (supervisor rt1)), (acknowledge_taken c); cbn in *;
    try lia; by specialize (Hk eq_refl eq_refl).
Qed.

(** C11: Every release is somebody's act, or an [unlink] that failed. In every
    execution of the process, at every frequency and however file operations,
    watcher steps and cycles interleave, the number of times a latched fault is
    released is at most the number of times the acknowledge file was created (one
    left over from before the start counts as one) plus the number of times the
    watcher's [unlink] left the file in place. *)
Theorem release_needs_touch clock estop_there ack_there es :
  let s := newSystem clock estop_there ack_there in
  (releases 0 (run_cycles (newRuntime clock) (loop_cycles s es)).1 ≤
   touches es + bool_nat ack_there + files_left s es)%nat.
Proof.
  cbv zeta. etrans; [apply (releases_acknowledged (newRuntime clock))|].
  pose proof (deliveries_bounded _ es (system_ok_new clock estop_there ack_there)) as H.
  change (pending _) with (bool_nat ack_there) in H. lia.
Qed.

(** Touch, delivery, stop, and one more touch. *)
Definition demo_execution : list Event :=
  let c i := LoopCycle (demo_cycle 1000000 i false false) in
  [TouchEstop; EstopWatcher; EstopWatcher; c 0%nat; RemoveEstop; EstopWatcher; EstopWatcher;
   TouchAck; AckWatcher true; AckWatcher true; AckWatcher true; c 1%nat; c 2%nat].

(** The bound is met: one touch releases the stop of the demonstration once. *)
Example demo_released :
  releases 0 (run_cycles (newRuntime (mkTimespec 0 0))
    (loop_cycles (newSystem (mkTimespec 0 0) false false) demo_execution)).1 = 1%nat ∧
  touches demo_execution = 1%nat ∧
  files_left (newSystem (mkTimespec 0 0) false false) demo_execution = 0%nat.
Proof. repeat split; vm_compute; reflexivity. Qed.

(** ** Acknowledgements and stops arrive *)

(** Events that neither consume nor withdraw an acknowledgement. *)
Definition leaves_ack (e : Event) : Prop :=
  match e with LoopCycle _ | RemoveAck => False | _ => True end.

(** Watcher steps until the flag is set; none to come if the file is not there. *)
Definition ack_distance (s : System) : option nat :=
  if asserted_ (acknowledge s) then Some 0%nat
  else
    match pc (acknowledge s) with
    | AtStore _ => Some 1%nat
    | AtUnlink => Some 2%nat
    | AtAccess => if ack_file s then Some 3%nat else None
    end.

Definition is_ack_watcher (e : Event) : bool :=
  match e with AckWatcher _ => true | _ => false end.

Lemma ack_distance_step s e n :
  system_ok s → leaves_ack e → ack_distance s = Some n →
  ∃ n', ack_distance (system_step s e) = Some n' ∧
    (n' ≤ n - bool_nat (is_ack_watcher e))%nat.
Proof.
  intros [Hm _ Hs _] He. unfold ack_distance, system_step.
  destruct e; try done; cbn [is_ack_watcher bool_nat acknowledge ack_file]; rewrite ?Nat.sub_0_r;
    [eauto|eauto| |by destruct (watcher_step _ _ _); eauto|].
  - destruct (asserted_ _), (pc _), (ack_file s); intros; simplify_eq; eauto.
  - unfold watcher_step. rewrite Hm.
    destruct (asserted_ (acknowledge s)) eqn:Ea, (pc (acknowledge s)) as [| |b] eqn:Ep; cbn;
      try rewrite (Hs b eq_refl); try (destruct (ack_file s)); intros; simplify_eq; cbn; eauto.
Qed.

(** How many steps the acknowledge watcher takes in an execution. *)
Fixpoint ack_steps (es : list Event) : nat :=
  match es with [] => 0 | e :: es => bool_nat (is_ack_watcher e) + ack_steps es end.

Lemma system_ok_steps s es : system_ok s → system_ok (system_steps s es).
Proof.
  revert s. induction es as [|e es IH]; intros s Hs; [done|].
  apply IH. by apply system_ok_step.
Qed.

Lemma ack_distance_steps s es n :
  system_ok s → Forall leaves_ack es → ack_distance s = Some n →
  ∃ n', ack_distance (system_steps s es) = Some n' ∧ (n' ≤ n - ack_steps es)%nat.
Proof.
  intros Hs Hes. revert s n Hs.
  induction Hes as [|e es He _ IH]; intros s n Hs Hn; [exists n; cbn; split; [done|lia]|].
  destruct (ack_distance_step s e n Hs He Hn) as (n1 & H1 & Hle).
  destruct (IH _ n1 (system_ok_step s e Hs) H1) as (n2 & H2 & Hle2).
  exists n2. split; [done|]. cbn [ack_steps]. lia.
Qed.

(** The emergency stop flag against its file: steps until the flag is set and
    stays set. *)
Definition estop_distance (s : System) : nat :=
  match pc (estop s), asserted_ (estop s) with
  | AtAccess, true => 0
  | AtStore true, _ => 1
  | AtAccess, false => 2
  | _, _ => 3
  end.

Definition keeps_estop (e : Event) : Prop := match e with RemoveEstop => False | _ => True end.

Definition is_estop_watcher (e : Event) : bool :=
  match e with EstopWatcher => true | _ => false end.

Fixpoint estop_steps (es : list Event) : nat :=
  match es with [] => 0 | e :: es => bool_nat (is_estop_watcher e) + estop_steps es end.

Lemma estop_distance_step s e :
  system_ok s → keeps_estop e → estop_file s = true →
  estop_file (system_step s e) = true ∧
  (estop_distance (system_step s e) ≤ estop_distance s - bool_nat (is_estop_watcher e))%nat.
Proof.
  intros [_ Hm _ Hp] He Hf. unfold estop_distance, system_step.
  destruct e; try done; cbn [is_estop_watcher bool_nat estop estop_file]; rewrite ?Nat.sub_0_r;
    try (split; [done|lia]).
  - unfold watcher_step. rewrite Hm, Hf.
    destruct (pc (estop s)) as [| |[]], (asserted_ (estop s)); try done; cbn; split; (done || lia).
  - destruct (watcher_step _ _ (acknowledge s)). cbn. split; [done|lia].
  - cbn [takeOnce]. destruct (cycle _ _). cbn. split; [done|lia].
Qed.

Lemma estop_distance_steps s es :
  system_ok s → Forall keeps_estop es → estop_file s = true →
  (estop_distance (system_steps s es) ≤ estop_distance s - estop_steps es)%nat.
Proof.
  intros Hs Hes. revert s Hs. induction Hes as [|e es He _ IH]; intros s Hs Hf; [cbn; lia|].
  destruct (estop_distance_step s e Hs He Hf) as [Hf' Hle].
  specialize (IH _ (system_ok_step s e Hs) Hf'). cbn [estop_steps].
  change (system_steps s (e :: es)) with (system_steps (system_step s e) es). lia.
Qed.

(** The inputs arrive. From every reachable state of the process in which the
    stop file exists, three steps of its watcher are enough, whatever else
    happens except its removal: the next cycle publishes torque off with the
    fault latched, at every frequency. Likewise three steps of the acknowledge
    watcher deliver an existing acknowledge file to the next cycle, unless the
    file is withdrawn first. *)
Theorem inputs_arrive clock estop_there ack_there before es c :
  let s := system_steps (newSystem clock estop_there ack_there) before in
  let s' := system_steps s es in
  let now_read := with_flags (asserted (estop s')) (asserted_ (acknowledge s')) c in
  (estop_file s = true → Forall keeps_estop es → (3 ≤ estop_steps es)%nat →
     Edge.torque_permitted (cycle (runtime s') now_read).1 = 0 ∧
     Edge.fault_latched (cycle (runtime s') now_read).1 = 1) ∧
  (ack_file s = true → Forall leaves_ack es → (3 ≤ ack_steps es)%nat →
     acknowledge_taken now_read = true).
Proof.
  cbv zeta. set (s := system_steps _ before).
  assert (Hs : system_ok s) by apply system_ok_steps, system_ok_new. clearbody s. split.
  - intros Hf Hes Hn. pose proof (estop_distance_steps s es Hs Hes Hf) as Hd.
    assert (Ha : asserted_ (estop (system_steps s es)) = true).
    { unfold estop_distance in Hd. destruct (pc (estop s)) as [| |[]], (asserted_ (estop s)),
        (pc (estop (system_steps s es))) as [| |[]], (asserted_ (estop (system_steps s es)));
        cbn in Hd; lia || done. }
    unfold asserted. rewrite Ha.
    set (c' := with_flags true _ c). destruct (cycle_demand (runtime (system_steps s es)) c')
      as (Ht & _ & Hl & _); [reflexivity|done].
  - intros Hf Hes Hn.
    assert (H : ∃ n, ack_distance s = Some n ∧ (n ≤ 3)%nat).
    { unfold ack_distance. rewrite Hf.
      destruct (asserted_ (acknowledge s)), (pc (acknowledge s)); eexists;
        (split; [done|lia]). }
    destruct H as (n & H & Hle). destruct (ack_distance_steps s es n Hs Hes H) as (n' & H' & Hle').
    cbn. replace n' with 0%nat in H' by lia. unfold ack_distance in H'.
    destruct (asserted_ (acknowledge (system_steps s es))), (pc (acknowledge (system_steps s es))),
      (ack_file (system_steps s es)); done.
Qed.

Lemma inputs_arrive_witness :
  let s := system_steps (newSystem (mkTimespec 0 0) false false)
    [TouchEstop; TouchAck; EstopWatcher; AckWatcher true; EstopWatcher; AckWatcher true;
     EstopWatcher; AckWatcher true] in
  let c := with_flags (asserted (estop s)) (asserted_ (acknowledge s))
    (demo_cycle 1000000 0 false false) in
  Edge.torque_permitted (cycle (runtime s) c).1 = 0 ∧ acknowledge_taken c = true.
Proof.
  destruct (inputs_arrive (mkTimespec 0 0) false false [TouchEstop; TouchAck]
    [EstopWatcher; AckWatcher true; EstopWatcher; AckWatcher true; EstopWatcher; AckWatcher true]
    (demo_cycle 1000000 0 false false)) as [He Ha].
  split; [apply He|apply Ha]; try reflexivity; try (repeat constructor).
Defined.

(** ** When the file cannot be removed *)

(** One round: the watcher sees the file, fails to remove it, sets the flag; a
    cycle runs. *)
Definition stuck_round (c : Cycle) : list Event :=
  [AckWatcher false; AckWatcher false; AckWatcher false; LoopCycle c].

(** A watcher whose [unlink] fails, as on a file of another user in a sticky
    directory, does not deliver once per appearance: one creation of the file
    is delivered as often as the watcher gets round, so every latch is released
    as soon as its cause is gone. *)
Theorem stuck_file_acknowledges_forever clock cs :
  let es := TouchAck :: concat (map stuck_round cs) in
  touches es = 1%nat ∧
  deliveries (loop_cycles (newSystem clock false false) es) = length cs.
Proof.
  cbv zeta. split.
  - cbn [touches is_touch bool_nat]. induction cs as [|c cs IH]; [done|]. exact IH.
  - rewrite loop_cycles_cons, deliveries_app. cbn [loop_cycles deliveries Nat.add].
    set (s := system_step _ _).
    assert (H : acknowledge s = newWatcher kLatchOnce ∧ ack_file s = true) by done.
    clearbody s. revert s H. induction cs as [|c cs IH]; intros s [Hw Hf]; [done|].
    cbn [map concat].
    assert (E : ∀ l, loop_cycles s (stuck_round c ++ l) =
      with_flags (asserted (estop s)) true c :: loop_cycles (system_steps s (stuck_round c)) l).
    { intros l. cbn [stuck_round app loop_cycles system_step system_steps foldl].
      rewrite Hw, Hf. done. }
    rewrite (E (concat (map stuck_round cs))). cbn [deliveries with_flags acknowledge_taken bool_nat].
    rewrite IH; [done|]. cbn [stuck_round system_steps foldl system_step]. rewrite Hw, Hf.
    cbn. by destruct (cycle _ _).
Qed.

(** ** A stop file that is there from the start *)

Lemma loop_cycle_frame s c :
  estop (system_step s (LoopCycle c)) = estop s ∧ estop_file (system_step s (LoopCycle c)) = estop_file s.
Proof. cbn [system_step takeOnce]. by destruct (cycle _ _). Qed.

(** The process starts without having looked at the stop file: at every accepted
    frequency from 20 Hz on, two cycles that run before the watcher's first
    look permit torque although the file exists all the time, and whatever the
    acknowledge watcher does meanwhile. *)
Theorem starts_despite_stop_file hz p clock ack_there c0 c1 :
  period_for hz = Some p → 20 ≤ hz → indexed p 0 [c0; c1] →
  let s := newSystem clock true ack_there in
  let es := [LoopCycle c0; LoopCycle c1] in
  estop_file (system_steps s es) = true ∧
  Edge.torque_permitted <$> last (run_cycles (newRuntime clock) (loop_cycles s es)).1 = Some 1.
Proof.
  intros (_ & Hp & Hhz)%period_for_spec H20 (Hi0 & Hp0 & Hi1 & Hp1 & _). cbv zeta. split.
  { change (system_steps ?s [LoopCycle c0; LoopCycle c1]) with
      (system_step (system_step s (LoopCycle c0)) (LoopCycle c1)).
    by rewrite !(proj2 (loop_cycle_frame _ _)). }
  set (cs := loop_cycles _ _).
  assert (Hcs : ∃ d0 d1, cs = [d0; d1] ∧ indexed p 0 cs ∧ phase_after cs = Running).
  { unfold cs. cbn [loop_cycles]. eexists _, _. split; [done|]. split; [by repeat split|].
    unfold phase_after, phase_step. cbn [foldl with_flags estop_asserted].
    rewrite (proj1 (loop_cycle_frame _ _)). done. }
  destruct Hcs as (d0 & d1 & E & Hidx & Hph). clearbody cs. subst cs.
  destruct (run_cycles_simulates p 0 Starting (newRuntime clock) [d0; d1]) as [Hlen H];
    [apply simulates_new|done|split; [lia|by apply Hhz]|cbn [length]; lia|].
  destruct (run_cycles (newRuntime clock) [d0; d1]) as [ss rt]. cbn [fst] in *.
  destruct ss as [|x [|y [|]]]; [done..| |done]. cbn [last fmap option_fmap option_map].
  destruct (H 1%nat y eq_refl) as (_ & _ & Ht & _). cbn [take] in Ht.
  change (foldl phase_step Starting [d0; d1]) with (phase_after [d0; d1]) in Ht.
  by rewrite Ht, Hph.
Qed.

Lemma starts_despite_stop_file_witness :
  Edge.torque_permitted <$> last (run_cycles (newRuntime (mkTimespec 0 0))
    (loop_cycles (newSystem (mkTimespec 0 0) true false)
      [LoopCycle (demo_cycle 1000000 0 false false);
       LoopCycle (demo_cycle 1000000 1 false false)])).1 = Some 1.
Proof.
  apply (starts_despite_stop_file 1000 1000000 (mkTimespec 0 0) false); [reflexivity|lia|repeat split].
Defined.
