(* ===== verification/OpcuaServer.v ===== *)
(** * The OPC UA view

    [src/src/opcua/address_space.cpp], [src/src/opcua/events.cpp] and the
    publishing thread of [src/src/apps/safeedge_opcua.cpp]: the nodes, the
    values written from a snapshot, the transition events and their accounting.
    The protocol stack (open62541) is a library the sources only call: a
    function of the calls made so far decides the status each call returns, and
    the calls made are what the model records. The daemon exits before any of
    these operations when it has no server, so the [nullptr] checks they start
    with are not modelled. *)

From Stdlib Require Import SpecFloat Ascii String.
From stdpp Require Import base numbers list option strings pretty.
From S2P Require Import Prelude Float64 Snapshot.

(** ** Nodes *)

Inductive NodeNumber :=
  | kRuntimeObject
  | kSafetyState
  | kTorquePermitted
  | kFaultLatched
  | kFaultReason
  | kEstopAsserted
  | kSafetySequence
  | kSafetyStateAgeSeconds
  | kSafetyTransitionMonotonicNs
  | kCyclesExecuted
  | kOverruns
  | kJitterP99Ns
  | kJitterMaxNs
  | kRealtimeSchedulingGranted
  | kUptimeSeconds
  | kSafetyTransitionEventType
  | kEventTransitionMonotonicNs
  | kEventSafetySequence
  | kEventTorquePermitted
  | kEventSafetyState
  | kEventMissedTransitions.

Definition node_value (n : NodeNumber) : Z :=
  match n with
  | kRuntimeObject => 1000
  | kSafetyState => 1001
  | kTorquePermitted => 1002
  | kFaultLatched => 1003
  | kFaultReason => 1004
  | kEstopAsserted => 1005
  | kSafetySequence => 1006
  | kSafetyStateAgeSeconds => 1007
  | kSafetyTransitionMonotonicNs => 1008
  | kCyclesExecuted => 1010
  | kOverruns => 1011
  | kJitterP99Ns => 1012
  | kJitterMaxNs => 1013
  | kRealtimeSchedulingGranted => 1014
  | kUptimeSeconds => 1015
  | kSafetyTransitionEventType => 1100
  | kEventTransitionMonotonicNs => 1101
  | kEventSafetySequence => 1102
  | kEventTorquePermitted => 1103
  | kEventSafetyState => 1104
  | kEventMissedTransitions => 1105
  end.

#[export] Instance node_number_eq_dec : EqDecision NodeNumber.
Proof. solve_decision. Defined.

(** The scalar types the server uses. *)
Inductive DataType := BOOLEAN | UINT16 | UINT32 | UINT64 | INT64 | DOUBLE | LOCALIZEDTEXT.

#[export] Instance data_type_eq_dec : EqDecision DataType.
Proof. solve_decision. Defined.

(** A scalar with its type. *)
Inductive Scalar :=
  | Boolean (b : bool)
  | UInt16 (n : Z)
  | UInt32 (n : Z)
  | UInt64 (n : Z)
  | Int64 (n : Z)
  | Double (d : double)
  | Text (s : string).

Definition type_of (v : Scalar) : DataType :=
  match v with
  | Boolean _ => BOOLEAN
  | UInt16 _ => UINT16
  | UInt32 _ => UINT32
  | UInt64 _ => UINT64
  | Int64 _ => INT64
  | Double _ => DOUBLE
  | Text _ => LOCALIZEDTEXT
  end.

Record VariableSpec := mkSpec { number : NodeNumber; name : string; type : DataType }.

Definition specs : list VariableSpec :=
  [mkSpec kSafetyState "SafetyState" UINT32;
   mkSpec kTorquePermitted "TorquePermitted" BOOLEAN;
   mkSpec kFaultLatched "FaultLatched" BOOLEAN;
   mkSpec kFaultReason "FaultReason" UINT32;
   mkSpec kEstopAsserted "EmergencyStopAsserted" BOOLEAN;
   mkSpec kSafetySequence "SafetySequence" UINT64;
   mkSpec kSafetyStateAgeSeconds "SafetyStateAgeSeconds" DOUBLE;
   mkSpec kSafetyTransitionMonotonicNs "SafetyTransitionMonotonicNanoseconds" INT64;
   mkSpec kCyclesExecuted "CyclesExecuted" UINT64;
   mkSpec kOverruns "Overruns" UINT64;
   mkSpec kJitterP99Ns "WakeupJitterP99Nanoseconds" INT64;
   mkSpec kJitterMaxNs "WakeupJitterMaxNanoseconds" INT64;
   mkSpec kRealtimeSchedulingGranted "RealtimeSchedulingGranted" BOOLEAN;
   mkSpec kUptimeSeconds "UptimeSeconds" DOUBLE].

Definition event_fields : list VariableSpec :=
  [mkSpec kEventTransitionMonotonicNs "TransitionMonotonicNanoseconds" INT64;
   mkSpec kEventSafetySequence "SafetySequence" UINT64;
   mkSpec kEventMissedTransitions "MissedTransitions" UINT64;
   mkSpec kEventSafetyState "SafetyState" UINT32;
   mkSpec kEventTorquePermitted "TorquePermitted" BOOLEAN].

Definition kRuntimeObjectName : string := "SafeEdgeRuntime".
Definition kSafetyEventTypeName : string := "SafetyTransitionEventType".
Definition kNamespaceUri : string := "urn:safeedge:runtime".

(** ** Calls into the protocol stack *)

(** Node identifiers are a namespace index and a number. *)
Inductive Call :=
  | AddNamespace (uri : string)
  | AddObjectNode (ns : Z) (n : NodeNumber) (browse_name : string)
  | AddVariableNode (ns : Z) (n parent : NodeNumber) (browse_name : string) (t : DataType)
      (writable : bool)
  | AddObjectTypeNode (ns : Z) (n : NodeNumber) (browse_name : string)
  | AddProperty (ns : Z) (n parent : NodeNumber) (browse_name : string) (t : DataType)
  | AddMandatoryRule (ns : Z) (n : NodeNumber)
  | WriteDataValue (ns : Z) (n : NodeNumber) (v : Scalar) (good : bool)
  | CreateEvent (ns : Z) (n : NodeNumber)
  | WriteObjectProperty (ns : Z) (browse_name : string) (v : Scalar)
  | TriggerEvent (delete_node : bool).

(** The calls made so far, newest first, and the namespace index assigned. *)
Record Server := mkServer { calls : list Call; g_namespace_index : Z }.

Definition newServer : Server := mkServer [] 0.

Definition namespaceIndex (s : Server) : Z := g_namespace_index s.

Section Stack.
(** What the stack answers to a call after the calls made before it: the status
    (whether it is GOOD) and, for [AddNamespace], the index. *)
Context (good : list Call → Call → bool) (assign : list Call → Z).

Definition invoke (c : Call) (s : Server) : bool * Server :=
  (good (calls s) c, mkServer (c :: calls s) (g_namespace_index s)).

(** ** The address space *)

Definition addVariable (spec : VariableSpec) (s : Server) : bool * Server :=
  invoke (AddVariableNode (g_namespace_index s) (number spec) kRuntimeObject (name spec)
            (type spec) false) s.

Fixpoint add_variables (l : list VariableSpec) (s : Server) : bool * Server :=
  match l with
  | [] => (true, s)
  | spec :: l =>
      let (ok, s) := addVariable spec s in
      if negb ok then (false, s) else add_variables l s
  end.

Definition buildAddressSpace (s : Server) : bool * Server :=
  let s := mkServer (AddNamespace kNamespaceUri :: calls s) (assign (calls s)) in
  if g_namespace_index s =? 0 then (false, s)
  else
    let (ok, s) :=
      invoke (AddObjectNode (g_namespace_index s) kRuntimeObject kRuntimeObjectName) s in
    if negb ok then (false, s) else add_variables specs s.

(** [writeValue]; the status of the write is discarded. *)
Definition writeValue (n : NodeNumber) (v : Scalar) (fresh : bool) (s : Server) : Server :=
  (invoke (WriteDataValue (g_namespace_index s) n v fresh) s).2.

Definition to_seconds (ns : Z) : double := ddiv (double_of_Z ns) (double_of_Z 1000000000).

Definition publishSnapshot (x : Edge.RuntimeSnapshot) (fresh : bool) (s : Server) : Server :=
  let s := writeValue kSafetyState (UInt32 (Edge.safety_state x)) fresh s in
  let s := writeValue kTorquePermitted (Boolean (negb (Edge.torque_permitted x =? 0))) fresh s in
  let s := writeValue kFaultLatched (Boolean (negb (Edge.fault_latched x =? 0))) fresh s in
  let s := writeValue kFaultReason (UInt32 (Edge.fault_reason x)) fresh s in
  let s := writeValue kEstopAsserted (Boolean (negb (Edge.estop_asserted x =? 0))) fresh s in
  let s := writeValue kSafetySequence (UInt64 (Edge.safety_sequence x)) fresh s in
  let s := writeValue kSafetyStateAgeSeconds
             (Double (to_seconds (Edge.safety_state_age_ns x))) fresh s in
  let s := writeValue kSafetyTransitionMonotonicNs
             (Int64 (i64 (Edge.safety_transition_monotonic_ns x))) fresh s in
  let s := writeValue kCyclesExecuted (UInt64 (Edge.cycles_executed x)) fresh s in
  let s := writeValue kOverruns (UInt64 (Edge.overruns x)) fresh s in
  let s := writeValue kJitterP99Ns (Int64 (Edge.jitter_p99_ns x)) fresh s in
  let s := writeValue kJitterMaxNs (Int64 (Edge.jitter_max_ns x)) fresh s in
  let s := writeValue kRealtimeSchedulingGranted
             (Boolean (negb (Edge.realtime_scheduling_granted x =? 0))) fresh s in
  writeValue kUptimeSeconds (Double (to_seconds (Edge.uptime_ns x))) fresh s.

(** ** The event type *)

Definition addField (spec : VariableSpec) (s : Server) : bool * Server :=
  let (ok, s) :=
    invoke (AddProperty (g_namespace_index s) (number spec) kSafetyTransitionEventType
              (name spec) (type spec)) s in
  if negb ok then (false, s)
  else invoke (AddMandatoryRule (g_namespace_index s) (number spec)) s.

Fixpoint add_fields (l : list VariableSpec) (s : Server) : bool * Server :=
  match l with
  | [] => (true, s)
  | spec :: l =>
      let (ok, s) := addField spec s in
      if negb ok then (false, s) else add_fields l s
  end.

Definition buildEventType (s : Server) : bool * Server :=
  if g_namespace_index s =? 0 then (false, s)
  else
    let (ok, s) :=
      invoke (AddObjectTypeNode (g_namespace_index s) kSafetyTransitionEventType
                kSafetyEventTypeName) s in
    if negb ok then (false, s) else add_fields event_fields s.

(** ** Events *)

Record SafetyTransitionEvent := mkEvent {
  transition_monotonic_ns : Z;
  safety_sequence : Z;
  missed_transitions : Z;
  safety_state : Z;
  torque_permitted : bool
}.

Definition describeTransition (x : Edge.RuntimeSnapshot) (previous_sequence : Z)
  : SafetyTransitionEvent :=
  let advanced := u64 (Edge.safety_sequence x - previous_sequence) in
  mkEvent (i64 (Edge.safety_transition_monotonic_ns x)) (Edge.safety_sequence x)
    (if 1 <? advanced then u64 (advanced - 1) else 0) (Edge.safety_state x)
    (negb (Edge.torque_permitted x =? 0)).

Definition severity (e : SafetyTransitionEvent) : Z := if torque_permitted e then 100 else 500.

Definition event_message (e : SafetyTransitionEvent) : string :=
  ("safety transition: torque " +:+
   (if torque_permitted e then "permitted" else "not permitted") +:+ ", sequence " +:+
   pretty (safety_sequence e) +:+
   (if (0 <? missed_transitions e)%Z
    then ", " +:+ pretty (missed_transitions e) +:+ " transition(s) coalesced"
    else EmptyString))%string.

(** The event's own fields, as [fireSafetyTransition] writes them. *)
Definition field_writes (e : SafetyTransitionEvent) : list (string * Scalar) :=
  [("TransitionMonotonicNanoseconds", Int64 (transition_monotonic_ns e));
   ("SafetySequence", UInt64 (safety_sequence e));
   ("MissedTransitions", UInt64 (missed_transitions e));
   ("SafetyState", UInt32 (safety_state e));
   ("TorquePermitted", Boolean (torque_permitted e))]%string.

(** The chain of [writeField] calls joined by [&&]: it stops at the first that
    fails. *)
Fixpoint write_chain (ns : Z) (l : list (string * Scalar)) (s : Server) : bool * Server :=
  match l with
  | [] => (true, s)
  | (name, v) :: l =>
      let (ok, s) := invoke (WriteObjectProperty ns name v) s in
      if ok then write_chain ns l s else (false, s)
  end.

Definition fireSafetyTransition (e : SafetyTransitionEvent) (s : Server) : bool * Server :=
  if g_namespace_index s =? 0 then (false, s)
  else
    let (created, s) := invoke (CreateEvent (g_namespace_index s) kSafetyTransitionEventType) s in
    if negb created then (false, s)
    else
      let (ok, s) := write_chain (g_namespace_index s) (field_writes e) s in
      let (wrote, s) := invoke (WriteObjectProperty 0 "Severity" (UInt16 (severity e))) s in
      let ok := wrote && ok in
      let (wrote, s) := invoke (WriteObjectProperty 0 "Message" (Text (event_message e))) s in
      let ok := wrote && ok in
      let (triggered, s) := invoke (TriggerEvent true) s in
      (ok && triggered, s).

(** ** The publishing thread *)

Record Publisher := mkPublisher {
  have_sequence : bool;
  last_sequence : Z;
  server : Server;
  described : list SafetyTransitionEvent
}.

Definition newPublisher (s : Server) : Publisher := mkPublisher false 0 s [].

(** One round of the loop on what [tryLoad] gave; a failed load leaves the
    default-constructed snapshot. [described] collects the events handed to
    [fireSafetyTransition], oldest first. *)
Definition publish_round (p : Publisher) (loaded : option Edge.RuntimeSnapshot) : Publisher :=
  let fresh := bool_decide (is_Some loaded) in
  let x := default Edge.newSnapshot loaded in
  let s := publishSnapshot x fresh (server p) in
  if fresh then
    if negb (have_sequence p) then mkPublisher true (Edge.safety_sequence x) s (described p)
    else if negb (Edge.safety_sequence x =? last_sequence p) then
      let e := describeTransition x (last_sequence p) in
      mkPublisher true (Edge.safety_sequence x) (fireSafetyTransition e s).2 (described p ++ [e])
    else mkPublisher (have_sequence p) (last_sequence p) s (described p)
  else mkPublisher (have_sequence p) (last_sequence p) s (described p).

Definition publish_rounds (p : Publisher) (loads : list (option Edge.RuntimeSnapshot))
  : Publisher := foldl publish_round p loads.

(** ** What is built and written *)

Lemma invoke_calls c s : calls (invoke c s).2 = c :: calls s.
Proof. done. Qed.

(** The calls of a loop over variables or fields: all of them on success, a
    proper prefix otherwise. *)
Definition variable_call (ns : Z) (spec : VariableSpec) : Call :=
  AddVariableNode ns (number spec) kRuntimeObject (name spec) (type spec) false.

Lemma add_variables_calls l s :
  let r := add_variables l s in
  g_namespace_index r.2 = g_namespace_index s ∧
  ∃ k, calls r.2 = reverse (map (variable_call (g_namespace_index s)) (take k l)) ++ calls s ∧
    (r.1 = true → take k l = l).
Proof.
  revert s. induction l as [|spec l IH]; intros s; cbn [add_variables].
  { split; [done|]. by exists 0%nat. }
  unfold addVariable, invoke. destruct (good _ _); cbn [negb].
  - destruct (IH (mkServer (variable_call (g_namespace_index s) spec :: calls s)
      (g_namespace_index s))) as (Hns & k & Hc & Hl).
    split; [done|]. exists (S k). split.
    + etrans; [exact Hc|]. cbn [take map]. by rewrite reverse_cons, <- app_assoc.
    + intros Hok. cbn. f_equal. exact (Hl Hok).
  - split; [done|]. exists 1%nat. by split.
Qed.

(** A built address space is complete. When [buildAddressSpace] returns true
    the calls made are exactly the namespace, the runtime object and one
    variable per specification, all in the assigned non-zero namespace, all
    read-only and under the object; the numbers are pairwise different. *)
Theorem address_space_complete :
  let r := buildAddressSpace newServer in
  r.1 = true →
  g_namespace_index r.2 ≠ 0 ∧
  reverse (calls r.2) =
    AddNamespace kNamespaceUri ::
    AddObjectNode (g_namespace_index r.2) kRuntimeObject kRuntimeObjectName ::
    map (λ spec, AddVariableNode (g_namespace_index r.2) (number spec) kRuntimeObject
           (name spec) (type spec) false) specs ∧
  NoDup (map node_value (kRuntimeObject :: map number (specs ++ event_fields))).
Proof.
  cbv zeta. unfold buildAddressSpace. cbn [calls newServer g_namespace_index].
  destruct (Z.eqb_spec (assign []) 0) as [|Hns]; [done|].
  unfold invoke. destruct (good _ _); cbn [negb]; [|done].
  set (s := mkServer _ _). destruct (add_variables_calls specs s) as (Hi & k & Hc & Hl).
  intros Hok. rewrite Hi, Hc, (Hl Hok), reverse_app, reverse_involutive.
  split; [done|]. split; [done|]. by_compute.
Qed.

(** The writes of one publication. *)
Definition values_of (x : Edge.RuntimeSnapshot) : list Scalar :=
  [UInt32 (Edge.safety_state x); Boolean (negb (Edge.torque_permitted x =? 0));
   Boolean (negb (Edge.fault_latched x =? 0)); UInt32 (Edge.fault_reason x);
   Boolean (negb (Edge.estop_asserted x =? 0)); UInt64 (Edge.safety_sequence x);
   Double (to_seconds (Edge.safety_state_age_ns x));
   Int64 (i64 (Edge.safety_transition_monotonic_ns x)); UInt64 (Edge.cycles_executed x);
   UInt64 (Edge.overruns x); Int64 (Edge.jitter_p99_ns x); Int64 (Edge.jitter_max_ns x);
   Boolean (negb (Edge.realtime_scheduling_granted x =? 0));
   Double (to_seconds (Edge.uptime_ns x))].

(** A value that claims nothing: false, zero. *)
Definition claims_nothing (v : Scalar) : Prop :=
  match v with
  | Boolean b => b = false
  | UInt16 n | UInt32 n | UInt64 n | Int64 n => n = 0
  | Double d => d = dzero
  | Text s => s = EmptyString
  end.

Lemma publishSnapshot_calls x fresh s :
  publishSnapshot x fresh s =
  mkServer (reverse (zip_with (λ spec v, WriteDataValue (g_namespace_index s) (number spec) v fresh)
                       specs (values_of x)) ++ calls s) (g_namespace_index s).
Proof. done. Qed.

(** The calls of the chain of field writes. *)
Lemma write_chain_calls ns l s :
  let r := write_chain ns l s in
  g_namespace_index r.2 = g_namespace_index s ∧
  ∃ k, calls r.2 =
         reverse (map (λ '(name, v), WriteObjectProperty ns name v) (take k l)) ++ calls s ∧
    (r.1 = true → take k l = l).
Proof.
  revert s. induction l as [|[n v] l IH]; intros s; cbn [write_chain].
  { split; [done|]. by exists 0%nat. }
  unfold invoke. destruct (good _ _).
  - destruct (IH (mkServer (WriteObjectProperty ns n v :: calls s) (g_namespace_index s)))
      as (Hns & k & Hc & Hl).
    split; [done|]. exists (S k). split.
    + etrans; [exact Hc|]. cbn [take map]. by rewrite reverse_cons, <- app_assoc.
    + intros Hok. cbn [take]. f_equal. exact (Hl Hok).
  - split; [done|]. exists 1%nat. by split.
Qed.

(** The calls of a fired event, oldest first. *)
Definition event_calls (ns : Z) (e : SafetyTransitionEvent) : list Call :=
  CreateEvent ns kSafetyTransitionEventType ::
  map (λ '(name, v), WriteObjectProperty ns name v) (field_writes e) ++
  [WriteObjectProperty 0 "Severity" (UInt16 (severity e));
   WriteObjectProperty 0 "Message" (Text (event_message e)); TriggerEvent true].

Lemma fire_calls e s :
  let r := fireSafetyTransition e s in
  (∃ l, calls r.2 = l ++ calls s) ∧
  (r.1 = true → calls r.2 = reverse (event_calls (g_namespace_index s) e) ++ calls s).
Proof.
  cbv zeta. unfold fireSafetyTransition. destruct (_ =? 0); [split; [by exists []|done]|].
  unfold invoke.
  destruct (good (calls s) _); cbn [negb]; [|split; [by eexists [_]|done]].
  set (s1 := mkServer _ _).
  destruct (write_chain_calls (g_namespace_index s1) (field_writes e) s1) as (Hns & k & Hc & Hl).
  cbn [g_namespace_index] in *.
  destruct (write_chain _ _ s1) as [ok s2]. cbn [fst snd] in *.
  cbn [calls g_namespace_index fst snd]. rewrite Hc. split.
  - eexists (_ :: _ :: _ :: _ ++ [_]). cbn [app]. rewrite <- app_assoc. done.
  - intros [[_ [_ Hok]%andb_true_iff]%andb_true_iff _]%andb_true_iff.
    rewrite (Hl Hok). unfold event_calls. rewrite reverse_cons, reverse_app, <- !app_assoc. done.
Qed.

(** C37: A publication writes every variable of the address space once, in its
    order and with a value of its declared type; the write is marked good
    exactly when the snapshot was loaded, and without a snapshot every value
    written claims nothing (no torque, zero counters). *)
Theorem publication_typed_and_honest p loaded :
  let s := server p in
  let x := default Edge.newSnapshot loaded in
  let fresh := bool_decide (is_Some loaded) in
  let writes := zip_with (λ spec v, WriteDataValue (g_namespace_index s) (number spec) v fresh)
    specs (values_of x) in
  (∃ events, calls (server (publish_round p loaded)) = events ++ reverse writes ++ calls s ∧
     (loaded = None → events = [])) ∧
  map type_of (values_of x) = map type specs ∧
  (loaded = None → Forall claims_nothing (values_of x)).
Proof.
  cbv zeta. split; [|split; [done|intros ->; repeat constructor]].
  unfold publish_round. rewrite publishSnapshot_calls. set (w := reverse _ ++ calls _).
  destruct loaded as [x|]; [rewrite bool_decide_true by done|by exists []].
  destruct (negb (have_sequence p)); [by exists []|].
  destruct (negb _); [|by exists []]. cbn [server].
  destruct (fire_calls (describeTransition (default Edge.newSnapshot (Some x)) (last_sequence p))
    (mkServer w (g_namespace_index (server p)))) as [[l Hl] _].
  exists l. split; [exact Hl|done].
Qed.
End Stack.

Lemma address_space_complete_witness :
  let r := buildAddressSpace (λ _ _, true) (λ _, 2) newServer in
  r.1 = true ∧ g_namespace_index r.2 ≠ 0.
Proof.
  cbv zeta. split; [reflexivity|].
  apply (address_space_complete (λ _ _, true) (λ _, 2)). reflexivity.
Defined.
