(* ===== verification/OpcuaEvents.v ===== *)
(** * Events account for every transition

    The publishing thread of [src/src/apps/safeedge_opcua.cpp] against the
    control loop of [src/src/apps/safeedged.cpp]: the thread reads whichever
    snapshots it gets, and what its events report, transitions and missed
    transitions together, is what happened between its first and its last
    read. *)

From Stdlib Require Import SpecFloat Ascii String.
From stdpp Require Import base numbers list option strings pretty.
From S2P Require Import Prelude Float64 CyclicExecutor Snapshot Runtime RuntimeSafety OpcuaServer.

(** Everything ever stored in the slot: the empty snapshot the process starts
    with, then one per cycle. *)
Definition stored (clock : timespec) (cs : list Cycle) : list Edge.RuntimeSnapshot :=
  Edge.newSnapshot :: (run_cycles (newRuntime clock) cs).1.

(** The transitions between two stored snapshots. *)
Definition segment (l : list Edge.RuntimeSnapshot) (i j : nat) : list Edge.RuntimeSnapshot :=
  take (j - i) (drop (S i) l).

Lemma segment_split l i j k :
  (i ≤ j)%nat → (j ≤ k)%nat → segment l i k = segment l i j ++ segment l j k.
Proof.
  intros Hij Hjk. unfold segment.
  replace (drop (S j) l) with (drop (j - i) (drop (S i) l)) by (rewrite drop_drop; f_equal; lia).
  rewrite take_take_drop. f_equal. lia.
Qed.

Lemma transitions_app s l1 l2 t :
  last (s :: l1) = Some t →
  transitions s (l1 ++ l2) = (transitions s l1 + transitions t l2)%nat.
Proof.
  revert s. induction l1 as [|u l1 IH]; intros s Ht; [cbn in *; by simplify_eq|].
  rewrite last_cons_cons in Ht. cbn [app transitions]. rewrite (IH u Ht). lia.
Qed.

Lemma stored_counts clock cs i j s t :
  stored clock cs !! i = Some s → stored clock cs !! j = Some t → (i ≤ j)%nat →
  is_u64 (Edge.safety_sequence s) ∧
  Edge.safety_sequence t =
    u64 (Edge.safety_sequence s + Z.of_nat (transitions s (segment (stored clock cs) i j))).
Proof.
  intros Hs Ht Hij.
  set (x := Edge.mkSnapshot 0 0 0 0 0 0 0 0 0 0 0 0 0 0 0 (monotonicNanos clock) 0 0 0 0 0 0 0).
  assert (Hx : linked_from x (run_cycles (newRuntime clock) cs).1).
  { apply run_cycles_linked. by split. }
  pose proof (last_segment _ i j s t Hs Ht Hij) as Hlast. fold (segment (stored clock cs) i j) in Hlast.
  destruct i as [|i].
  - injection Hs as <-. split; [by_compute|].
    assert (E : ∀ l, transitions Edge.newSnapshot l = transitions x l) by by intros [].
    rewrite E. destruct (segment (stored clock cs) 0 j) as [|u l] eqn:El.
    { cbn in Hlast. simplify_eq. done. }
    apply (linked_counts x (u :: l) t); [|done|by_compute].
    rewrite <- El. unfold segment. cbn [stored drop]. by apply linked_from_take.
  - destruct (linked_from_lookup x _ i s Hx ltac:(by_compute) Hs) as [Hl Hu].
    split; [done|]. apply (linked_counts s _ t); [|done|done].
    unfold segment. cbn [stored drop]. by apply linked_from_take.
Qed.

(** ** The accounting *)

(** The transitions a list of events reports: one each, plus the missed ones. *)
Definition accounted (es : list SafetyTransitionEvent) : Z :=
  foldr (λ e n, 1 + missed_transitions e + n) 0 es.

Lemma accounted_app es es' : accounted (es ++ es') = accounted es + accounted es'.
Proof.
  unfold accounted. induction es as [|e es IH]; [done|]. cbn [foldr app]. rewrite IH. lia.
Qed.

(** One round that reads a snapshot [k] transitions further on. *)
Lemma round_accounts good p s t k :
  have_sequence p = true → last_sequence p = Edge.safety_sequence s →
  is_u64 (Edge.safety_sequence s) →
  Edge.safety_sequence t = u64 (Edge.safety_sequence s + k) → 0 ≤ k < 2 ^ 64 →
  let p' := publish_round good p (Some t) in
  have_sequence p' = true ∧ last_sequence p' = Edge.safety_sequence t ∧
  accounted (described p') = accounted (described p) + k.
Proof.
  intros Hh Hl Hu Hseq Hk; cbv zeta. unfold publish_round.
  change (default Edge.newSnapshot (Some t)) with t.
  rewrite bool_decide_true by done. rewrite Hh, Hl. cbn [negb].
  assert (Hadv : u64 (Edge.safety_sequence t - Edge.safety_sequence s) = k).
  { rewrite Hseq. unfold unsigned_wrap. rewrite Zminus_mod_idemp_l.
    rewrite Z.add_simpl_l. by apply Z.mod_small. }
  destruct (Z.eqb_spec (Edge.safety_sequence t) (Edge.safety_sequence s)) as [E|E]; cbn [negb].
  - rewrite E, Z.sub_diag in Hadv. cbn [have_sequence last_sequence described].
    split; [exact Hh || reflexivity|]. split; [congruence|].
    assert (k = 0) by (rewrite <- Hadv; reflexivity). lia.
  - split; [done|]. split; [done|]. cbn [described]. rewrite accounted_app. f_equal.
    cbn [accounted foldr describeTransition missed_transitions]. rewrite Hadv.
    destruct (Z.ltb_spec 1 k).
    + rewrite unsigned_wrap_id by (unfold in_unsigned; lia). lia.
    + destruct (Z.eq_dec k 0) as [->|]; [|lia]. exfalso. apply E. rewrite Hseq, Z.add_0_r.
      by apply unsigned_wrap_id.
Qed.

(** What the thread reads, in order: indices of stored snapshots that never go
    back (a seqlock reader sees the writer's stores in their order), [None]
    for a failed load. *)
Fixpoint in_order (n lo : nat) (reads : list (option nat)) : Prop :=
  match reads with
  | [] => True
  | None :: reads => in_order n lo reads
  | Some i :: reads => (lo ≤ i < n)%nat ∧ in_order n i reads
  end.

Fixpoint last_read (lo : nat) (reads : list (option nat)) : nat :=
  match reads with
  | [] => lo
  | None :: reads => last_read lo reads
  | Some i :: reads => last_read i reads
  end.

Definition load (l : list Edge.RuntimeSnapshot) (r : option nat) : option Edge.RuntimeSnapshot :=
  r ≫= λ i, l !! i.

Lemma last_read_ge n lo reads : in_order n lo reads → (lo ≤ last_read lo reads)%nat.
Proof.
  revert lo. induction reads as [|[i|] reads IH]; intros lo; cbn; [lia| |apply IH].
  intros [Hi Hr]. specialize (IH i Hr). lia.
Qed.

Lemma transitions_segment s l i j : (transitions s (segment l i j) ≤ length l)%nat.
Proof.
  pose proof (transitions_length s (segment l i j)) as H. unfold segment in *.
  rewrite length_take, length_drop in H. lia.
Qed.

Lemma rounds_account good clock cs p i s reads :
  let l := stored clock cs in
  Z.of_nat (length l) < 2 ^ 64 →
  l !! i = Some s → have_sequence p = true → last_sequence p = Edge.safety_sequence s →
  in_order (length l) i reads →
  accounted (described (publish_rounds good p (map (load l) reads))) =
    accounted (described p) + Z.of_nat (transitions s (segment l i (last_read i reads))).
Proof.
  cbv zeta. intros Hlen. set (l := stored clock cs) in *. revert p i s.
  induction reads as [|[j|] reads IH]; intros p i s Hs Hh Hl Hord; cbn [map last_read].
  - unfold segment. rewrite Nat.sub_diag, take_0. symmetry. apply Z.add_0_r.
  - destruct Hord as [[Hij Hj] Hord]. destruct (lookup_lt_is_Some_2 l j Hj) as [t Ht].
    destruct (stored_counts clock cs i j s t Hs Ht Hij) as [Hu Hseq]. fold l in Hseq.
    pose proof (transitions_segment s l i j) as Hk.
    destruct (round_accounts good p s t _ Hh Hl Hu Hseq ltac:(lia)) as (Hh' & Hl' & Hacc).
    cbn [publish_rounds foldl]. replace (load l (Some j)) with (Some t) by done.
    unfold publish_rounds in IH. rewrite (IH _ j t Ht Hh' Hl' Hord), Hacc.
    rewrite (segment_split l i j (last_read j reads)) by (done || by eapply last_read_ge).
    rewrite (transitions_app s _ _ t) by by apply last_segment. lia.
  - exact (IH (publish_round good p None) i s Hs Hh Hl Hord).
Qed.

(** No transition is lost without a trace. Whatever stored snapshots the
    publishing thread happens to read, however many loads fail, and with a
    counter that may wrap, the transitions its events report plus the ones they
    declare missed are exactly the changes of decision the control loop made
    between the first and the last snapshot read. *)
Theorem events_account_for_transitions good clock cs server failed i s reads :
  let l := stored clock cs in
  Z.of_nat (length l) < 2 ^ 64 → l !! i = Some s → in_order (length l) i reads →
  accounted (described (publish_rounds good (newPublisher server)
    (map (load l) (replicate failed None ++ Some i :: reads)))) =
    Z.of_nat (transitions s (segment l i (last_read i reads))).
Proof.
  cbv zeta. intros Hlen Hs Hord. set (l := stored clock cs) in *.
  rewrite map_app. unfold publish_rounds. rewrite foldl_app.
  assert (E : ∃ sv, foldl (publish_round good) (newPublisher server)
      (map (load l) (replicate failed None)) = newPublisher sv).
  { revert server. induction failed as [|n IH]; intros server; [by exists server|].
    cbn [replicate map foldl]. apply IH. }
  destruct E as [sv ->]. cbn [map foldl]. replace (load l (Some i)) with (Some s) by done.
  pose proof (rounds_account good clock cs (publish_round good (newPublisher sv) (Some s)) i s
    reads Hlen Hs eq_refl eq_refl Hord) as H.
  unfold publish_rounds in H. fold l in H. rewrite H. done.
Qed.

Lemma events_account_for_transitions_witness :
  let l := stored (mkTimespec 0 0) (demo_cycles 1000000
    [(false, false); (false, false); (true, false); (false, true); (false, false)]) in
  accounted (described (publish_rounds (λ _ _, true) (newPublisher newServer)
    (map (load l) [None; Some 0%nat; None; Some 3%nat; Some 5%nat]))) =
  Z.of_nat (transitions Edge.newSnapshot (segment l 0 5)).
Proof.
  intros l.
  assert (Hlen : length l = 6%nat).
  { unfold l, stored. cbn [length]. apply (f_equal S).
    apply (run_cycles_simulates 1000000 0 Starting);
      [apply simulates_new|repeat split|split; by_compute|by_compute]. }
  apply (events_account_for_transitions (λ _ _, true) (mkTimespec 0 0) _ newServer 1 0
    Edge.newSnapshot [None; Some 3%nat; Some 5%nat]); fold l; rewrite ?Hlen;
    [by_compute|reflexivity|repeat split; lia].
Defined.
