(* ===== verification/OpcuaSecurity.v ===== *)
(** * OPC UA security configuration

    [src/include/safeedge/opcua/security.hpp] and [src/src/opcua/security.cpp]
    with and without a crypto backend: the server's identity, its trust list, the
    refused combinations, the removal of unencrypted endpoints, and the probe's
    verification of the server. The file system and the protocol stack's
    configuration functions are parameters. *)

From Stdlib Require Import Ascii String.
From stdpp Require Import base numbers list option strings pretty sorting.
From S2P Require Import Prelude.

#[local] Open Scope string_scope.
#[local] Open Scope Z_scope.

(** ** Data *)

Inductive CertificateOrigin := kLoadedFromFiles | kGeneratedSelfSigned | kNone.
Inductive ClientAuthentication := kAcceptAnyCertificate | kTrustList.

#[export] Instance origin_eq_dec : EqDecision CertificateOrigin.
Proof. solve_decision. Defined.
#[export] Instance authentication_eq_dec : EqDecision ClientAuthentication.
Proof. solve_decision. Defined.

Record SecurityOptions := mkOptions {
  port : Z;
  certificate_path : string;
  key_path : string;
  trust_list_directory : string;
  allow_unencrypted : bool;
  authentication : ClientAuthentication
}.

Record SecurityPosture := mkPosture {
  origin : CertificateOrigin;
  policy_count : Z;
  allows_unencrypted : bool;
  allows_anonymous : bool;
  posture_authentication : ClientAuthentication;
  trusted_certificate_count : nat;
  detail : string
}.

Definition kApplicationUri : string := "urn:safeedge:opcua".

(** [UA_ByteString]; the null string and the empty one are both [[]]. *)
Abbreviation ByteString := (list Z).

Inductive SecurityMode := ModeInvalid | ModeNone | ModeSign | ModeSignAndEncrypt.

#[export] Instance mode_eq_dec : EqDecision SecurityMode.
Proof. solve_decision. Defined.

Record Endpoint := mkEndpoint { securityMode : SecurityMode; endpoint_uri : string }.

Inductive Verification := Unset | AcceptAll | Trustlist (certificates : list ByteString).

Record ServerConfig := mkServerConfig {
  endpoints : list Endpoint;
  securityPoliciesSize : Z;
  secureChannelPKI : Verification;
  sessionPKI : Verification;
  applicationUri : string
}.

(** ** Files *)

(** What the C library reports for a path: whether it opens, the size [ftell]
    gives, whether the buffer can be allocated, and what [fread] returns. *)
Record FileAccess := mkFile {
  opens : bool;
  ftell : Z;
  allocates : bool;
  fread : ByteString
}.

(** A directory entry: its path, and what [is_regular_file] reports ([None] is an
    error, left in [ec]). *)
Record Entry := mkEntry { entry_path : string; is_regular : option bool }.

Record FileSystem := mkFileSystem {
  file : string → FileAccess;
  (** [None] is an iterator that cannot be opened. *)
  directory : string → option (list Entry)
}.

Definition readFile (fs : FileSystem) (path : string) : ByteString :=
  if bool_decide (path = EmptyString) then []
  else
    let f := file fs path in
    if negb (opens f) then []
    else if ftell f <=? 0 then []
    else if negb (allocates f) then []
    else if negb (Z.of_nat (length (fread f)) =? ftell f) then []
    else fread f.

(** [path::filename]: what follows the last slash. *)
Fixpoint filename_from (current path : string) : string :=
  match path with
  | EmptyString => current
  | String c rest =>
      if bool_decide (c = "/"%char) then filename_from EmptyString rest
      else filename_from (current +:+ String c EmptyString) rest
  end.
Definition filename (path : string) : string := filename_from EmptyString path.

(** The suffix of a name from its last dot on, empty without a dot. *)
Fixpoint from_last_dot (name : string) : string :=
  match name with
  | EmptyString => EmptyString
  | String c rest =>
      match from_last_dot rest with
      | EmptyString => if bool_decide (c = "."%char) then name else EmptyString
      | found => found
      end
  end.

(** [path::extension]: none for the names dot and dot-dot, and a leading dot
    does not start one. *)
Definition extension (path : string) : string :=
  let name := filename path in
  if bool_decide (name = ".") || bool_decide (name = "..") then EmptyString
  else match name with EmptyString => EmptyString | String _ rest => from_last_dot rest end.

Definition is_candidate (e : Entry) : bool :=
  bool_decide (is_regular e = Some true) && bool_decide (extension (entry_path e) = ".der").

(** [ec] after the scan: the error of the last [is_regular_file]. *)
Definition scan_failed (entries : list Entry) : bool :=
  match last entries with Some e => bool_decide (is_regular e = None) | None => false end.

(** The order of [std::sort] on the candidates. *)
Definition path_le (a b : string) : Prop := String.leb a b = true.

#[export] Instance path_le_dec a b : Decision (path_le a b).
Proof. unfold path_le; apply _. Defined.

Definition readTrustList (fs : FileSystem) (dir : string) : list ByteString :=
  if bool_decide (dir = EmptyString) then []
  else
    match directory fs dir with
    | None => []
    | Some entries =>
        if scan_failed entries then []
        else
          let candidates := merge_sort path_le (map entry_path (filter is_candidate entries)) in
          filter (λ bytes, (0 < length bytes)%nat) (map (readFile fs) candidates)
    end.

(** ** Removing the unencrypted endpoints *)

(** [UA_EndpointDescription_clear] leaves the zeroed description. *)
Definition cleared_endpoint : Endpoint := mkEndpoint ModeInvalid EmptyString.

(** The loop body at index [i] of the array, with the counters [kept] and
    [removed]. *)
Fixpoint drop_loop (n i : nat) (a : list Endpoint) (kept removed : nat)
  : list Endpoint * nat * nat :=
  match n with
  | O => (a, kept, removed)
  | S n =>
      match a !! i with
      | None => (a, kept, removed)
      | Some e =>
          if bool_decide (securityMode e = ModeNone)
          then drop_loop n (S i) (<[i := cleared_endpoint]> a) kept (S removed)
          else drop_loop n (S i) (if bool_decide (kept = i) then a else <[kept := e]> a)
                 (S kept) removed
      end
  end.

Definition dropUnencryptedEndpoints (c : ServerConfig) : nat * ServerConfig :=
  let '(a, kept, removed) := drop_loop (length (endpoints c)) 0 (endpoints c) 0 0 in
  (removed, mkServerConfig (take kept a) (securityPoliciesSize c) (secureChannelPKI c)
              (sessionPKI c) (applicationUri c)).

(** ** The server *)

(** The stack's configuration functions. A failing one may leave any
    configuration behind. *)
Record Stack := mkStack {
  setDefaultWithSecurityPolicies :
    ServerConfig → Z → ByteString → ByteString → list ByteString → bool * ServerConfig;
  setMinimal : ServerConfig → Z → bool * ServerConfig;
  (** The private key and certificate for a subject and alternative names. *)
  CreateCertificate : list string → list string → option (ByteString * ByteString)
}.

Definition subject : list string := ["C=DE"; "O=safeedge"; "CN=safeedge-opcua"].
Definition subject_alt_name : list string := ["DNS:localhost"; "URI:" +:+ kApplicationUri].

Section Configure.
Context (fs : FileSystem) (stack : Stack).

Definition refuse (options : SecurityOptions) (trusted : nat) (why : string) : SecurityPosture :=
  mkPosture kNone 0 false true (authentication options) trusted why.

(** The identity the server presents: where it is from, its explanation,
    certificate and key. *)
Definition obtain_identity (options : SecurityOptions)
  : option (CertificateOrigin * string * ByteString * ByteString) :=
  let certificate := readFile fs (certificate_path options) in
  let private_key := readFile fs (key_path options) in
  if (0 <? length certificate)%nat && (0 <? length private_key)%nat
  then Some (kLoadedFromFiles, "certificate loaded from " +:+ certificate_path options,
             certificate, private_key)
  else
    match CreateCertificate stack subject subject_alt_name with
    | None => None
    | Some (private_key, certificate) =>
        Some (kGeneratedSelfSigned,
              "self-signed certificate generated at startup; clients must re-trust it " +:+
              "after every restart", certificate, private_key)
    end.

(** Without an identity: unencrypted if that is allowed, nothing otherwise. *)
Definition without_identity (options : SecurityOptions) (trusted : nat) (c : ServerConfig)
  : SecurityPosture * ServerConfig :=
  let posture := refuse options trusted "could not generate a certificate" in
  if negb (allow_unencrypted options) then (posture, c)
  else
    let (ok, c) := setMinimal stack c (port options) in
    if ok
    then (mkPosture kNone (securityPoliciesSize c) true true (authentication options) trusted
            "could not generate a certificate", c)
    else (posture, c).

(** The server claims the identity of its certificate, on every endpoint. *)
Definition claim_identity (c : ServerConfig) : ServerConfig :=
  mkServerConfig (map (λ e, mkEndpoint (securityMode e) kApplicationUri) (endpoints c))
    (securityPoliciesSize c) (secureChannelPKI c) (sessionPKI c) kApplicationUri.

Definition accept_all (c : ServerConfig) : ServerConfig :=
  mkServerConfig (endpoints c) (securityPoliciesSize c) AcceptAll AcceptAll (applicationUri c).

(** Everything after the policies were applied. *)
Definition finish (options : SecurityOptions) (from : CertificateOrigin) (why : string)
    (trusted : nat) (c : ServerConfig) : SecurityPosture * ServerConfig :=
  let c := claim_identity c in
  let (why, c) :=
    if bool_decide (authentication options = kTrustList)
    then (why +:+ "; " +:+ pretty (Z.of_nat trusted) +:+
            " trusted client certificate(s) loaded from " +:+ trust_list_directory options, c)
    else (why +:+ "; any client certificate accepted", accept_all c) in
  let (why, c) :=
    if negb (allow_unencrypted options)
    then let (removed, c) := dropUnencryptedEndpoints c in
         (why +:+ "; dropped " +:+ pretty (Z.of_nat removed) +:+ " unencrypted endpoint(s)", c)
    else (why, c) in
  (mkPosture from (securityPoliciesSize c) (allow_unencrypted options) true
     (authentication options) trusted why, c).

(** [configureSecurity]; [None] is the null configuration. *)
Definition configureSecurity (config : option ServerConfig) (options : SecurityOptions)
  : SecurityPosture * option ServerConfig :=
  match config with
  | None => (refuse options 0 "no server config", None)
  | Some c =>
      let wants_trust_list := bool_decide (authentication options = kTrustList) in
      if wants_trust_list && allow_unencrypted options then
        (refuse options 0
           ("a trust list cannot be combined with SecurityPolicy#None: the " +:+
            "unencrypted endpoint needs no certificate, so it is a way around the " +:+
            "trust list rather than a fallback beside it"), Some c)
      else
        let trust_list :=
          if wants_trust_list then readTrustList fs (trust_list_directory options) else [] in
        let trusted := length trust_list in
        if wants_trust_list && bool_decide (trust_list = []) then
          (refuse options trusted
             ("client authentication was requested but no certificates " +:+
              "were loaded from '" +:+ trust_list_directory options +:+
              "'; checking against nothing is not a policy"), Some c)
        else
          match obtain_identity options with
          | None =>
              let (posture, c) := without_identity options trusted c in (posture, Some c)
          | Some (from, why, certificate, private_key) =>
              let (configured, c) :=
                setDefaultWithSecurityPolicies stack c (port options) certificate private_key
                  trust_list in
              if negb configured
              then (refuse options trusted "could not apply security policies", Some c)
              else let (posture, c) := finish options from why trusted c in (posture, Some c)
          end
  end.

(** [configureSecurity] in a build without a crypto backend. *)
Definition configureSecurity_without_crypto (config : option ServerConfig)
    (options : SecurityOptions) : SecurityPosture * option ServerConfig :=
  match config with
  | None => (refuse options 0 "no server config", None)
  | Some c =>
      if bool_decide (authentication options = kTrustList) then
        (refuse options 0
           ("client authentication needs a crypto backend, and this " +:+ "build has none"), Some c)
      else if negb (allow_unencrypted options) then
        (refuse options 0 "built without a crypto backend and unencrypted use not permitted", Some c)
      else
        let (ok, c) := setMinimal stack c (port options) in
        if ok
        then (mkPosture kNone (securityPoliciesSize c) true true (authentication options) 0
                "built without a crypto backend", Some c)
        else (refuse options 0 EmptyString, Some c)
  end.

(** ** The probe *)

Record ServerVerificationOptions := mkVerificationOptions {
  server_trust_list_directory : string;
  insecure_accept_any_certificate : bool
}.

Record ServerVerificationPosture := mkVerificationPosture {
  configured : bool;
  verifies_server_certificate : bool;
  server_trusted_count : nat;
  verification_detail : string
}.

Record ClientConfig := mkClientConfig {
  client_mode : SecurityMode;
  certificateVerification : Verification
}.

Definition unverified (trusted : nat) (why : string) : ServerVerificationPosture :=
  mkVerificationPosture false false trusted why.

(** [install] is the outcome of [UA_CertificateVerification_Trustlist]: [None]
    when it succeeds, the name of its status otherwise. *)
Definition configureServerVerification (install : list ByteString → option string)
    (config : option ClientConfig) (options : ServerVerificationOptions)
  : ServerVerificationPosture * option ClientConfig :=
  match config with
  | None => (unverified 0 "no client config", None)
  | Some c =>
      let dir := server_trust_list_directory options in
      if insecure_accept_any_certificate options && negb (bool_decide (dir = EmptyString)) then
        (unverified 0
           "--trust-list and --insecure-accept-any-server-cert are mutually exclusive", Some c)
      else
        let c := mkClientConfig ModeSignAndEncrypt (certificateVerification c) in
        if insecure_accept_any_certificate options then
          (mkVerificationPosture true false 0 "DISABLED (--insecure-accept-any-server-cert)",
           Some (mkClientConfig (client_mode c) AcceptAll))
        else if bool_decide (dir = EmptyString) then
          (unverified 0
             ("server verification requires --trust-list DIR; " +:+
              "use --insecure-accept-any-server-cert only for an intentional insecure demo"),
           Some c)
        else
          let trust_list := readTrustList fs dir in
          let trusted := length trust_list in
          if bool_decide (trust_list = []) then
            (unverified trusted ("no server certificates loaded from '" +:+ dir +:+ "'"), Some c)
          else
            match install trust_list with
            | Some status =>
                (unverified trusted ("could not configure server trust list: " +:+ status), Some c)
            | None =>
                (mkVerificationPosture true true trusted
                   ("ENABLED (" +:+ pretty (Z.of_nat trusted) +:+ " trusted certificate(s) from " +:+
                    dir +:+ ")"),
                 Some (mkClientConfig (client_mode c) (Trustlist trust_list)))
            end
  end.
End Configure.
