(* ===== verification/OpcuaSecuritySafety.v ===== *)
(** * What the security configuration guarantees

    Properties of [src/src/opcua/security.cpp]: the compaction loop removes
    exactly the endpoints of mode None, and keeps those that only sign; a server
    that starts is no more open than its options ask for; and a probe that is
    configured verifies the server unless it was told not to. *)

From Stdlib Require Import Ascii String.
From stdpp Require Import base numbers list option strings pretty sorting.
From S2P Require Import Prelude OpcuaSecurity.

(** ** The compaction loop *)

(** What the loop tests. An endpoint that passes need not encrypt: one that only
    signs passes as well. *)
Definition not_none (e : Endpoint) : Prop := securityMode e ≠ ModeNone.

#[export] Instance not_none_dec e : Decision (not_none e).
Proof. unfold not_none; apply _. Defined.

Lemma drop_loop_filter n i a kept removed :
  length a = (i + n)%nat → (kept ≤ i)%nat →
  let '(a', kept', removed') := drop_loop n i a kept removed in
  take kept' a' = take kept a ++ filter not_none (drop i a) ∧
  (removed' + length (filter not_none (drop i a)) = removed + n)%nat.
Proof.
  revert i a kept removed. induction n as [|n IH]; intros i a kept removed Hlen Hk; cbn [drop_loop].
  { rewrite drop_ge by lia. by rewrite filter_nil, app_nil_r, Nat.add_0_r. }
  destruct (lookup_lt_is_Some_2 a i) as [e He]; [lia|]. rewrite He, (drop_S a e i He).
  case_bool_decide as Hm.
  - specialize (IH (S i) (<[i:=cleared_endpoint]> a) kept (S removed)).
    rewrite length_insert, take_insert_ge, drop_insert_lt in IH by lia.
    rewrite list.filter_cons_False by by unfold not_none; tauto.
    destruct (drop_loop n (S i) _ kept (S removed)) as [[a' kept'] removed'].
    destruct IH as [H1 H2]; [lia|lia|]. split; [done|lia].
  - set (a2 := if bool_decide (kept = i) then a else <[kept:=e]> a).
    assert (H2 : length a2 = length a ∧ take (S kept) a2 = take kept a ++ [e] ∧
                 drop (S i) a2 = drop (S i) a).
    { unfold a2. case_bool_decide as Hki.
      - subst i. split; [done|]. split; [|done]. by apply take_S_r.
      - rewrite length_insert, drop_insert_lt by lia. split; [done|]. split; [|done].
        rewrite (take_S_r _ _ e) by (apply list_lookup_insert_eq; lia).
        by rewrite take_insert_ge by lia. }
    destruct H2 as (Hl2 & Ht2 & Hd2). clearbody a2.
    specialize (IH (S i) a2 (S kept) removed). rewrite Hl2, Ht2, Hd2 in IH.
    rewrite list.filter_cons_True by done.
    destruct (drop_loop n (S i) a2 (S kept) removed) as [[a' kept'] removed'].
    destruct IH as [H1 H3]; [lia|lia|]. split; [by rewrite H1, <- app_assoc|]. cbn [length]. lia.
Qed.

(** What dropping leaves: the endpoints of a mode other than None in their order,
    everything else as it was. *)
Lemma dropUnencryptedEndpoints_spec c :
  dropUnencryptedEndpoints c =
  ((length (endpoints c) - length (filter not_none (endpoints c)))%nat,
   mkServerConfig (filter not_none (endpoints c)) (securityPoliciesSize c) (secureChannelPKI c)
     (sessionPKI c) (applicationUri c)).
Proof.
  unfold dropUnencryptedEndpoints.
  pose proof (drop_loop_filter (length (endpoints c)) 0 (endpoints c) 0 0 eq_refl (le_n 0)) as H.
  destruct (drop_loop _ _ _ _ _) as [[a kept] removed]. destruct H as [-> H].
  rewrite drop_0 in *. cbn [take app]. f_equal. lia.
Qed.

(** ** The server *)

Section Guarantees.
Context (fs : FileSystem) (stack : Stack).
(** The trust list passed to [UA_ServerConfig_setDefaultWithSecurityPolicies] is
    installed for secure channels and for sessions. *)
Hypothesis installs_trust_list : ∀ c p certificate key trusted c',
  setDefaultWithSecurityPolicies stack c p certificate key trusted = (true, c') →
  trusted ≠ [] → secureChannelPKI c' = Trustlist trusted ∧ sessionPKI c' = Trustlist trusted.

Lemma obtain_identity_spec options from why certificate key :
  obtain_identity fs stack options = Some (from, why, certificate, key) →
  from ≠ kNone ∧
  (from = kLoadedFromFiles ↔
     readFile fs (certificate_path options) ≠ [] ∧ readFile fs (key_path options) ≠ []).
Proof.
  unfold obtain_identity. intros H.
  destruct (readFile fs (certificate_path options)), (readFile fs (key_path options)); cbn in H;
    try (destruct (CreateCertificate stack _ _) as [[? ?]|]; [|done]); simplify_eq;
    intuition congruence.
Qed.

(** What [finish] does to the configuration, by cases of the options. *)
Lemma finish_spec options from why trusted c :
  let r := finish options from why trusted c in
  origin r.1 = from ∧ policy_count r.1 = securityPoliciesSize c ∧
  securityPoliciesSize r.2 = securityPoliciesSize c ∧
  allows_unencrypted r.1 = allow_unencrypted options ∧
  trusted_certificate_count r.1 = trusted ∧ applicationUri r.2 = kApplicationUri ∧
  endpoints r.2 =
    map (λ e, mkEndpoint (securityMode e) kApplicationUri)
      (if allow_unencrypted options then endpoints c else filter not_none (endpoints c)) ∧
  (secureChannelPKI r.2, sessionPKI r.2) =
    match authentication options with
    | kTrustList => (secureChannelPKI c, sessionPKI c)
    | kAcceptAnyCertificate => (AcceptAll, AcceptAll)
    end.
Proof.
  cbv zeta. unfold finish. set (c1 := claim_identity c).
  assert (Hf : filter not_none (endpoints c1) =
    map (λ e, mkEndpoint (securityMode e) kApplicationUri) (filter not_none (endpoints c))).
  { cbn. induction (endpoints c) as [|e l IH]; [done|]. cbn [map].
    rewrite !filter_cons. case_decide as H1; case_decide as H2; unfold not_none in *; cbn in *;
      try done; by rewrite IH. }
  destruct (authentication options) eqn:Ha; [rewrite bool_decide_false by congruence
                                            |rewrite bool_decide_true by congruence];
    destruct (allow_unencrypted options); cbn [negb];
    rewrite ?dropUnencryptedEndpoints_spec; cbn -[claim_identity dropUnencryptedEndpoints];
    rewrite ?dropUnencryptedEndpoints_spec; cbn; repeat split; try done; exact Hf.
Qed.

(** The endpoints are exactly those that the stack set up with a mode other than
    None, in order. *)
Definition keeps_modes (c' : ServerConfig) : Prop :=
  ∃ c p certificate key trusted c1,
    setDefaultWithSecurityPolicies stack c p certificate key trusted = (true, c1) ∧
    map securityMode (endpoints c') =
      filter (λ m, m ≠ ModeNone) (map securityMode (endpoints c1)).

Lemma keeps_modes_none c' : keeps_modes c' → Forall not_none (endpoints c').
Proof.
  intros (c & p & ce & k & t & c1 & _ & E). apply list.Forall_forall. intros e He Hm.
  apply (list_elem_of_fmap_2 securityMode) in He. change (fmap securityMode) with (map securityMode) in He.
  rewrite E, Hm in He. by apply list_elem_of_filter in He as [].
Qed.

Lemma filter_modes l :
  map securityMode (map (λ e, mkEndpoint (securityMode e) kApplicationUri) (filter not_none l)) =
  filter (λ m, m ≠ ModeNone) (map securityMode l).
Proof.
  induction l as [|e l IH]; [done|]. cbn [map]. rewrite !filter_cons.
  case_decide as H1; case_decide as H2; unfold not_none in *; try done. cbn [map]. by rewrite IH.
Qed.

(** No silent downgrade. Whatever the files and the stack do, a server whose
    posture lets it start (its policy count is not zero) offers an endpoint of
    mode None only if unencrypted use was asked for, and otherwise exactly the
    other endpoints of the stack; it has an identity unless unencrypted
    use was asked for; when a trust list was asked for it is not combined with
    unencrypted use, it is not empty, and it is what both verification hooks
    check against; and an encrypted server claims its own URI everywhere. *)
Theorem no_silent_downgrade c options :
  let (posture, config) := configureSecurity fs stack (Some c) options in
  policy_count posture ≠ 0 →
  ∃ c', config = Some c' ∧
    policy_count posture = securityPoliciesSize c' ∧
    allows_unencrypted posture = allow_unencrypted options ∧
    (allow_unencrypted options = false →
       keeps_modes c' ∧ origin posture ≠ kNone) ∧
    (authentication options = kTrustList →
       allow_unencrypted options = false ∧
       readTrustList fs (trust_list_directory options) ≠ [] ∧
       secureChannelPKI c' = Trustlist (readTrustList fs (trust_list_directory options)) ∧
       sessionPKI c' = Trustlist (readTrustList fs (trust_list_directory options)) ∧
       trusted_certificate_count posture =
         length (readTrustList fs (trust_list_directory options))) ∧
    (origin posture ≠ kNone →
       applicationUri c' = kApplicationUri ∧
       Forall (λ e, endpoint_uri e = kApplicationUri) (endpoints c')).
Proof.
  unfold configureSecurity.
  destruct (bool_decide (authentication options = kTrustList) && allow_unencrypted options) eqn:Eref;
    [by intros []|].
  set (tl := if bool_decide _ then readTrustList _ _ else []).
  destruct (bool_decide (authentication options = kTrustList) && bool_decide (tl = [])) eqn:Eempty;
    [by intros []|].
  destruct (obtain_identity fs stack options) as [[[[from why] cert] key]|] eqn:Eid.
  - destruct (setDefaultWithSecurityPolicies _ _ _ _ _ _) as [[] c1] eqn:Eset; [|by intros []].
    destruct (obtain_identity_spec _ _ _ _ _ Eid) as [Hfrom _]. cbn [negb].
    pose proof (finish_spec options from why (length tl) c1) as Hf. cbv zeta in Hf.
    destruct (finish options from why (length tl) c1) as [posture c']. cbn [fst snd] in Hf.
    destruct Hf as (Ho & Hp & Hsz & Hun & Htr & Huri & Hep & Hpki). intros _. exists c'.
    split; [done|]. split; [congruence|]. split; [done|]. split; [|split].
    + intros Hall. rewrite Hall in Hep. split; [|congruence].
      exists c, (port options), cert, key, tl, c1. split; [exact Eset|]. by rewrite Hep, filter_modes.
    + intros Ha. rewrite Ha in Hpki. rewrite bool_decide_true in Eref, Eempty by done.
      cbn in Eref, Eempty. apply bool_decide_eq_false in Eempty.
      assert (Etl : tl = readTrustList fs (trust_list_directory options)).
      { unfold tl. by rewrite bool_decide_true. }
      destruct (installs_trust_list _ _ _ _ _ _ Eset Eempty) as [H1 H2].
      injection Hpki as Hp1 Hp2. rewrite <- Etl. split_and!; congruence.
    + intros _. split; [done|]. rewrite Hep, Forall_map. apply list.Forall_forall. done.
  - unfold without_identity. destruct (allow_unencrypted options) eqn:Eun; cbn [negb]; [|by intros []].
    destruct (setMinimal stack c (port options)) as [[] c1]; [|by intros []].
    intros _. exists c1. cbn. split_and!; try done. intros Ha.
    rewrite bool_decide_true in Eref by done. done.
Qed.
End Guarantees.

(** A stack that sets up an endpoint of each mode and installs the trust list it
    is given, and a directory with one certificate. *)
Definition demo_stack : Stack :=
  mkStack
    (λ _ _ _ _ trusted,
      let pki := match trusted with [] => Unset | _ => Trustlist trusted end in
      (true, mkServerConfig
         [mkEndpoint ModeNone EmptyString; mkEndpoint ModeSign EmptyString;
          mkEndpoint ModeSignAndEncrypt EmptyString] 3
         pki pki "urn:open62541.server.application"%string))
    (λ c _, (true, c))
    (λ _ _, Some ([1], [2])).

Definition demo_files : FileSystem :=
  mkFileSystem (λ _, mkFile true 2 true [7; 8])
    (λ _, Some [mkEntry "/trust/readme.txt" (Some true); mkEntry "/trust/client.der" (Some true);
                mkEntry "/trust/old.der" (Some false)]%string).

Definition demo_options : SecurityOptions :=
  mkOptions 4840 EmptyString EmptyString "/trust"%string false kTrustList.

Definition demo_config : ServerConfig := mkServerConfig [] 0 Unset Unset EmptyString.

Lemma no_silent_downgrade_witness :
  ∃ c', (configureSecurity demo_files demo_stack (Some demo_config) demo_options).2 = Some c' ∧
    map securityMode (endpoints c') = [ModeSign; ModeSignAndEncrypt] ∧
    sessionPKI c' = Trustlist [[7; 8]].
Proof.
  assert (Hi : ∀ c p certificate key trusted c',
    setDefaultWithSecurityPolicies demo_stack c p certificate key trusted = (true, c') →
    trusted ≠ [] → secureChannelPKI c' = Trustlist trusted ∧ sessionPKI c' = Trustlist trusted).
  { intros c p ce k [|t l] c' [= <-]; [done|]. by split. }
  pose proof (no_silent_downgrade demo_files demo_stack Hi demo_config demo_options) as H.
  destruct (configureSecurity demo_files demo_stack (Some demo_config) demo_options)
    as [posture config] eqn:E.
  destruct H as (c' & Hc & _ & _ & Henc & Htl & _).
  { vm_compute in E. by injection E as <- <-. }
  exists c'. split; [exact Hc|]. split.
  { destruct (proj1 (Henc eq_refl)) as (c0 & p & ce & k & t & c1 & [= <-] & E'). exact E'. }
  destruct (Htl eq_refl) as (_ & _ & _ & Hs & _). rewrite Hs. reflexivity.
Defined.

(** A build without a crypto backend starts only when unencrypted use was asked
    for and no client authentication, and says so. *)
Theorem no_crypto_no_pretence stack c options :
  let posture := (configureSecurity_without_crypto stack c options).1 in
  policy_count posture ≠ 0 →
  allow_unencrypted options = true ∧ authentication options = kAcceptAnyCertificate ∧
  allows_unencrypted posture = true ∧ origin posture = kNone.
Proof.
  cbv zeta. unfold configureSecurity_without_crypto. destruct c as [c|]; [|done].
  destruct (authentication options) eqn:Ha; [rewrite bool_decide_false by done|by rewrite bool_decide_true].
  destruct (allow_unencrypted options); cbn [negb]; [|done].
  by destruct (setMinimal stack c (port options)) as [[] c'].
Qed.

(** The server's own identity comes from files only if both files can be read;
    with only one of them, an identity is generated instead. *)
Theorem identity_needs_both fs stack c options :
  let posture := (configureSecurity fs stack (Some c) options).1 in
  origin posture = kLoadedFromFiles →
  readFile fs (certificate_path options) ≠ [] ∧ readFile fs (key_path options) ≠ [].
Proof.
  cbv zeta. unfold configureSecurity. destruct (_ && _); [done|].
  set (tl := if bool_decide _ then readTrustList _ _ else []). destruct (_ && _); [done|].
  destruct (obtain_identity fs stack options) as [[[[from why] cert] key]|] eqn:Eid.
  - destruct (setDefaultWithSecurityPolicies _ _ _ _ _ _) as [[] c1]; [|done]. cbn [negb].
    destruct (obtain_identity_spec fs stack _ _ _ _ _ Eid) as [_ Hfrom].
    destruct (finish_spec options from why (length tl) c1) as [Ho _].
    destruct (finish options from why (length tl) c1) as [posture c']. cbn [fst] in *.
    rewrite Ho. apply Hfrom.
  - unfold without_identity. destruct (negb _); [done|]. by destruct (setMinimal _ _ _) as [[] ?].
Qed.

(** ** The probe *)

(** A configured probe verifies the server. If the verification counts as
    configured, the channel must be signed and encrypted, and either the
    server's certificate is checked against a trust list that is not empty, or
    the bypass was asked for explicitly and no trust list was named. *)
Theorem probe_verifies_server fs install c options :
  let (posture, config) := configureServerVerification fs install (Some c) options in
  configured posture = true →
  ∃ c', config = Some c' ∧ client_mode c' = ModeSignAndEncrypt ∧
    ((verifies_server_certificate posture = true ∧
      insecure_accept_any_certificate options = false ∧
      readTrustList fs (server_trust_list_directory options) ≠ [] ∧
      certificateVerification c' =
        Trustlist (readTrustList fs (server_trust_list_directory options)) ∧
      server_trusted_count posture =
        length (readTrustList fs (server_trust_list_directory options))) ∨
     (verifies_server_certificate posture = false ∧
      insecure_accept_any_certificate options = true ∧
      server_trust_list_directory options = EmptyString ∧
      certificateVerification c' = AcceptAll)).
Proof.
  unfold configureServerVerification.
  destruct (insecure_accept_any_certificate options) eqn:Ei; cbn [andb];
    case_bool_decide as Hd; cbn [negb]; try done.
  - intros _. eexists. split; [done|]. split; [done|]. right. done.
  - case_bool_decide as Ht; [done|]. destruct (install _); [done|]. intros _.
    eexists. split; [done|]. split; [done|]. left. done.
Qed.

Lemma probe_verifies_server_witness :
  let r := configureServerVerification demo_files (λ _, None)
    (Some (mkClientConfig ModeNone Unset)) (mkVerificationOptions "/trust"%string false) in
  ∃ c', r.2 = Some c' ∧ client_mode c' = ModeSignAndEncrypt.
Proof.
  cbv zeta. pose proof (probe_verifies_server demo_files (λ _, None)
    (mkClientConfig ModeNone Unset) (mkVerificationOptions "/trust"%string false)) as H.
  destruct (configureServerVerification _ _ _ _) as [posture config] eqn:E.
  destruct H as (c' & Hc & Hm & _); [vm_compute in E; by injection E as <- <-|].
  exists c'. split; assumption.
Defined.
