(* ===== verification/Environment.v ===== *)
(** * Settings from the environment

    [environmentLong] and [environmentString] of [src/src/apps/safeedged.cpp]
    and [src/src/apps/safeedge_opcua.cpp], with the part of [strtol] they rely
    on. [long] is 64 bits wide. *)

From Stdlib Require Import Ascii String.
From stdpp Require Import base numbers list option strings pretty.
From S2P Require Import Prelude Strings.

(** [isspace] in the C locale. *)
Definition is_space (c : ascii) : bool :=
  bool_decide (c ∈ [" "; "009"; "010"; "011"; "012"; "013"]%char).

Definition digit_value (c : ascii) : option Z :=
  let n := Z.of_N (N_of_ascii c) - 48 in
  if (0 <=? n) && (n <=? 9) then Some n else None.

Fixpoint skip_spaces (s : string) : string :=
  match s with
  | String c rest => if is_space c then skip_spaces rest else s
  | EmptyString => s
  end.

(** The digits at the front of a string, on top of the value read so far, and
    what follows them. *)
Fixpoint read_digits (acc : Z) (s : string) : Z * string :=
  match s with
  | String c rest =>
      match digit_value c with
      | Some d => read_digits (acc * 10 + d) rest
      | None => (acc, s)
      end
  | EmptyString => (acc, s)
  end.

Definition kLongMax : Z := 2 ^ 63 - 1.
Definition kLongMin : Z := - 2 ^ 63.

Definition saturate (n : Z) : Z := Z.max kLongMin (Z.min n kLongMax).

(** [strtol(raw, &end, 10)]: the value, and the string [end] points to. Without
    a digit nothing is converted and [end] is [raw]. *)
Definition strtol (raw : string) : Z * string :=
  let s := skip_spaces raw in
  let '(negative, s) :=
    match s with
    | String c rest =>
        if bool_decide (c = "-"%char) then (true, rest)
        else if bool_decide (c = "+"%char) then (false, rest) else (false, s)
    | EmptyString => (false, s)
    end in
  match s with
  | String c _ =>
      match digit_value c with
      | Some _ =>
          let (n, rest) := read_digits 0 s in
          (saturate (if negative then - n else n), rest)
      | None => (0, raw)
      end
  | EmptyString => (0, raw)
  end.

(** [raw] is what [getenv] returns. *)
Definition environmentLong (raw : option string) (fallback : Z) : Z :=
  match raw with
  | None => fallback
  | Some raw =>
      if bool_decide (raw = EmptyString) then fallback
      else
        let (parsed, rest) := strtol raw in
        if bool_decide (rest = EmptyString) then parsed else fallback
  end.

Definition environmentString (raw : option string) (fallback : string) : string :=
  match raw with
  | None => fallback
  | Some raw => if bool_decide (raw = EmptyString) then fallback else raw
  end.

(** ** Printed numbers are read back *)

Lemma digit_value_pretty n :
  (n < 10)%N → digit_value (pretty_N_char n) = Some (Z.of_N n).
Proof.
  intros Hn. assert (H : n ∈ [0; 1; 2; 3; 4; 5; 6; 7; 8; 9]%N).
  { rewrite !elem_of_cons. lia. }
  repeat (apply elem_of_cons in H as [->|H]; [reflexivity|]). by apply not_elem_of_nil in H.
Qed.

Lemma read_digits_pretty x s :
  (0 < x)%N → read_digits 0 (pretty_N_go x s) = read_digits (Z.of_N x) s.
Proof.
  revert s. induction (N.lt_wf_0 x) as [x _ IH]; intros s Hx.
  rewrite pretty_N_go_step by lia.
  assert (Hd : digit_value (pretty_N_char (x `mod` 10)) = Some (Z.of_N (x `mod` 10))).
  { apply digit_value_pretty. apply N.mod_lt. lia. }
  assert (Hval : Z.of_N (x `div` 10) * 10 + Z.of_N (x `mod` 10) = Z.of_N x).
  { pose proof (N.div_mod x 10 ltac:(lia)). lia. }
  destruct (N.eq_0_gt_0_cases (x `div` 10)) as [E|E].
  - rewrite E, pretty_N_go_0. cbn [read_digits]. rewrite Hd. f_equal. rewrite E in Hval. lia.
  - rewrite IH by (done || apply N.div_lt; lia). cbn [read_digits]. rewrite Hd. by f_equal.
Qed.

Lemma pretty_N_go_digit x s :
  (0 < x)%N → ∃ d rest, (d < 10)%N ∧ pretty_N_go x s = String (pretty_N_char d) rest.
Proof.
  revert s. induction (N.lt_wf_0 x) as [x _ IH]; intros s Hx. rewrite pretty_N_go_step by lia.
  destruct (N.eq_0_gt_0_cases (x `div` 10)) as [E|E].
  - rewrite E, pretty_N_go_0. eexists _, _. split; [|done]. apply N.mod_lt. lia.
  - apply IH; [apply N.div_lt; lia|done].
Qed.

Lemma pretty_char_plain d :
  (d < 10)%N →
  is_space (pretty_N_char d) = false ∧ pretty_N_char d ≠ "-"%char ∧ pretty_N_char d ≠ "+"%char.
Proof.
  intros Hd. assert (H : d ∈ [0; 1; 2; 3; 4; 5; 6; 7; 8; 9]%N).
  { rewrite !elem_of_cons. lia. }
  repeat (apply elem_of_cons in H as [->|H]; [by vm_compute|]). by apply not_elem_of_nil in H.
Qed.

(** A string that does not continue a number. *)
Definition ends_number (s : string) : Prop :=
  match s with EmptyString => True | String c _ => digit_value c = None end.

Lemma read_digits_end acc s : ends_number s → read_digits acc s = (acc, s).
Proof. destruct s as [|c s]; simpl; [done|]. by intros ->. Qed.

(** [strtol] on an unsigned number followed by anything that is no digit. *)
Lemma strtol_digits x s :
  (0 < x)%N → ends_number s → strtol (pretty_N_go x s) = (saturate (Z.of_N x), s).
Proof.
  intros Hx Hs. pose proof (read_digits_pretty x s Hx) as Hr.
  rewrite (read_digits_end _ _ Hs) in Hr.
  destruct (pretty_N_go_digit x s Hx) as (d & rest & Hd & E). rewrite E in *.
  destruct (pretty_char_plain d Hd) as (H1 & H2 & H3). unfold strtol.
  cbn [skip_spaces]. rewrite H1, !bool_decide_false by done.
  rewrite (digit_value_pretty d Hd), Hr. done.
Qed.

Lemma strtol_negative x s :
  (0 < x)%N → ends_number s →
  strtol (String "-" (pretty_N_go x s)) = (saturate (- Z.of_N x), s).
Proof.
  intros Hx Hs. pose proof (read_digits_pretty x s Hx) as Hr.
  rewrite (read_digits_end _ _ Hs) in Hr.
  destruct (pretty_N_go_digit x s Hx) as (d & rest & Hd & E). rewrite E in *.
  unfold strtol. cbn [skip_spaces]. change (is_space "-") with false. cbn beta iota.
  rewrite bool_decide_true by done. rewrite (digit_value_pretty d Hd), Hr. done.
Qed.

Lemma pretty_N_go_app x s t : pretty_N_go x (s +:+ t) = (pretty_N_go x s +:+ t)%string.
Proof.
  revert s. induction (N.lt_wf_0 x) as [x _ IH]; intros s.
  destruct (N.eq_0_gt_0_cases x) as [->|Hx]; [by rewrite !pretty_N_go_0|].
  rewrite !(pretty_N_go_step x) by lia. rewrite <- IH by (apply N.div_lt; lia). done.
Qed.

Lemma strtol_pretty (n : Z) s :
  ends_number s → strtol (pretty n +:+ s) = (saturate n, s).
Proof.
  intros Hs. destruct n as [|p|p].
  - change (pretty 0 +:+ s) with (String "0" s). unfold strtol.
    cbn [skip_spaces]. change (is_space "0") with false. cbn beta iota.
    rewrite !bool_decide_false by done. change (digit_value "0") with (Some 0).
    cbn [read_digits]. change (digit_value "0") with (Some 0). cbn beta iota.
    by rewrite (read_digits_end _ _ Hs).
  - change (pretty (Z.pos p)) with (pretty_N_go (N.pos p) EmptyString).
    rewrite <- pretty_N_go_app. by apply strtol_digits.
  - change (pretty (Z.neg p) +:+ s) with (String "-" (pretty_N_go (N.pos p) EmptyString +:+ s)).
    rewrite <- pretty_N_go_app. by apply strtol_negative.
Qed.

Lemma pretty_Z_nonempty (n : Z) s : pretty n +:+ s ≠ EmptyString.
Proof.
  destruct n as [|p|p]; [done| |done].
  change (pretty (Z.pos p)) with (pretty_N_go (N.pos p) EmptyString).
  destruct (pretty_N_go_digit (N.pos p) EmptyString) as (d & rest & _ & E); [lia|].
  rewrite E. done.
Qed.

(** A setting is a number or the fallback. Every 64-bit number, printed in
    decimal, is read back as itself; a number followed by anything else, an
    empty or a missing variable give the fallback; larger numbers saturate. *)
Theorem setting_round_trip (n fallback : Z) c s :
  (is_i64 n → environmentLong (Some (pretty n)) fallback = n) ∧
  (2 ^ 63 ≤ n → environmentLong (Some (pretty n)) fallback = 2 ^ 63 - 1) ∧
  (digit_value c = None → environmentLong (Some (pretty n +:+ String c s)) fallback = fallback) ∧
  environmentLong (Some EmptyString) fallback = fallback ∧
  environmentLong None fallback = fallback.
Proof.
  assert (H : environmentLong (Some (pretty n)) fallback = saturate n).
  { pose proof (strtol_pretty n EmptyString I) as H.
    pose proof (pretty_Z_nonempty n EmptyString) as Hne.
    rewrite append_nil in H, Hne. unfold environmentLong.
    rewrite bool_decide_false by done. by rewrite H. }
  rewrite H. split; [|split; [|split; [|done]]].
  - unfold saturate, kLongMin, kLongMax. intros. solve_range.
  - unfold saturate, kLongMin, kLongMax. intros.
    change (2 ^ 63) with 9223372036854775808 in *. lia.
  - intros Hc. unfold environmentLong.
    rewrite bool_decide_false by apply pretty_Z_nonempty.
    by rewrite strtol_pretty.
Qed.
