(* ===== verification/Handlers.v ===== *)
(** * What the HTTP endpoints tell a consumer

    The handlers of [src/src/apps/safeedged.cpp] read by a client: the line of
    [/safety] carries its three numbers exactly, a failed load can not be read
    as permission, and [/readyz] is ready exactly without a latched fault. *)

From Stdlib Require Import Ascii String.
From stdpp Require Import base numbers list option strings pretty.
From S2P Require Import Prelude Strings HttpServer Environment Snapshot Runtime.

(** ** Reading the line *)

(** A number and the separator after it: at least one digit is needed. *)
Definition read_number (separator : ascii) (s : string) : option (Z * string) :=
  match s with
  | String c _ =>
      match digit_value c, read_digits 0 s with
      | Some _, (n, String c rest) => if bool_decide (c = separator) then Some (n, rest) else None
      | _, _ => None
      end
  | EmptyString => None
  end.

(** The three numbers of the line. *)
Definition read_safety (line : string) : option (Z * Z * Z) :=
  '(sequence, rest) ← read_number " " line;
  '(torque, rest) ← read_number " " rest;
  '(stamp, rest) ← read_number "010" rest;
  if bool_decide (rest = EmptyString) then Some (sequence, torque, stamp) else None.

Lemma read_number_pretty (n : Z) separator s :
  0 ≤ n → digit_value separator = None →
  read_number separator (pretty n +:+ String separator s) = Some (n, s).
Proof.
  intros Hn Hsep. destruct n as [|p|p]; [| |lia].
  - change (pretty 0 +:+ String separator s) with (String "0" (String separator s)).
    unfold read_number. change (digit_value "0") with (Some 0). cbn [read_digits].
    change (digit_value "0") with (Some 0). cbn beta iota. cbn [read_digits].
    rewrite Hsep. by rewrite bool_decide_true.
  - change (pretty (Z.pos p)) with (pretty_N_go (N.pos p) EmptyString).
    rewrite <- pretty_N_go_app. change (EmptyString +:+ ?x) with x.
    destruct (pretty_N_go_digit (N.pos p) (String separator s)) as (d & rest & Hd & E); [lia|].
    pose proof (read_digits_pretty (N.pos p) (String separator s) ltac:(lia)) as Hr.
    cbn [read_digits] in Hr. rewrite Hsep in Hr.
    unfold read_number. rewrite E in *. rewrite (digit_value_pretty d Hd), Hr.
    by rewrite bool_decide_true.
Qed.

(** The fields of a snapshot have the widths of their types. *)
Definition fields_ok (s : Edge.RuntimeSnapshot) : Prop :=
  is_u64 (Edge.safety_sequence s) ∧ is_u32 (Edge.torque_permitted s) ∧
  is_u64 (Edge.safety_transition_monotonic_ns s).

#[export] Instance fields_ok_dec s : Decision (fields_ok s).
Proof. unfold fields_ok; apply _. Defined.

(** The 128 bytes of the line's buffer are enough. *)
Lemma safety_line_fits s : fields_ok s → (String.length (safety_line s) < 128)%nat.
Proof.
  intros (H1 & H2 & H3). unfold safety_line. rewrite !length_append.
  pose proof (length_pretty_Z (Edge.safety_sequence s) 20 ltac:(lia)) as L1.
  pose proof (length_pretty_Z (Edge.torque_permitted s) 10 ltac:(lia)) as L2.
  pose proof (length_pretty_Z (Edge.safety_transition_monotonic_ns s) 20 ltac:(lia)) as L3.
  change (10 ^ Z.of_nat 20) with 100000000000000000000 in *.
  change (10 ^ Z.of_nat 10) with 10000000000 in *.
  change (String.length " ") with 1%nat. change (String.length (String _ EmptyString)) with 1%nat.
  assert (String.length (pretty (Edge.safety_sequence s)) ≤ 20)%nat by (apply L1; solve_range).
  assert (String.length (pretty (Edge.torque_permitted s)) ≤ 10)%nat by (apply L2; solve_range).
  assert (String.length (pretty (Edge.safety_transition_monotonic_ns s)) ≤ 20)%nat
    by (apply L3; solve_range).
  lia.
Qed.

(** C36: What a consumer of the endpoints can rely on. The line of [/safety] is read
    back as exactly the sequence number, the torque permission and the
    transition time published; after a failed load the answer is a 503 that can
    not be read as three numbers; and [/readyz] answers 200 exactly when a
    snapshot was loaded that latches no fault. *)
Theorem endpoints_readable s loaded :
  fields_ok s →
  (status (safety (Some s)) = 200 ∧
   read_safety (body (safety (Some s))) =
     Some (Edge.safety_sequence s, Edge.torque_permitted s,
           Edge.safety_transition_monotonic_ns s)) ∧
  (status (safety None) = 503 ∧ read_safety (body (safety None)) = None) ∧
  (status (readyz loaded) = 200 ↔ ∃ s, loaded = Some s ∧ Edge.fault_latched s = 0).
Proof.
  intros Hok. split; [split; [done|]|split; [done|]].
  - cbn [safety body]. rewrite snprintf_fits by by apply safety_line_fits.
    destruct Hok as (H1 & H2 & H3). unfold safety_line, read_safety.
    assert (Hsp : ∀ x, " " +:+ x = String " " x) by done. rewrite !Hsp.
    rewrite read_number_pretty by (done || solve_range). cbn [mbind option_bind].
    rewrite read_number_pretty by (done || solve_range). cbn [mbind option_bind].
    rewrite read_number_pretty by (done || solve_range). done.
  - destruct loaded as [x|]; cbn; [|by split; [|intros (? & ? & _)]].
    destruct (Z.eqb_spec (Edge.fault_latched x) 0) as [E|E]; cbn.
    + split; [by exists x|done].
    + split; [done|]. intros (y & [= <-] & Hy). done.
Qed.

Lemma endpoints_readable_witness :
  let s := Edge.mkSnapshot 0 0 0 0 0 0 0 0 0 0 0 4 0 1 0 1234567890123 7 0 0 0 0 0 0 in
  read_safety (body (safety (Some s))) = Some (7, 1, 1234567890123).
Proof.
  intros s. destruct (endpoints_readable s None) as [[_ H] _]; [by_compute|exact H].
Defined.
