(* ===== verification/Metrics.v ===== *)
(** * The Prometheus exposition

    [src/src/edge/metrics.cpp]: the text served at [/metrics], with the
    [%.6g] conversion of [printf] written out on the exact value of a double. *)

From Stdlib Require Import SpecFloat Ascii String.
From stdpp Require Import base numbers list option strings pretty.
From S2P Require Import Prelude Float64 Strings HttpServer Snapshot.

#[local] Open Scope string_scope.
#[local] Open Scope Z_scope.

(** ** The conversion [%.6g] *)

(** [n / d] rounded to the nearest integer, ties to even. *)
Definition round_div (n d : Z) : Z :=
  let q := n / d in
  let r := n mod d in
  if 2 * r <? d then q
  else if d <? 2 * r then q + 1
  else if Z.even q then q else q + 1.

(** The number of decimal digits of [n], less one. *)
Fixpoint ilog10_from (fuel : nat) (n : Z) : Z :=
  match fuel with
  | O => 0
  | S fuel => if n <? 10 then 0 else 1 + ilog10_from fuel (n / 10)
  end.
Definition ilog10 (n : Z) : Z := ilog10_from (S (Z.to_nat (Z.log2 n))) n.

(** For a value below one, the least power of ten that lifts it to one. *)
Fixpoint lift_from (fuel : nat) (n d : Z) : Z :=
  match fuel with
  | O => 1
  | S fuel => if d <=? 10 * n then 1 else 1 + lift_from fuel (10 * n) d
  end.

Definition decimal_exponent (n d : Z) : Z :=
  if d <=? n then ilog10 (n / d) else - lift_from 400 n d.

(** [n / d] times a power of ten, rounded to an integer. *)
Definition scaled (n d k : Z) : Z :=
  if 0 <=? k then round_div (n * 10 ^ k) d else round_div n (d * 10 ^ (- k)).

(** Six significant digits and the decimal exponent of the first. *)
Definition six_digits (n d : Z) : Z * Z :=
  let x := decimal_exponent n d in
  let digits := scaled n d (5 - x) in
  if digits =? 1000000 then (100000, x + 1) else (digits, x).

(** The last [k] digits of [n], with leading zeros. *)
Fixpoint pad (k : nat) (n : Z) : string :=
  match k with
  | O => EmptyString
  | S k => String (pretty_N_char (Z.to_N (n / 10 ^ Z.of_nat k mod 10))) (pad k n)
  end.

Fixpoint strip_zeros (s : string) : string :=
  match s with
  | EmptyString => EmptyString
  | String c rest =>
      match strip_zeros rest with
      | EmptyString => if bool_decide (c = "0"%char) then EmptyString else String c EmptyString
      | kept => String c kept
      end
  end.

(** A whole part and [k] digits of fraction, without trailing zeros. *)
Definition with_fraction (whole : Z) (k : nat) (fraction : Z) : string :=
  match strip_zeros (pad k fraction) with
  | EmptyString => pretty whole
  | kept => pretty whole +:+ "." +:+ kept
  end.

Definition exponent_text (x : Z) : string :=
  "e" +:+ (if x <? 0 then "-" else "+") +:+
  (if Z.abs x <? 10 then "0" else EmptyString) +:+ pretty (Z.abs x).

Definition render_digits (digits x : Z) : string :=
  if (-4 <=? x) && (x <? 6)
  then with_fraction (digits / 10 ^ (5 - x)) (Z.to_nat (5 - x)) (digits mod 10 ^ (5 - x))
  else with_fraction (digits / 100000) 5 (digits mod 100000) +:+ exponent_text x.

Definition format_g (v : double) : string :=
  match v with
  | S754_zero s => if s then "-0" else "0"
  | S754_infinity s => if s then "-inf" else "inf"
  | S754_nan => "nan"
  | S754_finite s m e =>
      let (n, d) := if 0 <=? e then (Z.pos m * 2 ^ e, 1) else (Z.pos m, 2 ^ (- e)) in
      let (digits, x) := six_digits n d in
      (if s then "-" else EmptyString) +:+ render_digits digits x
  end.

(** ** The text *)

Definition nl : string := String "010" EmptyString.
Definition quote : string := String "034" EmptyString.

Definition appendMetric (out name help type : string) (value : double) : string :=
  out +:+ snprintf 512
    ("# HELP " +:+ name +:+ " " +:+ help +:+ nl +:+ "# TYPE " +:+ name +:+ " " +:+ type +:+ nl +:+
     name +:+ " " +:+ format_g value +:+ nl).

Definition appendLabelled (out name help type label_name label_value : string) (value : double)
  : string :=
  out +:+ snprintf 512
    ("# HELP " +:+ name +:+ " " +:+ help +:+ nl +:+ "# TYPE " +:+ name +:+ " " +:+ type +:+ nl +:+
     name +:+ "{" +:+ label_name +:+ "=" +:+ quote +:+ label_value +:+ quote +:+ "} " +:+
     format_g value +:+ nl).

(** One line of a summary. *)
Definition quantile_line (name q : string) (v : Z) : string :=
  snprintf 256 (name +:+ "{quantile=" +:+ quote +:+ q +:+ quote +:+ "} " +:+ pretty v +:+ nl).

Definition appendQuantiles (out name help : string) (p50 p99 p999 maximum : Z) : string :=
  let out := out +:+ snprintf 256
    ("# HELP " +:+ name +:+ " " +:+ help +:+ nl +:+ "# TYPE " +:+ name +:+ " summary" +:+ nl) in
  let out := out +:+ quantile_line name "0.5" p50 in
  let out := out +:+ quantile_line name "0.99" p99 in
  let out := out +:+ quantile_line name "0.999" p999 in
  out +:+ snprintf 256 (name +:+ "_max " +:+ pretty maximum +:+ nl).

Definition seconds (ns : Z) : double := ddiv (double_of_Z ns) (double_of_Z 1000000000).

Definition renderPrometheus (s : Edge.RuntimeSnapshot) (snapshot_is_fresh : bool) : string :=
  let out :=
    "# safeedge runtime metrics" +:+ nl +:+
    "# Scraped from a seqlock snapshot published by the real-time loop; the" +:+ nl +:+
    "# scrape never blocks that loop and never takes a lock on its path." +:+ nl in
  let out := appendMetric out "safeedge_snapshot_fresh"
    "1 if the last scrape read a complete snapshot, 0 if it gave up retrying" "gauge"
    (double_of_Z (if snapshot_is_fresh then 1 else 0)) in
  let out := appendMetric out "safeedge_realtime_scheduling_granted"
    ("1 if the runtime obtained the real-time scheduling it requested. " +:+
     "When 0, every latency metric below describes the machine's load, not this code") "gauge"
    (double_of_Z (Edge.realtime_scheduling_granted s)) in
  let out := appendMetric out "safeedge_cycles_total" "Control cycles executed" "counter"
    (double_of_Z (Edge.cycles_executed s)) in
  let out := appendMetric out "safeedge_overruns_total"
    "Cycles that completed after their successor was already due" "counter"
    (double_of_Z (Edge.overruns s)) in
  let out := appendMetric out "safeedge_skipped_cycles_total"
    "Deadlines passed without a cycle running" "counter"
    (double_of_Z (Edge.skipped_cycles s)) in
  let out := appendMetric out "safeedge_allocation_violations_total"
    ("Allocations detected on the real-time path. Any value above zero is a " +:+
     "defect, not a warning") "counter"
    (double_of_Z (Edge.allocation_violations s)) in
  let out := appendQuantiles out "safeedge_wakeup_jitter_nanoseconds"
    "Scheduled deadline to actual wakeup" (Edge.jitter_p50_ns s) (Edge.jitter_p99_ns s)
    (Edge.jitter_p999_ns s) (Edge.jitter_max_ns s) in
  let out := appendQuantiles out "safeedge_execution_nanoseconds"
    "Callback entry to callback return" (Edge.execution_p50_ns s) (Edge.execution_p99_ns s)
    (Edge.execution_p99_ns s) (Edge.execution_max_ns s) in
  let out := appendMetric out "safeedge_safety_state"
    "Supervisor state: 0=STO 1=SelfTest 2=Stopping 3=SOS 4=SLS 5=Operational" "gauge"
    (double_of_Z (Edge.safety_state s)) in
  let out := appendMetric out "safeedge_fault_reason"
    "Latched fault reason, 0 when none. See safety_state_machine.hpp" "gauge"
    (double_of_Z (Edge.fault_reason s)) in
  let out := appendMetric out "safeedge_torque_permitted" "1 when torque is permitted" "gauge"
    (double_of_Z (Edge.torque_permitted s)) in
  let out := appendMetric out "safeedge_fault_latched"
    "1 while a fault is latched and awaiting acknowledgement" "gauge"
    (double_of_Z (Edge.fault_latched s)) in
  let out := appendMetric out "safeedge_estop_asserted"
    "1 when an external emergency stop is demanding a stop" "gauge"
    (double_of_Z (Edge.estop_asserted s)) in
  let out := appendMetric out "safeedge_safety_sequence"
    ("Increments on every safety state transition; lets a consumer tell a " +:+
     "repeated report from a new decision") "counter"
    (double_of_Z (Edge.safety_sequence s)) in
  let out := appendMetric out "safeedge_safety_state_age_seconds"
    "How long the runtime has been in its current safety state" "gauge"
    (seconds (Edge.safety_state_age_ns s)) in
  let out := appendLabelled out "safeedge_telegrams_total" "Safety telegrams processed"
    "counter" "result" "accepted" (double_of_Z (Edge.telegrams_accepted s)) in
  let out := out +:+ snprintf 256
    ("safeedge_telegrams_total{result=" +:+ quote +:+ "rejected" +:+ quote +:+ "} " +:+
     format_g (double_of_Z (Edge.telegrams_rejected s)) +:+ nl) in
  appendMetric out "safeedge_uptime_seconds" "Time since the runtime started" "gauge"
    (seconds (Edge.uptime_ns s)).

(** The handler of [/metrics]; a failed load leaves the empty snapshot. *)
Definition metrics (loaded : option Edge.RuntimeSnapshot) : HttpResponse :=
  mkResponse 200 "text/plain; version=0.0.4; charset=utf-8"
    (renderPrometheus (default Edge.newSnapshot loaded) (bool_decide (is_Some loaded))).
