(* ===== verification/MetricsBounds.v ===== *)
(** * How long a rendered number is

    The [%.6g] conversion of [src/src/edge/metrics.cpp] writes a short text
    without a line break, for every double the exposition can produce. *)

From Stdlib Require Import SpecFloat Ascii String.
From stdpp Require Import base numbers list option strings pretty.
From S2P Require Import Prelude Float64 Strings Snapshot Metrics MetricsExact.

#[local] Open Scope string_scope.
#[local] Open Scope Z_scope.

(** ** The mantissas of the doubles involved *)

(** A double whose exponent is in range and whose mantissa has at most 128 bits. *)
Definition moderate (v : double) : Prop :=
  match v with S754_finite _ m e => Z.pos m < 2 ^ 128 ∧ e ≤ 971 | _ => True end.

Lemma shr_1_bound r : 0 ≤ shr_m r → 0 ≤ shr_m (shr_1 r) ≤ shr_m r.
Proof. destruct r as [[|[p|p|]|p] ? ?]; simpl; lia. Qed.

Lemma iter_shr_bound p r : 0 ≤ shr_m r → 0 ≤ shr_m (SpecFloat.iter_pos shr_1 p r) ≤ shr_m r.
Proof.
  revert r. induction p as [p IH|p IH|]; intros r Hr; simpl; [| |by apply shr_1_bound].
  - pose proof (shr_1_bound r Hr). pose proof (IH (shr_1 r)).
    pose proof (IH (SpecFloat.iter_pos shr_1 p (shr_1 r))). lia.
  - pose proof (IH r). pose proof (IH (SpecFloat.iter_pos shr_1 p r)). lia.
Qed.

Lemma shr_bound r e n : 0 ≤ shr_m r → 0 ≤ shr_m (fst (shr r e n)) ≤ shr_m r.
Proof.
  intros Hr. destruct n as [|p|p]; cbn [shr fst]; [lia| |lia].
  by apply iter_shr_bound.
Qed.

Lemma shr_fexp_bound m e l :
  0 ≤ m → 0 ≤ shr_m (fst (shr_fexp kPrecision kMaxExponent m e l)) ≤ m.
Proof.
  intros Hm. unfold shr_fexp.
  assert (E : shr_m (shr_record_of_loc m l) = m) by by destruct l as [|[]].
  pose proof (shr_bound (shr_record_of_loc m l) e
    (fexp kPrecision kMaxExponent (Zdigits2 m + e) - e)) as H. lia.
Qed.

(** Rounding never adds more than one to the mantissa. *)
Lemma round_aux_moderate s m e l :
  0 ≤ m → m + 1 < 2 ^ 128 → moderate (binary_round_aux kPrecision kMaxExponent s m e l).
Proof.
  intros H0 Hm. unfold binary_round_aux.
  pose proof (shr_fexp_bound m e l H0) as H1.
  destruct (shr_fexp kPrecision kMaxExponent m e l) as [r1 e1]. cbn [fst] in H1.
  assert (H2 : 0 ≤ round_nearest_even (shr_m r1) (loc_of_shr_record r1) ≤ m + 1).
  { destruct (loc_of_shr_record r1) as [|[]]; simpl; try lia. destruct (Z.even _); lia. }
  set (m2 := round_nearest_even _ _) in *.
  pose proof (shr_fexp_bound m2 e1 loc_Exact ltac:(lia)) as H3.
  destruct (shr_fexp kPrecision kMaxExponent m2 e1 loc_Exact) as [r3 e3]. cbn [fst] in H3.
  destruct (shr_m r3) as [|p|p] eqn:E; [done| |lia].
  destruct (Z.leb_spec e3 (kMaxExponent - kPrecision)) as [H|H]; simpl; [|done].
  unfold kMaxExponent, kPrecision in H. lia.
Qed.

Lemma digits2_upper p : Z.pos p < 2 ^ Z.pos (digits2_pos p).
Proof.
  induction p as [p IH|p IH|]; cbn [digits2_pos]; [| |done];
    rewrite Pos2Z.inj_succ, Z.pow_succ_r; lia.
Qed.

Lemma double_of_Z_moderate n : 0 ≤ n < 2 ^ 64 → moderate (double_of_Z n).
Proof.
  intros Hn. destruct n as [|p|p]; [done| |lia].
  destruct (decide (digits2_pos p ≤ 53)%positive) as [H|H].
  - destruct (double_of_pos p H) as (m & e & -> & _ & He & Hm). simpl. split; [|lia].
    rewrite Hm. change (2 ^ 128) with (2 ^ 64 * 2 ^ 64).
    assert (2 ^ (- e) ≤ 2 ^ 64) by (apply Z.pow_le_mono_r; lia). nia.
  - unfold double_of_Z, binary_normalize, binary_round, shl_align.
    unfold fexp, emin, kPrecision, kMaxExponent.
    replace (Z.max _ _ - 0) with (Z.pos (digits2_pos p) - 53) by lia.
    destruct (Z.pos (digits2_pos p) - 53) as [|q|k] eqn:E; [lia| |lia].
    apply round_aux_moderate; lia.
Qed.

(** The quotient by a mantissa of 53 bits. *)
Lemma ddiv_moderate v s m e :
  (2 ≤ m)%positive → digits2_pos m = 53%positive → moderate v →
  moderate (ddiv v (S754_finite s m e)).
Proof.
  intros H2 Hd Hv. destruct v as [|x| |x n f]; [done..|]. destruct Hv as [Hn _].
  unfold ddiv, SFdiv, SFdiv_core_binary. cbn [Zdigits2]. rewrite Hd.
  set (e' := Z.min _ _). set (k := f - e - e').
  set (n' := match k with 0 => Z.pos n | Z.pos _ => Z.shiftl (Z.pos n) k | Z.neg _ => 0 end).
  assert (Hn' : 0 ≤ n' < 2 ^ 128).
  { subst n'. destruct (Z.lt_trichotomy k 0) as [Hk|[Hk|Hk]].
    - destruct k; lia.
    - rewrite Hk. lia.
    - assert (Hb : k ≤ 106 - Z.pos (digits2_pos n)).
      { subst k e'. revert Hk. unfold fexp, emin, kPrecision, kMaxExponent. lia. }
      replace (match k with 0 => _ | Z.pos _ => _ | Z.neg _ => _ end)
        with (Z.shiftl (Z.pos n) k) by (by destruct k).
      rewrite Z.shiftl_mul_pow2 by lia. pose proof (digits2_upper n) as Hu. split; [lia|].
      apply Z.lt_le_trans with (2 ^ Z.pos (digits2_pos n) * 2 ^ k).
      + apply Z.mul_lt_mono_pos_r; [apply Z.pow_pos_nonneg; lia|done].
      + rewrite <- Z.pow_add_r by lia. apply Z.pow_le_mono_r; lia. }
  pose proof (Z.div_eucl_eq n' (Z.pos m) ltac:(lia)) as Hq.
  pose proof (Z.mod_pos_bound n' (Z.pos m) ltac:(lia)) as Hr. unfold Z.modulo in Hr.
  destruct (Z.div_eucl n' (Z.pos m)) as [q r]. cbv beta iota.
  apply round_aux_moderate; [nia|]. assert (q ≤ 2 ^ 127) by nia.
  change (2 ^ 128) with (2 * 2 ^ 127). lia.
Qed.

Lemma seconds_moderate n : 0 ≤ n < 2 ^ 64 → moderate (seconds n).
Proof.
  intros Hn. unfold seconds.
  assert (E : ∃ m e, double_of_Z 1000000000 = S754_finite false m e ∧ (2 ≤ m)%positive ∧
    digits2_pos m = 53%positive) by (exists 8388608000000000%positive, (-23); by_compute).
  destruct E as (m & e & -> & H2 & Hd). by apply ddiv_moderate, double_of_Z_moderate.
Qed.

(** ** Whole seconds *)

Lemma digits2_lower p : 2 ^ (Z.pos (digits2_pos p) - 1) ≤ Z.pos p.
Proof.
  induction p as [p IH|p IH|]; cbn [digits2_pos]; [| |done];
    rewrite Pos2Z.inj_succ; unfold Z.succ; rewrite Z.add_simpl_r;
    replace (Z.pos (digits2_pos p)) with (Z.succ (Z.pos (digits2_pos p) - 1)) by lia;
    rewrite Z.pow_succ_r; lia.
Qed.

Lemma mantissa_range m : digits2_pos m = 53%positive → 2 ^ 52 ≤ Z.pos m < 2 ^ 53.
Proof. intros H. pose proof (digits2_lower m). pose proof (digits2_upper m). by rewrite H in *. Qed.

Lemma div_eucl_exact q d : d ≠ 0 → Z.div_eucl (q * d) d = (q, 0).
Proof.
  intros Hd. pose proof (Z.div_mul q d Hd) as Hq. pose proof (Z.mod_mul q d Hd) as Hr.
  unfold Z.div, Z.modulo in *. destruct (Z.div_eucl _ _). by subst.
Qed.

(** The quotient of the mantissas has 53 or 54 digits. *)
Lemma quotient_shift p m mp e ep :
  digits2_pos m = 53%positive → digits2_pos mp = 53%positive → e ≤ 0 → -52 ≤ ep ≤ 0 →
  Z.pos m * 2 ^ 53 = Z.pos p * 2 ^ (30 - e) * 8388608000000000 →
  Z.pos mp = Z.pos p * 2 ^ (- ep) →
  30 - e + ep = 0 ∧ Z.pos p * 2 ^ (30 - e) = Z.pos mp ∨
  30 - e + ep = 1 ∧ Z.pos p * 2 ^ (30 - e) = Z.pos mp~0.
Proof.
  intros Rm%mantissa_range Rp%mantissa_range He Hep Hq Hmp. set (q := Z.pos p * _) in *.
  change (2 ^ 52) with 4503599627370496 in *. change (2 ^ 53) with 9007199254740992 in *.
  destruct (Z.lt_ge_cases (30 - e + ep) 0) as [H|H].
  - assert (E : q * 2 ^ (- (30 - e + ep)) = Z.pos mp).
    { unfold q. rewrite Hmp, <- Z.mul_assoc, <- Z.pow_add_r by lia. do 2 f_equal. lia. }
    assert (2 ≤ 2 ^ (- (30 - e + ep)))
      by (change 2 with (2 ^ 1) at 1; apply Z.pow_le_mono_r; lia).
    clear Hmp. clearbody q. nia.
  - assert (E : q = Z.pos mp * 2 ^ (30 - e + ep)).
    { unfold q. rewrite Hmp, <- Z.mul_assoc, <- Z.pow_add_r by lia. do 2 f_equal. lia. }
    destruct (Z.lt_ge_cases (30 - e + ep) 2) as [H2|H2].
    { assert (30 - e + ep = 0 ∨ 30 - e + ep = 1) as [Ht|Ht] by lia;
        rewrite Ht in *; [left|right]; (split; [done|]); rewrite E; [apply Z.mul_1_r|lia]. }
    assert (4 ≤ 2 ^ (30 - e + ep))
      by (change 4 with (2 ^ 2) at 1; apply Z.pow_le_mono_r; lia).
    clear Hmp. clearbody q. nia.
Qed.

(** A whole number of seconds below one million is an exact double. *)
Lemma seconds_whole k : 0 ≤ k < 1000000 → seconds (k * 1000000000) = double_of_Z k.
Proof.
  intros Hk. destruct k as [|p|p]; [by_compute| |lia].
  destruct (double_of_pos p) as (mp & ep & -> & Hdp & Hep & Hmp).
  { apply digits2_bound. change (2 ^ 53) with 9007199254740992. lia. }
  destruct (double_of_pos (p * 1000000000)) as (m & e & Em & Hd & He & Hm).
  { apply digits2_bound. change (2 ^ 53) with 9007199254740992. lia. }
  unfold seconds. change (Z.pos p * 1000000000) with (Z.pos (p * 1000000000)). rewrite Em.
  assert (ED : double_of_Z 1000000000 = S754_finite false 8388608000000000 (-23)) by by_compute.
  rewrite ED. unfold ddiv, SFdiv, SFdiv_core_binary. cbn [Zdigits2]. rewrite Hd.
  change (Z.pos (digits2_pos 8388608000000000)) with 53. unfold fexp, emin, kPrecision, kMaxExponent.
  replace (Z.min _ _) with (e - 30) by lia. replace (e - -23 - (e - 30)) with 53 by lia.
  cbv beta iota. rewrite Z.shiftl_mul_pow2 by lia.
  assert (Eq : Z.pos m * 2 ^ 53 = Z.pos p * 2 ^ (30 - e) * 8388608000000000).
  { rewrite Hm. replace (30 - e) with (30 + - e) by lia. rewrite Z.pow_add_r by lia.
    change (2 ^ 53) with (2 ^ 30 * 8388608). lia. }
  rewrite Eq, div_eucl_exact by done. cbn [new_location xorb].
  destruct (quotient_shift p m mp e ep Hd Hdp (proj2 He) Hep Eq Hmp) as [[Ht ->]|[Ht ->]].
  - replace (e - 30) with ep by lia. apply round_aux_exact; [done|lia].
  - replace ep with (e - 30 + 1) by lia. apply (round_aux_zeros mp 1); [done|lia..].
Qed.

(** ** The digits *)

Lemma round_div_upper n d b : 0 < d → n < b * d → round_div n d ≤ b.
Proof.
  intros Hd Hn. unfold round_div.
  assert (n / d < b) by (apply Z.div_lt_upper_bound; lia).
  destruct (2 * (n mod d) <? d), (d <? 2 * (n mod d)), (Z.even (n / d)); lia.
Qed.

Lemma round_div_nonneg n d : 0 < d → 0 ≤ n → 0 ≤ round_div n d.
Proof.
  intros Hd Hn. unfold round_div. assert (0 ≤ n / d) by (apply Z.div_pos; lia).
  destruct (2 * (n mod d) <? d), (d <? 2 * (n mod d)), (Z.even (n / d)); lia.
Qed.

Lemma lift_from_spec fuel n d :
  0 < n < d → 1 ≤ lift_from fuel n d ≤ 1 + Z.of_nat fuel ∧ n * 10 ^ (lift_from fuel n d - 1) < d.
Proof.
  revert n. induction fuel as [|fuel IH]; intros n Hn; cbn [lift_from]; [simpl; lia|].
  destruct (Z.leb_spec d (10 * n)) as [H|H]; [simpl; lia|].
  destruct (IH (10 * n)) as [H1 H2]; [lia|]. split; [lia|].
  replace (1 + lift_from fuel (10 * n) d - 1) with (Z.succ (lift_from fuel (10 * n) d - 1)) by lia.
  rewrite Z.pow_succ_r by lia. lia.
Qed.

Lemma ilog10_from_le fuel n : 0 ≤ ilog10_from fuel n ≤ Z.of_nat fuel.
Proof.
  revert n. induction fuel as [|fuel IH]; intros n; cbn [ilog10_from]; [lia|].
  pose proof (IH (n / 10)). destruct (n <? 10); lia.
Qed.

(** The exponent puts the value below the next power of ten. *)
Lemma decimal_exponent_spec n d :
  0 < n → 0 < d → n < d * 2 ^ 1200 →
  let x := decimal_exponent n d in
  -401 ≤ x ≤ 1200 ∧ (0 ≤ x → n < d * 10 ^ (x + 1)) ∧ (x < 0 → n * 10 ^ (- x - 1) < d).
Proof.
  intros Hn Hd Hb. unfold decimal_exponent. destruct (Z.leb_spec d n) as [H|H]; cbv zeta.
  - assert (Hq : 1 ≤ n / d) by (apply Z.div_le_lower_bound; lia).
    destruct (ilog10_spec (n / d) Hq) as (H0 & _ & H2).
    assert (Hu : n / d < 2 ^ 1200) by (apply Z.div_lt_upper_bound; lia).
    apply Z.log2_lt_pow2 in Hu; [|lia].
    pose proof (ilog10_from_le (S (Z.to_nat (Z.log2 (n / d)))) (n / d)) as Hl.
    fold (ilog10 (n / d)) in Hl. pose proof (Z.log2_nonneg (n / d)).
    split; [lia|]. split; [|lia]. intros _.
    pose proof (Z.div_mod n d ltac:(lia)). pose proof (Z.mod_pos_bound n d Hd). nia.
  - destruct (lift_from_spec 400 n d) as [H1 H2]; [lia|].
    split; [lia|]. split; [lia|]. intros _. by rewrite Z.opp_involutive.
Qed.

Lemma six_digits_bound n d :
  0 < n → 0 < d → n < d * 2 ^ 1200 →
  0 ≤ fst (six_digits n d) ≤ 1000000 ∧ -401 ≤ snd (six_digits n d) ≤ 1201.
Proof.
  intros Hn Hd Hb. destruct (decimal_exponent_spec n d Hn Hd Hb) as (Hx & H1 & H2).
  unfold six_digits. set (x := decimal_exponent n d) in *. clearbody x.
  assert (Hs : 0 ≤ scaled n d (5 - x) ≤ 1000000).
  { change 1000000 with (10 ^ 6). unfold scaled. destruct (Z.leb_spec 0 (5 - x)) as [H|H].
    - assert (0 < 10 ^ (5 - x)) by (apply Z.pow_pos_nonneg; lia).
      split; [apply round_div_nonneg; nia|]. apply round_div_upper; [done|].
      destruct (Z.lt_ge_cases x 0) as [Hx0|Hx0].
      + replace (5 - x) with ((- x - 1) + 6) by lia. rewrite Z.pow_add_r by lia. nia.
      + replace 6 with ((x + 1) + (5 - x)) by lia. rewrite Z.pow_add_r by lia. nia.
    - assert (0 < 10 ^ (- (5 - x))) by (apply Z.pow_pos_nonneg; lia).
      split; [apply round_div_nonneg; nia|]. apply round_div_upper; [nia|].
      specialize (H1 ltac:(lia)). replace (x + 1) with (- (5 - x) + 6) in H1 by lia.
      rewrite Z.pow_add_r in H1 by lia. lia. }
  destruct (_ =? _); simpl; lia.
Qed.

(** ** The length *)

Lemma length_pad k n : String.length (pad k n) = k.
Proof. induction k as [|k IH]; simpl; [done|by rewrite IH]. Qed.

Lemma length_strip_zeros s : (String.length (strip_zeros s) ≤ String.length s)%nat.
Proof.
  induction s as [|c s IH]; cbn [strip_zeros String.length]; [done|].
  destruct (strip_zeros s); [case_bool_decide|]; simpl in *; lia.
Qed.

Lemma length_with_fraction w k f :
  0 ≤ w ≤ 1000000 → (String.length (with_fraction w k f) ≤ 8 + k)%nat.
Proof.
  intros Hw. unfold with_fraction.
  assert (String.length (pretty w) ≤ 7)%nat.
  { apply length_pretty_Z; [lia|]. change (10 ^ Z.of_nat 7) with 10000000. lia. }
  pose proof (length_strip_zeros (pad k f)) as Hs. rewrite length_pad in Hs.
  destruct (strip_zeros (pad k f)) as [|c kept]; [lia|].
  rewrite !length_append. change (String.length ".") with 1%nat. lia.
Qed.

Lemma length_exponent_text x : -9999 ≤ x ≤ 9999 → (String.length (exponent_text x) ≤ 7)%nat.
Proof.
  intros Hx. unfold exponent_text. rewrite !length_append.
  assert (String.length (pretty (Z.abs x)) ≤ 4)%nat.
  { apply length_pretty_Z; [lia|]. change (10 ^ Z.of_nat 4) with 10000. lia. }
  destruct (x <? 0), (Z.abs x <? 10); cbn [String.length]; lia.
Qed.

Lemma length_render_digits digits x :
  0 ≤ digits ≤ 1000000 → -9999 ≤ x ≤ 9999 → (String.length (render_digits digits x) ≤ 20)%nat.
Proof.
  intros Hd Hx. unfold render_digits.
  assert (Hq : ∀ k, 0 < k → 0 ≤ digits / k ≤ 1000000).
  { intros k Hk. split; [by apply Z.div_pos; lia|]. apply Z.div_le_upper_bound; nia. }
  destruct (Z.leb_spec (-4) x), (Z.ltb_spec x 6); cbn [andb].
  { etrans; [apply length_with_fraction, Hq, Z.pow_pos_nonneg; lia|]. lia. }
  all: rewrite length_append; pose proof (length_exponent_text x Hx);
    pose proof (length_with_fraction (digits / 100000) 5 (digits mod 100000)
      (Hq 100000 ltac:(lia))); lia.
Qed.

Lemma length_format_g v : moderate v → (String.length (format_g v) ≤ 21)%nat.
Proof.
  intros Hv. destruct v as [[]|[]| |s m e]; [cbn; lia..|]. destruct Hv as [Hm He].
  unfold format_g.
  assert (Hb : ∃ n d, (if 0 <=? e then (Z.pos m * 2 ^ e, 1) else (Z.pos m, 2 ^ (- e))) = (n, d) ∧
    0 < n ∧ 0 < d ∧ n < d * 2 ^ 1200).
  { destruct (Z.leb_spec 0 e) as [H|H]; eexists _, _; (split; [done|]).
    - assert (0 < 2 ^ e ≤ 2 ^ 971)
        by (split; [apply Z.pow_pos_nonneg|apply Z.pow_le_mono_r]; lia).
      split; [nia|]. split; [lia|]. rewrite Z.mul_1_l.
      apply Z.le_lt_trans with (2 ^ 128 * 2 ^ 971); [nia|by_compute].
    - assert (0 < 2 ^ (- e)) by (apply Z.pow_pos_nonneg; lia).
      split; [lia|]. split; [done|]. apply Z.lt_le_trans with (2 ^ 128); [done|].
      apply Z.le_trans with (1 * 2 ^ 1200); [by_compute|]. apply Z.mul_le_mono_nonneg_r; [|lia].
      by_compute. }
  destruct Hb as (n & d & -> & Hn & Hd & Hnd).
  pose proof (six_digits_bound n d Hn Hd Hnd) as [H1 H2].
  destruct (six_digits n d) as [digits x]. cbn [fst snd] in *. rewrite length_append.
  pose proof (length_render_digits digits x H1 ltac:(lia)). destruct s; cbn [String.length]; lia.
Qed.

(** ** No line break *)

Fixpoint single_line (s : string) : bool :=
  match s with
  | EmptyString => true
  | String c s => negb (bool_decide (c = "010"%char)) && single_line s
  end.

Lemma single_line_append a b : single_line (a +:+ b) = single_line a && single_line b.
Proof.
  induction a as [|c a IH]; [done|].
  change (single_line (String c (a +:+ b)) = single_line (String c a) && single_line b).
  cbn [single_line]. by rewrite IH, andb_assoc.
Qed.

Lemma digit_not_nl n : negb (bool_decide (pretty_N_char n = "010"%char)) = true.
Proof. destruct n as [|[[[[]|[]|]|[[]|[]|]|]|[[[]|[]|]|[[]|[]|]|]|]]; done. Qed.

Lemma single_line_pretty_go n s : single_line s = true → single_line (pretty_N_go n s) = true.
Proof.
  apply (pretty_N_go_ind (λ s, single_line s = true)). intros d s' _ Hs.
  cbn [single_line]. by rewrite digit_not_nl.
Qed.

Lemma single_line_pretty (n : Z) : single_line (pretty n) = true.
Proof.
  destruct n as [|p|p]; [done| |].
  - by apply (single_line_pretty_go (N.pos p) EmptyString).
  - change (single_line ("-" +:+ pretty_N_go (N.pos p) EmptyString) = true).
    rewrite single_line_append. by apply andb_true_intro; split; [|apply single_line_pretty_go].
Qed.

Lemma single_line_strip s : single_line s = true → single_line (strip_zeros s) = true.
Proof.
  induction s as [|c s IH]; cbn [strip_zeros single_line]; [done|].
  intros [Hc Hs]%andb_prop. specialize (IH Hs). destruct (strip_zeros s) as [|x y].
  - destruct (bool_decide (c = "0"%char)); cbn [single_line]; [done|by rewrite Hc].
  - change (negb (bool_decide (c = "010"%char)) && single_line (String x y) = true).
    by rewrite Hc, IH.
Qed.

Lemma single_line_pad k n : single_line (pad k n) = true.
Proof. induction k as [|k IH]; cbn [pad single_line]; [done|by rewrite digit_not_nl]. Qed.

Lemma single_line_with_fraction w k f : single_line (with_fraction w k f) = true.
Proof.
  unfold with_fraction. pose proof (single_line_strip _ (single_line_pad k f)) as H.
  destruct (strip_zeros (pad k f)); [apply single_line_pretty|].
  by rewrite !single_line_append, single_line_pretty, H.
Qed.

Lemma single_line_format_g v : single_line (format_g v) = true.
Proof.
  destruct v as [[]|[]| |s m e]; [done..|]. unfold format_g.
  destruct (if 0 <=? e then _ else _) as [n d], (six_digits n d) as [digits x].
  rewrite single_line_append. unfold render_digits, exponent_text.
  destruct s, (-4 <=? x), (x <? 6), (x <? 0), (Z.abs x <? 10); cbn [andb];
    rewrite ?single_line_append, ?single_line_with_fraction, ?single_line_pretty; done.
Qed.
