(* ===== verification/MetricsScrape.v ===== *)
(** * What a scrape reads

    The exposition of [src/src/edge/metrics.cpp] read by a client line by line:
    no line is cut by its buffer, every counter, gauge and latency figure of the
    snapshot is found under its name, integers and whole seconds below one
    million are read exactly, and there is one sample more than figures. *)

From Stdlib Require Import SpecFloat Ascii String.
From stdpp Require Import base numbers list option strings pretty.
From S2P Require Import Prelude Float64 Strings HttpServer Snapshot Metrics MetricsExact MetricsBounds.

#[local] Open Scope string_scope.
#[local] Open Scope Z_scope.

(** ** A client *)

(** The lines of a text, each ended by a line break. *)
Fixpoint split_lines_from (line : string) (s : string) : list string :=
  match s with
  | EmptyString => []
  | String c s =>
      if bool_decide (c = "010"%char) then line :: split_lines_from EmptyString s
      else split_lines_from (line +:+ String c EmptyString) s
  end.
Definition split_lines : string → list string := split_lines_from EmptyString.

(** What follows [p] in [s], if [s] starts with [p]. *)
Fixpoint after (p s : string) : option string :=
  match p, s with
  | EmptyString, _ => Some s
  | String a p, String b s => if bool_decide (a = b) then after p s else None
  | String _ _, EmptyString => None
  end.

(** The value of the first sample with this name and label. *)
Fixpoint first_after (p : string) (l : list string) : option string :=
  match l with
  | [] => None
  | line :: l => match after p line with Some v => Some v | None => first_after p l end
  end.
Definition sample (name text : string) : option string :=
  first_after (name +:+ " ") (split_lines text).

(** The names, labels included, of the samples: the lines that are not comments,
    up to their first space. *)
Fixpoint until_space (s : string) : string :=
  match s with
  | EmptyString => EmptyString
  | String c s => if bool_decide (c = " "%char) then EmptyString else String c (until_space s)
  end.
Definition sample_name (line : string) : option string :=
  match line with
  | String "#" _ => None
  | _ => Some (until_space line)
  end.
Definition sample_names (text : string) : list string := omap sample_name (split_lines text).

(** ** The lines of the exposition *)

(** A line is a fixed head and a rendered tail. *)
Definition text (doc : list (string * string)) : string :=
  foldr (λ '(h, t) rest, h +:+ t +:+ nl +:+ rest) EmptyString doc.

Definition help_lines (name help type : string) : list (string * string) :=
  [("# HELP " +:+ name +:+ " " +:+ help, EmptyString);
   ("# TYPE " +:+ name +:+ " " +:+ type, EmptyString)].

Definition label (name key value : string) : string :=
  name +:+ "{" +:+ key +:+ "=" +:+ quote +:+ value +:+ quote +:+ "}".

Definition metric_lines (name help type : string) (v : double) : list (string * string) :=
  help_lines name help type ++ [(name +:+ " ", format_g v)].

Definition labelled_lines (name help type key value : string) (v : double)
  : list (string * string) :=
  help_lines name help type ++ [(label name key value +:+ " ", format_g v)].

Definition quantile_lines (name help : string) (p50 p99 p999 maximum : Z)
  : list (string * string) :=
  help_lines name help "summary" ++
  [(label name "quantile" "0.5" +:+ " ", pretty p50);
   (label name "quantile" "0.99" +:+ " ", pretty p99);
   (label name "quantile" "0.999" +:+ " ", pretty p999);
   (name +:+ "_max ", pretty maximum)].

Lemma text_app a b : text (a ++ b) = text a +:+ text b.
Proof.
  induction a as [|[h t] a IH]; [done|].
  change (h +:+ t +:+ nl +:+ text (a ++ b) = (h +:+ t +:+ nl +:+ text a) +:+ text b).
  by rewrite IH, !append_assoc.
Qed.

Lemma text_cons h t l : text ((h, t) :: l) = h +:+ t +:+ nl +:+ text l.
Proof. done. Qed.

(** Each append of the exposition adds its lines, if its buffer is large enough. *)
Lemma appendMetric_text l name help type v :
  moderate v → (3 * String.length name + String.length help + 2 * String.length type < 450)%nat →
  appendMetric (text l) name help type v = text (l ++ metric_lines name help type v).
Proof.
  intros Hv Hlen. unfold appendMetric. rewrite text_app. f_equal.
  pose proof (length_format_g v Hv). rewrite snprintf_fits.
  - unfold metric_lines, help_lines. cbn [app]. rewrite !text_cons. change (text []) with EmptyString.
    by rewrite !append_nil, <- !append_assoc.
  - rewrite !length_append. cbn [String.length nl]. lia.
Qed.

Lemma appendLabelled_text l name help type key value v :
  moderate v →
  (3 * String.length name + String.length help + String.length type + String.length key +
   String.length value < 450)%nat →
  appendLabelled (text l) name help type key value v =
  text (l ++ labelled_lines name help type key value v).
Proof.
  intros Hv Hlen. unfold appendLabelled. rewrite text_app. f_equal.
  pose proof (length_format_g v Hv). rewrite snprintf_fits.
  - unfold labelled_lines, help_lines, label. cbn [app]. rewrite !text_cons.
    change (text []) with EmptyString. by rewrite !append_nil, <- !append_assoc.
  - rewrite !length_append. cbn [String.length nl quote]. lia.
Qed.

Lemma length_pretty_i64 n : is_i64 n → (String.length (pretty n) ≤ 20)%nat.
Proof.
  intros Hn. destruct (Z.le_gt_cases 0 n) as [H|H].
  { apply length_pretty_Z; [lia|]. change (10 ^ Z.of_nat 20) with 100000000000000000000.
    solve_range. }
  destruct n as [|p|p]; [lia..|].
  change (pretty (Z.neg p)) with ("-" +:+ pretty (Z.pos p)). rewrite length_append.
  assert (String.length (pretty (Z.pos p)) ≤ 19)%nat; [|cbn [String.length]; lia].
  apply length_pretty_Z; [lia|]. change (10 ^ Z.of_nat 19) with 10000000000000000000.
  split; [lia|]. destruct Hn as [Hn _]. change (- 2 ^ (64 - 1)) with (-9223372036854775808) in Hn. lia.
Qed.

Lemma quantile_line_text name q v :
  is_i64 v → (String.length name + String.length q < 200)%nat →
  quantile_line name q v = text [(label name "quantile" q +:+ " ", pretty v)].
Proof.
  intros Hv Hlen. unfold quantile_line. pose proof (length_pretty_i64 v Hv).
  rewrite snprintf_fits.
  - unfold label. rewrite text_cons. change (text []) with EmptyString.
    by rewrite <- !append_assoc, append_nil.
  - rewrite !length_append. cbn [String.length nl quote]. lia.
Qed.

Lemma appendQuantiles_text l name help p50 p99 p999 maximum :
  is_i64 p50 → is_i64 p99 → is_i64 p999 → is_i64 maximum →
  (2 * String.length name + String.length help < 190)%nat →
  appendQuantiles (text l) name help p50 p99 p999 maximum =
  text (l ++ quantile_lines name help p50 p99 p999 maximum).
Proof.
  intros H1 H2 H3 H4 Hlen. unfold appendQuantiles. cbv zeta.
  rewrite !quantile_line_text by (done || cbn [String.length]; lia).
  pose proof (length_pretty_i64 maximum H4).
  rewrite (snprintf_fits _ ("# HELP " +:+ _)), snprintf_fits
    by (rewrite !length_append; cbn [String.length nl]; lia).
  rewrite text_app, <- !append_assoc. f_equal. unfold quantile_lines, help_lines. cbn [app].
  rewrite !text_cons. change (text []) with EmptyString. by rewrite !append_nil, <- !append_assoc.
Qed.

(** ** Reading the lines back *)

Definition line_ok (l : string * string) : Prop :=
  single_line (fst l) = true ∧ single_line (snd l) = true.

Lemma split_lines_line acc s rest :
  single_line s = true →
  split_lines_from acc (s +:+ nl +:+ rest) = (acc +:+ s) :: split_lines_from EmptyString rest.
Proof.
  revert acc. induction s as [|c s IH]; intros acc Hs.
  - change (split_lines_from acc (String "010" rest) = (acc +:+ EmptyString) ::
      split_lines_from EmptyString rest). by rewrite append_nil.
  - cbn [single_line] in Hs. apply andb_prop in Hs as [Hc Hs].
    change (split_lines_from acc (String c (s +:+ nl +:+ rest)) = (acc +:+ String c s) ::
      split_lines_from EmptyString rest). cbn [split_lines_from].
    destruct (bool_decide (c = "010"%char)); [done|]. rewrite IH by done. by rewrite <- append_assoc.
Qed.

Lemma split_lines_text doc :
  Forall line_ok doc → split_lines (text doc) = (λ l, fst l +:+ snd l) <$> doc.
Proof.
  induction 1 as [|[h t] doc [Hh Ht] _ IH]; [done|]. rewrite text_cons, append_assoc.
  unfold split_lines. rewrite split_lines_line.
  - cbn [fmap list_fmap fst snd]. by f_equal.
  - cbn [fst snd] in *. by rewrite single_line_append, Hh, Ht.
Qed.

(** Two heads of which neither is a prefix of the other. *)
Fixpoint diverge (p q : string) : bool :=
  match p, q with
  | String a p, String b q => if bool_decide (a = b) then diverge p q else true
  | _, _ => false
  end.

Lemma after_diverge p q t : diverge p q = true → after p (q +:+ t) = None.
Proof.
  revert q. induction p as [|a p IH]; intros [|b q] H; [done..|]. cbn [diverge] in H.
  change (after (String a p) (String b (q +:+ t)) = None). cbn [after].
  destruct (bool_decide (a = b)); [by apply IH|done].
Qed.

Lemma after_same p t : after p (p +:+ t) = Some t.
Proof.
  induction p as [|a p IH]; [done|].
  change (after (String a p) (String a (p +:+ t)) = Some t). cbn [after].
  by rewrite bool_decide_true.
Qed.

(** The tail of the line with this head, if every earlier head diverges from it. *)
Fixpoint pick (p : string) (doc : list (string * string)) : option string :=
  match doc with
  | [] => None
  | (h, t) :: doc =>
      if String.eqb p h then Some t else if diverge p h then pick p doc else None
  end.

Lemma pick_first p doc v :
  pick p doc = Some v → first_after p ((λ l, fst l +:+ snd l) <$> doc) = Some v.
Proof.
  induction doc as [|[h t] doc IH]; [done|]. cbn [pick fmap list_fmap first_after fst snd].
  destruct (String.eqb_spec p h) as [->|_]; [by rewrite after_same|].
  destruct (diverge p h) eqn:E; [|done]. rewrite after_diverge by done. exact IH.
Qed.

Lemma sample_text name doc v :
  Forall line_ok doc → pick (name +:+ " ") doc = Some v → sample name (text doc) = Some v.
Proof. intros Hd Hp. unfold sample. rewrite split_lines_text by done. by apply pick_first. Qed.

(** ** The whole exposition *)

Definition document (s : Edge.RuntimeSnapshot) (snapshot_is_fresh : bool)
  : list (string * string) :=
  let doc :=
    [("# safeedge runtime metrics", EmptyString);
     ("# Scraped from a seqlock snapshot published by the real-time loop; the", EmptyString);
     ("# scrape never blocks that loop and never takes a lock on its path.", EmptyString)] in
  let doc := app doc $ metric_lines "safeedge_snapshot_fresh"
    "1 if the last scrape read a complete snapshot, 0 if it gave up retrying" "gauge"
    (double_of_Z (if snapshot_is_fresh then 1 else 0)) in
  let doc := app doc $ metric_lines "safeedge_realtime_scheduling_granted"
    ("1 if the runtime obtained the real-time scheduling it requested. " +:+
     "When 0, every latency metric below describes the machine's load, not this code") "gauge"
    (double_of_Z (Edge.realtime_scheduling_granted s)) in
  let doc := app doc $ metric_lines "safeedge_cycles_total" "Control cycles executed" "counter"
    (double_of_Z (Edge.cycles_executed s)) in
  let doc := app doc $ metric_lines "safeedge_overruns_total"
    "Cycles that completed after their successor was already due" "counter"
    (double_of_Z (Edge.overruns s)) in
  let doc := app doc $ metric_lines "safeedge_skipped_cycles_total"
    "Deadlines passed without a cycle running" "counter"
    (double_of_Z (Edge.skipped_cycles s)) in
  let doc := app doc $ metric_lines "safeedge_allocation_violations_total"
    ("Allocations detected on the real-time path. Any value above zero is a " +:+
     "defect, not a warning") "counter"
    (double_of_Z (Edge.allocation_violations s)) in
  let doc := app doc $ quantile_lines "safeedge_wakeup_jitter_nanoseconds"
    "Scheduled deadline to actual wakeup" (Edge.jitter_p50_ns s) (Edge.jitter_p99_ns s)
    (Edge.jitter_p999_ns s) (Edge.jitter_max_ns s) in
  let doc := app doc $ quantile_lines "safeedge_execution_nanoseconds"
    "Callback entry to callback return" (Edge.execution_p50_ns s) (Edge.execution_p99_ns s)
    (Edge.execution_p99_ns s) (Edge.execution_max_ns s) in
  let doc := app doc $ metric_lines "safeedge_safety_state"
    "Supervisor state: 0=STO 1=SelfTest 2=Stopping 3=SOS 4=SLS 5=Operational" "gauge"
    (double_of_Z (Edge.safety_state s)) in
  let doc := app doc $ metric_lines "safeedge_fault_reason"
    "Latched fault reason, 0 when none. See safety_state_machine.hpp" "gauge"
    (double_of_Z (Edge.fault_reason s)) in
  let doc := app doc $ metric_lines "safeedge_torque_permitted" "1 when torque is permitted" "gauge"
    (double_of_Z (Edge.torque_permitted s)) in
  let doc := app doc $ metric_lines "safeedge_fault_latched"
    "1 while a fault is latched and awaiting acknowledgement" "gauge"
    (double_of_Z (Edge.fault_latched s)) in
  let doc := app doc $ metric_lines "safeedge_estop_asserted"
    "1 when an external emergency stop is demanding a stop" "gauge"
    (double_of_Z (Edge.estop_asserted s)) in
  let doc := app doc $ metric_lines "safeedge_safety_sequence"
    ("Increments on every safety state transition; lets a consumer tell a " +:+
     "repeated report from a new decision") "counter"
    (double_of_Z (Edge.safety_sequence s)) in
  let doc := app doc $ metric_lines "safeedge_safety_state_age_seconds"
    "How long the runtime has been in its current safety state" "gauge"
    (seconds (Edge.safety_state_age_ns s)) in
  let doc := app doc $ labelled_lines "safeedge_telegrams_total" "Safety telegrams processed"
    "counter" "result" "accepted" (double_of_Z (Edge.telegrams_accepted s)) in
  let doc := app doc $ [(label "safeedge_telegrams_total" "result" "rejected" +:+ " ",
    format_g (double_of_Z (Edge.telegrams_rejected s)))] in
  app doc $ metric_lines "safeedge_uptime_seconds" "Time since the runtime started" "gauge"
    (seconds (Edge.uptime_ns s)).

(** The fields have the widths of their types, and the uptime is not negative. *)
Definition snapshot_ok (s : Edge.RuntimeSnapshot) : Prop :=
  Forall is_u64 [Edge.cycles_executed s; Edge.overruns s; Edge.skipped_cycles s;
    Edge.allocation_violations s; Edge.safety_sequence s; Edge.safety_state_age_ns s;
    Edge.telegrams_accepted s; Edge.telegrams_rejected s] ∧
  Forall is_u32 [Edge.safety_state s; Edge.fault_reason s; Edge.torque_permitted s;
    Edge.fault_latched s; Edge.estop_asserted s; Edge.realtime_scheduling_granted s] ∧
  Forall is_i64 [Edge.jitter_p50_ns s; Edge.jitter_p99_ns s; Edge.jitter_p999_ns s;
    Edge.jitter_max_ns s; Edge.execution_p50_ns s; Edge.execution_p99_ns s;
    Edge.execution_max_ns s; Edge.uptime_ns s] ∧
  0 ≤ Edge.uptime_ns s.

#[export] Instance snapshot_ok_dec s : Decision (snapshot_ok s).
Proof. unfold snapshot_ok; apply _. Defined.

Ltac destruct_forall :=
  repeat match goal with
  | H : Forall _ (_ :: _) |- _ => apply Forall_cons in H as [? H]
  | H : Forall _ [] |- _ => clear H
  end.

Lemma u64_moderate n : is_u64 n → moderate (double_of_Z n).
Proof. intros H. apply double_of_Z_moderate. solve_range. Qed.

Lemma u32_moderate n : is_u32 n → moderate (double_of_Z n).
Proof. intros H. apply double_of_Z_moderate. solve_range. Qed.

Lemma rejected_text l v :
  moderate v →
  text l +:+ snprintf 256
    ("safeedge_telegrams_total{result=" +:+ quote +:+ "rejected" +:+ quote +:+ "} " +:+
     format_g v +:+ nl) =
  text (l ++ [(label "safeedge_telegrams_total" "result" "rejected" +:+ " ", format_g v)]).
Proof.
  intros Hv. rewrite text_app. f_equal. rewrite snprintf_fits; [done|].
  rewrite !length_append. pose proof (length_format_g v Hv). cbn [String.length nl quote]. lia.
Qed.

Lemma render_document s fresh : snapshot_ok s → renderPrometheus s fresh = text (document s fresh).
Proof.
  intros (H64 & H32 & Hi & Hup). destruct_forall. unfold renderPrometheus, document. cbv zeta.
  match goal with |- context [appendMetric ?h "safeedge_snapshot_fresh"] =>
    change h with (text [("# safeedge runtime metrics", EmptyString);
      ("# Scraped from a seqlock snapshot published by the real-time loop; the", EmptyString);
      ("# scrape never blocks that loop and never takes a lock on its path.", EmptyString)])
  end.
  assert (moderate (seconds (Edge.safety_state_age_ns s))) by (apply seconds_moderate; solve_range).
  assert (moderate (seconds (Edge.uptime_ns s))) by (apply seconds_moderate; solve_range).
  assert (Hr : moderate (double_of_Z (Edge.telegrams_rejected s))) by by apply u64_moderate.
  assert (moderate (double_of_Z (if fresh then 1 else 0))) by by destruct fresh.
  rewrite !appendMetric_text by (auto using u64_moderate, u32_moderate; by_compute).
  rewrite !appendQuantiles_text by (done || by_compute).
  rewrite !appendMetric_text by (auto using u64_moderate, u32_moderate; by_compute).
  rewrite appendLabelled_text by (auto using u64_moderate; by_compute).
  rewrite rejected_text by done.
  by rewrite appendMetric_text by (done || by_compute).
Qed.

Lemma help_lines_ok name help type :
  single_line (name +:+ help +:+ type) = true → Forall line_ok (help_lines name help type).
Proof.
  rewrite !single_line_append. intros [Hn [Hh Ht]%andb_prop]%andb_prop.
  apply Forall_cons; split; [|apply Forall_cons; split; [|done]]; (split; [|done]); cbn [fst];
    by rewrite !single_line_append, Hn, ?Hh, ?Ht.
Qed.

Lemma metric_lines_ok name help type v :
  single_line (name +:+ help +:+ type) = true → Forall line_ok (metric_lines name help type v).
Proof.
  intros H. apply Forall_app_2; [by apply help_lines_ok|]. constructor; [|done].
  split; [|apply single_line_format_g]. cbn [fst]. rewrite !single_line_append in *.
  by apply andb_prop in H as [-> _].
Qed.

Lemma document_ok s fresh : Forall line_ok (document s fresh).
Proof.
  unfold document. cbv zeta.
  repeat (apply Forall_app_2; [|first
    [by apply metric_lines_ok
    |repeat constructor; solve [done | apply single_line_pretty | apply single_line_format_g]]]).
  by repeat constructor.
Qed.

(** The samples whose value is an integer converted to a double. *)
Definition integer_samples (s : Edge.RuntimeSnapshot) (fresh : bool) : list (string * Z) :=
  [("safeedge_snapshot_fresh", if fresh then 1 else 0);
   ("safeedge_realtime_scheduling_granted", Edge.realtime_scheduling_granted s);
   ("safeedge_cycles_total", Edge.cycles_executed s);
   ("safeedge_overruns_total", Edge.overruns s);
   ("safeedge_skipped_cycles_total", Edge.skipped_cycles s);
   ("safeedge_allocation_violations_total", Edge.allocation_violations s);
   ("safeedge_safety_state", Edge.safety_state s);
   ("safeedge_fault_reason", Edge.fault_reason s);
   ("safeedge_torque_permitted", Edge.torque_permitted s);
   ("safeedge_fault_latched", Edge.fault_latched s);
   ("safeedge_estop_asserted", Edge.estop_asserted s);
   ("safeedge_safety_sequence", Edge.safety_sequence s);
   (label "safeedge_telegrams_total" "result" "accepted", Edge.telegrams_accepted s);
   (label "safeedge_telegrams_total" "result" "rejected", Edge.telegrams_rejected s)].

(** The samples printed as integers: the latency figures the snapshot has. *)
Definition latency_samples (s : Edge.RuntimeSnapshot) : list (string * Z) :=
  [(label "safeedge_wakeup_jitter_nanoseconds" "quantile" "0.5", Edge.jitter_p50_ns s);
   (label "safeedge_wakeup_jitter_nanoseconds" "quantile" "0.99", Edge.jitter_p99_ns s);
   (label "safeedge_wakeup_jitter_nanoseconds" "quantile" "0.999", Edge.jitter_p999_ns s);
   ("safeedge_wakeup_jitter_nanoseconds_max", Edge.jitter_max_ns s);
   (label "safeedge_execution_nanoseconds" "quantile" "0.5", Edge.execution_p50_ns s);
   (label "safeedge_execution_nanoseconds" "quantile" "0.99", Edge.execution_p99_ns s);
   ("safeedge_execution_nanoseconds_max", Edge.execution_max_ns s)].

(** The samples in seconds, with their nanoseconds. *)
Definition seconds_samples (s : Edge.RuntimeSnapshot) : list (string * Z) :=
  [("safeedge_safety_state_age_seconds", Edge.safety_state_age_ns s);
   ("safeedge_uptime_seconds", Edge.uptime_ns s)].

(** The sample of a figure that the snapshot does not have. *)
Definition kMisnamed : string := label "safeedge_execution_nanoseconds" "quantile" "0.999".

(** What a sample reads, whatever its value. *)
Lemma integer_sample_text s fresh :
  snapshot_ok s →
  Forall (λ '(name, v), sample name (renderPrometheus s fresh) = Some (format_g (double_of_Z v)))
    (integer_samples s fresh).
Proof.
  intros Hs. rewrite render_document by done. pose proof (document_ok s fresh) as Hd.
  unfold integer_samples. repeat (apply Forall_cons; split; [by apply sample_text|]). done.
Qed.

Lemma seconds_sample_text s fresh :
  snapshot_ok s →
  Forall (λ '(name, ns), sample name (renderPrometheus s fresh) = Some (format_g (seconds ns)))
    (seconds_samples s).
Proof.
  intros Hs. rewrite render_document by done. pose proof (document_ok s fresh) as Hd.
  unfold seconds_samples. repeat (apply Forall_cons; split; [by apply sample_text|]). done.
Qed.

(** *** The samples there are *)

Fixpoint has_space (s : string) : bool :=
  match s with
  | EmptyString => false
  | String c s => bool_decide (c = " "%char) || has_space s
  end.

Lemma until_space_append h t : has_space h = true → until_space (h +:+ t) = until_space h.
Proof.
  induction h as [|c h IH]; [done|]. cbn [has_space].
  change (String c h +:+ t) with (String c (h +:+ t)). cbn [until_space].
  destruct (bool_decide _); [done|]. intros H. by rewrite IH.
Qed.

Lemma sample_name_append h t : has_space h = true → sample_name (h +:+ t) = sample_name h.
Proof.
  intros H. pose proof (until_space_append h t H) as E. destruct h as [|c h]; [done|].
  change (String c h +:+ t) with (String c (h +:+ t)) in *.
  unfold sample_name. rewrite E. by destruct c as [[] [] [] [] [] [] [] []].
Qed.

Lemma sample_names_text doc :
  Forall line_ok doc → Forall (λ l, has_space (fst l) = true) doc →
  sample_names (text doc) = omap sample_name (map fst doc).
Proof.
  intros Hl Hs. unfold sample_names. rewrite split_lines_text by done. clear Hl.
  induction Hs as [|[h t] doc H _ IH]; [done|]. cbn in *.
  rewrite sample_name_append by done. by rewrite IH.
Qed.

(** The heads of the lines are the same for every snapshot. *)
Lemma render_names s fresh :
  snapshot_ok s →
  sample_names (renderPrometheus s fresh) =
  omap sample_name (map fst (document Edge.newSnapshot false)).
Proof.
  intros Hs. rewrite render_document by done.
  assert (E : map fst (document s fresh) = map fst (document Edge.newSnapshot false))
    by reflexivity.
  rewrite sample_names_text, E; [done|apply document_ok|].
  apply Forall_map with (f := fst) (P := λ h, has_space h = true). rewrite E. by_compute.
Qed.

(** C31: A scrape of [/metrics] reads what the snapshot holds. Every counter and gauge
    is found under its name, and one below one million is read exactly; every
    latency figure the snapshot has is read exactly under its own quantile,
    whatever its size; the two times in seconds are found under their names,
    rounded to six digits, and a whole number of seconds below one million is
    read exactly. No name occurs twice, and there is no further sample but one:
    the 0.999 quantile of the execution time, a figure that the snapshot does
    not have, under which the 0.99 quantile is read again. After a failed load
    the same holds of the empty snapshot, marked as not fresh. *)
Theorem scrape_reads_snapshot loaded :
  let s := default Edge.newSnapshot loaded in
  let fresh := bool_decide (is_Some loaded) in
  let text := body (metrics loaded) in
  snapshot_ok s →
  Forall (λ '(name, v), 0 ≤ v < 1000000 → sample name text = Some (pretty v))
    (integer_samples s fresh) ∧
  Forall (λ '(name, v), sample name text = Some (pretty v)) (latency_samples s) ∧
  Forall (λ '(name, ns), sample name text = Some (format_g (seconds ns)) ∧
    ∀ k, 0 ≤ k < 1000000 → ns = k * 1000000000 → sample name text = Some (pretty k))
    (seconds_samples s) ∧
  sample kMisnamed text = Some (pretty (Edge.execution_p99_ns s)) ∧
  NoDup (sample_names text) ∧
  sample_names text ⊆ kMisnamed :: map fst (integer_samples s fresh) ++
    map fst (latency_samples s) ++ map fst (seconds_samples s).
Proof.
  cbv zeta. cbn [metrics body]. set (s := default _ _). set (fresh := bool_decide _).
  intros Hs. split_and!.
  - eapply Forall_impl; [by apply integer_sample_text|]. intros [name v] -> Hv.
    by rewrite format_g_integer.
  - rewrite render_document by done. pose proof (document_ok s fresh) as Hd.
    unfold latency_samples. repeat (apply Forall_cons; split; [by apply sample_text|]). done.
  - eapply Forall_impl; [by apply seconds_sample_text|]. intros [name ns] E. split; [done|].
    intros k Hk ->. by rewrite E, seconds_whole, format_g_integer.
  - rewrite render_document by done. apply sample_text; [apply document_ok|done].
  - rewrite render_names by done. by_compute.
  - rewrite render_names by done.
    assert (H : Forall (λ n, n ∈ kMisnamed :: map fst (integer_samples Edge.newSnapshot false) ++
        map fst (latency_samples Edge.newSnapshot) ++ map fst (seconds_samples Edge.newSnapshot))
      (omap sample_name (map fst (document Edge.newSnapshot false)))) by by_compute.
    intros n Hn. exact (proj1 (list.Forall_forall _ _) H n Hn).
Qed.

Lemma scrape_reads_snapshot_witness :
  let s := Edge.mkSnapshot 999999 3 0 0 1200 45000 (-5) 250000 900 2100 3000 5 0 1 0
    1234567890123 17 2500000000 0 12 1 0 61000000000 in
  sample "safeedge_cycles_total" (body (metrics (Some s))) = Some "999999" ∧
  sample "safeedge_uptime_seconds" (body (metrics (Some s))) = Some "61".
Proof.
  intros s. destruct (scrape_reads_snapshot (Some s)) as (H & _ & Hu & _); [by_compute|].
  split.
  - apply Forall_cons in H as [_ H]. apply Forall_cons in H as [_ H]. apply Forall_cons in H as [H _].
    apply H. by_compute.
  - apply Forall_cons in Hu as [_ Hu]. apply Forall_cons in Hu as [[_ Hu] _].
    apply (Hu 61); [lia|reflexivity].
Defined.

(** Past one million the sequence number is rounded to six digits: successive
    transitions give the same exposition. *)
Lemma sequence_metric_collides a b c d e f g h i j k l m n o p q r t u v w fresh :
  let at_sequence x := Edge.mkSnapshot a b c d e f g h i j k l m n o p x q r t u v w in
  renderPrometheus (at_sequence 1000000) fresh = renderPrometheus (at_sequence 1000001) fresh.
Proof.
  intros at_sequence. unfold renderPrometheus, at_sequence. cbv zeta.
  cbn [Edge.safety_sequence Edge.safety_state_age_ns Edge.telegrams_accepted
    Edge.telegrams_rejected Edge.uptime_ns].
  assert (E : format_g (double_of_Z 1000000) = format_g (double_of_Z 1000001)) by by_compute.
  unfold appendMetric at 3. unfold appendMetric at 3. rewrite E. done.
Qed.
