(* ===== verification/OpcuaStartup.v ===== *)
(** * The OPC UA server process

    [main] of [src/src/apps/safeedge_opcua.cpp]: settings from the environment,
    the shared region, the security posture and what is logged of it, the
    address space, the publishing thread, and the shutdown. The kernel, the
    files and the protocol stack are parameters. *)

From Stdlib Require Import Ascii String.
From stdpp Require Import base numbers list option strings pretty sets.
From S2P Require Import Prelude Strings SharedMemory Snapshot OpcuaServer OpcuaSecurity OpcuaSecuritySafety Environment.

#[local] Open Scope string_scope.
#[local] Open Scope Z_scope.
#[local] Open Scope list_scope.

(** ** What the process does *)

Inductive Level := Info | Warn | Error | Fatal.

(** The observable actions, besides the system calls on the region and the calls
    into the stack. *)
Inductive Action :=
  | LogEvent (level : Level) (message : string) (detail : option string)
  | SetIntervalFloors (publishing sampling : Z)
  | StartPublisher (publish_ms : Z)
  | RunServer
  | StopPublisher
  | JoinPublisher
  | DeleteServer.

#[export] Instance level_eq_dec : EqDecision Level.
Proof. solve_decision. Defined.
#[export] Instance action_eq_dec : EqDecision Action.
Proof. solve_decision. Defined.

(** What a run leaves: its exit code, its actions in order, the configuration,
    the stack's server, and the system calls made, newest first. *)
Record Outcome := mkOutcome {
  exit_code : Z;
  actions : list Action;
  final_config : ServerConfig;
  final_server : Server;
  system_calls : list SharedMemory.Call
}.

(** Everything the process depends on. [runs] is whether [UA_Server_run] returned
    GOOD, [loads] what [tryLoad] gave in each round before the shutdown. *)
Record Host := mkHost {
  getenv : string → option string;
  os : list SharedMemory.Call → SharedMemory.Call → Reply;
  slot_bytes : Z;
  server_new : option ServerConfig;
  files : FileSystem;
  stack : Stack;
  good : list OpcuaServer.Call → OpcuaServer.Call → bool;
  assign : list OpcuaServer.Call → Z;
  loads : list (option Edge.RuntimeSnapshot);
  runs : option string
}.

(** ** Settings *)

Definition options_from (env : string → option string) : SecurityOptions :=
  let directory := environmentString (env "SAFEEDGE_OPCUA_TRUSTLIST") EmptyString in
  mkOptions (u16 (environmentLong (env "SAFEEDGE_OPCUA_PORT") 4840))
    (environmentString (env "SAFEEDGE_OPCUA_CERT") EmptyString)
    (environmentString (env "SAFEEDGE_OPCUA_KEY") EmptyString)
    directory
    (negb (environmentLong (env "SAFEEDGE_OPCUA_INSECURE") 0 =? 0))
    (if bool_decide (directory = EmptyString) then kAcceptAnyCertificate else kTrustList).

(** ** The posture, logged *)

Definition kNoneOffered : Action :=
  LogEvent Warn
    ("SecurityPolicy#None is offered: traffic can be read and forged by " +:+
     "anyone on this network") None.

Definition kAnyAccepted : Action :=
  LogEvent Warn
    ("any client certificate is accepted: set SAFEEDGE_OPCUA_TRUSTLIST " +:+
     "to restrict who may connect") None.

Definition report_security (p : SecurityPosture) : list Action :=
  [match origin p with
   | kLoadedFromFiles => LogEvent Info "encrypted, stable identity" (Some (detail p))
   | kGeneratedSelfSigned => LogEvent Warn "encrypted with a throwaway identity" (Some (detail p))
   | kNone => LogEvent Warn "running without encryption" (Some (detail p))
   end] ++
  (if allows_unencrypted p then [kNoneOffered] else []) ++
  [match posture_authentication p with
   | kTrustList => LogEvent Info "client certificates are checked against the trust list" None
   | kAcceptAnyCertificate => kAnyAccepted
   end].

(** ** The process *)

Section Main.
Context (h : Host).

(** Publish until the stop, run the server, stop in order. *)
Definition serve (port : Z) (s : Server) : list Action * Server :=
  let publish_ms := environmentLong (getenv h "SAFEEDGE_OPCUA_PUBLISH_MS") 100 in
  let s := server (publish_rounds (good h) (newPublisher s) (loads h)) in
  ([StartPublisher publish_ms;
    LogEvent Info "listening" (Some ("opc.tcp://0.0.0.0:" +:+ pretty port));
    RunServer] ++
   match runs h with
   | None => []
   | Some status => [LogEvent Error "server loop exited with a fault" (Some status)]
   end ++
   [StopPublisher; JoinPublisher; DeleteServer; LogEvent Info "stopped" None], s).

(** After security: the address space, the event type, then serving. *)
Definition build_and_serve (port : Z) (s : Server) : Z * list Action * Server :=
  let (built, s) := buildAddressSpace (good h) (assign h) s in
  if negb built then (3, [LogEvent Fatal "could not build the address space" None; DeleteServer], s)
  else
    let (built, s) := buildEventType (good h) s in
    if negb built
    then (3, [LogEvent Fatal "could not build the safety event type" None; DeleteServer], s)
    else
      let (acts, s) := serve port s in
      (0, LogEvent Info "address space ready" None :: acts, s).

Definition run_server (c : ServerConfig) : Z * list Action * ServerConfig * Server :=
  let security := options_from (getenv h) in
  let (posture, config) := configureSecurity (files h) (stack h) (Some c) security in
  let c := default c config in
  if policy_count posture =? 0 then
    (2, [LogEvent Fatal "could not configure security" (Some (detail posture)); DeleteServer],
     c, newServer)
  else
    let '(code, acts, s) := build_and_serve (port security) newServer in
    (code, report_security posture ++ [SetIntervalFloors 10 10] ++
       (if allows_anonymous posture
        then [LogEvent Info "anonymous access permitted (the address space is read-only)" None]
        else []) ++ acts, c, s).

(** [main]; the region is unmapped when it goes out of scope. *)
Definition main : Outcome :=
  let region_name := environmentString (getenv h "SAFEEDGE_SNAPSHOT_SHM") "/safeedge-runtime" in
  let (region, t) := openExisting (os h) (Some region_name) (slot_bytes h) [] in
  let empty := mkServerConfig [] 0 Unset Unset EmptyString in
  let leave code acts c s := mkOutcome code acts c s (close (os h) region t).2 in
  if negb (valid region) then
    leave 1 [LogEvent Fatal
      ("snapshot region not available; is safeedged running with " +:+
       "SAFEEDGE_SNAPSHOT_SHM set?") (Some region_name)] empty newServer
  else
    let opened := LogEvent Info "reading snapshot from shared memory" (Some region_name) in
    match server_new h with
    | None =>
        leave 2 [opened; LogEvent Fatal "could not create the OPC UA server" None] empty newServer
    | Some c =>
        let '(code, acts, c, s) := run_server c in
        leave code (opened :: acts) c s
    end.
End Main.

(** ** Starting securely *)

(** Only a complete start runs the server. *)
Lemma build_and_serve_runs h p s :
  let '(code, acts, _) := build_and_serve h p s in
  (RunServer ∈ acts → code = 0) ∧ (code = 0 → RunServer ∈ acts).
Proof.
  unfold build_and_serve.
  destruct (buildAddressSpace (good h) (assign h) s) as [[] s1]; cbn [negb]; [|by split; [set_solver|]].
  destruct (buildEventType (good h) s1) as [[] s2]; cbn [negb]; [|by split; [set_solver|]].
  cbn [serve]. by split; [|set_solver].
Qed.

Lemma report_security_runs p : RunServer ∉ report_security p.
Proof.
  unfold report_security, kNoneOffered, kAnyAccepted.
  destruct (origin p), (allows_unencrypted p), (posture_authentication p); set_solver.
Qed.

(** A server that runs went through [configureSecurity], and its report is in
    the log. *)
Lemma main_runs h :
  RunServer ∈ actions (main h) →
  ∃ c, let (posture, config) := configureSecurity (files h) (stack h) (Some c)
      (options_from (getenv h)) in
    policy_count posture ≠ 0 ∧ final_config (main h) = default c config ∧
    exit_code (main h) = 0 ∧ (∀ a, a ∈ report_security posture → a ∈ actions (main h)).
Proof.
  unfold main. destruct (openExisting (os h) _ _ _) as [region t].
  destruct (valid region); cbn [negb actions]; [|set_solver].
  destruct (server_new h) as [c|]; [|cbn [actions]; set_solver].
  unfold run_server.
  destruct (configureSecurity (files h) (stack h) (Some c) (options_from (getenv h)))
    as [posture config] eqn:Ec.
  destruct (Z.eqb_spec (policy_count posture) 0) as [H0|H0]; [cbn [actions]; set_solver|].
  pose proof (build_and_serve_runs h (port (options_from (getenv h))) newServer) as Hb.
  destruct (build_and_serve h _ _) as [[code acts] s]. destruct Hb as [Hb _].
  cbn [actions exit_code final_config]. intros Hrun. exists c. rewrite Ec.
  split; [done|]. split; [done|]. split; [|set_solver].
  apply Hb. pose proof (report_security_runs posture). destruct (allows_anonymous posture); set_solver.
Qed.

(** When [main] gets as far as serving, what is left of it is [serve],
    the program that the threads of the process work off. *)
Lemma main_serves h :
  RunServer ∈ actions (main h) →
  ∃ acts port s, actions (main h) = acts ++ (serve h port s).1 ∧ RunServer ∉ acts.
Proof.
  unfold main. destruct (openExisting (os h) _ _ _) as [region t].
  destruct (valid region); cbn [negb actions]; [|set_solver].
  destruct (server_new h) as [c|]; [|cbn [actions]; set_solver]. unfold run_server.
  destruct (configureSecurity _ _ _ _) as [posture config].
  pose proof (report_security_runs posture) as Hr.
  destruct (_ =? 0); [cbn [actions]; set_solver|]. unfold build_and_serve.
  destruct (buildAddressSpace _ _ _) as [[] s1]; cbn [negb];
    [|destruct (allows_anonymous _); cbn [actions]; set_solver].
  destruct (buildEventType _ _) as [[] s2]; cbn [negb];
    [|destruct (allows_anonymous _); cbn [actions]; set_solver].
  intros _. cbn [actions serve].
  set (first := if allows_anonymous posture then _ else _).
  eexists (_ :: report_security posture ++ [SetIntervalFloors 10 10] ++ first ++ [_]), _, s2.
  split; [cbn [app]; rewrite <- app_assoc; cbn [app]; by rewrite <- app_assoc|]. subst first. destruct (allows_anonymous _); set_solver.
Qed.

(** The authentication of the posture is the one asked for. *)
Lemma configureSecurity_authentication fs st c options :
  posture_authentication (configureSecurity fs st c options).1 = authentication options.
Proof.
  destruct c as [c|]; [|done]. unfold configureSecurity. destruct (_ && _); [done|].
  set (tl := if bool_decide _ then readTrustList _ _ else []). destruct (_ && _); [done|].
  destruct (obtain_identity fs st options) as [[[[from why] cert] key]|].
  - destruct (setDefaultWithSecurityPolicies _ _ _ _ _ _) as [[] c1]; [|done]. cbn [negb].
    unfold finish. destruct (bool_decide _), (negb _);
      try (destruct (dropUnencryptedEndpoints _)); done.
  - unfold without_identity. destruct (negb _); [done|].
    by destruct (setMinimal _ _ _) as [[] ?].
Qed.

Section Secure.
Context (h : Host).
Hypothesis installs_trust_list : ∀ c p certificate key trusted c',
  setDefaultWithSecurityPolicies (stack h) c p certificate key trusted = (true, c') →
  trusted ≠ [] → secureChannelPKI c' = Trustlist trusted ∧ sessionPKI c' = Trustlist trusted.

(** C18: The server process never runs more open than its environment asks for.
    Without [SAFEEDGE_OPCUA_INSECURE] the endpoints it offers are exactly those
    that the stack set up with a security mode other than None, which includes
    the ones that sign without encrypting; an endpoint of mode None is announced
    in the log; naming a trust list directory means that it holds certificates,
    that both verification hooks check against exactly these, and that no
    endpoint of mode None bypasses them; without a directory the log says that
    any certificate is accepted. *)
Theorem server_starts_secure :
  let o := main h in
  let dir := environmentString (getenv h "SAFEEDGE_OPCUA_TRUSTLIST") EmptyString in
  RunServer ∈ actions o →
  exit_code o = 0 ∧
  (environmentLong (getenv h "SAFEEDGE_OPCUA_INSECURE") 0 = 0 →
     keeps_modes (stack h) (final_config o)) ∧
  (kNoneOffered ∈ actions o ∨ Forall not_none (endpoints (final_config o))) ∧
  (dir ≠ EmptyString →
     readTrustList (files h) dir ≠ [] ∧ Forall not_none (endpoints (final_config o)) ∧
     secureChannelPKI (final_config o) = Trustlist (readTrustList (files h) dir) ∧
     sessionPKI (final_config o) = Trustlist (readTrustList (files h) dir)) ∧
  (dir = EmptyString → kAnyAccepted ∈ actions o).
Proof.
  cbv zeta. intros (c & H)%main_runs.
  pose proof (no_silent_downgrade (files h) (stack h) installs_trust_list c
    (options_from (getenv h))) as Hd.
  pose proof (configureSecurity_authentication (files h) (stack h) (Some c)
    (options_from (getenv h))) as Ha.
  destruct (configureSecurity _ _ _ _) as [posture config]. cbn [fst] in Ha.
  destruct H as (Hp & Hc & Hcode & Hlog). destruct (Hd Hp) as (c' & -> & _ & Hun & Henc & Htl & _).
  cbn in Hc. rewrite Hc. split; [done|]. clear Hd Hp Hc Hcode.
  unfold options_from in Hun, Henc, Htl, Ha.
  cbn [allow_unencrypted authentication trust_list_directory] in *.
  split; [|split; [|split]].
  - intros E. rewrite E in Henc. by apply Henc.
  - destruct (negb _) eqn:E; [left|right; by apply (keeps_modes_none (stack h)), Henc].
    apply Hlog. unfold report_security. rewrite Hun. set_solver.
  - intros Hdir. rewrite bool_decide_false in Htl by done.
    destruct (Htl eq_refl) as (E & H1 & H2 & H3 & _). split; [done|].
    split; [by apply (keeps_modes_none (stack h)), Henc|done].
  - intros Hdir. apply Hlog. unfold report_security. rewrite Ha, bool_decide_true by done. set_solver.
Qed.
End Secure.

(** A host on which everything works, with a trust list of one certificate. *)
Definition demo_host : Host :=
  mkHost
    (λ name, if bool_decide (name = "SAFEEDGE_OPCUA_TRUSTLIST") then Some "/trust" else None)
    (λ _ c, match c with
            | ShmOpen _ _ => mkReply 3 0 0
            | Fstat _ => mkReply 0 0 4096
            | Mmap _ _ => mkReply 65536 0 0
            | _ => mkReply 0 0 0
            end)
    256 (Some demo_config) demo_files demo_stack (λ _ _, true) (λ _, 2) [None; Some Edge.newSnapshot]
    None.

Lemma server_starts_secure_witness :
  exit_code (main demo_host) = 0 ∧
  map securityMode (endpoints (final_config (main demo_host))) = [ModeSign; ModeSignAndEncrypt] ∧
  sessionPKI (final_config (main demo_host)) = Trustlist [[7; 8]].
Proof.
  assert (Hi : ∀ c p certificate key trusted c',
    setDefaultWithSecurityPolicies demo_stack c p certificate key trusted = (true, c') →
    trusted ≠ [] → secureChannelPKI c' = Trustlist trusted ∧ sessionPKI c' = Trustlist trusted).
  { intros c p ce k [|t l] c' [= <-]; [done|]. by split. }
  destruct (server_starts_secure demo_host Hi) as (H0 & Hm & _ & H & _); [by_compute|].
  split; [exact H0|]. split.
  { destruct (Hm ltac:(by_compute)) as (c & p & ce & k & t & c1 & [= <-] & E). exact E. }
  destruct (H ltac:(done)) as (_ & _ & _ & H2). exact H2.
Defined.

Definition says_encrypted (a : Action) : bool :=
  match a with
  | LogEvent _ message _ =>
      String.eqb message "encrypted, stable identity" ||
      String.eqb message "encrypted with a throwaway identity"
  | _ => false
  end.

(** A server that logs that it is encrypted, and does not log that it offers
    SecurityPolicy#None, offers an endpoint whose traffic anyone can read. *)
Example sign_only_endpoint_offered :
  let o := main demo_host in
  ModeSign ∈ map securityMode (endpoints (final_config o)) ∧
  existsb says_encrypted (actions o) = true ∧ kNoneOffered ∉ actions o.
Proof. cbv zeta. split_and!; by_compute. Qed.

(** ** Stopping in order *)

(** The server and the thread that writes to it: whether the thread may still be
    running, whether it was told to stop, whether the server was deleted. *)
Record Lives := mkLives { publishing : bool; stopping : bool; deleted : bool }.

(** An action that would use or free a deleted server, or free one the thread
    still uses, has no successor. *)
Definition live_step (l : Lives) (a : Action) : option Lives :=
  match a with
  | StartPublisher _ =>
      if deleted l || publishing l then None else Some (mkLives true false (deleted l))
  | RunServer => if deleted l then None else Some l
  | StopPublisher => Some (mkLives (publishing l) true (deleted l))
  | JoinPublisher =>
      if publishing l && negb (stopping l) then None else Some (mkLives false (stopping l) (deleted l))
  | DeleteServer =>
      if publishing l || deleted l then None else Some (mkLives false (stopping l) true)
  | SetIntervalFloors _ _ => if deleted l then None else Some l
  | LogEvent _ _ _ => Some l
  end.

Definition live_run (l : Lives) (acts : list Action) : option Lives :=
  foldl (λ r a, r ≫= λ l, live_step l a) (Some l) acts.

Lemma live_run_app l a b :
  live_run l (a ++ b) = live_run l a ≫= λ l', live_run l' b.
Proof.
  unfold live_run. rewrite foldl_app. destruct (foldl _ (Some l) a) as [l'|]; [done|].
  cbn [mbind option_bind]. by induction b.
Qed.

Definition is_fatal (a : Action) : bool :=
  match a with LogEvent Fatal _ _ => true | _ => false end.

Definition kCreated : Lives := mkLives false false false.

Lemma report_security_lives p l :
  live_run l (report_security p) = Some l ∧ Forall (λ a, is_fatal a = false) (report_security p).
Proof.
  unfold report_security.
  destruct (origin p), (allows_unencrypted p), (posture_authentication p);
    (split; [done|by repeat constructor]).
Qed.

(** What serving and the failures before it do to the server. *)
Lemma build_and_serve_lives h p s :
  let '(code, acts, _) := build_and_serve h p s in
  (∃ l, live_run kCreated acts = Some l ∧ publishing l = false ∧ deleted l = true) ∧
  (code = 0 ∧ Forall (λ a, is_fatal a = false) acts ∨ code = 3 ∧ Exists (λ a, is_fatal a = true) acts).
Proof.
  unfold build_and_serve.
  destruct (buildAddressSpace (good h) (assign h) s) as [[] s1]; cbn [negb].
  2:{ split; [by eexists|]. right. split; [done|]. by left. }
  destruct (buildEventType (good h) s1) as [[] s2]; cbn [negb].
  2:{ split; [by eexists|]. right. split; [done|]. by left. }
  cbn [serve]. destruct (runs h); (split; [by eexists|]); left; (split; [done|]); by repeat constructor.
Qed.

Lemma run_server_lives h c :
  let '(code, acts, _, _) := run_server h c in
  (∃ l, live_run kCreated acts = Some l ∧ publishing l = false ∧ deleted l = true) ∧
  (code = 0 ∧ Forall (λ a, is_fatal a = false) acts ∨
   code ≠ 0 ∧ Exists (λ a, is_fatal a = true) acts).
Proof.
  unfold run_server. destruct (configureSecurity _ _ _ _) as [posture config].
  destruct (Z.eqb_spec (policy_count posture) 0) as [H0|H0].
  { split; [by eexists|]. right. split; [done|]. by left. }
  pose proof (build_and_serve_lives h (port (options_from (getenv h))) newServer) as Hb.
  destruct (build_and_serve h _ _) as [[code acts] s]. destruct Hb as [(l & Hl & Hp) Hcode].
  destruct (report_security_lives posture kCreated) as [Hr Hn].
  set (anonymous := if allows_anonymous posture then _ else _).
  assert (Ha : live_run kCreated ([SetIntervalFloors 10 10] ++ anonymous) = Some kCreated ∧
    Forall (λ a, is_fatal a = false) ([SetIntervalFloors 10 10] ++ anonymous)).
  { unfold anonymous. destruct (allows_anonymous posture); (split; [done|by repeat constructor]). }
  clearbody anonymous. destruct Ha as [Ha Hna]. rewrite (app_assoc [_] anonymous acts).
  split.
  - exists l. rewrite live_run_app, Hr. cbn [mbind option_bind].
    rewrite live_run_app, Ha. done.
  - destruct Hcode as [[-> Hf]|[-> Hf]]; [left|right]; (split; [done|]).
    + apply Forall_app_2; [done|]. by apply Forall_app_2.
    + apply Exists_app. right. apply Exists_app. by right.
Qed.

(** The process ends in order, whatever fails. The publishing thread is joined
    before the server it writes to is deleted, nothing uses the server after
    that, and a server that was created is deleted exactly once; the exit code
    is zero exactly when no fatal event was logged; and the region is opened
    but never created or unlinked, and unmapped if it was mapped. *)
Theorem server_ends_in_order h :
  let o := main h in
  let opened := openExisting (os h)
    (Some (environmentString (getenv h "SAFEEDGE_SNAPSHOT_SHM") "/safeedge-runtime"))
    (slot_bytes h) [] in
  (∃ l, live_run kCreated (actions o) = Some l ∧ publishing l = false ∧
     deleted l = valid opened.1 && bool_decide (is_Some (server_new h))) ∧
  (exit_code o = 0 ↔ Forall (λ a, is_fatal a = false) (actions o)) ∧
  (valid opened.1 = false → exit_code o = 1) ∧
  system_calls o =
    (if valid opened.1 then [Munmap (address_ opened.1) (size_ opened.1)] else []) ++ opened.2 ∧
  Forall (λ c, match c with ShmOpen _ create => create = false | ShmUnlink _ => False | _ => True end)
    (system_calls o).
Proof.
  cbv zeta. unfold main.
  set (name := environmentString (getenv h "SAFEEDGE_SNAPSHOT_SHM") "/safeedge-runtime").
  assert (Hopen : Forall (λ c, match c with ShmOpen _ create => create = false
    | ShmUnlink _ => False | _ => True end) (openExisting (os h) (Some name) (slot_bytes h) []).2).
  { unfold openExisting, map_and_close, mapDescriptor, mbind, M_bind, mret, M_ret, call.
    repeat case_match; simplify_eq/=; by repeat constructor. }
  destruct (openExisting (os h) (Some name) (slot_bytes h) []) as [region t]. cbn [fst snd] in *.
  assert (Hsys : (close (os h) region t).2 =
    (if valid region then [Munmap (address_ region) (size_ region)] else []) ++ t).
  { unfold close, valid. by destruct (negb (address_ region =? nullptr)). }
  assert (Hall : Forall (λ c, match c with ShmOpen _ create => create = false
    | ShmUnlink _ => False | _ => True end) (close (os h) region t).2).
  { rewrite Hsys. destruct (valid region); [by constructor|done]. }
  destruct (valid region); cbn [negb].
  2:{ cbn [exit_code actions system_calls]. split; [by eexists|]. split; [|done].
      split; [done|]. by intros [? _]%Forall_cons. }
  destruct (server_new h) as [c|].
  2:{ cbn [exit_code actions system_calls]. split; [by eexists|]. split; [|done].
      split; [done|]. by intros [_ [? _]%Forall_cons]%Forall_cons. }
  pose proof (run_server_lives h c) as Hr.
  destruct (run_server h c) as [[[code acts] c'] s]. destruct Hr as [(l & Hl & Hp & Hd) Hcode].
  cbn [exit_code actions system_calls]. split; [|split; [|done]].
  - exists l. split; [exact Hl|]. split; [done|]. rewrite Hd. by rewrite bool_decide_true.
  - rewrite Forall_cons. destruct Hcode as [[-> Hf]|[Hn Hf]]; [by split|].
    split; [done|]. intros [_ Hf']. exfalso. apply Exists_exists in Hf as (a & Ha & E).
    rewrite list.Forall_forall in Hf'. specialize (Hf' a Ha). congruence.
Qed.
