(* ===== verification/OpcuaProbe.v ===== *)
(** * The OPC UA probe

    [src/src/apps/safeedge_opcua_probe.cpp]: the command line, the identity, the
    verified and encrypted connection, the two subscriptions, the notification
    handlers and the summary. The protocol stack, the files and the clock are
    parameters; the build has encryption. *)

From Stdlib Require Import Ascii String.
From stdpp Require Import base numbers list option strings pretty sorting.
From S2P Require Import Prelude Environment OpcuaServer OpcuaSecurity.

#[local] Open Scope string_scope.
#[local] Open Scope Z_scope.
#[local] Open Scope list_scope.

(** ** The notification handlers *)

(** [UA_DataValue]: its status if it has one (whether it is GOOD), its value if
    it has one. A value that is not a scalar is [None] too. *)
Record DataValue := mkDataValue { value_status : option bool; value : option Scalar }.

(** The global variables of the probe. *)
Record Probe := mkProbe {
  g_latencies : list Z;
  g_last_transition : Z;
  g_saw_bad_status : bool;
  g_had_initial : bool;
  g_event_latencies : list Z;
  g_events_received : Z;
  g_events_coalesced_by_server : Z
}.

Definition newProbe : Probe := mkProbe [] 0 false false [] 0 0.

(** [UA_Variant_hasScalarType] for the two types asked for, with the value. *)
Definition as_int64 (v : option Scalar) : option Z :=
  match v with Some (Int64 n) => Some n | _ => None end.
Definition as_uint64 (v : option Scalar) : option Z :=
  match v with Some (UInt64 n) => Some n | _ => None end.

(** [now] is what [monotonicNanos] returns in the call. *)
Definition onTransitionChanged (now : Z) (v : option DataValue) (p : Probe) : Probe :=
  match v with
  | None => p
  | Some v =>
      if bool_decide (value_status v = Some false) then
        mkProbe (g_latencies p) (g_last_transition p) true (g_had_initial p)
          (g_event_latencies p) (g_events_received p) (g_events_coalesced_by_server p)
      else
        match as_int64 (value v) with
        | None => p
        | Some n =>
            let transition := u64 n in
            if (transition =? 0) || (transition =? g_last_transition p) then p
            else if negb (g_had_initial p) then
              mkProbe (g_latencies p) transition (g_saw_bad_status p) true
                (g_event_latencies p) (g_events_received p) (g_events_coalesced_by_server p)
            else
              mkProbe
                (if transition <? now then g_latencies p ++ [now - transition] else g_latencies p)
                transition (g_saw_bad_status p) (g_had_initial p)
                (g_event_latencies p) (g_events_received p) (g_events_coalesced_by_server p)
        end
  end.

(** The fields asked for, in the order the callback receives them. *)
Definition kFieldTransitionNs : nat := 0.
Definition kFieldSequence : nat := 1.
Definition kFieldMissed : nat := 2.
Definition kFieldSeverity : nat := 3.
Definition kFieldCount : nat := 4.

Definition field (fields : list (option Scalar)) (i : nat) : option Scalar :=
  default None (fields !! i).

(** The sequence number is only printed. *)
Definition onSafetyEvent (now : Z) (fields : list (option Scalar)) (p : Probe) : Probe :=
  if (length fields <? kFieldCount)%nat then p
  else
    let received := u64 (g_events_received p + 1) in
    let coalesced :=
      match as_uint64 (field fields kFieldMissed) with
      | Some n => u64 (g_events_coalesced_by_server p + n)
      | None => g_events_coalesced_by_server p
      end in
    let latencies :=
      match as_int64 (field fields kFieldTransitionNs) with
      | Some n =>
          let transition := u64 n in
          if (0 <? transition) && (transition <? now)
          then g_event_latencies p ++ [now - transition] else g_event_latencies p
      | None => g_event_latencies p
      end in
    mkProbe (g_latencies p) (g_last_transition p) (g_saw_bad_status p) (g_had_initial p)
      latencies received coalesced.

(** The select clauses: the namespace and browse name of each field. *)
Definition select_clauses (namespace_index : Z) : list (Z * string) :=
  [(namespace_index, "TransitionMonotonicNanoseconds"); (namespace_index, "SafetySequence");
   (namespace_index, "MissedTransitions"); (0, "Severity")].

(** What a run of the client's event loop delivers. *)
Inductive Notification :=
  | DataChange (now : Z) (v : option DataValue)
  | SafetyEvent (now : Z) (fields : list (option Scalar)).

Definition dispatch (p : Probe) (n : Notification) : Probe :=
  match n with
  | DataChange now v => onTransitionChanged now v p
  | SafetyEvent now fields => onSafetyEvent now fields p
  end.

(** ** The summary *)

(** The number, least, median and greatest of the latencies. *)
Definition summary (latencies : list Z) : option (nat * Z * Z * Z) :=
  let sorted := merge_sort Z.le latencies in
  least ← head sorted;
  median ← sorted !! (length sorted / 2)%nat;
  greatest ← last sorted;
  Some (length sorted, least, median, greatest).

(** ** The command line *)

Record ProbeOptions := mkProbeOptions {
  endpoint : string;
  (** The argument of [atof]; [None] is the default of 50 ms. *)
  sampling_ms : option string;
  seconds : Z;
  cert_path : string;
  client_key_path : string;
  write_identity : string;
  verification_options : ServerVerificationOptions;
  subscribe_events : bool
}.

Definition defaultOptions : ProbeOptions :=
  mkProbeOptions "opc.tcp://127.0.0.1:4840" None 30 EmptyString EmptyString EmptyString
    (mkVerificationOptions EmptyString false) false.

(** [atoi] converts as [strtol] does. *)
Definition atoi (text : string) : Z := i32 (strtol text).1.

Definition kInsecureFlag : string := "--insecure-accept-any-server-cert".

(** An option and its value; [None] is an unknown option. *)
Definition set_option (name v : string) (o : ProbeOptions) : option ProbeOptions :=
  let '(mkProbeOptions e sa se c k w ver ev) := o in
  if bool_decide (name = "--endpoint") then Some (mkProbeOptions v sa se c k w ver ev)
  else if bool_decide (name = "--sampling-ms") then Some (mkProbeOptions e (Some v) se c k w ver ev)
  else if bool_decide (name = "--seconds") then Some (mkProbeOptions e sa (atoi v) c k w ver ev)
  else if bool_decide (name = "--cert") then Some (mkProbeOptions e sa se v k w ver ev)
  else if bool_decide (name = "--key") then Some (mkProbeOptions e sa se c v w ver ev)
  else if bool_decide (name = "--write-identity") then Some (mkProbeOptions e sa se c k v ver ev)
  else if bool_decide (name = "--trust-list") then
    Some (mkProbeOptions e sa se c k w
            (mkVerificationOptions v (insecure_accept_any_certificate ver)) ev)
  else None.

Definition set_events (o : ProbeOptions) : ProbeOptions :=
  let '(mkProbeOptions e sa se c k w ver _) := o in mkProbeOptions e sa se c k w ver true.

Definition set_insecure (o : ProbeOptions) : ProbeOptions :=
  let '(mkProbeOptions e sa se c k w ver ev) := o in
  mkProbeOptions e sa se c k w (mkVerificationOptions (server_trust_list_directory ver) true) ev.

(** The loop over the arguments: the options, or an exit code. *)
Fixpoint parse_arguments (argv : list string) (o : ProbeOptions) : ProbeOptions + Z :=
  match argv with
  | [] => inl o
  | a :: rest =>
      if bool_decide (a = "--events") then parse_arguments rest (set_events o)
      else if bool_decide (a = kInsecureFlag) then parse_arguments rest (set_insecure o)
      else if bool_decide (a = "--help") then inr 0
      else
        match rest with
        | [] => inr 1
        | v :: rest =>
            match set_option a v o with
            | Some o => parse_arguments rest o
            | None => inr 1
            end
        end
  end.

(** ** The connection *)

Inductive Action :=
  | WriteFile (path : string) (bytes : ByteString)
  | Connect (config : ClientConfig) (endpoint : string)
  | CreateSubscription
  | MonitorTransition (namespace_index : Z) (node : NodeNumber)
  | MonitorEvents (clauses : list (Z * string)) (queue_size : Z) (discard_oldest : bool)
  | Disconnect
  | DeleteClient.

#[export] Instance verification_eq_dec : EqDecision Verification.
Proof. solve_decision. Defined.
#[export] Instance client_config_eq_dec : EqDecision ClientConfig.
Proof. solve_decision. Defined.
#[export] Instance probe_action_eq_dec : EqDecision Action.
Proof. solve_decision. Defined.

(** What the probe depends on. [client_new] is the configuration of a new client;
    the statuses of the stack's functions are whether they are GOOD. *)
Record Host := mkHost {
  files : FileSystem;
  createIdentity : option (ByteString * ByteString);
  writes : string → bool;
  client_new : option ClientConfig;
  setDefaultEncryption : ClientConfig → ByteString → ByteString → bool * ClientConfig;
  install : list ByteString → option string;
  connects : ClientConfig → string → bool;
  negotiated_policy : option string;
  negotiated_mode : option SecurityMode;
  namespace_of : string → option Z;
  subscription_created : bool;
  transition_monitored : bool;
  events_monitored : bool;
  notifications : list Notification
}.

Section Main.
Context (h : Host).

(** The probe's [readFile]. *)
Definition read_identity_file (path : string) : ByteString :=
  let f := file (files h) path in
  if negb (opens f) then []
  else if (ftell f <=? 0) || negb (allocates f) then []
  else if negb (Z.of_nat (length (fread f)) =? ftell f) then []
  else fread f.

(** [--write-identity]: the second file is written only after the first. *)
Definition write_identity_files (dir : string) : Z * list Action :=
  match createIdentity h with
  | None => (1, [])
  | Some (certificate, key) =>
      let first := dir +:+ "/client.der" in
      let second := dir +:+ "/client-key.der" in
      if negb (writes h first) then (1, [WriteFile first certificate])
      else (if writes h second then 0 else 1, [WriteFile first certificate; WriteFile second key])
  end.

(** The client's certificate and key. *)
Definition client_identity (o : ProbeOptions) : option (ByteString * ByteString) :=
  if negb (bool_decide (cert_path o = EmptyString)) &&
     negb (bool_decide (client_key_path o = EmptyString))
  then
    let certificate := read_identity_file (cert_path o) in
    let key := read_identity_file (client_key_path o) in
    if (length certificate =? 0)%nat || (length key =? 0)%nat then None
    else Some (certificate, key)
  else createIdentity h.

(** After the connection: check what was negotiated, subscribe, measure. *)
Definition measure (o : ProbeOptions) : Z * list Action * Probe :=
  let leave code acts := (code, acts ++ [Disconnect; DeleteClient], newProbe) in
  if negb (bool_decide (is_Some (negotiated_policy h))) ||
     negb (bool_decide (negotiated_mode h = Some ModeSignAndEncrypt))
  then leave 1 []
  else
    match namespace_of h kNamespaceUri with
    | None => leave 2 []
    | Some ns =>
        if negb (subscription_created h) then leave 3 [CreateSubscription]
        else
          let acts := [CreateSubscription; MonitorTransition ns kSafetyTransitionMonotonicNs] in
          if negb (transition_monitored h) then leave 4 acts
          else
            let acts := acts ++
              (if subscribe_events o then [MonitorEvents (select_clauses ns) 64 false] else []) in
            if subscribe_events o && negb (events_monitored h) then leave 5 acts
            else
              let delivered := if 0 <? seconds o then notifications h else [] in
              (0, acts ++ [Disconnect; DeleteClient], foldl dispatch newProbe delivered)
    end.

Definition connect_and_measure (o : ProbeOptions) (c : ClientConfig) : Z * list Action * Probe :=
  match client_identity o with
  | None => (1, [DeleteClient], newProbe)
  | Some (certificate, key) =>
      let (encrypts, c) := setDefaultEncryption h c certificate key in
      if negb encrypts then (1, [DeleteClient], newProbe)
      else
        let (verification, c') :=
          configureServerVerification (files h) (install h) (Some c) (verification_options o) in
        if negb (configured verification) then (1, [DeleteClient], newProbe)
        else
          let c := default c c' in
          if negb (connects h c (endpoint o))
          then (1, [Connect c (endpoint o); DeleteClient], newProbe)
          else
            let '(code, acts, p) := measure o in
            (code, Connect c (endpoint o) :: acts, p)
  end.

(** [main] on the arguments after the program's name: the exit code, the actions
    in order, and the measurements. *)
Definition main (argv : list string) : Z * list Action * Probe :=
  match parse_arguments argv defaultOptions with
  | inr code => (code, [], newProbe)
  | inl o =>
      if negb (Bool.eqb (bool_decide (cert_path o = EmptyString))
                 (bool_decide (client_key_path o = EmptyString)))
      then (1, [], newProbe)
      else if negb (bool_decide (write_identity o = EmptyString)) then
        (write_identity_files (write_identity o), newProbe)
      else
        match client_new h with
        | None => (1, [], newProbe)
        | Some c => connect_and_measure o c
        end
  end.
End Main.
