(* ===== verification/OpcuaProbeSafety.v ===== *)
(** * What the probe can be trusted with

    Properties of [src/src/apps/safeedge_opcua_probe.cpp]: it connects only
    verified and encrypted unless it was told not to verify, it measures exactly
    the changes it witnessed, and it sums them up truly. *)

From Stdlib Require Import Ascii String.
From stdpp Require Import base numbers list option strings pretty sets sorting.
From S2P Require Import Prelude CyclicExecutor Snapshot Runtime RuntimeSafety OpcuaServer OpcuaEvents OpcuaSecurity OpcuaSecuritySafety Environment OpcuaProbe.

#[local] Open Scope string_scope.
#[local] Open Scope Z_scope.
#[local] Open Scope list_scope.

(** ** The connection *)

Lemma set_option_insecure name v o o' :
  set_option name v o = Some o' →
  insecure_accept_any_certificate (verification_options o') =
  insecure_accept_any_certificate (verification_options o).
Proof. destruct o. unfold set_option. intros H. repeat case_bool_decide; by simplify_eq/=. Qed.

Lemma set_events_verification o : verification_options (set_events o) = verification_options o.
Proof. by destruct o. Qed.

(** Only the flag itself turns verification off. *)
Lemma parse_insecure argv o o' :
  parse_arguments argv o = inl o' →
  insecure_accept_any_certificate (verification_options o') = true →
  insecure_accept_any_certificate (verification_options o) = true ∨ kInsecureFlag ∈ argv.
Proof.
  remember (length argv) as n eqn:Hn. revert argv Hn o.
  induction (lt_wf n) as [n _ IH]; intros argv -> o Hp Hi.
  destruct argv as [|a rest]; [cbn in Hp; simplify_eq; by left|]. cbn [parse_arguments] in Hp.
  destruct (bool_decide_reflect (a = "--events")) as [_|_].
  { destruct (IH (length rest) ltac:(simpl; lia) rest eq_refl _ Hp Hi) as [H|H];
      [rewrite set_events_verification in H; by left|right; set_solver]. }
  destruct (bool_decide_reflect (a = kInsecureFlag)) as [->|_]; [right; set_solver|].
  destruct (bool_decide_reflect (a = "--help")) as [_|_]; [done|].
  destruct rest as [|v rest]; [done|]. destruct (set_option a v o) as [o1|] eqn:Es; [|done].
  destruct (IH (length rest) ltac:(simpl; lia) rest eq_refl _ Hp Hi) as [H|H];
    [rewrite (set_option_insecure _ _ _ _ Es) in H; by left|right; set_solver].
Qed.

(** The actions between the connection and the disconnection. *)
Definition in_session (a : Action) : Prop :=
  match a with
  | CreateSubscription | MonitorTransition _ _ | MonitorEvents _ _ _ => True
  | _ => False
  end.

(** Every path of [measure] disconnects and then deletes the client. *)
Lemma measure_spec h o :
  let '(code, acts, p) := measure h o in
  (∃ session, acts = session ++ [Disconnect; DeleteClient] ∧ Forall in_session session ∧
     (session ≠ [] → negotiated_mode h = Some ModeSignAndEncrypt)) ∧
  (p ≠ newProbe → code = 0).
Proof.
  unfold measure.
  destruct (bool_decide (is_Some (negotiated_policy h))); cbn [negb orb];
    [|by split; [exists []|]].
  destruct (bool_decide_reflect (negotiated_mode h = Some ModeSignAndEncrypt)) as [Hm|_]; cbn [negb];
    [|by split; [exists []|]].
  assert (Hs : ∀ session, Forall in_session session →
    ∃ session', session ++ [Disconnect; DeleteClient] = session' ++ [Disconnect; DeleteClient] ∧
      Forall in_session session' ∧
      (session' ≠ [] → negotiated_mode h = Some ModeSignAndEncrypt)) by eauto.
  destruct (namespace_of h kNamespaceUri) as [ns|]; [|by split; [apply (Hs [])|]].
  destruct (subscription_created h); cbn [negb];
    [|by split; [apply Hs; repeat constructor|]].
  destruct (transition_monitored h); cbn [negb];
    [|by split; [apply Hs; repeat constructor|]].
  destruct (subscribe_events o), (events_monitored h); cbn [negb andb];
    by split; [apply Hs; repeat constructor|].
Qed.

(** A configuration that requires encryption and checks the server against a
    trust list that is not empty, or was told to accept any certificate. *)
Definition verified (fs : FileSystem) (told_not_to : Prop) (c : ClientConfig) : Prop :=
  client_mode c = ModeSignAndEncrypt ∧
  ((∃ dir, readTrustList fs dir ≠ [] ∧
      certificateVerification c = Trustlist (readTrustList fs dir)) ∨
   (told_not_to ∧ certificateVerification c = AcceptAll)).

(** The actions of a run: without a connection, with a failed one, or with a
    session that ends by disconnecting and deleting the client. *)
Inductive run_shape (h : Host) (P : ClientConfig → Prop) : list Action → Prop :=
  | shape_offline acts :
      Forall (λ a, match a with WriteFile _ _ | DeleteClient => True | _ => False end) acts →
      run_shape h P acts
  | shape_refused c e : P c → run_shape h P [Connect c e; DeleteClient]
  | shape_session c e session :
      P c → Forall in_session session →
      (session ≠ [] → negotiated_mode h = Some ModeSignAndEncrypt) →
      run_shape h P (Connect c e :: session ++ [Disconnect; DeleteClient]).

Ltac offline := split; [apply shape_offline; by repeat constructor|done].

Lemma connect_and_measure_spec h o c :
  let '(code, acts, p) := connect_and_measure h o c in
  run_shape h (verified (files h)
    (insecure_accept_any_certificate (verification_options o) = true)) acts ∧
  (p ≠ newProbe → code = 0).
Proof.
  unfold connect_and_measure. destruct (client_identity h o) as [[ce k]|]; [|offline].
  destruct (setDefaultEncryption h c ce k) as [[] c1]; cbn [negb]; [|offline].
  pose proof (probe_verifies_server (files h) (install h) c1 (verification_options o)) as Hv.
  destruct (configureServerVerification _ _ _ _) as [posture c2].
  destruct (configured posture); cbn [negb]; [|offline].
  destruct (Hv eq_refl) as (c' & -> & Hmode & Hver).
  change (default c1 (Some c')) with c'.
  assert (Hc : verified (files h)
    (insecure_accept_any_certificate (verification_options o) = true) c').
  { split; [done|]. destruct Hver as [(_ & _ & H1 & H2 & _)|(_ & H1 & _ & H2)]; eauto. }
  destruct (connects h c' (endpoint o)); cbn [negb]; [|split; [exact (shape_refused _ _ _ _ Hc)|done]].
  pose proof (measure_spec h o) as Hm. destruct (measure h o) as [[code acts] p].
  destruct Hm as [(session & -> & Hs & Hneg) Hcode]. split; [|done].
  by apply shape_session.
Qed.

(** C23: The probe never talks to a server it did not verify. On every command line
    and whatever the stack answers, a run either makes no connection, or makes
    one with a signed and encrypted channel required and with the server's
    certificate checked against a trust list that is not empty, unless the
    insecure flag is among the arguments. It subscribes only on a channel that
    negotiated encryption, and it disconnects and deletes the client, in this
    order and last; only a run that measured something to its end exits with
    measurements. *)
Theorem probe_connects_verified h argv :
  let '(code, acts, p) := main h argv in
  run_shape h (verified (files h) (kInsecureFlag ∈ argv)) acts ∧ (p ≠ newProbe → code = 0).
Proof.
  unfold main. destruct (parse_arguments argv defaultOptions) as [o|code] eqn:Hp; [|offline].
  destruct (negb (Bool.eqb _ _)); [offline|]. destruct (negb _).
  { unfold write_identity_files. destruct (createIdentity h) as [[ce k]|]; [|offline].
    destruct (negb _); offline. }
  destruct (client_new h) as [c0|]; [|offline].
  pose proof (connect_and_measure_spec h o c0) as Hm.
  destruct (connect_and_measure h o c0) as [[code acts] p]. destruct Hm as [Hs Hcode].
  split; [|done].
  assert (Hi : ∀ c, verified (files h)
      (insecure_accept_any_certificate (verification_options o) = true) c →
    verified (files h) (kInsecureFlag ∈ argv) c).
  { intros c [Hm [H|[H1 H2]]]; (split; [done|]); [by left|right]. split; [|done].
    by destruct (parse_insecure argv defaultOptions o Hp H1). }
  destruct Hs; [by apply shape_offline|apply shape_refused; auto|apply shape_session; auto].
Qed.

(** ** The data-change measurement *)

(** The transition times seen in good notifications, with the clock. *)
Definition observed (n : Notification) : option (Z * Z) :=
  match n with
  | DataChange now (Some v) =>
      if bool_decide (value_status v = Some false) then None
      else
        n ← as_int64 (value v);
        if u64 n =? 0 then None else Some (now, u64 n)
  | _ => None
  end.

(** The notifications that report another time than the one before. *)
Fixpoint changes (last : Z) (l : list (Z * Z)) : list (Z * Z) :=
  match l with
  | [] => []
  | (now, t) :: l => if t =? last then changes last l else (now, t) :: changes t l
  end.

Definition latencies_of (l : list (Z * Z)) : list Z :=
  omap (λ '(now, t), if t <? now then Some (now - t) else None) l.

Lemma onTransitionChanged_spec now v p :
  let p' := onTransitionChanged now v p in
  match observed (DataChange now v) with
  | None => (g_latencies p', g_last_transition p', g_had_initial p') =
            (g_latencies p, g_last_transition p, g_had_initial p)
  | Some (now, t) =>
      (g_latencies p', g_last_transition p', g_had_initial p') =
      if t =? g_last_transition p then (g_latencies p, g_last_transition p, g_had_initial p)
      else (g_latencies p ++ (if g_had_initial p then latencies_of [(now, t)] else []), t, true)
  end.
Proof.
  cbv zeta. unfold onTransitionChanged, observed. destruct v as [v|]; [|done].
  destruct (bool_decide (value_status v = Some false)); [done|].
  destruct (as_int64 (value v)) as [n|]; cbn [mbind option_bind]; [|done].
  destruct (u64 n =? 0); cbn [orb]; [done|].
  destruct (u64 n =? g_last_transition p); [done|].
  destruct (g_had_initial p); cbn [negb]; [|by rewrite app_nil_r].
  unfold latencies_of. cbn [omap list_omap]. cbn [g_latencies g_last_transition g_had_initial].
  destruct (u64 n <? now); by rewrite ?app_nil_r.
Qed.

Lemma dispatch_latencies ns p :
  g_latencies (foldl dispatch p ns) =
  g_latencies p ++ latencies_of
    ((if g_had_initial p then id else tail) (changes (g_last_transition p) (omap observed ns))).
Proof.
  revert p. induction ns as [|n ns IH]; intros p.
  { cbn. destruct (g_had_initial p); by rewrite app_nil_r. }
  cbn [foldl]. rewrite IH. clear IH. destruct n as [now v|now fields].
  - pose proof (onTransitionChanged_spec now v p) as H. cbv zeta in H.
    change (dispatch p (DataChange now v)) with (onTransitionChanged now v p).
    change (omap observed (DataChange now v :: ns)) with
      (match observed (DataChange now v) with Some x => x :: omap observed ns
       | None => omap observed ns end).
    destruct (observed (DataChange now v)) as [[now' t]|]; [|by injection H as -> -> ->].
    cbn [changes]. destruct (t =? g_last_transition p); [by injection H as -> -> ->|].
    injection H as -> -> ->. destruct (g_had_initial p); [|by rewrite app_nil_r].
    rewrite <- app_assoc. f_equal. unfold latencies_of. cbn [omap list_omap id].
    by destruct (t <? now').
  - change (omap observed (SafetyEvent now fields :: ns)) with (omap observed ns).
    cbn [dispatch]. unfold onSafetyEvent. by destruct (_ <? _)%nat.
Qed.

(** The probe measures exactly the changes it witnessed. From the notifications
    with a good status and a time, those that repeat the time before them are
    dropped, then the first, which reports a state and not a change; the
    latencies are the differences to the clock of the others, in order, each
    positive. Notifications that are bad, empty or events change none of this. *)
Theorem probe_measures_changes ns :
  g_latencies (foldl dispatch newProbe ns) =
    latencies_of (tail (changes 0 (omap observed ns))) ∧
  Forall (λ x, 0 < x) (g_latencies (foldl dispatch newProbe ns)) ∧
  (length (g_latencies (foldl dispatch newProbe ns)) ≤ length ns - 1)%nat.
Proof.
  rewrite (dispatch_latencies ns newProbe). cbn [newProbe g_latencies g_had_initial g_last_transition app].
  split; [done|]. unfold latencies_of. split.
  - apply list.Forall_forall. intros x ([now t] & Hy & Hx)%list_elem_of_omap.
    destruct (Z.ltb_spec t now); simplify_eq. lia.
  - assert (Ho : ∀ A B (f : A → option B) l, (length (omap f l) ≤ length l)%nat).
    { intros A B f l. induction l as [|a l IH]; cbn; [done|]. destruct (f a); cbn; lia. }
    assert (Hc : ∀ last l, (length (changes last l) ≤ length l)%nat).
    { intros last l. revert last. induction l as [|[now t] l IH]; intros last; cbn [changes]; [done|].
      pose proof (IH last). pose proof (IH t). destruct (t =? last); cbn [length]; lia. }
    pose proof (Ho _ _ observed ns). pose proof (Hc 0 (omap observed ns)).
    etrans; [apply Ho|]. destruct (changes 0 (omap observed ns)); cbn [tail length] in *; lia.
Qed.

(** ** The summary *)

Lemma sorted_lookup (l : list Z) i j x y :
  StronglySorted Z.le l → l !! i = Some x → l !! j = Some y → (i ≤ j)%nat → x ≤ y.
Proof.
  intros Hl. revert i j. induction Hl as [|a l _ IH Ha]; intros i j Hi Hj Hij; [done|].
  destruct i as [|i], j as [|j]; simpl in *; simplify_eq; [lia| |lia|apply (IH i j); [done|done|lia]].
  rewrite list.Forall_forall in Ha. apply Ha. by eapply list_elem_of_lookup_2.
Qed.

Lemma filter_all {A} (P : A → Prop) `{∀ x, Decision (P x)} l : Forall P l → filter P l = l.
Proof. induction 1 as [|x l Hx _ IH]; [done|]. by rewrite filter_cons_True, IH. Qed.

(** Both halves of a sorted list lie on their side of its middle. *)
Lemma sorted_halves (l : list Z) k m :
  StronglySorted Z.le l → l !! k = Some m →
  (k < length (filter (λ x : Z, (x ≤ m)%Z) l))%nat ∧
  (length l - k ≤ length (filter (λ x : Z, (m ≤ x)%Z) l))%nat.
Proof.
  intros Hl Hm. pose proof (lookup_lt_Some _ _ _ Hm) as Hk. split.
  - rewrite <- (take_drop (S k) l), filter_app, length_app, filter_all.
    + rewrite length_take. lia.
    + apply Forall_lookup. intros i x Hi. assert (i < S k)%nat.
      { apply lookup_lt_Some in Hi. rewrite length_take in Hi. lia. }
      rewrite lookup_take_lt in Hi by lia. eapply (sorted_lookup l); [exact Hl|eassumption|eassumption|lia].
  - rewrite <- (take_drop k l) at 2. rewrite filter_app, length_app, (filter_all _ (drop k l)).
    + rewrite length_drop. lia.
    + apply Forall_lookup. intros i x Hi. rewrite lookup_drop in Hi.
      eapply (sorted_lookup l); [exact Hl|eassumption|eassumption|lia].
Qed.

(** What the summary says of the measurements: their number, their least and
    their greatest, and one of them as median, with more than half of them not
    above it and half of them not below it. *)
Theorem summary_bounds (latencies : list Z) :
  match summary latencies with
  | None => latencies = []
  | Some (n, least, median, greatest) =>
      n = length latencies ∧ least ∈ latencies ∧ median ∈ latencies ∧ greatest ∈ latencies ∧
      Forall (λ x, least ≤ x ≤ greatest) latencies ∧
      (n / 2 < length (filter (λ x : Z, (x ≤ median)%Z) latencies))%nat ∧
      (n - n / 2 ≤ length (filter (λ x : Z, (median ≤ x)%Z) latencies))%nat
  end.
Proof.
  unfold summary. pose proof (merge_sort_Permutation Z.le latencies) as Hp.
  assert (Hs : StronglySorted Z.le (merge_sort Z.le latencies)) by apply (StronglySorted_merge_sort _).
  set (l := merge_sort Z.le latencies) in *. clearbody l.
  destruct l as [|x l]; [by apply Permutation_nil in Hp|]. cbn [head mbind option_bind].
  destruct (lookup_lt_is_Some_2 (x :: l) (length (x :: l) / 2)) as [m Hm].
  { apply Nat.div_lt; simpl; lia. }
  destruct (last (x :: l)) as [y|] eqn:Hy; [|by apply last_None in Hy].
  rewrite Hm. cbn [mbind option_bind]. rewrite last_lookup in Hy.
  assert (Hx : (x :: l) !! 0%nat = Some x) by done. set (k := x :: l) in *. clearbody k.
  destruct (sorted_halves k _ m Hs Hm) as [H1 H2].
  rewrite !(filter_Permutation _ _ _ Hp) in *. rewrite <- (Permutation_length Hp).
  split; [done|]. do 3 (split; [rewrite <- Hp; by eapply list_elem_of_lookup_2|]).
  split; [|by split].
  rewrite <- Hp. apply Forall_lookup. intros i z Hz. pose proof (lookup_lt_Some _ _ _ Hz).
  split; [apply (sorted_lookup k 0 i)|apply (sorted_lookup k i (pred (length k)))]; auto; lia.
Qed.

(** ** An instance *)

Lemma probe_connects_verified_example :
  let h := mkHost demo_files (Some ([1], [2])) (λ _, true) (Some (mkClientConfig ModeNone Unset))
    (λ c _ _, (true, c)) (λ _, None) (λ _ _, true) (Some "Basic256Sha256")
    (Some ModeSignAndEncrypt) (λ _, Some 2) true true true [] in
  main h ["--trust-list"; "/trust"; "--events"] =
  (0, [Connect (mkClientConfig ModeSignAndEncrypt (Trustlist [[7; 8]])) "opc.tcp://127.0.0.1:4840";
       CreateSubscription; MonitorTransition 2 kSafetyTransitionMonotonicNs;
       MonitorEvents (select_clauses 2) 64 false; Disconnect; DeleteClient], newProbe) ∧
  main h [] = (1, [DeleteClient], newProbe).
Proof. split; reflexivity. Qed.
