(* ===== verification/OpcuaClientEvents.v ===== *)
(** * Events from the control loop to the client

    The events of [src/src/opcua/events.cpp] on their way from the publishing
    thread of [src/src/apps/safeedge_opcua.cpp] to the counters of
    [src/src/apps/safeedge_opcua_probe.cpp]. The stack may refuse any call, and
    its queue for the client may overflow: what the client counts never exceeds
    the changes of decision of the control loop, and equals them when no call of
    an event was refused and no batch was larger than the queue asked for. *)

From Stdlib Require Import Ascii String.
From stdpp Require Import base numbers list option strings pretty sets.
From S2P Require Import Prelude CyclicExecutor Snapshot Runtime RuntimeSafety OpcuaServer OpcuaEvents OpcuaSecurity OpcuaSecuritySafety OpcuaProbe.

#[local] Open Scope string_scope.
#[local] Open Scope Z_scope.
#[local] Open Scope list_scope.

(** ** The events a server raises *)

(** The properties of an event. *)
Definition Properties : Type := list (Z * string * Scalar).

(** The value of a select clause in an event, empty if it has no such property. *)
Definition select (e : Properties) (clause : Z * string) : option Scalar :=
  r ← list_find (λ p : Z * string * Scalar, p.1 = clause) e; Some r.2.2.

(** A call that is not part of an event. *)
Definition plain (c : Call) : Prop :=
  match c with CreateEvent _ _ | WriteObjectProperty _ _ _ | TriggerEvent _ => False | _ => True end.

#[export] Instance plain_dec c : Decision (plain c).
Proof. destruct c; apply _. Defined.

(** The properties of the event the server raises for a transition. *)
Definition properties_of (ns : Z) (e : SafetyTransitionEvent) : Properties :=
  map (λ '(name, v), (ns, name, v)) (field_writes e) ++
  [(0, "Severity", UInt16 (severity e)); (0, "Message", Text (event_message e))].

Section Stack.
Context (good : list Call → Call → bool).

(** The event being written and the events raised, after calls given newest
    first: a triggered event has the properties whose writes were accepted, and
    a refused trigger raises nothing. *)
Fixpoint raised_by (calls : list Call) : Properties * list Properties :=
  match calls with
  | [] => ([], [])
  | c :: before =>
      let (current, raised) := raised_by before in
      match c, good before c with
      | CreateEvent _ _, _ => ([], raised)
      | WriteObjectProperty ns name v, true => (current ++ [(ns, name, v)], raised)
      | TriggerEvent _, true => ([], raised ++ [current])
      | TriggerEvent _, false => ([], raised)
      | _, _ => (current, raised)
      end
  end.

(** No call of an event was refused. *)
Fixpoint events_accepted (calls : list Call) : Prop :=
  match calls with
  | [] => True
  | c :: before => (plain c ∨ good before c = true) ∧ events_accepted before
  end.

#[export] Instance events_accepted_dec calls : Decision (events_accepted calls).
Proof. induction calls; apply _. Defined.

Lemma events_accepted_app l before : events_accepted (l ++ before) → events_accepted before.
Proof. induction l as [|c l IH]; [done|]. intros [_ H]. by apply IH. Qed.

Lemma raised_plain l before : Forall plain l → raised_by (l ++ before) = raised_by before.
Proof.
  induction 1 as [|c l Hc _ IH]; [done|]. cbn [app raised_by]. rewrite IH.
  by destruct (raised_by before), c.
Qed.

(** The chain of field writes, whatever is refused. *)
Lemma write_chain_raises ns l s current raised :
  raised_by (calls s) = (current, raised) →
  let r := write_chain good ns l s in
  let fields := map (λ '(name, v), (ns, name, v)) l in
  (∃ written, written `sublist_of` fields ∧ raised_by (calls r.2) = (current ++ written, raised)) ∧
  (events_accepted (calls r.2) → raised_by (calls r.2) = (current ++ fields, raised)).
Proof.
  cbv zeta. revert s current. induction l as [|[n v] l IH]; intros s current Hs; cbn [write_chain map].
  { split; [exists []|]; by rewrite app_nil_r. }
  unfold invoke. destruct (good (calls s) (WriteObjectProperty ns n v)) eqn:Hg.
  - destruct (IH (mkServer (WriteObjectProperty ns n v :: calls s) (g_namespace_index s))
      (current ++ [(ns, n, v)])) as [(w & Hw & E) Ha].
    { cbn [calls raised_by]. by rewrite Hs, Hg. }
    split; [|intros H; rewrite (Ha H); by rewrite <- app_assoc].
    exists ((ns, n, v) :: w). split; [by apply sublist_skip|]. by rewrite E, <- app_assoc.
  - cbn [snd calls raised_by events_accepted]. rewrite Hs, Hg. split; [|by intros [[[]|] _]].
    exists []. split; [apply sublist_nil_l|]. by rewrite app_nil_r.
Qed.
(** An event on its way through the stack: it is raised with some of its
    properties or not at all, and in full if nothing is refused. *)
Lemma fire_raises e s :
  let ns := g_namespace_index s in
  let r := fireSafetyTransition good e s in
  g_namespace_index r.2 = ns ∧
  (∃ l, calls r.2 = l ++ calls s) ∧
  ((raised_by (calls r.2)).2 = (raised_by (calls s)).2 ∨
   ∃ props, props `sublist_of` properties_of ns e ∧
     (raised_by (calls r.2)).2 = (raised_by (calls s)).2 ++ [props]) ∧
  (ns ≠ 0 → events_accepted (calls r.2) →
     (raised_by (calls r.2)).2 = (raised_by (calls s)).2 ++ [properties_of ns e]).
Proof.
  cbv zeta. split; [|split; [apply (fire_calls good e s)|]].
  { unfold fireSafetyTransition, invoke. destruct (_ =? 0); [done|].
    destruct (good _ _); cbn [negb]; [|done]. set (s1 := mkServer _ _).
    destruct (write_chain_calls good (g_namespace_index s1) (field_writes e) s1) as [Hns _].
    by destruct (write_chain _ _ _ s1). }
  unfold fireSafetyTransition, invoke. destruct (Z.eqb_spec (g_namespace_index s) 0) as [H0|H0].
  { split; [by left|done]. }
  destruct (raised_by (calls s)) as [current raised] eqn:Es.
  destruct (good (calls s) _) eqn:Hc; cbn [negb].
  2: { cbn [snd calls raised_by events_accepted]. rewrite Es, Hc.
       split; [by left|]. by intros _ [[[]|] _]. }
  set (s1 := mkServer _ _).
  destruct (write_chain_raises (g_namespace_index s) (field_writes e) s1 [] raised)
    as [(w & Hw & E) Ha]; [by cbn [s1 calls raised_by]; rewrite Es|].
  cbn [s1 g_namespace_index] in *. fold s1. cbn [app] in *.
  destruct (write_chain _ _ _ s1) as [ok s2]. cbn [snd fst] in *. cbn [calls snd raised_by events_accepted].
  rewrite E.
  split.
  - destruct (good (calls s2) _), (good (_ :: calls s2) _), (good (_ :: _ :: calls s2) _);
      (first [left; reflexivity|right; eexists; split; [|reflexivity]]);
      unfold properties_of; rewrite <- ?app_assoc; try (apply sublist_app; [done|]);
      auto using sublist_inserts_r, sublist_nil_l, sublist_skip, sublist_cons.
  - intros _ ([[]|H3] & [[]|H2] & [[]|H1] & Hacc). rewrite H1, H2, H3. cbn [snd].
    rewrite (Ha Hacc) in E. injection E as <-. unfold properties_of. by rewrite <- !app_assoc.
Qed.
End Stack.

(** ** What an event reports *)

(** What the client counts for an event: itself and the missed transitions it
    carries, if it carries them. *)
Definition reports (ns : Z) (e : Properties) : Z :=
  1 + default 0 (as_uint64 (select e (ns, "MissedTransitions"))).

Definition reported (ns : Z) (es : list Properties) : Z := foldr (λ e n, reports ns e + n) 0 es.

Lemma reported_app ns es es' : reported ns (es ++ es') = reported ns es + reported ns es'.
Proof. unfold reported. induction es as [|e es IH]; [done|]. cbn [foldr app]. rewrite IH. lia. Qed.

Lemma Forall_sublist_of {A} (P : A → Prop) l k : l `sublist_of` k → Forall P k → Forall P l.
Proof. rewrite !list.Forall_forall. intros Hs Hk x Hx. apply Hk. by eapply elem_of_sublist. Qed.

Lemma reported_sublist ns es es' :
  es `sublist_of` es' → Forall (λ e, 1 ≤ reports ns e) es' →
  0 ≤ reported ns es ≤ reported ns es'.
Proof.
  induction 1 as [|e es es' _ IH|e es es' _ IH]; [done|..]; intros [He Hes]%Forall_cons_1;
    specialize (IH Hes); cbn [reported foldr]; fold (reported ns es) (reported ns es'); lia.
Qed.

Lemma select_elem e k v : select e k = Some v → (k, v) ∈ e.
Proof.
  unfold select. destruct (list_find _ e) as [[i [k' v']]|] eqn:E; [|done].
  apply list_find_Some in E as (Hi & Hk & _). cbn in *. intros [= <-]. rewrite <- Hk.
  by eapply list_elem_of_lookup_2.
Qed.

(** An event that lost properties reports no more than the transition it is for. *)
Lemma reports_written ns e props :
  0 ≤ missed_transitions e → props `sublist_of` properties_of ns e →
  1 ≤ reports ns props ≤ 1 + missed_transitions e.
Proof.
  intros He Hs. unfold reports.
  destruct (select props _) as [v|] eqn:E; [|cbn; lia].
  apply select_elem in E. apply (elem_of_sublist _ _ _ E) in Hs. clear E. rename Hs into E.
  unfold properties_of, field_writes in E. cbn [map app] in E.
  assert (v = UInt64 (missed_transitions e)) as ->.
  { rewrite !elem_of_cons, elem_of_nil in E. destruct_or! E; by simplify_eq. }
  cbn. lia.
Qed.

Lemma reports_complete ns e : reports ns (properties_of ns e) = 1 + missed_transitions e.
Proof.
  unfold reports, properties_of, field_writes, select. cbn [map app list_find fst].
  rewrite !decide_False by (intros [=]). rewrite decide_True by done. done.
Qed.

(** ** The publishing thread *)

Lemma describe_missed_nonneg x previous : 0 ≤ missed_transitions (describeTransition x previous).
Proof.
  cbn. destruct (1 <? _); [|done]. by apply Z.mod_pos_bound.
Qed.

(** What has been raised reports at most what was described, and exactly that if
    no call of an event was refused. *)
Record raises (good : list Call → Call → bool) (ns : Z) (p : Publisher) : Prop := mkRaises {
  ra_namespace : g_namespace_index (server p) = ns;
  ra_reports : Forall (λ e, 1 ≤ reports ns e) (raised_by good (calls (server p))).2;
  ra_bound : reported ns (raised_by good (calls (server p))).2 ≤ accounted (described p);
  ra_exact : ns ≠ 0 → events_accepted good (calls (server p)) →
    reported ns (raised_by good (calls (server p))).2 = accounted (described p)
}.

Lemma round_raises good ns p loaded : raises good ns p → raises good ns (publish_round good p loaded).
Proof.
  intros [Hns Hr Hb He]. unfold publish_round. rewrite publishSnapshot_calls.
  set (w := reverse _).
  assert (Hw : Forall plain w) by (apply Forall_reverse; by repeat constructor). clearbody w.
  set (s := mkServer (w ++ calls (server p)) _).
  assert (Hs : raises good ns (mkPublisher (have_sequence p) (last_sequence p) s (described p))).
  { split; cbn [server described s calls g_namespace_index]; rewrite ?raised_plain by done; try done.
    intros H0 Ha%events_accepted_app. by apply He. }
  clearbody s. clear Hr Hb He Hw.
  destruct (bool_decide (is_Some loaded)); [|done].
  destruct (negb (have_sequence p)); [by destruct Hs|]. destruct (negb (_ =? _)); [|done].
  destruct Hs as [Hns' Hr Hb He]. cbn [server described] in *.
  pose proof (describe_missed_nonneg (default Edge.newSnapshot loaded) (last_sequence p)) as Hm.
  set (e := describeTransition _ _) in *. clearbody e.
  destruct (fire_raises good e s) as (Hn & [l Hl] & Hup & Hex). rewrite Hns' in *.
  assert (Hacc : accounted (described p ++ [e]) = accounted (described p) + (1 + missed_transitions e)).
  { rewrite accounted_app. cbn. lia. }
  split; cbn [server described]; [done|..].
  - destruct Hup as [-> |(props & Hp & ->)]; [done|]. apply Forall_app_2; [done|].
    constructor; [|done]. pose proof (reports_written ns e props Hm Hp). lia.
  - rewrite Hacc. destruct Hup as [-> |(props & Hp & ->)]; [lia|]. rewrite reported_app.
    pose proof (reports_written ns e props Hm Hp). cbn. lia.
  - intros H0 Ha. rewrite (Hex H0 Ha), Hacc, reported_app. rewrite Hl in Ha.
    rewrite (He H0 (events_accepted_app _ _ _ Ha)). cbn [reported foldr]. rewrite reports_complete. lia.
Qed.

Lemma rounds_raise good ns p loads : raises good ns p → raises good ns (publish_rounds good p loads).
Proof.
  revert p. induction loads as [|x loads IH]; intros p Hp; [done|]. by apply IH, round_raises.
Qed.

Lemma raises_new good sv :
  Forall plain (calls sv) → raises good (g_namespace_index sv) (newPublisher sv).
Proof.
  intros Hp. pose proof (raised_plain good (calls sv) [] Hp) as E. rewrite app_nil_r in E.
  split; cbn [newPublisher server described]; rewrite ?E; done.
Qed.

(** ** The client *)

(** The fields of an event notification. *)
Definition event_fields (n : Notification) : option (list (option Scalar)) :=
  match n with SafetyEvent _ fields => Some fields | DataChange _ _ => None end.

(** Everything the client has counted. *)
Definition counted (p : Probe) : Z := g_events_received p + g_events_coalesced_by_server p.

Lemma u64_bounds x : 0 ≤ x → 0 ≤ u64 x ≤ x.
Proof.
  intros Hx. unfold unsigned_wrap. split; [by apply Z.mod_pos_bound|by apply Z.mod_le].
Qed.

Lemma onSafetyEvent_counts ns now e p :
  0 ≤ g_events_received p → 0 ≤ g_events_coalesced_by_server p → 1 ≤ reports ns e →
  let p' := onSafetyEvent now (map (select e) (select_clauses ns)) p in
  0 ≤ g_events_received p' ∧ 0 ≤ g_events_coalesced_by_server p' ∧
  counted p' ≤ counted p + reports ns e ∧ u64 (counted p') = u64 (counted p + reports ns e).
Proof.
  intros Hr Hc. unfold reports, counted, onSafetyEvent, select_clauses. cbn [map].
  change (length _ <? kFieldCount)%nat with false. cbv iota.
  change (field _ kFieldMissed) with (select e (ns, "MissedTransitions")).
  cbn [g_events_received g_events_coalesced_by_server].
  pose proof (u64_bounds (g_events_received p + 1) ltac:(lia)).
  destruct (as_uint64 (select e (ns, "MissedTransitions"))) as [n|]; cbn [from_option id]; intros Hn.
  - pose proof (u64_bounds (g_events_coalesced_by_server p + n) ltac:(lia)).
    split_and!; [lia..|]. unfold unsigned_wrap. rewrite <- Zplus_mod. f_equal. lia.
  - split_and!; [lia..|]. unfold unsigned_wrap. rewrite Zplus_mod_idemp_l. f_equal. lia.
Qed.

(** The counters after notifications whose events are [es]. *)
Lemma notifications_counted ns notes es p :
  omap event_fields notes = map (λ e, map (select e) (select_clauses ns)) es →
  Forall (λ e, 1 ≤ reports ns e) es →
  0 ≤ g_events_received p → 0 ≤ g_events_coalesced_by_server p →
  let p' := foldl dispatch p notes in
  counted p' ≤ counted p + reported ns es ∧ 0 ≤ counted p' ∧
  u64 (counted p') = u64 (counted p + reported ns es).
Proof.
  cbv zeta. revert es p. induction notes as [|[now v|now fields] notes IH]; intros es p En Hes Hr Hc.
  - destruct es; [|done]. cbn. unfold counted. rewrite !Z.add_0_r. lia.
  - assert (E : g_events_received (onTransitionChanged now v p) = g_events_received p ∧
      g_events_coalesced_by_server (onTransitionChanged now v p) = g_events_coalesced_by_server p).
    { unfold onTransitionChanged. by repeat case_match. }
    destruct E as [E1 E2]. cbn [foldl dispatch].
    assert (E : counted p = counted (onTransitionChanged now v p)) by (unfold counted; congruence).
    rewrite E. by apply IH; [|done|rewrite E1|rewrite E2].
  - destruct es as [|e es]; [done|]. rewrite map_cons in En.
    change (omap event_fields (_ :: notes)) with (fields :: omap event_fields notes) in En.
    remember (map (select e) (select_clauses ns)) as selected eqn:Hsel. injection En as -> En.
    subst selected.
    apply Forall_cons_1 in Hes as [He Hes]. cbn [foldl dispatch].
    destruct (onSafetyEvent_counts ns now e p Hr Hc He) as (Hr' & Hc' & Hle & Hu).
    destruct (IH es _ En Hes Hr' Hc') as (IH1 & IH2 & IH3).
    cbn [reported foldr]. fold (reported ns es). split; [lia|]. split; [done|]. rewrite IH3.
    unfold unsigned_wrap in *. rewrite <- (Zplus_mod_idemp_l (counted _)), Hu, Zplus_mod_idemp_l.
    f_equal. lia.
Qed.

(** ** From the loop to the counters *)

(** What the documentation says of the queue of a subscription, for the events
    raised between two publications: it delivers them in order, and loses none
    up to the depth that the client asked for. *)
Definition queue_delivers (depth : Z) (batch delivered : list Properties) : Prop :=
  delivered `sublist_of` batch ∧ (Z.of_nat (length batch) ≤ depth → delivered = batch).

(** The notifications of a client that subscribed with these clauses and this
    depth, for raised events that come in these batches; notifications of data
    changes may be anywhere between. *)
Definition delivery (clauses : list (Z * string)) (depth : Z) (raised : list Properties)
    (batches : list (list Properties)) (notes : list Notification) : Prop :=
  concat batches = raised ∧
  ∃ delivered, Forall2 (queue_delivers depth) batches delivered ∧
    omap event_fields notes = map (λ e, map (select e) clauses) (concat delivered).

Lemma queue_sublist depth batches delivered :
  Forall2 (queue_delivers depth) batches delivered →
  concat delivered `sublist_of` concat batches ∧
  (Forall (λ b, Z.of_nat (length b) ≤ depth) batches → delivered = batches).
Proof.
  induction 1 as [|b d bs ds [Hs Hl] _ [IHs IHl]]; [done|]. split.
  - by apply sublist_app.
  - intros [Hb Hbs]%Forall_cons_1. f_equal; [by apply Hl|by apply IHl].
Qed.

(** A probe that subscribed to events asked for these, and counted what it was
    notified of. *)
Lemma measure_events h o code acts p clauses depth oldest :
  measure h o = (code, acts, p) → MonitorEvents clauses depth oldest ∈ acts →
  (∀ ns, namespace_of h kNamespaceUri = Some ns → clauses = select_clauses ns) ∧ depth = 64 ∧
  (p = newProbe ∨ p = foldl dispatch newProbe (notifications h)) ∧
  (code = 0 → 0 < seconds o → p = foldl dispatch newProbe (notifications h)).
Proof.
  unfold measure. destruct (negb _ || negb _); [intros [= <- <- <-]; set_solver|].
  destruct (namespace_of h kNamespaceUri) as [ns|]; [|intros [= <- <- <-]; set_solver].
  destruct (negb (subscription_created h)); [intros [= <- <- <-]; set_solver|].
  destruct (negb (transition_monitored h)); [intros [= <- <- <-]; set_solver|].
  destruct (subscribe_events o); cbn [andb];
    [|intros [= <- <- <-] Hin; cbn in Hin; rewrite !elem_of_cons, elem_of_nil in Hin; naive_solver].
  assert (Hin : ∀ l, MonitorEvents clauses depth oldest ∈
      ([CreateSubscription; MonitorTransition ns kSafetyTransitionMonotonicNs] ++
       [MonitorEvents (select_clauses ns) 64 false]) ++ [Disconnect; DeleteClient] →
    l = ns → clauses = select_clauses l ∧ depth = 64).
  { intros l H ->. rewrite !elem_of_app, !elem_of_cons, !elem_of_nil in H. naive_solver. }
  destruct (negb (events_monitored h)); intros [= <- <- <-] [-> ->]%(λ H, Hin ns H eq_refl);
    (split; [by intros ? [= <-]|split; [done|]]); [by split; [left|]|].
  destruct (Z.ltb_spec 0 (seconds o)); (split; [by auto|]); [done|lia].
Qed.


(** ** Instances *)

(** The server after a complete start. *)
Definition demo_server : Server :=
  (buildEventType (λ _ _, true) (buildAddressSpace (λ _ _, true) (λ _, 2) newServer).2).2.

(** Five cycles with three changes of decision. *)
Definition demo_loop : list Cycle :=
  demo_cycles 1000000 [(false, false); (false, false); (true, false); (false, true); (false, false)].

Local Abbreviation demo_raised good reads :=
  (raised_by good (calls (server (publish_rounds good (newPublisher demo_server)
    (map (load (stored (mkTimespec 0 0) demo_loop)) reads))))).2.

(** A client that is notified of events and, between them, of nothing new. *)
Definition demo_client (raised : list Properties) : Host :=
  mkHost demo_files (Some ([1], [2])) (λ _, true) (Some (mkClientConfig ModeNone Unset))
    (λ c _ _, (true, c)) (λ _, None) (λ _ _, true) (Some "Basic256Sha256")
    (Some ModeSignAndEncrypt) (λ _, Some 2) true true true
    (DataChange 7 None :: map (λ e, SafetyEvent 7 (map (select e) (select_clauses 2))) raised).

Definition demo_measured (raised : list Properties) : Probe :=
  (measure (demo_client raised) (set_events defaultOptions)).2.

Definition demo_actions : list Action :=
  [CreateSubscription; MonitorTransition 2 kSafetyTransitionMonotonicNs;
   MonitorEvents (select_clauses 2) 64 false; Disconnect; DeleteClient].

Lemma demo_measures raised :
  measure (demo_client raised) (set_events defaultOptions) =
  (0, demo_actions, demo_measured raised).
Proof. reflexivity. Qed.

Lemma demo_delivered raised :
  delivery (select_clauses 2) 64 raised [raised] (notifications (demo_client raised)).
Proof.
  split; [apply app_nil_r|]. exists [raised]. split; [repeat constructor; by intros|].
  cbn [concat]. rewrite app_nil_r. cbn [demo_client notifications].
  induction raised as [|e l IH]; [done|]. cbn in *. by rewrite IH.
Qed.

Definition demo_reads : list (option nat) := [None; Some 3%nat; Some 5%nat].


(** An event that the stack refuses leaves no trace: the first transition is
    refused, the events after it say that nothing was missed since the event
    before, and the client's total is one short. *)
Example refused_event_untold :
  let refuses_first before c :=
    negb (bool_decide (Forall plain before)) || bool_decide (plain c) in
  let reads := map Some (seq 0 6) in
  map (reports 2) (demo_raised (λ _ _, true) reads) = [1; 1; 1] ∧
  map (reports 2) (demo_raised refuses_first reads) = [1; 1] ∧
  counted (demo_measured (demo_raised refuses_first reads)) = 2 ∧
  transitions Edge.newSnapshot (segment (stored (mkTimespec 0 0) demo_loop) 0 5) = 3%nat.
Proof. repeat split; vm_compute; reflexivity. Qed.
