(* ===== verification/HttpService.v ===== *)
(** * The HTTP server's sockets and the health probe

    [start], [stop] and the accept loop of [src/src/edge/http_server.cpp], and
    [runHealthcheck] of [src/src/apps/safeedged.cpp]. The kernel answers each
    call as a function of the calls made before it; calls are recorded newest
    first. *)

From Stdlib Require Import Ascii String.
From stdpp Require Import base numbers list option strings pretty sets gmap.
From S2P Require Import Prelude Strings HttpServer Snapshot Runtime.

#[local] Open Scope string_scope.
#[local] Open Scope Z_scope.
#[local] Open Scope list_scope.

(** ** System calls *)

Inductive SocketCall :=
  | Socket
  | SetReuseAddress (fd : Z)
  | Bind (fd port : Z)
  | Listen (fd backlog : Z)
  | GetSockName (fd : Z)
  | PollIn (fd timeout_ms : Z)
  | Accept (fd : Z)
  | Serve (connection : Z)
  | CloseSocket (fd : Z).

#[export] Instance socket_call_eq_dec : EqDecision SocketCall.
Proof. solve_decision. Defined.

(** The result of a call, [errno], and for [GetSockName] the port. *)
Record SocketReply := mkSocketReply { returned : Z; error_code : Z; sin_port : Z }.

(** The members that [start] and [stop] use; [error_] holds the operation and its
    error, from which the text is made. *)
Record Listener := mkListener {
  listening : bool;
  listen_fd_ : Z;
  port_ : Z;
  listen_error_ : option (string * Z)
}.

Definition newListener : Listener := mkListener false (-1) 0 None.

Section Sockets.
Context (kernel : list SocketCall → SocketCall → SocketReply).

(** A failure after the socket exists closes it. *)
Definition abandon (operation : string) (code fd : Z) (l : Listener) (t : list SocketCall)
  : bool * Listener * list SocketCall :=
  (false, mkListener (listening l) (-1) (port_ l) (Some (operation, code)), CloseSocket fd :: t).

Definition start (port : Z) (l : Listener) (t : list SocketCall)
  : bool * Listener * list SocketCall :=
  if listening l then (true, l, t)
  else
    let r := kernel t Socket in
    let fd := returned r in
    let t := Socket :: t in
    if fd <? 0 then
      (false, mkListener (listening l) fd (port_ l) (Some ("socket", error_code r)), t)
    else
      let t := SetReuseAddress fd :: t in
      let r := kernel t (Bind fd port) in
      let t := Bind fd port :: t in
      if negb (returned r =? 0) then abandon "bind" (error_code r) fd l t
      else
        let r := kernel t (Listen fd 16) in
        let t := Listen fd 16 :: t in
        if negb (returned r =? 0) then abandon "listen" (error_code r) fd l t
        else
          let r := kernel t (GetSockName fd) in
          let t := GetSockName fd :: t in
          (true, mkListener true fd (if returned r =? 0 then sin_port r else port) None, t).

(** [stop]; the thread is joined before the socket is closed. *)
Definition stop (l : Listener) (t : list SocketCall) : Listener * list SocketCall :=
  if negb (listening l) then (l, t)
  else if 0 <=? listen_fd_ l
  then (mkListener false (-1) (port_ l) (listen_error_ l), CloseSocket (listen_fd_ l) :: t)
  else (mkListener false (listen_fd_ l) (port_ l) (listen_error_ l), t).

Definition kPollIntervalMs : Z := 200.

(** [acceptLoop] for [n] turns before the flag is cleared. *)
Fixpoint acceptLoop (n : nat) (fd : Z) (t : list SocketCall) : list SocketCall :=
  match n with
  | O => t
  | S n =>
      let ready := returned (kernel t (PollIn fd kPollIntervalMs)) in
      let t := PollIn fd kPollIntervalMs :: t in
      if ready <=? 0 then acceptLoop n fd t
      else
        let connection := returned (kernel t (Accept fd)) in
        let t := Accept fd :: t in
        if connection <? 0 then acceptLoop n fd t
        else acceptLoop n fd (CloseSocket connection :: Serve connection :: t)
  end.

(** The life of a server: start, [n] turns, stop. *)
Definition lifetime (port : Z) (n : nat) : bool * Listener * list SocketCall :=
  let '(started, l, t) := start port newListener [] in
  if started then
    let (l, t) := stop l (acceptLoop n (listen_fd_ l) t) in (started, l, t)
  else (started, l, t).

(** ** Descriptors *)

(** The descriptors open after the calls. *)
Fixpoint open_sockets (t : list SocketCall) : list Z :=
  match t with
  | [] => []
  | Socket :: t =>
      if returned (kernel t Socket) <? 0 then open_sockets t
      else returned (kernel t Socket) :: open_sockets t
  | Accept fd :: t =>
      if returned (kernel t (Accept fd)) <? 0 then open_sockets t
      else returned (kernel t (Accept fd)) :: open_sockets t
  | CloseSocket fd :: t => remove Z.eq_dec fd (open_sockets t)
  | _ :: t => open_sockets t
  end.

(** Every call was made on a descriptor that was open at the time. *)
Fixpoint uses_open (t : list SocketCall) : Prop :=
  match t with
  | [] => True
  | c :: t =>
      uses_open t ∧
      match c with
      | Socket => True
      | SetReuseAddress fd | Bind fd _ | Listen fd _ | GetSockName fd | PollIn fd _ | Accept fd
      | Serve fd | CloseSocket fd => fd ∈ open_sockets t
      end
  end.

(** The kernel hands out descriptors that are not in use. *)
Hypothesis fresh_socket : ∀ t, returned (kernel t Socket) ∉ open_sockets t.
Hypothesis fresh_connection : ∀ t fd, returned (kernel t (Accept fd)) ∉ open_sockets t.

Lemma acceptLoop_balanced n fd t :
  uses_open t → open_sockets t = [fd] →
  uses_open (acceptLoop n fd t) ∧ open_sockets (acceptLoop n fd t) = [fd].
Proof.
  revert t. induction n as [|n IH]; intros t Hu Ho; cbn [acceptLoop]; [done|].
  assert (Hfd : fd ∈ open_sockets t) by (rewrite Ho; set_solver).
  set (t1 := PollIn fd kPollIntervalMs :: t).
  assert (H1 : uses_open t1 ∧ open_sockets t1 = [fd]) by done. clearbody t1.
  destruct H1 as [Hu1 Ho1]. destruct (_ <=? 0); [by apply IH|].
  pose proof (fresh_connection t1 fd) as Hf. rewrite Ho1 in Hf.
  set (c := returned (kernel t1 (Accept fd))) in *.
  assert (Ha : uses_open (Accept fd :: t1) ∧
    open_sockets (Accept fd :: t1) = if c <? 0 then [fd] else [c; fd]).
  { cbn [uses_open open_sockets]. fold c. rewrite Ho1. split; [set_solver|done]. }
  set (t2 := Accept fd :: t1) in *. clearbody t2. destruct Ha as [Hu2 Ho2].
  destruct (c <? 0); [by apply IH|]. apply IH.
  - cbn [uses_open open_sockets]. rewrite Ho2. set_solver.
  - cbn [open_sockets]. rewrite Ho2. cbn [remove].
    destruct (Z.eq_dec c c) as [_|]; [|done]. destruct (Z.eq_dec c fd) as [->|]; [set_solver|done].
Qed.

(** What [start] leaves open. *)
Lemma start_balanced port :
  let '(started, l, t) := start port newListener [] in
  uses_open t ∧ listening l = started ∧
  if started then open_sockets t = [listen_fd_ l] ∧ 0 ≤ listen_fd_ l ∧ listen_error_ l = None
  else open_sockets t = [] ∧ listen_fd_ l < 0 ∧ is_Some (listen_error_ l).
Proof.
  unfold start. cbn [newListener listening].
  destruct (Z.ltb_spec (returned (kernel [] Socket)) 0) as [H|H].
  { cbn. rewrite (proj2 (Z.ltb_lt _ _)) by done. repeat split; eauto. }
  assert (Ho : open_sockets [Socket] = [returned (kernel [] Socket)]).
  { cbn. by rewrite (proj2 (Z.ltb_ge _ _)). }
  assert (Hu : uses_open [Socket]) by done.
  set (fd := returned (kernel [] Socket)) in *. generalize dependent [Socket]. intros t0 Ho Hu.
  assert (Hr : remove Z.eq_dec fd [fd] = []).
  { cbn. by destruct (Z.eq_dec fd fd). }
  assert (Hfd : fd ∈ [fd]) by set_solver.
  destruct (negb _); [|destruct (negb _)]; unfold abandon;
    cbn [listening newListener port_ listen_fd_ listen_error_ uses_open open_sockets];
    rewrite ?Ho, ?Hr; repeat split; eauto; lia.
Qed.

(** Sockets are used in order and given back. Whatever the kernel answers, a
    server that starts, serves any number of turns and stops uses only open
    descriptors, closes every connection it accepted before the next one, and
    leaves none open; one that does not start leaves none open either and says
    which call failed; a second stop does nothing. *)
Theorem server_sockets_balanced port n :
  let '(started, l, t) := lifetime port n in
  uses_open t ∧ open_sockets t = [] ∧ listening l = false ∧ listen_fd_ l < 0 ∧
  (started = false ↔ is_Some (listen_error_ l)) ∧ stop l t = (l, t).
Proof.
  unfold lifetime. pose proof (start_balanced port) as H.
  destruct (start port newListener []) as [[[] l] t]; destruct H as (Hu & Hl & Ho & Hfd & He).
  - destruct (acceptLoop_balanced n (listen_fd_ l) t Hu Ho) as [Hu' Ho'].
    unfold stop at 1. rewrite Hl. cbn [negb]. rewrite (proj2 (Z.leb_le _ _)) by done.
    cbn [uses_open open_sockets listening listen_fd_ listen_error_]. rewrite Ho', He.
    cbn [remove]. destruct (Z.eq_dec _ _); [|done].
    split_and!; [done|set_solver|done|done|lia| |done]. split; [done|by intros []].
  - unfold stop. rewrite Hl. by split_and!.
Qed.
End Sockets.

(** A kernel that numbers descriptors by the calls made so far, with a connection
    waiting at every poll. *)
Definition demo_kernel (t : list SocketCall) (c : SocketCall) : SocketReply :=
  match c with
  | Socket | Accept _ => mkSocketReply (3 + Z.of_nat (length t)) 0 0
  | PollIn _ _ => mkSocketReply 1 0 0
  | GetSockName _ => mkSocketReply 0 0 9100
  | _ => mkSocketReply 0 0 0
  end.

Lemma demo_kernel_fresh t x : x ∈ open_sockets demo_kernel t → x < 3 + Z.of_nat (length t).
Proof.
  induction t as [|c t IH]; cbn [open_sockets]; [set_solver|].
  assert (Hs : x ∈ open_sockets demo_kernel t → x < 3 + Z.of_nat (length (c :: t))).
  { intros H%IH. cbn [length]. lia. }
  destruct c; cbn [demo_kernel returned]; try exact Hs.
  - case_match; [exact Hs|]. intros [->|Hin]%elem_of_cons; [cbn [length]; lia|by apply Hs].
  - case_match; [exact Hs|]. intros [->|Hin]%elem_of_cons; [cbn [length]; lia|by apply Hs].
  - intros H. apply Hs. apply list_elem_of_In. by eapply in_remove, list_elem_of_In.
Qed.

Lemma server_sockets_balanced_witness :
  open_sockets demo_kernel (lifetime demo_kernel 9100 3).2 = [].
Proof.
  assert (Hf : ∀ t c, returned (demo_kernel t c) = 3 + Z.of_nat (length t) →
    returned (demo_kernel t c) ∉ open_sockets demo_kernel t).
  { intros t c E H%demo_kernel_fresh. lia. }
  pose proof (server_sockets_balanced demo_kernel (λ t, Hf t Socket eq_refl)
    (λ t fd, Hf t (Accept fd) eq_refl) 9100 3) as H.
  destruct (lifetime demo_kernel 9100 3) as [[started l] t]. exact (proj1 (proj2 H)).
Defined.

(** ** The health probe *)

(** What the probe's calls return: whether the socket is created and connected,
    the count of [write], and the bytes [read] delivers, empty when it fails. *)
Record Exchange := mkExchange {
  created : bool;
  connected : bool;
  write_count : Z;
  received : string
}.

Definition kHealthRequest : string :=
  "GET /healthz HTTP/1.1" +:+ CRLF +:+ "Host: localhost" +:+ CRLF +:+ "Connection: close" +:+
  CRLF +:+ CRLF.

(** The array holds 64 bytes and stays terminated. *)
Definition kResponseBytes : nat := 63.

(** The text up to the first zero byte. *)
Fixpoint c_string (s : string) : string :=
  match s with
  | EmptyString => EmptyString
  | String c s => if Ascii.eqb c "000" then EmptyString else String c (c_string s)
  end.

Definition runHealthcheck (x : Exchange) : Z :=
  if negb (created x) then 1
  else if negb (connected x) then 1
  else if negb (write_count x =? Z.of_nat (String.length kHealthRequest)) then 1
  else
    let response := substring 0 kResponseBytes (received x) in
    if bool_decide (response = EmptyString) then 1
    else if contains " 200 " (c_string response) then 0 else 1.

Lemma contains_healthz running_body running_status k :
  (13 ≤ k)%nat →
  let r := healthz running_body running_status in
  runHealthcheck (mkExchange true true (Z.of_nat (String.length kHealthRequest))
    (substring 0 k (render_head r +:+ body r))) = if running_status then 0 else 1.
Proof.
  intros Hk. cbv zeta. set (text := render_head _ +:+ body _).
  assert (Hall : ∀ j, (13 ≤ j ≤ 63)%nat → runHealthcheck (mkExchange true true
    (Z.of_nat (String.length kHealthRequest)) (substring 0 j text)) = if running_status then 0 else 1).
  { assert (Hc : forallb (λ j, runHealthcheck (mkExchange true true
      (Z.of_nat (String.length kHealthRequest)) (substring 0 j text)) =?
      (if running_status then 0 else 1)) (seq 13 51) = true).
    { unfold text. destruct running_body, running_status; vm_compute; reflexivity. }
    rewrite forallb_forall in Hc. intros j Hj. apply Z.eqb_eq, Hc, in_seq. lia. }
  destruct (Nat.le_gt_cases k 63) as [H|H]; [apply Hall; lia|].
  rewrite <- (Hall 63%nat ltac:(lia)). unfold runHealthcheck.
  cbn [created connected write_count received]. unfold kResponseBytes.
  by rewrite !substring_substring by lia.
Qed.

(** The health probe agrees with the server. Its request is read whole and
    answered by the handler of [/healthz]; and however much of the answer the
    single read delivers, from the status line on, the probe exits with zero
    exactly when the control loop was running. *)
Theorem healthcheck_agrees routes running_body running_status k :
  let r := healthz running_body running_status in
  (13 ≤ k)%nat →
  read_request [kHealthRequest] EmptyString = Some kHealthRequest ∧
  respond (<["/healthz" := r]> routes) kHealthRequest = r ∧
  runHealthcheck (mkExchange true true (Z.of_nat (String.length kHealthRequest))
    (substring 0 k (render_head r +:+ body r))) = if running_status then 0 else 1.
Proof.
  cbv zeta. intros Hk. split; [by_compute|]. split; [|by apply contains_healthz].
  unfold respond.
  assert (E : parse_request kHealthRequest = Some ("GET", "/healthz")) by by_compute.
  rewrite E. cbn [String.eqb negb]. by rewrite lookup_insert_eq.
Qed.

Lemma healthcheck_agrees_witness :
  runHealthcheck (mkExchange true true 61
    (substring 0 13 (render_head (healthz true true) +:+ body (healthz true true)))) = 0.
Proof. apply (healthcheck_agrees ∅ true true 13). lia. Defined.
