(* ===== verification/Process.v ===== *)
(** * The runtime process

    [main] of [src/src/apps/safeedged.cpp]: the health probe mode, the signal
    handlers, the settings, the published slot, the server, the watchers, the
    control thread, and the shutdown in which they end. *)

From Stdlib Require Import Ascii String.
From stdpp Require Import base numbers list option strings pretty sets gmap.
From S2P Require Import Prelude Strings CyclicExecutor SharedMemory ThreadConfig HttpServer Snapshot Runtime RuntimeSafety Environment HttpService.

#[local] Open Scope string_scope.
#[local] Open Scope Z_scope.
#[local] Open Scope list_scope.

(** ** What the process does *)

Inductive Action :=
  | LogEvent (level message : string) (detail : option string)
  | InstallHandlers
  | StoreEmptySnapshot (shared : bool)
  | StartWatcher (path : string) (mode : Mode) (period_ms : Z)
  | StartControl (executor : CyclicExecutor.Config) (thread : ThreadConfig.ThreadConfig)
  | AwaitShutdown
  | JoinControl
  | StopServer
  | JoinWatcher (path : string) (mode : Mode).

Record Outcome := mkOutcome {
  exit_code : Z;
  actions : list Action;
  region_calls : list SharedMemory.Call;
  socket_calls : list SocketCall
}.

(** What the process depends on: [turns] is how often the accept loop goes round,
    [error_message] the text of an error number, [last_load] the last
    [tryLoad]. *)
Record Host := mkHost {
  getenv : string → option string;
  health : Exchange;
  handlers_installed : bool;
  os : list SharedMemory.Call → SharedMemory.Call → Reply;
  slot_bytes : Z;
  kernel : list SocketCall → SocketCall → SocketReply;
  turns : nat;
  error_message : Z → string;
  last_load : option Edge.RuntimeSnapshot
}.

(** ** Settings *)

Definition metrics_port (env : string → option string) : Z :=
  u16 (environmentLong (env "SAFEEDGE_METRICS_PORT") 9100).

Definition executor_config (period : Z) : CyclicExecutor.Config :=
  mkExecConfig period kSkipMissed true.

Definition thread_config (rt_priority : Z) : ThreadConfig.ThreadConfig :=
  mkThreadConfig kFifo (i32 rt_priority) (cpu defaultThreadConfig) true true
    (prefault_bytes defaultThreadConfig).

(** ** The process *)

(** [None] stands for the local slot. *)
Definition publish_slot (h : Host) (shm : string)
  : option SharedMemoryRegion * list Action * list SharedMemory.Call :=
  if bool_decide (shm = EmptyString) then (None, [], [])
  else
    let (_, t) := unlinkName (os h) (Some shm) [] in
    let (region, t) := create (os h) (Some shm) (slot_bytes h) t in
    if valid region
    then (Some region, [LogEvent "info" "publishing snapshot to shared memory" (Some shm)], t)
    else (None, [LogEvent "warn" "could not create snapshot shared memory; HTTP only" (Some shm)], t).

(** The region's destructor. *)
Definition release_slot (h : Host) (region : option SharedMemoryRegion)
    (t : list SharedMemory.Call) : list SharedMemory.Call :=
  match region with Some r => (close (os h) r t).2 | None => t end.

Definition stopped_detail (s : Edge.RuntimeSnapshot) : string :=
  snprintf 256 ("cycles=" +:+ pretty (Edge.cycles_executed s) +:+ " overruns=" +:+
    pretty (Edge.overruns s) +:+ " allocations=" +:+ pretty (Edge.allocation_violations s)).

Definition estop_path (h : Host) : string :=
  environmentString (getenv h "SAFEEDGE_ESTOP_FILE") "/tmp/safeedge-estop".
Definition ack_path (h : Host) : string :=
  environmentString (getenv h "SAFEEDGE_ACK_FILE") "/tmp/safeedge-ack".

(** From the listening server to the control thread. *)
Definition start_threads (h : Host) (period : Z) : list Action :=
  [LogEvent "info" "metrics server listening" None;
   StartWatcher (estop_path h) kLevel 10;
   LogEvent "info" "emergency stop file watched" (Some (estop_path h));
   StartWatcher (ack_path h) kLatchOnce 10;
   LogEvent "info" "acknowledge file watched" (Some (ack_path h));
   StartControl (executor_config period)
     (thread_config (environmentLong (getenv h "SAFEEDGE_RT_PRIORITY") 80))].

(** From the wait to the end of [main], with the destructors in reverse order of
    construction. *)
Definition shut_down (h : Host) : list Action :=
  [AwaitShutdown; LogEvent "info" "shutdown requested" None; JoinControl; StopServer;
   LogEvent "info" "stopped" (stopped_detail <$> last_load h);
   JoinWatcher (ack_path h) kLatchOnce; JoinWatcher (estop_path h) kLevel].

Definition run_control (h : Host) (period : Z) : list Action :=
  start_threads h period ++ shut_down h.

Definition main (h : Host) (argv : list string) : Outcome :=
  let port := metrics_port (getenv h) in
  if bool_decide (head argv = Some "--healthcheck") then mkOutcome (runHealthcheck (health h)) [] [] []
  else if negb (handlers_installed h) then
    mkOutcome 2 [InstallHandlers;
      LogEvent "fatal" "could not install shutdown signal handlers" None] [] []
  else
    match period_for (environmentLong (getenv h "SAFEEDGE_FREQUENCY_HZ") 1000) with
    | None =>
        mkOutcome 2 [InstallHandlers;
          LogEvent "fatal" "SAFEEDGE_FREQUENCY_HZ out of range" None] [] []
    | Some period =>
        let '(region, acts, t) :=
          publish_slot h (environmentString (getenv h "SAFEEDGE_SNAPSHOT_SHM") EmptyString) in
        let acts := [InstallHandlers; LogEvent "info" "starting" None] ++ acts ++
          [StoreEmptySnapshot (bool_decide (is_Some region))] in
        let '(started, l, sockets) := lifetime (kernel h) port (turns h) in
        if negb started then
          mkOutcome 3
            (acts ++ [LogEvent "fatal" "metrics server failed to start"
                        ((λ e, e.1 +:+ ": " +:+ error_message h e.2) <$> listen_error_ l)])
            (release_slot h region t) sockets
        else mkOutcome 0 (acts ++ run_control h period) (release_slot h region t) sockets
    end.

(** ** Threads *)

(** Whether the slot is initialised, the control thread runs, the server serves
    requests, and the paths that are watched. *)
Record Threads := mkThreads {
  stored : bool;
  controlling : bool;
  watching : list string
}.

Definition idle : Threads := mkThreads false false [].

(** The control thread uses the slot and both watchers, so it may start only with
    all of them there, and they may go only after it was joined. *)
Definition thread_step (st : Threads) (a : Action) : option Threads :=
  match a with
  | StoreEmptySnapshot _ => if controlling st then None else Some (mkThreads true false (watching st))
  | StartWatcher path _ _ => Some (mkThreads (stored st) (controlling st) (path :: watching st))
  | StartControl _ _ =>
      if stored st && negb (controlling st) && (length (watching st) =? 2)%nat
      then Some (mkThreads true true (watching st)) else None
  | JoinControl => Some (mkThreads (stored st) false (watching st))
  | StopServer => if controlling st then None else Some st
  | JoinWatcher path _ =>
      match watching st with
      | w :: rest =>
          if bool_decide (w = path) && negb (controlling st)
          then Some (mkThreads (stored st) false rest) else None
      | [] => None
      end
  | LogEvent _ _ _ | InstallHandlers | AwaitShutdown => Some st
  end.

Definition thread_run (st : Threads) (acts : list Action) : option Threads :=
  foldl (λ r a, r ≫= λ st, thread_step st a) (Some st) acts.

Lemma thread_run_app st a b :
  thread_run st (a ++ b) = thread_run st a ≫= λ st', thread_run st' b.
Proof.
  unfold thread_run. rewrite foldl_app. destruct (foldl _ (Some st) a) as [st'|]; [done|].
  cbn [mbind option_bind]. by induction b.
Qed.

Lemma run_control_threads h p :
  thread_run (mkThreads true false []) (run_control h p) = Some (mkThreads true false []).
Proof.
  unfold run_control, start_threads, shut_down, thread_run. cbn [app foldl mbind option_bind thread_step].
  cbn [stored controlling watching length Nat.eqb andb negb mbind option_bind thread_step].
  rewrite bool_decide_true by done. cbn [andb mbind option_bind thread_step watching controlling].
  by rewrite bool_decide_true.
Qed.

Lemma run_control_starts h p c th :
  StartControl c th ∈ run_control h p ↔
  c = executor_config p ∧
  th = thread_config (environmentLong (getenv h "SAFEEDGE_RT_PRIORITY") 80).
Proof. unfold run_control, start_threads, shut_down. split; [set_solver|]. intros [-> ->]. set_solver. Qed.

(** The calls for the slot: exclusive creation only, and every mapping released. *)
Definition creates_fresh (c : SharedMemory.Call) : Prop :=
  match c with ShmOpen _ create => create = true | _ => True end.

Lemma publish_slot_spec h shm :
  let '(region, acts, t) := publish_slot h shm in
  Forall creates_fresh (release_slot h region t) ∧
  thread_run idle ([InstallHandlers; LogEvent "info" "starting" None] ++ acts ++
    [StoreEmptySnapshot (bool_decide (is_Some region))]) = Some (mkThreads true false []) ∧
  (∀ c th, StartControl c th ∉ acts) ∧
  (t ≠ [] → last t = Some (ShmUnlink shm)).
Proof.
  unfold publish_slot. case_bool_decide as Hs.
  { split; [done|]. split; [done|]. split; [set_solver|done]. }
  destruct (nameIsWellFormed (Some shm)) eqn:Hwf.
  2:{ unfold unlinkName, create. rewrite Hwf. cbn. split; [done|]. split; [done|].
      split; [set_solver|done]. }
  unfold unlinkName. rewrite Hwf. unfold mbind, M_bind, mret, M_ret, call.
  assert (Hc : ∃ new, (create (os h) (Some shm) (slot_bytes h) [ShmUnlink shm]).2 =
    new ++ [ShmUnlink shm] ∧ Forall creates_fresh new).
  { unfold create, map_and_close, mapDescriptor, mbind, M_bind, mret, M_ret, call. rewrite Hwf.
    repeat case_match; simplify_eq/=;
      first [eexists []; by split | eexists [_]; by repeat constructor
            |eexists [_; _; _; _]; by repeat constructor
            |eexists [_; _; _; _; _]; by repeat constructor]. }
  destruct (create (os h) (Some shm) (slot_bytes h) [ShmUnlink shm]) as [region t].
  destruct Hc as (new & Hn & Hf). cbn [snd] in Hn. subst t.
  assert (Hall : Forall creates_fresh (new ++ [ShmUnlink shm])).
  { apply Forall_app_2; [done|by repeat constructor]. }
  destruct (valid region); cbn [release_slot].
  - split. { unfold close. destruct (negb _); cbn; [by constructor|done]. }
    split; [done|]. split; [set_solver|]. intros _. by rewrite last_snoc.
  - split; [done|]. split; [done|]. split; [set_solver|]. intros _. by rewrite last_snoc.
Qed.

Section Ends.
Context (h : Host).
Hypothesis fresh_socket : ∀ t, returned (kernel h t Socket) ∉ open_sockets (kernel h) t.
Hypothesis fresh_connection : ∀ t fd,
  returned (kernel h t (Accept fd)) ∉ open_sockets (kernel h) t.

(** The runtime process starts completely or not at all, and ends in order. The
    control thread runs only with an initialised slot, both watchers and a
    listening server, is joined before the server stops and the watchers go,
    and no thread and no socket is left at the end, whatever fails on the way.
    Its period is between 10 microseconds and one second, with the allocation
    guard on and real-time scheduling asked for. A region in shared memory is
    always a new one: the name is unlinked first and created exclusively. *)
Theorem process_ends_in_order argv :
  let o := main h argv in
  (∃ st, thread_run idle (actions o) = Some st ∧ controlling st = false ∧ watching st = []) ∧
  open_sockets (kernel h) (socket_calls o) = [] ∧
  Forall creates_fresh (region_calls o) ∧
  (∀ c th, StartControl c th ∈ actions o →
     exit_code o = 0 ∧ 10000 ≤ period c ≤ 1000000000 ∧ guard_allocations c = true ∧
     policy th = kFifo) ∧
  (head argv ≠ Some "--healthcheck" → exit_code o = 0 → ∃ c th, StartControl c th ∈ actions o).
Proof.
  cbv zeta. unfold main. case_bool_decide as Hh.
  { split; [by exists idle|]. split; [done|]. split; [done|]. split; [set_solver|done]. }
  destruct (handlers_installed h); cbn [negb].
  2:{ split; [by exists idle|]. split; [done|]. split; [done|]. split; [set_solver|done]. }
  destruct (period_for _) as [p|] eqn:Hp.
  2:{ split; [by exists idle|]. split; [done|]. split; [done|]. split; [set_solver|done]. }
  pose proof (publish_slot_spec h
    (environmentString (getenv h "SAFEEDGE_SNAPSHOT_SHM") EmptyString)) as Hs.
  destruct (publish_slot h _) as [[region acts] t]. destruct Hs as (Hf & Hrun & Hno & _).
  pose proof (server_sockets_balanced (kernel h) fresh_socket fresh_connection
    (metrics_port (getenv h)) (turns h)) as Hb.
  destruct (lifetime (kernel h) _ _) as [[started l] sockets].
  destruct Hb as (_ & Hopen & _). set (first := _ ++ acts ++ _) in *.
  assert (Hno' : ∀ c th, StartControl c th ∉ first) by (unfold first; set_solver).
  clearbody first. destruct started; cbn [negb exit_code actions region_calls socket_calls].
  - split; [|split; [done|]]; [|split; [done|]].
    + eexists. rewrite thread_run_app, Hrun. cbn [mbind option_bind].
      by rewrite run_control_threads.
    + split; [|intros _ _; eexists _, _; apply elem_of_app; right; by apply run_control_starts].
      intros c th [Hin|[-> ->]%run_control_starts]%elem_of_app; [by destruct (Hno' c th)|].
      split; [done|]. split; [|by split].
      unfold period_for in Hp. destruct (_ || _) eqn:Eb; [done|]. injection Hp as <-.
      apply orb_false_iff in Eb as [E1%Z.leb_gt E2%Z.ltb_ge]. cbn [period executor_config].
      rewrite Z.quot_div_nonneg by lia. split.
      * apply Z.div_le_lower_bound; lia.
      * apply Z.div_le_upper_bound; lia.
  - split; [|split; [done|]]; [|split; [done|]].
    + eexists. rewrite thread_run_app, Hrun. by split.
    + split; [|done]. intros c th [Hin|Hin]%elem_of_app; [by destruct (Hno' c th)|set_solver].
Qed.
End Ends.

(** A start that succeeds ends in the program that the threads work off, with a
    positive period. *)
Lemma main_runs_control h argv :
  bool_decide (head argv = Some "--healthcheck") = false → exit_code (main h argv) = 0 →
  ∃ acts period, actions (main h argv) = acts ++ run_control h period ∧ 0 < period.
Proof.
  unfold main. intros ->. destruct (handlers_installed h); [|done]. cbn [negb].
  destruct (period_for _) as [period|] eqn:Hp; [|done].
  destruct (publish_slot h _) as [[region acts] t].
  destruct (lifetime _ _ _) as [[[] l] sockets]; [|done]. intros _. cbn [negb actions].
  eexists _, period. split; [done|].
  unfold period_for in Hp. destruct (_ || _) eqn:Eb; [done|]. injection Hp as <-.
  apply orb_false_iff in Eb as [E1%Z.leb_gt E2%Z.ltb_ge]. apply Z.quot_str_pos. lia.
Qed.

(** A host on which everything works. *)
Definition demo_host : Host :=
  mkHost
    (λ name, if bool_decide (name = "SAFEEDGE_SNAPSHOT_SHM") then Some "/safeedge" else None)
    (mkExchange true true 61 EmptyString) true
    (λ _ c, match c with ShmOpen _ _ => mkReply 3 0 0 | Mmap _ _ => mkReply 65536 0 0
            | _ => mkReply 0 0 0 end)
    256 demo_kernel 2 (λ _, EmptyString) (Some Edge.newSnapshot).

Lemma process_ends_in_order_witness :
  exit_code (main demo_host []) = 0 ∧
  ∃ c th, StartControl c th ∈ actions (main demo_host []) ∧ 10000 ≤ period c ≤ 1000000000.
Proof.
  assert (Hf : ∀ t c, returned (demo_kernel t c) = 3 + Z.of_nat (length t) →
    returned (demo_kernel t c) ∉ open_sockets demo_kernel t).
  { intros t c E H%demo_kernel_fresh. lia. }
  destruct (process_ends_in_order demo_host (λ t, Hf t Socket eq_refl)
    (λ t fd, Hf t (Accept fd) eq_refl) []) as (_ & _ & _ & H1 & H2).
  assert (E : exit_code (main demo_host []) = 0) by reflexivity. split; [exact E|].
  destruct (H2 ltac:(done) E) as (c & th & Hin). exists c, th. split; [exact Hin|].
  exact (proj1 (proj2 (H1 c th Hin))).
Defined.
