(* ===== verification/AllocHooks.v ===== *)
(** * The replaced allocation functions

    [src/src/rt/no_alloc_guard_hooks.cpp]: the [operator new] and [operator
    delete] families on top of [malloc], [aligned_alloc] and [free], and the hook
    of the build with the thread sanitizer. [malloc] and [aligned_alloc] are
    parameters, [free] acts on the set of live blocks. [size_t] is 64 bits
    wide. *)

From Stdlib Require Import String.
From stdpp Require Import base numbers list option gmap.
From S2P Require Import Prelude NoAllocGuard.

(** What an [operator new] does: return a pointer, return null, throw, or end the
    process with a message. *)
Inductive NewResult :=
  | Pointer (p : Z)
  | NullPointer
  | BadAlloc
  | Aborted (message : string).

Definition roundUpTo (value alignment : Z) : Z :=
  let remainder := value mod alignment in
  if remainder =? 0 then value else u64 (value + (alignment - remainder)).

(** The request a size stands for. *)
Definition at_least_one (bytes : Z) : Z := if bytes =? 0 then 1 else bytes.

Section Hooks.
(** [None] is the null pointer. *)
Context (malloc : Z → option Z) (aligned_alloc : Z → Z → option Z).

(** What a throwing and a non-throwing function make of the allocator's answer. *)
Definition or_throw (p : option Z) : NewResult :=
  match p with Some p => Pointer p | None => BadAlloc end.
Definition or_null (p : option Z) : NewResult :=
  match p with Some p => Pointer p | None => NullPointer end.

(** Every function notes the allocation first; the guard may end the process. *)
Definition noted (bytes : Z) (g : Guard) (result : NewResult) : NewResult * option Guard :=
  match noteAllocation bytes g with
  | inl g => (result, Some g)
  | inr message => (Aborted message, None)
  end.

Definition operator_new (bytes : Z) (g : Guard) : NewResult * option Guard :=
  noted bytes g (or_throw (malloc (at_least_one bytes))).

Definition operator_new_array (bytes : Z) (g : Guard) : NewResult * option Guard :=
  operator_new bytes g.

Definition operator_new_nothrow (bytes : Z) (g : Guard) : NewResult * option Guard :=
  noted bytes g (or_null (malloc (at_least_one bytes))).

Definition operator_new_array_nothrow (bytes : Z) (g : Guard) : NewResult * option Guard :=
  operator_new_nothrow bytes g.

Definition operator_new_aligned (bytes alignment : Z) (g : Guard) : NewResult * option Guard :=
  noted bytes g (or_throw (aligned_alloc alignment (roundUpTo (at_least_one bytes) alignment))).

Definition operator_new_array_aligned (bytes alignment : Z) (g : Guard)
  : NewResult * option Guard := operator_new_aligned bytes alignment g.

Definition operator_new_aligned_nothrow (bytes alignment : Z) (g : Guard)
  : NewResult * option Guard :=
  noted bytes g (or_null (aligned_alloc alignment (roundUpTo (at_least_one bytes) alignment))).

Definition operator_new_array_aligned_nothrow (bytes alignment : Z) (g : Guard)
  : NewResult * option Guard := operator_new_aligned_nothrow bytes alignment g.
End Hooks.

(** An overload of the family: for an array or not, with an alignment or not,
    throwing or not. *)
Record Form := mkForm { array : bool; alignment : option Z; nothrow : bool }.

Definition call_new (malloc : Z → option Z) (aligned_alloc : Z → Z → option Z) (f : Form)
  : Z → Guard → NewResult * option Guard :=
  match f with
  | mkForm false None false => operator_new malloc
  | mkForm true None false => operator_new_array malloc
  | mkForm false None true => operator_new_nothrow malloc
  | mkForm true None true => operator_new_array_nothrow malloc
  | mkForm false (Some a) false => λ n, operator_new_aligned aligned_alloc n a
  | mkForm true (Some a) false => λ n, operator_new_array_aligned aligned_alloc n a
  | mkForm false (Some a) true => λ n, operator_new_aligned_nothrow aligned_alloc n a
  | mkForm true (Some a) true => λ n, operator_new_array_aligned_nothrow aligned_alloc n a
  end.

(** The static object of the file marks the guard as present before [main]. *)
Definition GuardInstaller (g : Guard) : Guard := markGuardInstalled g.

(** With the thread sanitizer the families above are its own, and calls this
    after each successful allocation. *)
Definition sanitizer_malloc_hook (bytes : Z) (g : Guard) : outcome := noteAllocation bytes g.

(** ** The [operator delete] family *)

(** The addresses of the live blocks. *)
Abbreviation heap := (gset Z).

(** [free]: nothing for the null pointer; [None] is undefined behaviour. *)
Definition free (p : option Z) (live : heap) : option heap :=
  match p with
  | None => Some live
  | Some p => if decide (p ∈ live) then Some (live ∖ {[p]}) else None
  end.

(** The overloads: for an array or not, and the further arguments. *)
Inductive DeleteArguments :=
  | Plain
  | Sized (bytes : Z)
  | Nothrow
  | Aligned (alignment : Z)
  | SizedAligned (bytes alignment : Z)
  | AlignedNothrow (alignment : Z).

Definition call_delete (array : bool) (arguments : DeleteArguments) (p : option Z) (live : heap)
  : option heap :=
  match array, arguments with
  | false, Plain => free p live
  | true, Plain => free p live
  | false, Sized _ => free p live
  | true, Sized _ => free p live
  | false, Nothrow => free p live
  | true, Nothrow => free p live
  | false, Aligned _ => free p live
  | true, Aligned _ => free p live
  | false, SizedAligned _ _ => free p live
  | true, SizedAligned _ _ => free p live
  | false, AlignedNothrow _ => free p live
  | true, AlignedNothrow _ => free p live
  end.

(** ** What every overload does *)

Lemma roundUpTo_spec v a :
  0 ≤ v → 0 < a → v + a ≤ 2 ^ 64 → v ≤ roundUpTo v a < v + a ∧ roundUpTo v a mod a = 0.
Proof.
  intros Hv Ha Hfit. unfold roundUpTo.
  pose proof (Z.mod_pos_bound v a Ha) as Hr. pose proof (Z.div_mod v a ltac:(lia)) as Hdm.
  destruct (Z.eqb_spec (v mod a) 0) as [E|E]; [lia|].
  rewrite unsigned_wrap_id by (unfold in_unsigned; lia). split; [lia|].
  replace (v + (a - v mod a)) with ((v / a + 1) * a) by lia. apply Z.mod_mul. lia.
Qed.

(** The size handed to the C allocator. *)
Definition requested (f : Form) (bytes : Z) : Z :=
  match alignment f with
  | None => at_least_one bytes
  | Some a => roundUpTo (at_least_one bytes) a
  end.

(** All eight overloads behave alike. Each notes the allocation once, with the
    size asked for, before it allocates, and lets the guard end the process;
    otherwise a throwing one never returns null and a non-throwing one never
    throws. The memory asked of the allocator is at least the size, never
    empty, and a multiple of the alignment, as long as the size and the
    alignment together fit the address space. *)
Theorem new_family_uniform malloc aligned_alloc f bytes g :
  let r := call_new malloc aligned_alloc f bytes g in
  let answer := match alignment f with
    | None => malloc (requested f bytes) | Some a => aligned_alloc a (requested f bytes) end in
  match noteAllocation bytes g with
  | inr message => r = (Aborted message, None)
  | inl g' =>
      r.2 = Some g' ∧
      r.1 = match answer with
            | Some p => Pointer p | None => if nothrow f then NullPointer else BadAlloc end
  end ∧
  (0 ≤ bytes → from_option (λ a, 0 < a ∧ at_least_one bytes + a ≤ 2 ^ 64) True (alignment f) →
   bytes ≤ requested f bytes ∧ 0 < requested f bytes ∧
   from_option (λ a, requested f bytes mod a = 0) True (alignment f)).
Proof.
  destruct f as [arr al nt]. cbv zeta. split.
  - destruct arr, al as [a|], nt; cbn [call_new alignment nothrow requested];
      unfold operator_new_array, operator_new, operator_new_array_nothrow, operator_new_nothrow,
        operator_new_array_aligned, operator_new_aligned, operator_new_array_aligned_nothrow,
        operator_new_aligned_nothrow, noted, requested;
      cbn [alignment]; cbv beta; (destruct (noteAllocation bytes g); [|done]);
      (split; [done|]); cbn [fst]; unfold or_throw, or_null; by case_match.
  - intros Hb. unfold requested. cbn [alignment].
    assert (H1 : bytes ≤ at_least_one bytes ∧ 0 < at_least_one bytes).
    { unfold at_least_one. destruct (Z.eqb_spec bytes 0); lia. }
    destruct al as [a|]; cbn [from_option]; [|tauto]. intros [Ha Hfit].
    destruct (roundUpTo_spec (at_least_one bytes) a) as [H2 H3]; [lia..|]. lia.
Qed.

(** ** Sizes at the end of the address space *)

(** For a size in the last [alignment] bytes of the address space the rounding
    wraps to zero: the allocator is asked for nothing, and what it returns is
    handed out as a block of that size. *)
Theorem round_up_wraps k bytes aligned_alloc p g :
  1 ≤ k < 64 → 2 ^ 64 - 2 ^ k < bytes < 2 ^ 64 →
  t_no_alloc_depth g = 0 → aligned_alloc (2 ^ k) 0 = Some p →
  operator_new_aligned aligned_alloc bytes (2 ^ k) g = (Pointer p, Some g).
Proof.
  intros Hk Hb Hg Hp. assert (Hpos : 0 < 2 ^ k) by (apply Z.pow_pos_nonneg; lia).
  assert (Hsplit : 2 ^ 64 = 2 ^ (64 - k) * 2 ^ k).
  { rewrite <- Z.pow_add_r by lia. f_equal. lia. }
  assert (H1 : 2 ^ k < 2 ^ 64) by (apply Z.pow_lt_mono_r; lia).
  assert (E : at_least_one bytes = bytes).
  { unfold at_least_one. destruct (Z.eqb_spec bytes 0); lia. }
  assert (Hm : bytes mod 2 ^ k = bytes - (2 ^ 64 - 2 ^ k)).
  { symmetry. apply (Z.mod_unique_pos _ _ (2 ^ (64 - k) - 1)); nia. }
  unfold operator_new_aligned, noted, noteAllocation. rewrite Hg, E. cbn [Z.ltb Z.compare andb].
  unfold roundUpTo. rewrite Hm, (proj2 (Z.eqb_neq _ _)) by lia.
  replace (bytes + (2 ^ k - (bytes - (2 ^ 64 - 2 ^ k)))) with (2 ^ 64) by lia.
  change (u64 (2 ^ 64)) with 0. by rewrite Hp.
Qed.

Lemma round_up_wraps_witness :
  operator_new_aligned (λ _ n, if n =? 0 then Some 4096 else None) (2 ^ 64 - 1) (2 ^ 6) newGuard =
  (Pointer 4096, Some newGuard).
Proof. apply round_up_wraps; [lia|by_compute|reflexivity|reflexivity]. Defined.

(** ** Deleting what was allocated *)

(** The block a call of the family has made live, if any. *)
Definition allocated (r : NewResult) (live : heap) : heap :=
  match r with Pointer p => {[p]} ∪ live | _ => live end.
Definition pointer_of (r : NewResult) : option Z :=
  match r with Pointer p => Some p | _ => None end.

(** Any overload of [operator delete] undoes any overload of [operator new]: as
    the allocator never hands out a live block, the heap is afterwards what it
    was. A null result of a non-throwing overload may be deleted too. *)
Theorem new_delete_restore malloc aligned_alloc f array arguments bytes g live :
  (∀ n p, malloc n = Some p → p ∉ live) → (∀ a n p, aligned_alloc a n = Some p → p ∉ live) →
  let r := (call_new malloc aligned_alloc f bytes g).1 in
  call_delete array arguments (pointer_of r) (allocated r live) = Some live.
Proof.
  intros Hm Ha r. subst r.
  assert (Hfree : ∀ r, (∀ p, r = Pointer p → p ∉ live) →
            call_delete array arguments (pointer_of r) (allocated r live) = Some live).
  { intros [p| | |message] Hp; [|by destruct array, arguments..].
    specialize (Hp p eq_refl).
    assert (E : free (Some p) ({[p]} ∪ live) = Some live).
    { unfold free. rewrite decide_True by set_solver. f_equal. set_solver. }
    by destruct array, arguments. }
  apply Hfree. intros p. pose proof (new_family_uniform malloc aligned_alloc f bytes g) as [H _].
  revert H. destruct (noteAllocation bytes g); [intros [_ ->]|intros ->; done].
  destruct (alignment f); case_match; intros; simplify_eq; eauto; by destruct (nothrow f).
Qed.

Lemma new_delete_restore_witness :
  call_delete true (Aligned 64) (Some 4096) (allocated (Pointer 4096) {[16]}) = Some {[16]}.
Proof.
  apply (new_delete_restore (λ _, None) (λ _ _, Some 4096) (mkForm true (Some 64) false) true
           (Aligned 64) 100 newGuard {[16]}); [done|].
  intros a n p [= <-]. by_compute.
Defined.
