(* ===== verification/WeakMemory.v ===== *)
(** * Release and acquire memory

    The memory orders of [std::atomic] as the two lock-free structures of the
    repository use them. An atomic location keeps the history of its stores; a
    thread has a view, the newest store of every location it knows of. A load
    may return any store that is not older than the view. A store with release
    order carries the storing thread's view, and a load with acquire order that
    reads it joins that view into its own: this is synchronises-with. A
    sequentially consistent access is treated as a release or acquire access and
    no more, so everything the C++ model allows is allowed here, and more.

    Plain (non-atomic) locations count their accesses, and the view records how
    many of them happened before: an access by a thread that does not know all
    earlier ones is a data race, which is an outcome of its own.

    Every atomic location has a single storing thread in both structures, so a
    new store is the last one of its location's modification order. *)

From stdpp Require Import base numbers list option.
From S2P Require Import Prelude.

Inductive memory_order := relaxed | acquire | release | seq_cst.

Definition acquires (o : memory_order) : bool :=
  match o with acquire | seq_cst => true | relaxed | release => false end.
Definition releases (o : memory_order) : bool :=
  match o with release | seq_cst => true | relaxed | acquire => false end.

(** What one step of a thread comes to. [Disabled] is a choice that the memory
    does not offer, not an outcome of the program. *)
Inductive outcome (X : Type) :=
| Done (x : X)
| Race
| Disabled.
Arguments Done {X} x.
Arguments Race {X}.
Arguments Disabled {X}.

Definition outcome_bind {X Y} (o : outcome X) (f : X → outcome Y) : outcome Y :=
  match o with Done x => f x | Race => Race | Disabled => Disabled end.

Declare Scope weak_scope.
Notation "'let!' x := o 'in' k" := (outcome_bind o (λ x, k))
  (at level 10, x pattern, o at level 100, k at level 200) : weak_scope.
#[local] Open Scope weak_scope.

Lemma outcome_bind_done {X Y} (o : outcome X) (f : X → outcome Y) y :
  outcome_bind o f = Done y ↔ ∃ x, o = Done x ∧ f x = Done y.
Proof. destruct o; simpl; naive_solver. Qed.

(** The result of a run that is known to have one. *)
Definition is_done {X} (o : outcome X) : bool := match o with Done _ => true | _ => false end.
Definition done_or {X} (default : X) (o : outcome X) : X :=
  match o with Done x => x | _ => default end.

Lemma is_done_or {X} (default : X) o : is_done o = true → o = Done (done_or default o).
Proof. by destruct o. Qed.

Section Memory.
(** Atomic locations, plain locations, and what a plain location holds. *)
Context {A D V : Type} `{!EqDecision A, !EqDecision D}.

(** ** Views *)

Inductive clock := Seen (a : A) | Touched (d : D).

#[export] Instance clock_eq_dec : EqDecision clock.
Proof. solve_decision. Defined.

Definition view := clock → nat.

Definition view_le (v w : view) : Prop := ∀ c, (v c ≤ w c)%nat.
Definition view_bot : view := λ _, 0%nat.
Definition view_join (v w : view) : view := λ c, Nat.max (v c) (w c).
(** [v], with the clock [c] at [t] or later. *)
Definition raise (c : clock) (t : nat) (v : view) : view :=
  λ c', if decide (c' = c) then Nat.max (v c') t else v c'.

#[export] Instance view_le_preorder : PreOrder view_le.
Proof. split; [by intros v c|]. intros u v w H1 H2 c. by transitivity (v c). Qed.

Lemma view_join_l v w : view_le v (view_join v w).
Proof. intros c. apply Nat.le_max_l. Qed.
Lemma view_join_r v w : view_le w (view_join v w).
Proof. intros c. apply Nat.le_max_r. Qed.
Lemma view_join_least u v w : view_le u w → view_le v w → view_le (view_join u v) w.
Proof. intros H1 H2 c. by apply Nat.max_lub. Qed.

Lemma raise_le c t v : view_le v (raise c t v).
Proof. intros c'. unfold raise. destruct (decide _); lia. Qed.
Lemma raise_least c t v w : view_le v w → (t ≤ w c)%nat → view_le (raise c t v) w.
Proof.
  intros H Ht c'. unfold raise. destruct (decide (c' = c)) as [-> |]; [|apply H].
  apply Nat.max_lub; [apply H|done].
Qed.
Lemma raise_same c t v : (t ≤ raise c t v c)%nat.
Proof. unfold raise. rewrite decide_True by done. lia. Qed.

(** ** Memory *)

Record message := Msg { msg_value : Z; msg_view : view }.

Record memory := Mem {
  history : A → list message;
  data : D → V;
  touches : D → nat
}.

(** Zero-initialised atomics, stored before any thread runs. *)
Definition memory_init (init : D → V) : memory :=
  Mem (λ _, [Msg 0 view_bot]) init (λ _, 0%nat).

(** ** Accesses *)

(** [a.load(o)], returning the store number [t]. *)
Definition load (o : memory_order) (a : A) (t : nat) (m : memory) (v : view)
  : outcome (Z * view) :=
  if decide (v (Seen a) ≤ t)%nat then
    match history m a !! t with
    | Some msg =>
        let v := raise (Seen a) t v in
        Done (msg_value msg, if acquires o then view_join v (msg_view msg) else v)
    | None => Disabled
    end
  else Disabled.

(** [a.store(x, o)]. *)
Definition store (o : memory_order) (a : A) (x : Z) (m : memory) (v : view) : memory * view :=
  let t := length (history m a) in
  let v := raise (Seen a) t v in
  let msg := Msg x (if releases o then v else raise (Seen a) t view_bot) in
  (Mem (λ a', if decide (a' = a) then history m a ++ [msg] else history m a')
     (data m) (touches m), v).

(** A plain access that replaces the value [x] of the location by [f x]. *)
Definition access (d : D) (f : V → V) (m : memory) (v : view) : outcome (V * memory * view) :=
  if decide (v (Touched d) = touches m d) then
    Done (data m d,
      Mem (history m) (λ d', if decide (d' = d) then f (data m d) else data m d')
        (λ d', if decide (d' = d) then S (touches m d) else touches m d'),
      raise (Touched d) (S (touches m d)) v)
  else Race.

(** ** What there is to know *)

(** The newest state of every clock. *)
Definition now (m : memory) : view := λ c,
  match c with
  | Seen a => pred (length (history m a))
  | Touched d => touches m d
  end.

(** Views, a thread's or a message's, never run ahead of the memory. *)
Definition closed (m : memory) : Prop :=
  ∀ a t msg, history m a !! t = Some msg → view_le (msg_view msg) (now m).

Lemma load_inv o a t m v x v' :
  load o a t m v = Done (x, v') →
  (v (Seen a) ≤ t)%nat ∧ ∃ msg, history m a !! t = Some msg ∧ x = msg_value msg ∧
  view_le v v' ∧ (t ≤ v' (Seen a))%nat ∧ (acquires o = true → view_le (msg_view msg) v').
Proof.
  unfold load. destruct (decide _) as [Ht|]; [|done].
  destruct (history m a !! t) as [msg|]; [|done]. intros [= <- <-].
  split; [done|]. exists msg. split_and!; try done.
  - destruct (acquires o); [etrans; [|apply view_join_l]|]; apply raise_le.
  - pose proof (raise_same (Seen a) t v). destruct (acquires o); [|done].
    pose proof (view_join_l (raise (Seen a) t v) (msg_view msg) (Seen a)). lia.
  - intros ->. apply view_join_r.
Qed.

(** A load of a location of which the thread knows the last store returns it. *)
Lemma load_latest o a t m v x v' :
  load o a t m v = Done (x, v') → (pred (length (history m a)) ≤ v (Seen a))%nat →
  t = pred (length (history m a)).
Proof.
  intros (Hle & msg & Hm & _)%load_inv Hv. apply lookup_lt_Some in Hm. lia.
Qed.

Lemma load_closed o a t m v x v' :
  closed m → load o a t m v = Done (x, v') → view_le v (now m) → view_le v' (now m).
Proof.
  intros Hc Hl Hv. unfold load in Hl. destruct (decide _); [|done].
  destruct (history m a !! t) as [msg|] eqn:Hm; [|done]. simplify_eq.
  assert (view_le (raise (Seen a) t v) (now m)).
  { apply raise_least; [done|]. simpl. apply lookup_lt_Some in Hm. lia. }
  destruct (acquires o); [|done]. apply view_join_least; [done|]. by eapply Hc.
Qed.

Lemma store_history_eq o a x m v :
  history (store o a x m v).1 a =
  history m a ++ [Msg x (if releases o then (store o a x m v).2
                         else raise (Seen a) (length (history m a)) view_bot)].
Proof. simpl. by rewrite decide_True. Qed.

Lemma store_history_ne o a x m v a' :
  a' ≠ a → history (store o a x m v).1 a' = history m a'.
Proof. intros. simpl. by rewrite decide_False. Qed.

Lemma store_view o a x m v :
  view_le v (store o a x m v).2 ∧ (length (history m a) ≤ (store o a x m v).2 (Seen a))%nat.
Proof. split; [apply raise_le|apply raise_same]. Qed.

Lemma store_now o a x m v : view_le (now m) (now (store o a x m v).1).
Proof.
  intros [a'|d]; simpl; [|done]. destruct (decide (a' = a)) as [-> |]; [|done].
  rewrite length_app. simpl. lia.
Qed.

Lemma store_closed o a x m v :
  closed m → view_le v (now m) →
  closed (store o a x m v).1 ∧ view_le (store o a x m v).2 (now (store o a x m v).1).
Proof.
  intros Hc Hv. pose proof (store_now o a x m v) as Hnow.
  assert (Hlast : (length (history m a) ≤ now (store o a x m v).1 (Seen a))%nat).
  { simpl. rewrite decide_True, length_app by done. simpl. lia. }
  assert (Hv' : view_le (store o a x m v).2 (now (store o a x m v).1)).
  { apply raise_least; [by etrans|done]. }
  split; [|done]. intros a' t msg. destruct (decide (a' = a)) as [-> |Hne].
  - rewrite store_history_eq. intros [Hm|[_ Hm]]%lookup_app_Some; [by etrans; [eapply Hc|exact Hnow]|].
    apply list_lookup_singleton_Some in Hm as [_ <-]. cbn [msg_view]. destruct (releases o); [done|].
    apply raise_least; [intros c; apply Nat.le_0_l|done].
  - rewrite store_history_ne by done. intros Hm. by etrans; [eapply Hc|exact Hnow].
Qed.

(** A history to which a good message is appended is good. *)
Lemma history_snoc (P : nat → message → Prop) h msg :
  (∀ t msg', h !! t = Some msg' → P t msg') → P (length h) msg →
  ∀ t msg', (h ++ [msg]) !! t = Some msg' → P t msg'.
Proof.
  intros Hh Hmsg t msg' [Ht|[Ht Hl]]%lookup_app_Some; [by apply Hh|].
  apply list_lookup_singleton_Some in Hl as [Hl <-]. by replace t with (length h) by lia.
Qed.

Lemma access_inv d f m v x m' v' :
  access d f m v = Done (x, m', v') →
  v (Touched d) = touches m d ∧ x = data m d ∧ history m' = history m ∧
  data m' d = f (data m d) ∧ touches m' d = S (touches m d) ∧
  (∀ d', d' ≠ d → data m' d' = data m d' ∧ touches m' d' = touches m d') ∧
  view_le v v' ∧ (S (touches m d) ≤ v' (Touched d))%nat ∧
  view_le (now m) (now m') ∧ (view_le v (now m) → view_le v' (now m')).
Proof.
  unfold access. destruct (decide _) as [Hd|]; [|done]. intros [= <- <- <-]. simpl.
  rewrite !decide_True by done.
  assert (Hnow : view_le (now m) (now (Mem (history m)
    (λ d', if decide (d' = d) then f (data m d) else data m d')
    (λ d', if decide (d' = d) then S (touches m d) else touches m d')))).
  { intros [a|d']; simpl; [done|]. destruct (decide (d' = d)) as [-> |]; lia. }
  split_and!; try done.
  - intros d' Hd'. by rewrite !decide_False.
  - apply raise_le.
  - apply raise_same.
  - intros Hv. apply raise_least; [by etrans|]. simpl. by rewrite decide_True.
Qed.

(** A thread that knows every earlier access does not race. *)
Lemma access_ordered d f m v :
  (touches m d ≤ v (Touched d))%nat → view_le v (now m) →
  ∃ r, access d f m v = Done r.
Proof.
  intros H1 H2. specialize (H2 (Touched d)). simpl in H2. unfold access.
  rewrite decide_True by lia. eauto.
Qed.

Lemma closed_init init : closed (memory_init init).
Proof. intros a t msg. simpl. intros [-> <-]%list_lookup_singleton_Some. by intros c; apply Nat.le_0_l. Qed.

End Memory.

Arguments clock : clear implicits.
Arguments view : clear implicits.
Arguments message : clear implicits.
Arguments memory : clear implicits.
