(* ===== verification/SeqlockWeak.v ===== *)
(** * The seqlock slot under the memory orders of the source

    [src/include/safeedge/ipc/seqlock_slot.hpp] once more, now with the memory
    order of every access: one writer and any number of readers, each with its
    own view of the memory, take one atomic access per step, and a load may
    return any store its reader has not yet seen superseded. The slot then
    promises what an atomic register promises to each of its readers: every
    value returned is one whole stored value, and successive reads never go
    back in time. The last part shows what the release order of the word stores
    is for: without it a reader accepts a torn value. *)

From stdpp Require Import base numbers list option.
From S2P Require Import Prelude Seqlock WeakMemory.
#[local] Open Scope weak_scope.

(** ** Orders *)

Record slot_orders := Orders {
  start_order : memory_order;     (* the writer's load of its own counter *)
  mark_order : memory_order;      (* the store of the odd counter *)
  word_order : memory_order;      (* the stores of the words *)
  publish_order : memory_order;   (* the store of the even counter *)
  sample_order : memory_order;    (* both loads of the counter in [tryLoad] *)
  read_order : memory_order;      (* the loads of the words *)
  generation_order : memory_order
}.

Definition source_orders : slot_orders :=
  Orders relaxed seq_cst release seq_cst seq_cst seq_cst acquire.

(** ** The slot's memory *)

Inductive location := Sequence | Word (index : nat).

#[export] Instance location_eq_dec : EqDecision location.
Proof. solve_decision. Defined.

(** The slot has no plain data. *)
Local Abbreviation slot_memory := (memory location Empty_set ()).
Local Abbreviation slot_view := (view location Empty_set).

Section Slot.
Context (size_of_T : nat) (orders : slot_orders).

Local Abbreviation kWordCount := (kWordCount size_of_T).
Local Abbreviation pack := (pack size_of_T).
Local Abbreviation unpack := (unpack size_of_T).

(** ** The threads *)

(** Where the writer is in [store]. *)
Inductive WeakWriter :=
| WriterIdle
| WriterMarking (start : Z) (value : list Z)
| WriterStoring (start : Z) (value : list Z) (index : nat).

(** What a call of a reader returned. *)
Inductive observation :=
| Loaded (out : option (list Z))
| Generation (count : Z).

(** Where a reader is in [tryLoad], with the attempts it has left, or in
    [generation]. *)
Inductive reader_pc :=
| ReaderIdle
| ReaderSampling (attempts : nat)
| ReaderCopying (attempts : nat) (before : Z) (staging : list Z)
| ReaderCounting.

(** [observed] is newest first. *)
Record WeakReader := mkReader {
  reader_at : reader_pc;
  reader_view : slot_view;
  observed : list observation
}.

(** [completed] are the values of the completed stores, oldest first. *)
Record Config := mkConfig {
  slot_mem : slot_memory;
  weak_writer : WeakWriter;
  writer_view : slot_view;
  readers : nat → WeakReader;
  completed : list (list Z)
}.

Definition weak_init : Config :=
  mkConfig (memory_init (λ _, ())) WriterIdle view_bot
    (λ _, mkReader ReaderIdle view_bot []) [].

Inductive call := CallTryLoad (max_attempts : nat) | CallGeneration.

(** One step: the writer calls [store], or makes its next store; a reader makes
    a call, or its next load. [t] is the store that a load returns. *)
Inductive weak_event :=
| WriterCalls (value : list Z) (t : nat)
| WriterStores
| ReaderCalls (r : nat) (c : call)
| ReaderLoads (r : nat) (t : nat).

(** ** Steps *)

Definition writer_store (o : memory_order) (a : location) (x : Z) (next : WeakWriter)
    (finished : list (list Z)) (c : Config) : Config :=
  let (m, v) := store o a x (slot_mem c) (writer_view c) in
  mkConfig m next v (readers c) finished.

Definition writer_advance (c : Config) : outcome Config :=
  match weak_writer c with
  | WriterIdle => Disabled
  | WriterMarking start value =>
      Done (writer_store (mark_order orders) Sequence (u64 (start + 1))
              (WriterStoring start value 0) (completed c) c)
  | WriterStoring start value index =>
      match pack value !! index with
      | Some word =>
          Done (writer_store (word_order orders) (Word index) word
                  (WriterStoring start value (S index)) (completed c) c)
      | None =>
          Done (writer_store (publish_order orders) Sequence (u64 (start + 2))
                  WriterIdle (completed c ++ [value]) c)
      end
  end.

Definition writer_call (value : list Z) (t : nat) (c : Config) : outcome Config :=
  match weak_writer c with
  | WriterIdle =>
      if decide (well_sized size_of_T value) then
        let! (start, v) := load (start_order orders) Sequence t (slot_mem c) (writer_view c) in
        Done (mkConfig (slot_mem c) (WriterMarking start value) v (readers c) (completed c))
      else Disabled
  | _ => Disabled
  end.

(** The loop head of [tryLoad]. *)
Definition next_attempt (attempts : nat) (v : slot_view) (log : list observation) : WeakReader :=
  match attempts with
  | O => mkReader ReaderIdle v (Loaded None :: log)
  | S _ => mkReader (ReaderSampling attempts) v log
  end.

Definition reader_call (c : call) (r : WeakReader) : outcome WeakReader :=
  match reader_at r with
  | ReaderIdle =>
      match c with
      | CallTryLoad max_attempts => Done (next_attempt max_attempts (reader_view r) (observed r))
      | CallGeneration => Done (mkReader ReaderCounting (reader_view r) (observed r))
      end
  | _ => Disabled
  end.

Definition reader_load (t : nat) (m : slot_memory) (r : WeakReader) : outcome WeakReader :=
  match reader_at r with
  | ReaderIdle => Disabled
  | ReaderSampling attempts =>
      let! (before, v) := load (sample_order orders) Sequence t m (reader_view r) in
      if negb (Z.land before 1 =? 0) then Done (next_attempt (pred attempts) v (observed r))
      else Done (mkReader (ReaderCopying (pred attempts) before []) v (observed r))
  | ReaderCopying attempts before staging =>
      if (length staging <? kWordCount)%nat then
        let! (word, v) := load (read_order orders) (Word (length staging)) t m (reader_view r) in
        Done (mkReader (ReaderCopying attempts before (staging ++ [word])) v (observed r))
      else
        let! (after, v) := load (sample_order orders) Sequence t m (reader_view r) in
        if after =? before
        then Done (mkReader ReaderIdle v (Loaded (Some (unpack staging)) :: observed r))
        else Done (next_attempt attempts v (observed r))
  | ReaderCounting =>
      let! (count, v) := load (generation_order orders) Sequence t m (reader_view r) in
      Done (mkReader ReaderIdle v (Generation (count / 2) :: observed r))
  end.

Definition set_reader (i : nat) (r : WeakReader) (c : Config) : Config :=
  mkConfig (slot_mem c) (weak_writer c) (writer_view c)
    (λ j, if decide (j = i) then r else readers c j) (completed c).

Definition weak_step (e : weak_event) (c : Config) : outcome Config :=
  match e with
  | WriterCalls value t => writer_call value t c
  | WriterStores => writer_advance c
  | ReaderCalls i call => let! r := reader_call call (readers c i) in Done (set_reader i r c)
  | ReaderLoads i t =>
      let! r := reader_load t (slot_mem c) (readers c i) in Done (set_reader i r c)
  end.

Fixpoint weak_run (schedule : list weak_event) (c : Config) : outcome Config :=
  match schedule with
  | [] => Done c
  | e :: schedule => let! c := weak_step e c in weak_run schedule c
  end.

(** ** The register a reader sees *)

(** Version 0 is the zeroed slot, version [k] the [k]-th stored value. *)
Definition version (values : list (list Z)) (k : nat) : option (list Z) :=
  match k with
  | O => Some (unpack (replicate kWordCount 0))
  | S k => values !! k
  end.

(** The observations (newest first) of a reader of a register that went through
    [values], the newest version observed being [k]: every load returns one of
    the versions, the generation is the number of a version, and versions never
    go back. *)
Inductive register_trace (values : list (list Z)) : list observation → nat → Prop :=
| trace_start : register_trace values [] 0
| trace_loaded log k k' value :
    register_trace values log k → (k ≤ k')%nat → version values k' = Some value →
    register_trace values (Loaded (Some value) :: log) k'
| trace_failed log k :
    register_trace values log k → register_trace values (Loaded None :: log) k
| trace_generation log k k' :
    register_trace values log k → (k ≤ k' ≤ length values)%nat →
    register_trace values (Generation (Z.of_nat k') :: log) k'.

End Slot.
