(* ===== verification/SeqlockWeakSafety.v ===== *)
(** * The seqlock slot under the memory orders of the source: theorems

    Every schedule of one writer and any number of readers leaves each reader
    with the observations of a monotone register. The argument is the one of
    the comments of [seqlock_slot.hpp]: a reader that sampled the even counter
    of version [k] knows the words of version [k]; a word of a later version
    carries the odd counter of that version, so the second sample differs. *)

From stdpp Require Import base numbers list option.
From S2P Require Import Prelude Seqlock SeqlockSafety WeakMemory SeqlockWeak.
#[local] Open Scope weak_scope.

Section Safety.
Context (size_of_T : nat).

Local Abbreviation kWordCount := (kWordCount size_of_T).
Local Abbreviation pack := (pack size_of_T).
Local Abbreviation unpack := (unpack size_of_T).
Local Abbreviation weak_step := (weak_step size_of_T source_orders).
Local Abbreviation weak_run := (weak_run size_of_T source_orders).
Local Abbreviation register_trace := (register_trace size_of_T).

(** ** Versions *)

(** The words of a version. *)
Definition words_of (values : list (list Z)) (k : nat) : option (list Z) :=
  match k with
  | O => Some (replicate kWordCount 0)
  | S k => pack <$> values !! k
  end.

Definition word_of (values : list (list Z)) (k i : nat) : option Z :=
  words_of values k ≫= (.!! i).

(** Every version there is, that of the store in progress included. *)
Definition versions (c : Config) : list (list Z) :=
  completed c ++ match weak_writer c with WriterStoring _ value _ => [value] | _ => [] end.

Lemma words_of_prefix values values' k ws :
  values `prefix_of` values' → words_of values k = Some ws → words_of values' k = Some ws.
Proof.
  intros Hp. destruct k as [|k]; simpl; [done|]. intros (v & Hv & ->)%fmap_Some.
  by rewrite (prefix_lookup_Some _ _ _ _ Hv Hp).
Qed.

Lemma word_of_prefix values values' k i w :
  values `prefix_of` values' → word_of values k i = Some w → word_of values' k i = Some w.
Proof.
  intros Hp (ws & Hws & Hw)%bind_Some. unfold word_of. by rewrite (words_of_prefix _ _ _ _ Hp Hws).
Qed.

Lemma register_trace_prefix values values' log k :
  values `prefix_of` values' → register_trace values log k → register_trace values' log k.
Proof.
  intros Hp. pose proof (prefix_length _ _ Hp). induction 1; econstructor; try done; [|lia].
  destruct k' as [|k']; [done|]. by eapply prefix_lookup_Some.
Qed.

Lemma register_trace_bound values log k : register_trace values log k → (k ≤ length values)%nat.
Proof.
  induction 1 as [|log k k' v _ _ _ Hv|log k _ IH|log k k' _ _ Hk]; [lia| |done|lia].
  destruct k' as [|k']; [lia|]. by apply lookup_lt_Some in Hv.
Qed.

(** ** The invariant of the writer and the memory *)

(** Whether a store is between its two counter stores, and how many words of
    word [i] it has stored. *)
Definition storing (w : WeakWriter) : nat :=
  match w with WriterStoring _ _ _ => 1 | _ => 0 end.
Definition stored_word (w : WeakWriter) (i : nat) : nat :=
  match w with WriterStoring _ _ index => if (i <? index)%nat then 1 else 0 | _ => 0 end.

Record memory_ok (c : Config) : Prop := {
  ok_counter_length :
    length (history (slot_mem c) Sequence) = (2 * length (completed c) + 1 + storing (weak_writer c))%nat;
  ok_counter t msg : history (slot_mem c) Sequence !! t = Some msg →
    msg_value msg = u64 (Z.of_nat t) ∧
    ∀ i, (i < kWordCount)%nat → (t / 2 ≤ msg_view msg (Seen (Word i)))%nat;
  ok_word_length i : (i < kWordCount)%nat →
    length (history (slot_mem c) (Word i)) = (length (completed c) + 1 + stored_word (weak_writer c) i)%nat;
  ok_word i j msg : (i < kWordCount)%nat → history (slot_mem c) (Word i) !! j = Some msg →
    word_of (versions c) j i = Some (msg_value msg) ∧
    (2 * j ≤ S (msg_view msg (Seen Sequence)))%nat
}.

Definition knows_all (m : memory location Empty_set ()) (v : view location Empty_set) : Prop :=
  ∀ a, (pred (length (history m a)) ≤ v (Seen a))%nat.

Record writer_ok (c : Config) : Prop := {
  ok_memory : memory_ok c;
  ok_writer_view : knows_all (slot_mem c) (writer_view c);
  ok_sizes : Forall (well_sized size_of_T) (versions c);
  ok_start : match weak_writer c with
    | WriterIdle => True
    | WriterMarking start value =>
        start = u64 (Z.of_nat (2 * length (completed c))) ∧ well_sized size_of_T value
    | WriterStoring start value index =>
        start = u64 (Z.of_nat (2 * length (completed c))) ∧ (index ≤ kWordCount)%nat
    end
}.

Lemma writer_ok_init : writer_ok weak_init.
Proof.
  assert (Hnil : ∀ (t : nat) (x msg : message location Empty_set), [x] !! t = Some msg → t = 0%nat ∧ msg = x).
  { by intros t x msg [-> <-]%list_lookup_singleton_Some. }
  constructor; [constructor|intros a; simpl; lia|constructor|done]; simpl.
  - done.
  - intros t msg [-> ->]%Hnil. split; [done|]. intros i _. apply Nat.le_0_l.
  - done.
  - intros i j msg Hi [-> ->]%Hnil. split; [|simpl; lia].
    unfold word_of. simpl. by apply lookup_replicate_2.
Qed.

(** The memory of a configuration whose readers changed is the same. *)
Lemma writer_ok_reader i r c : writer_ok c → writer_ok (set_reader i r c).
Proof. intros [[] ? ? ?]. constructor; [constructor|..]; done. Qed.

Lemma knows_all_store o a x m v :
  knows_all m v → knows_all (store o a x m v).1 (store o a x m v).2.
Proof.
  intros Hk a'. destruct (store_view o a x m v) as [Hle Hlast].
  destruct (decide (a' = a)) as [-> |Hne].
  - rewrite store_history_eq, length_app. simpl length. lia.
  - rewrite store_history_ne by done. etrans; [apply Hk|apply Hle].
Qed.

Lemma counter_add n k : u64 (u64 (Z.of_nat n) + Z.of_nat k) = u64 (Z.of_nat (n + k)).
Proof. unfold unsigned_wrap. rewrite Zplus_mod_idemp_l. f_equal. lia. Qed.

Lemma half_le t n : (t ≤ 2 * n + 1)%nat → (t / 2 ≤ n)%nat.
Proof. intros. apply Nat.lt_succ_r, Nat.Div0.div_lt_upper_bound. lia. Qed.

(** What the writer's next store does to the memory and to the writer's view. *)
Ltac writer_stores Hk :=
  match goal with
  | |- writer_ok (writer_store ?o ?a ?x _ _ ?c) =>
      let Hle := fresh "Hle" in let Hlast := fresh "Hlast" in let Hk' := fresh "Hk'" in
      destruct (store_view o a x (slot_mem c) (writer_view c)) as [Hle Hlast];
      pose proof (knows_all_store o a x _ _ Hk) as Hk';
      unfold writer_store; rewrite (surjective_pairing (store _ _ _ _ _));
      constructor; [constructor| | |]; cbn [slot_mem writer_view weak_writer completed]
  end.

(** The odd counter. *)
Lemma mark_ok c start value :
  writer_ok c → weak_writer c = WriterMarking start value →
  writer_ok (writer_store seq_cst Sequence (u64 (start + 1))
               (WriterStoring start value 0) (completed c) c).
Proof.
  intros [[Hcl Hc Hwl Hw] Hk Hs Hst] Epc. unfold versions in Hw, Hs. rewrite Epc in *.
  destruct Hst as [-> Hv]. rewrite app_nil_r in Hw, Hs.
  writer_stores Hk.
  - rewrite store_history_eq, length_app, Hcl. simpl. lia.
  - rewrite store_history_eq. apply history_snoc; [done|]. cbn [msg_value msg_view releases].
    rewrite Hcl. simpl storing. split; [rewrite (counter_add _ 1); f_equal; lia|]. intros i Hi.
    etrans; [|apply Hle]. etrans; [|apply Hk]. rewrite Hwl by done. simpl.
    etrans; [apply (half_le _ (length (completed c)))|]; lia.
  - intros i Hi. rewrite store_history_ne by done. rewrite Hwl by done. done.
  - intros i j msg Hi. rewrite store_history_ne by done. intros Hm. destruct (Hw i j msg Hi Hm) as [H1 H2].
    split; [|done]. eapply word_of_prefix, H1. by apply prefix_app_r.
  - done.
  - unfold versions; simpl. by apply Forall_app_2; [|constructor].
  - split; [done|lia].
Qed.

(** A word. *)
Lemma word_ok c start value index word :
  writer_ok c → weak_writer c = WriterStoring start value index → pack value !! index = Some word →
  writer_ok (writer_store release (Word index) word
               (WriterStoring start value (S index)) (completed c) c).
Proof.
  intros [[Hcl Hc Hwl Hw] Hk Hs Hst] Epc Hword. unfold versions in Hw, Hs. rewrite Epc in *.
  destruct Hst as [-> Hi]. pose proof (lookup_lt_Some _ _ _ Hword) as Hlt. rewrite length_pack in Hlt.
  assert (Hnew : length (history (slot_mem c) (Word index)) = (length (completed c) + 1)%nat).
  { rewrite Hwl by done. simpl. rewrite (proj2 (Nat.ltb_ge index index)) by lia. lia. }
  writer_stores Hk.
  - rewrite store_history_ne by done. by rewrite Hcl.
  - by rewrite store_history_ne.
  - intros i Hi'. destruct (decide (i = index)) as [-> |Hne].
    + rewrite store_history_eq, length_app, Hnew. simpl. rewrite (proj2 (Nat.ltb_lt index (S index))); lia.
    + rewrite store_history_ne, Hwl by (done || congruence). simpl.
      destruct (Nat.ltb_spec i index), (Nat.ltb_spec i (S index)); lia.
  - intros i j msg Hi'. destruct (decide (i = index)) as [-> |Hne].
    + rewrite store_history_eq. revert j msg. apply history_snoc; [by intros; apply Hw|].
      cbn [msg_value msg_view releases]. rewrite Hnew. split.
      * unfold word_of, versions. simpl. rewrite Nat.add_1_r. simpl.
        rewrite lookup_app_r, Nat.sub_diag by lia. done.
      * pose proof (Hle (Seen Sequence)). pose proof (Hk Sequence). rewrite Hcl in *. simpl in *. lia.
    + rewrite store_history_ne by congruence. by apply Hw.
  - done.
  - done.
  - split; [done|lia].
Qed.

(** The even counter. *)
Lemma publish_ok c start value index :
  writer_ok c → weak_writer c = WriterStoring start value index → pack value !! index = None →
  writer_ok (writer_store seq_cst Sequence (u64 (start + 2)) WriterIdle (completed c ++ [value]) c).
Proof.
  intros [[Hcl Hc Hwl Hw] Hk Hs Hst] Epc Hword. unfold versions in Hw, Hs. rewrite Epc in *.
  destruct Hst as [-> Hi]. apply lookup_ge_None in Hword. rewrite length_pack in Hword.
  assert (Hall : ∀ i, (i < kWordCount)%nat →
    length (history (slot_mem c) (Word i)) = (length (completed c) + 2)%nat).
  { intros i Hi'. rewrite Hwl by done. simpl. rewrite (proj2 (Nat.ltb_lt i index)); lia. }
  writer_stores Hk.
  - rewrite store_history_eq, !length_app, Hcl. simpl. lia.
  - rewrite store_history_eq. apply history_snoc; [done|]. cbn [msg_value msg_view releases].
    rewrite Hcl. simpl storing. split; [rewrite (counter_add _ 2); f_equal; lia|]. intros i Hi'.
    etrans; [|apply Hle]. etrans; [|apply Hk]. rewrite Hall by done.
    etrans; [apply (half_le _ (length (completed c) + 1))|]; lia.
  - intros i Hi'. rewrite store_history_ne, Hall, length_app by done. simpl. lia.
  - intros i j msg Hi'. rewrite store_history_ne by done. unfold versions; simpl.
    rewrite app_nil_r. by apply Hw.
  - done.
  - unfold versions; simpl. by rewrite app_nil_r.
  - done.
Qed.

(** The load of the writer's own counter returns its last store. *)
Lemma call_ok c value t start v :
  writer_ok c → weak_writer c = WriterIdle → well_sized size_of_T value →
  load relaxed Sequence t (slot_mem c) (writer_view c) = Done (start, v) →
  writer_ok (mkConfig (slot_mem c) (WriterMarking start value) v (readers c) (completed c)).
Proof.
  intros [[Hcl Hc Hwl Hw] Hk Hs Hst] Epc Hv Hl. unfold versions in Hw, Hs. rewrite Epc in *.
  pose proof (load_latest _ _ _ _ _ _ _ Hl (Hk Sequence)) as ->.
  apply load_inv in Hl as (_ & msg & Hm & -> & Hle & _). destruct (Hc _ _ Hm) as [-> _].
  constructor; [constructor| | |]; try done; simpl.
  - intros a. etrans; [apply Hk|apply Hle].
  - split; [|done]. rewrite Hcl. simpl. do 2 f_equal. lia.
Qed.

Lemma writer_ok_step e c c' : writer_ok c → weak_step e c = Done c' → writer_ok c'.
Proof.
  intros Hc. destruct e as [value t| |i call|i t]; simpl.
  - unfold writer_call. destruct (weak_writer c) eqn:E; [|done..].
    destruct (decide _) as [Hv|]; [|done].
    intros ([start v] & Hl & [= <-])%outcome_bind_done. by eapply call_ok.
  - unfold writer_advance. destruct (weak_writer c) as [|start v|start v index] eqn:E; [done| |].
    + intros [= <-]. by apply mark_ok.
    + destruct (pack v !! index) eqn:Hw; intros [= <-]; [by apply word_ok|by eapply publish_ok].
  - intros (r & _ & [= <-])%outcome_bind_done. by apply writer_ok_reader.
  - intros (r & _ & [= <-])%outcome_bind_done. by apply writer_ok_reader.
Qed.

(** ** The invariant of a reader *)

(** A copy in progress: the even counter of version [k'], all of whose words
    the reader knows, and words of that or of later versions, whose odd counters
    the reader knows. *)
Definition copying_ok (c : Config) (v : view location Empty_set) (k' : nat) (staging : list Z) : Prop :=
  (k' ≤ length (completed c))%nat ∧ (length staging ≤ kWordCount)%nat ∧
  (∀ i, (i < kWordCount)%nat → (k' ≤ v (Seen (Word i)))%nat) ∧
  ∀ i w, staging !! i = Some w →
    ∃ j, (k' ≤ j)%nat ∧ word_of (versions c) j i = Some w ∧ (2 * j ≤ S (v (Seen Sequence)))%nat.

(** [k] is the newest version observed so far. *)
Definition reader_ok (c : Config) (r : WeakReader) : Prop :=
  ∃ k, register_trace (completed c) (observed r) k ∧
    (2 * k ≤ reader_view r (Seen Sequence))%nat ∧
    match reader_at r with
    | ReaderCopying _ before staging =>
        ∃ k', (k ≤ k')%nat ∧ (2 * k' ≤ reader_view r (Seen Sequence))%nat ∧
          before = u64 (Z.of_nat (2 * k')) ∧ copying_ok c (reader_view r) k' staging
    | _ => True
    end.

(** The memory only grows. *)
Definition grows (c c' : Config) : Prop :=
  completed c `prefix_of` completed c' ∧ versions c `prefix_of` versions c'.

Lemma reader_ok_grows c c' r : grows c c' → reader_ok c r → reader_ok c' r.
Proof.
  intros [Hp Hv] (k & Ht & Hk & Hpc). exists k. split_and!; [by eapply register_trace_prefix|done|].
  destruct (reader_at r) as [| |n before staging|]; try done.
  destruct Hpc as (k' & ? & ? & ? & Hn & Hlen & Hw & Hs). exists k'. split_and!; try done.
  split; [apply prefix_length in Hp; lia|]. split_and!; try done.
  intros i w Hi. destruct (Hs i w Hi) as (j & ? & Hj & ?). exists j.
  split_and!; try done. by eapply word_of_prefix.
Qed.

Lemma step_grows e c c' : weak_step e c = Done c' → grows c c'.
Proof.
  unfold grows, versions. destruct e as [value t| |i call|i t]; simpl.
  - unfold writer_call. destruct (weak_writer c) eqn:E; [|done..]. destruct (decide _); [|done].
    intros ([start v] & _ & [= <-])%outcome_bind_done. done.
  - unfold writer_advance. destruct (weak_writer c) as [|start v|start v index] eqn:E; [done| |].
    + intros [= <-]. simpl. split; [done|]. by apply prefix_app, prefix_nil.
    + destruct (pack v !! index) eqn:Hw; intros [= <-]; simpl; [done|].
      rewrite app_nil_r. split; [by apply prefix_app_r|done].
  - by intros (r & _ & [= <-])%outcome_bind_done.
  - by intros (r & _ & [= <-])%outcome_bind_done.
Qed.

Lemma next_attempt_ok c n v log k :
  register_trace (completed c) log k → (2 * k ≤ v (Seen Sequence))%nat →
  reader_ok c (next_attempt n v log).
Proof. intros Ht Hk. exists k. destruct n; simpl; split_and!; by try constructor. Qed.

(** A sample of the counter. *)
Lemma load_counter c o t v x v' :
  memory_ok c → acquires o = true → load o Sequence t (slot_mem c) v = Done (x, v') →
  (v (Seen Sequence) ≤ t)%nat ∧ (t < 2 * length (completed c) + 2)%nat ∧ x = u64 (Z.of_nat t) ∧
  view_le v v' ∧ (t ≤ v' (Seen Sequence))%nat ∧
  ∀ i, (i < kWordCount)%nat → (t / 2 ≤ v' (Seen (Word i)))%nat.
Proof.
  intros [Hcl Hc _ _] Ho (Ht & msg & Hm & -> & Hle & Hlast & Hacq)%load_inv.
  destruct (Hc _ _ Hm) as [-> Hw]. pose proof (lookup_lt_Some _ _ _ Hm) as Hlt.
  rewrite Hcl in Hlt. split_and!; try done.
  - destruct (weak_writer c); simpl in Hlt; lia.
  - intros i Hi. etrans; [by apply Hw|]. by apply Hacq.
Qed.

(** A word. *)
Lemma load_word c o i t v x v' :
  memory_ok c → acquires o = true → (i < kWordCount)%nat →
  load o (Word i) t (slot_mem c) v = Done (x, v') →
  (v (Seen (Word i)) ≤ t)%nat ∧ word_of (versions c) t i = Some x ∧ view_le v v' ∧
  (2 * t ≤ S (v' (Seen Sequence)))%nat.
Proof.
  intros [_ _ _ Hw] Ho Hi (Ht & msg & Hm & -> & Hle & Hlast & Hacq)%load_inv.
  destruct (Hw _ _ _ Hi Hm) as [-> Hs]. split_and!; try done.
  etrans; [apply Hs|]. apply le_n_S. by apply Hacq.
Qed.

(** The counter has not come around. *)
Definition counter_fits (c : Config) : Prop := Z.of_nat (2 * length (completed c)) + 2 ≤ 2 ^ 64.

Lemma even_counter t : Z.land (u64 (Z.of_nat t)) 1 = 0 → t = (2 * (t / 2))%nat.
Proof.
  rewrite odd_count_land. change 2 with (Z.of_nat 2). rewrite <- Nat2Z.inj_mod.
  intros H. pose proof (Nat.div_mod_eq t 2). lia.
Qed.

(** A copy that the second sample confirms is one whole version. *)
Lemma copy_confirmed c v k' staging :
  Forall (well_sized size_of_T) (versions c) → copying_ok c v k' staging →
  length staging = kWordCount → (v (Seen Sequence) ≤ 2 * k')%nat →
  version size_of_T (completed c) k' = Some (unpack staging).
Proof.
  intros Hsz (Hn & _ & _ & Hs) Hlen Hv.
  destruct (words_of (versions c) k') as [ws|] eqn:Hws; [assert (staging = ws) as ->|].
  - apply list_eq_same_length with kWordCount; [|done|].
    { destruct k'; simplify_eq/=; [by rewrite length_replicate|].
      apply fmap_Some in Hws as (? & _ & ->). by rewrite length_pack. }
    intros i x y _ Hx Hy. destruct (Hs i x Hx) as (j & Hj & Hw & Hjv).
    replace j with k' in Hw by lia. unfold word_of in Hw. rewrite Hws in Hw. simpl in Hw. congruence.
  - destruct k' as [|k']; simplify_eq/=; [done|].
    apply fmap_Some in Hws as (value & Hval & ->). unfold versions in Hval, Hsz.
    rewrite lookup_app_l in Hval by lia. rewrite Hval. f_equal. symmetry.
    apply unpack_pack. rewrite Forall_app, Forall_lookup in Hsz. destruct Hsz as [Hsz _]. by eapply Hsz.
  - destruct k' as [|k']; simplify_eq/=. apply fmap_None, lookup_ge_None in Hws.
    unfold versions in Hws. rewrite length_app in Hws. lia.
Qed.

Lemma copy_extend c v v' k' staging w t :
  copying_ok c v k' staging → (length staging < kWordCount)%nat →
  (v (Seen (Word (length staging))) ≤ t)%nat → word_of (versions c) t (length staging) = Some w →
  view_le v v' → (2 * t ≤ S (v' (Seen Sequence)))%nat → copying_ok c v' k' (staging ++ [w]).
Proof.
  intros (Hn & _ & Hw & Hs) Hlen Hvt Ht Hle Htv.
  split; [done|]. split; [rewrite length_app; simpl; lia|]. split.
  - intros i Hi. etrans; [by apply Hw|apply Hle].
  - intros i x [Hi|[Hi Hx]]%lookup_app_Some.
    + destruct (Hs i x Hi) as (j & ? & ? & ?). exists j. split_and!; try done.
      etrans; [done|]. apply le_n_S, Hle.
    + apply list_lookup_singleton_Some in Hx as [Hx <-]. replace i with (length staging) by lia.
      exists t. split_and!; try done. etrans; [by apply Hw|done].
Qed.

Lemma reader_load_ok c t r r' :
  writer_ok c → counter_fits c → reader_ok c r →
  reader_load size_of_T source_orders t (slot_mem c) r = Done r' → reader_ok c r'.
Proof.
  intros [Hm _ Hsz _] Hfit (k & Htr & Hk & Hpc). unfold reader_load, counter_fits in *.
  destruct (reader_at r) as [|n|n before staging|]; [done| | |].
  - intros ([x v] & Hl & Hr)%outcome_bind_done. apply load_counter in Hl as (Ht & Hb & -> & Hle & Hv & Hw); [|done..].
    destruct (Z.eqb_spec (Z.land (u64 (Z.of_nat t)) 1) 0) as [He|He]; simplify_eq/=.
    + apply even_counter in He. exists k. split_and!; [done|simpl; lia|]. exists (t / 2)%nat. rewrite <- He.
      split_and!; [lia|done|done|]. split; [lia|]. split; [simpl; lia|]. split; [done|].
      intros i w Hi. by rewrite lookup_nil in Hi.
    + eapply next_attempt_ok; [done|lia].
  - destruct Hpc as (k' & Hkk & Hk' & -> & Hcopy).
    destruct (Nat.ltb_spec (length staging) kWordCount) as [Hlt|Hge].
    + intros ([x v] & Hl & [= <-])%outcome_bind_done.
      apply load_word in Hl as (Ht & Hx & Hle & Hv); [|done..]. pose proof (Hle (Seen Sequence)).
      exists k. split_and!; [done|simpl; lia|]. exists k'. simpl. split_and!; [done|lia|done|].
      by eapply copy_extend.
    + intros ([x v] & Hl & Hr)%outcome_bind_done.
      apply load_counter in Hl as (Ht & Hb & -> & Hle & Hv & Hw); [|done..].
      destruct (Z.eqb_spec (u64 (Z.of_nat t)) (u64 (Z.of_nat (2 * k')))) as [He|He]; simplify_eq/=.
      * assert (t = 2 * k')%nat as ->.
        { rewrite !unsigned_wrap_id in He by (destruct Hcopy; solve_range). lia. }
        assert (length staging = kWordCount) by (destruct Hcopy as (_ & ? & _); lia).
        exists k'. split_and!; [|done|done]. eapply trace_loaded; [done|done|].
        eapply copy_confirmed; [done|done|done|lia].
      * eapply next_attempt_ok; [done|lia].
  - intros ([x v] & Hl & [= <-])%outcome_bind_done.
    apply load_counter in Hl as (Ht & Hb & -> & Hle & Hv & Hw); [|done..].
    pose proof (half_le t (length (completed c)) ltac:(lia)).
    pose proof (Nat.div_mod_eq t 2). pose proof (Nat.mod_upper_bound t 2 ltac:(lia)).
    exists (t / 2)%nat. cbn [reader_view reader_at observed]. split_and!; [|lia|done].
    rewrite unsigned_wrap_id by solve_range. change 2 with (Z.of_nat 2). rewrite <- Nat2Z.inj_div.
    eapply trace_generation; [done|lia].
Qed.

(** ** Whole schedules *)

Lemma reader_call_ok c call r r' :
  reader_ok c r → reader_call call r = Done r' → reader_ok c r'.
Proof.
  intros (k & Ht & Hk & _). unfold reader_call. destruct (reader_at r); [|done..].
  destruct call; intros [= <-]; [by eapply next_attempt_ok|by exists k].
Qed.

Definition slot_ok (c : Config) : Prop := writer_ok c ∧ ∀ i, reader_ok c (readers c i).

Lemma set_reader_ok i r c :
  slot_ok c → reader_ok c r → slot_ok (set_reader i r c).
Proof.
  intros [Hw Hr] Hi. split; [by apply writer_ok_reader|]. intros j. simpl.
  destruct (decide (j = i)); [exact Hi|exact (Hr j)].
Qed.

Lemma slot_ok_step e c c' :
  slot_ok c → counter_fits c → weak_step e c = Done c' → slot_ok c'.
Proof.
  intros [Hw Hr] Hfit Hstep. pose proof (writer_ok_step _ _ _ Hw Hstep) as Hw'.
  pose proof (step_grows _ _ _ Hstep) as Hg. destruct e as [value t| |i call|i t]; simpl in Hstep.
  - split; [done|]. intros i. apply (reader_ok_grows _ _ _ Hg). revert Hstep. unfold writer_call.
    destruct (weak_writer c); [|done..]. destruct (decide _); [|done].
    intros ([start v] & _ & [= <-])%outcome_bind_done. exact (Hr i).
  - split; [done|]. intros i. apply (reader_ok_grows _ _ _ Hg). revert Hstep. unfold writer_advance.
    destruct (weak_writer c); [done| |destruct (_ !! _)]; intros [= <-]; exact (Hr i).
  - apply outcome_bind_done in Hstep as (r & Hc & [= <-]). apply set_reader_ok; [done|].
    by eapply reader_call_ok.
  - apply outcome_bind_done in Hstep as (r & Hc & [= <-]). apply set_reader_ok; [done|].
    by eapply reader_load_ok.
Qed.

Lemma run_grows schedule c c' :
  weak_run schedule c = Done c' → (length (completed c) ≤ length (completed c'))%nat.
Proof.
  revert c; induction schedule as [|e schedule IH]; intros c; simpl; [by intros [= ->]|].
  intros (c1 & [Hp _]%step_grows & Hr)%outcome_bind_done. apply IH in Hr. apply prefix_length in Hp. lia.
Qed.

Lemma slot_ok_run schedule c c' :
  slot_ok c → weak_run schedule c = Done c' → counter_fits c' → slot_ok c'.
Proof.
  revert c; induction schedule as [|e schedule IH]; intros c Hc; simpl; [by intros [= ->]|].
  intros Hrun Hfit. pose proof (run_grows (e :: schedule) c c' Hrun) as Hlen.
  apply outcome_bind_done in Hrun as (c1 & Hs & Hr). eapply (IH c1); [|done|done].
  eapply slot_ok_step; [done| |done]. unfold counter_fits in *. lia.
Qed.

Lemma slot_ok_init : slot_ok weak_init.
Proof.
  split; [apply writer_ok_init|]. intros i. exists 0%nat. split_and!; [constructor|simpl; lia|done].
Qed.

(** C5: No torn reads under the memory orders of the source. For every schedule
    of the writer's and the readers' atomic accesses, each load returning any
    store that release and acquire ordering permits, the calls of each reader
    have the results of a monotone register: every value [tryLoad] returns is
    one whole value of a completed store (or the zeroed slot), [generation]
    returns the number of a version, and no later result belongs to an older
    version than an earlier one, as long as the 64-bit counter has not come
    around. *)
Theorem weak_slot_register schedule c :
  weak_run schedule weak_init = Done c → counter_fits c →
  ∀ i, ∃ k, register_trace (completed c) (observed (readers c i)) k.
Proof.
  intros Hrun Hfit i. destruct (slot_ok_run _ _ _ slot_ok_init Hrun Hfit) as [_ Hr].
  destruct (Hr i) as (k & Ht & _). by exists k.
Qed.

End Safety.

(** ** What the release order of the word stores is for *)

Definition first_value : list Z := replicate 16 1.
Definition second_value : list Z := replicate 16 2.

(** A whole store of [first_value], and a store of [second_value] that has
    reached its first word, while reader 0 copies that word and an old one. *)
Definition racing_schedule : list weak_event :=
  [WriterCalls first_value 0] ++ replicate 4 WriterStores ++
  [WriterCalls second_value 2; WriterStores; WriterStores; ReaderCalls 0 (CallTryLoad 32)] ++
  map (ReaderLoads 0) [2; 2; 1; 2]%nat.

(** The orders of the source with relaxed word stores, as the comment at the
    top of the class describes them. *)
Definition relaxed_word_orders : slot_orders :=
  Orders relaxed seq_cst relaxed seq_cst seq_cst seq_cst acquire.

Definition first_observation (o : outcome Config) : option observation :=
  match o with Done c => head (observed (readers c 0)) | _ => None end.

(** The hole that the comment on the word stores describes: with relaxed word
    stores a reader accepts half of each value; with the orders of the source
    the memory does not offer the second sample of that run. *)
Example relaxed_words_tear :
  first_observation (weak_run 16 relaxed_word_orders racing_schedule weak_init) =
    Some (Loaded (Some (replicate 8 2 ++ replicate 8 1))) ∧
  weak_run 16 source_orders racing_schedule weak_init = Disabled.
Proof. split; vm_compute; reflexivity. Qed.

(** ** An instance *)

(** Reader 0 starts in the middle of the first store, retries, and reads the
    value; reader 1 reads the zeroed slot from its stale view. *)
Definition demo_schedule : list weak_event :=
  [WriterCalls first_value 0; WriterStores; WriterStores; ReaderCalls 0 (CallTryLoad 32);
   ReaderLoads 0 1; WriterStores; WriterStores; ReaderCalls 1 (CallTryLoad 32)] ++
  map (ReaderLoads 0) [2; 1; 1; 2]%nat ++ map (ReaderLoads 1) [0; 0; 0; 0]%nat ++
  [ReaderCalls 0 CallGeneration; ReaderLoads 0 2].

Definition demo_config : Config :=
  done_or weak_init (weak_run 16 source_orders demo_schedule weak_init).

Lemma weak_slot_register_witness :
  observed (readers demo_config 0) = [Generation 1; Loaded (Some first_value)] ∧
  observed (readers demo_config 1) = [Loaded (Some (replicate 16 0))] ∧
  ∃ k, register_trace 16 (completed demo_config) (observed (readers demo_config 0)) k.
Proof.
  split; [vm_compute; reflexivity|]. split; [vm_compute; reflexivity|].
  apply (weak_slot_register 16 demo_schedule demo_config); [apply is_done_or; vm_compute; reflexivity|].
  unfold counter_fits. by_compute.
Defined.
