(* ===== verification/SpscRingWeak.v ===== *)
(** * The ring under the memory orders of the source

    [src/include/safeedge/concurrent/spsc_ring.hpp] with the memory order of
    every access: [tryPush], [tryPop] and [sizeApprox] as sequences of atomic
    loads and stores of the two positions and plain accesses to the slots, on
    the memory of [WeakMemory]. The slots are not atomic, so an access that is
    not ordered after every earlier access to its slot is a data race. Each
    thread's cached copy of the other side's position is its own. *)

From stdpp Require Import base numbers list option.
From S2P Require Import Prelude SpscRing WeakMemory.
#[local] Open Scope weak_scope.

(** ** Orders *)

Record ring_orders := RingOrders {
  own_order : memory_order;       (* a thread's load of its own position *)
  refresh_order : memory_order;   (* its load of the other side's *)
  publish_order : memory_order;   (* the store of its own *)
  approx_order : memory_order     (* both loads of [sizeApprox] *)
}.

Definition source_ring_orders : ring_orders := RingOrders relaxed acquire release acquire.

(** ** The ring's memory *)

Inductive position := WritePos | ReadPos.

#[export] Instance position_eq_dec : EqDecision position.
Proof. solve_decision. Defined.

Section Ring.
Context {T : Type} (bits : Z) (moved_from : T → T) (orders : ring_orders).

Local Abbreviation ring_memory := (memory position nat T).
Local Abbreviation ring_view := (view position nat).

(** ** The threads *)

Inductive producer_pc :=
| ProducerIdle
| ProducerRefreshing (write : Z) (value : T)   (* the ring looks full *)
| ProducerAssigning (write : Z) (value : T)
| ProducerPublishing (write : Z) (value : T)
| ProducerMeasuring                            (* in [sizeApprox] *)
| ProducerMeasured (write : Z).

Inductive consumer_pc :=
| ConsumerIdle
| ConsumerRefreshing (read : Z)                (* the ring looks empty *)
| ConsumerMoving (read : Z)
| ConsumerPublishing (read : Z) (out : T)
| ConsumerMeasuring
| ConsumerMeasured (write : Z).

(** A thread: where it is, what it knows, its cached position and the sizes it
    was told. *)
Record WeakThread (pc : Type) := mkThread {
  at_ : pc;
  view_ : ring_view;
  cached : Z;
  sizes : list Z
}.
Arguments mkThread {pc}.
Arguments at_ {pc}.
Arguments view_ {pc}.
Arguments cached {pc}.
Arguments sizes {pc}.

Record WeakRing := mkWeakRing {
  ring_mem : ring_memory;
  weak_producer : WeakThread producer_pc;
  weak_consumer : WeakThread consumer_pc;
  weak_pushed : list T;
  weak_popped : list T
}.

Definition weak_ring_init (default : T) : WeakRing :=
  mkWeakRing (memory_init (λ _, default))
    (mkThread ProducerIdle view_bot 0 []) (mkThread ConsumerIdle view_bot 0 []) [] [].

Inductive ring_event :=
| ProducerPushes (value : T) (t : nat)
| ProducerSizes
| ProducerSteps (t : nat)
| ConsumerPops (t : nat)
| ConsumerSizes
| ConsumerSteps (t : nat).

Definition with_producer (p : WeakThread producer_pc) (c : WeakRing) : WeakRing :=
  mkWeakRing (ring_mem c) p (weak_consumer c) (weak_pushed c) (weak_popped c).
Definition with_consumer (k : WeakThread consumer_pc) (c : WeakRing) : WeakRing :=
  mkWeakRing (ring_mem c) (weak_producer c) k (weak_pushed c) (weak_popped c).
Definition with_memory (m : ring_memory) (c : WeakRing) : WeakRing :=
  mkWeakRing m (weak_producer c) (weak_consumer c) (weak_pushed c) (weak_popped c).

(** ** The producer *)

(** [write - cached_read_pos >= Capacity]. *)
Definition full_for (write cached_read : Z) : bool := Capacity bits <=? u64 (write - cached_read).

(** [emplaceFrom] up to its first decision. *)
Definition producer_push (value : T) (t : nat) (c : WeakRing) : outcome (event T * WeakRing) :=
  let p := weak_producer c in
  match at_ p with
  | ProducerIdle =>
      let! (write, v) := load (own_order orders) WritePos t (ring_mem c) (view_ p) in
      let next := if full_for write (cached p) then ProducerRefreshing write value
                  else ProducerAssigning write value in
      Done (internal, with_producer (mkThread next v (cached p) (sizes p)) c)
  | _ => Disabled
  end.

Definition producer_size (c : WeakRing) : outcome (event T * WeakRing) :=
  let p := weak_producer c in
  match at_ p with
  | ProducerIdle =>
      Done (internal, with_producer (mkThread ProducerMeasuring (view_ p) (cached p) (sizes p)) c)
  | _ => Disabled
  end.

(** The producer's next access. *)
Definition producer_step (t : nat) (c : WeakRing) : outcome (event T * WeakRing) :=
  let p := weak_producer c in
  match at_ p with
  | ProducerIdle => Disabled
  | ProducerRefreshing write value =>
      let! (read, v) := load (refresh_order orders) ReadPos t (ring_mem c) (view_ p) in
      if full_for write read
      then Done (push_full t, with_producer (mkThread ProducerIdle v read (sizes p)) c)
      else Done (internal, with_producer (mkThread (ProducerAssigning write value) v read (sizes p)) c)
  | ProducerAssigning write value =>
      let! (_, m, v) := access (slot_index bits write) (λ _, value) (ring_mem c) (view_ p) in
      Done (internal, with_memory m
        (with_producer (mkThread (ProducerPublishing write value) v (cached p) (sizes p)) c))
  | ProducerPublishing write value =>
      let (m, v) := store (publish_order orders) WritePos (u64 (write + 1)) (ring_mem c) (view_ p) in
      Done (push_done value, mkWeakRing m (mkThread ProducerIdle v (cached p) (sizes p))
        (weak_consumer c) (weak_pushed c ++ [value]) (weak_popped c))
  | ProducerMeasuring =>
      let! (write, v) := load (approx_order orders) WritePos t (ring_mem c) (view_ p) in
      Done (internal, with_producer (mkThread (ProducerMeasured write) v (cached p) (sizes p)) c)
  | ProducerMeasured write =>
      let! (read, v) := load (approx_order orders) ReadPos t (ring_mem c) (view_ p) in
      Done (internal, with_producer
        (mkThread ProducerIdle v (cached p) (sizeApprox write read :: sizes p)) c)
  end.

(** ** The consumer *)

(** [tryPop] up to its first decision. *)
Definition consumer_pop (t : nat) (c : WeakRing) : outcome (event T * WeakRing) :=
  let k := weak_consumer c in
  match at_ k with
  | ConsumerIdle =>
      let! (read, v) := load (own_order orders) ReadPos t (ring_mem c) (view_ k) in
      let next := if read =? cached k then ConsumerRefreshing read else ConsumerMoving read in
      Done (internal, with_consumer (mkThread next v (cached k) (sizes k)) c)
  | _ => Disabled
  end.

Definition consumer_size (c : WeakRing) : outcome (event T * WeakRing) :=
  let k := weak_consumer c in
  match at_ k with
  | ConsumerIdle =>
      Done (internal, with_consumer (mkThread ConsumerMeasuring (view_ k) (cached k) (sizes k)) c)
  | _ => Disabled
  end.

(** The consumer's next access. *)
Definition consumer_step (t : nat) (c : WeakRing) : outcome (event T * WeakRing) :=
  let k := weak_consumer c in
  match at_ k with
  | ConsumerIdle => Disabled
  | ConsumerRefreshing read =>
      let! (write, v) := load (refresh_order orders) WritePos t (ring_mem c) (view_ k) in
      if read =? write
      then Done (pop_empty t, with_consumer (mkThread ConsumerIdle v write (sizes k)) c)
      else Done (internal, with_consumer (mkThread (ConsumerMoving read) v write (sizes k)) c)
  | ConsumerMoving read =>
      let! (out, m, v) := access (slot_index bits read) moved_from (ring_mem c) (view_ k) in
      Done (internal, with_memory m
        (with_consumer (mkThread (ConsumerPublishing read out) v (cached k) (sizes k)) c))
  | ConsumerPublishing read out =>
      let (m, v) := store (publish_order orders) ReadPos (u64 (read + 1)) (ring_mem c) (view_ k) in
      Done (pop_done out, mkWeakRing m (weak_producer c) (mkThread ConsumerIdle v (cached k) (sizes k))
        (weak_pushed c) (weak_popped c ++ [out]))
  | ConsumerMeasuring =>
      let! (write, v) := load (approx_order orders) WritePos t (ring_mem c) (view_ k) in
      Done (internal, with_consumer (mkThread (ConsumerMeasured write) v (cached k) (sizes k)) c)
  | ConsumerMeasured write =>
      let! (read, v) := load (approx_order orders) ReadPos t (ring_mem c) (view_ k) in
      Done (internal, with_consumer
        (mkThread ConsumerIdle v (cached k) (sizeApprox write read :: sizes k)) c)
  end.

(** ** Schedules *)

Definition weak_ring_step (e : ring_event) (c : WeakRing) : outcome (event T * WeakRing) :=
  match e with
  | ProducerPushes value t => producer_push value t c
  | ProducerSizes => producer_size c
  | ProducerSteps t => producer_step t c
  | ConsumerPops t => consumer_pop t c
  | ConsumerSizes => consumer_size c
  | ConsumerSteps t => consumer_step t c
  end.

Fixpoint weak_ring_run (schedule : list ring_event) (c : WeakRing) : outcome WeakRing :=
  match schedule with
  | [] => Done c
  | e :: schedule => let! (_, c) := weak_ring_step e c in weak_ring_run schedule c
  end.

End Ring.

Arguments WeakRing : clear implicits.
Arguments ring_event : clear implicits.
Arguments producer_pc : clear implicits.
Arguments consumer_pc : clear implicits.
Arguments mkThread {pc}.
Arguments at_ {pc}.
Arguments view_ {pc}.
Arguments cached {pc}.
Arguments sizes {pc}.
