(* ===== verification/SpscRingWeakSafety.v ===== *)
(** * The ring under the memory orders of the source: theorems

    The release store of a position and the acquire load of the other side's
    position order the accesses to every slot: no schedule reaches a data race.
    Each step of the weak-memory ring is a step of the interleaving semantics of
    [SpscRing] (or none), so the bounded FIFO contract of [SpscRingSafety] holds
    without sequential consistency. *)

From stdpp Require Import base numbers list option.
From S2P Require Import Prelude SpscRing SpscRingSafety WeakMemory SpscRingWeak.
#[local] Open Scope weak_scope.

Section Safety.
Context {T : Type} (bits : Z) (moved_from : T → T).
Hypothesis Hbits : 1 ≤ bits < 64.

Local Abbreviation cap := (Z.to_nat (Capacity bits)).
Local Abbreviation weak_ring_step := (weak_ring_step bits moved_from source_ring_orders).
Local Abbreviation weak_ring_run := (weak_ring_run bits moved_from source_ring_orders).
Local Abbreviation step := (step bits moved_from).
Local Abbreviation ring_view := (view position nat).

(** ** The interleaving state behind a configuration *)

Definition abs_producer (pc : producer_pc T) : Producer T :=
  match pc with
  | ProducerAssigning write value => PReserved write value
  | ProducerPublishing write value => PAssigned write value
  | _ => PIdle
  end.

Definition abs_consumer (pc : consumer_pc T) : Consumer T :=
  match pc with
  | ConsumerMoving read => CReserved read
  | ConsumerPublishing read out => CMoved read out
  | _ => CIdle
  end.

Definition abs_slots (f : nat → T) : list T := map f (seq 0 cap).

(** [sr] and [sw] are the pops the producer and the pushes the consumer have
    cached. *)
Definition abs (sr sw : nat) (c : WeakRing T) : System T :=
  mkSystem
    (mkRing (position_of (length (weak_pushed c))) (cached (weak_producer c))
       (position_of (length (weak_popped c))) (cached (weak_consumer c))
       (abs_slots (data (ring_mem c))))
    (abs_producer (at_ (weak_producer c))) (abs_consumer (at_ (weak_consumer c)))
    (weak_pushed c) (weak_popped c) sr sw.

Lemma abs_slots_lookup f i : (i < cap)%nat → abs_slots f !! i = Some (f i).
Proof. intros Hi. unfold abs_slots. rewrite list_lookup_fmap, lookup_seq_lt by done. done. Qed.

Lemma abs_slots_update f f' i x :
  f' i = x → (∀ j, j ≠ i → f' j = f j) → abs_slots f' = <[i := x]> (abs_slots f).
Proof.
  intros Hx Hne. apply list_eq. intros j. destruct (decide (j < cap)%nat) as [Hj|Hj].
  - rewrite abs_slots_lookup by done. destruct (decide (j = i)) as [-> |Hji].
    + rewrite list_lookup_insert_eq by (unfold abs_slots; by rewrite length_map, length_seq). by rewrite Hx.
    + rewrite list_lookup_insert_ne, abs_slots_lookup, Hne by done. done.
  - rewrite !lookup_ge_None_2; [done| |]; rewrite ?length_insert; unfold abs_slots;
      rewrite length_map, length_seq; lia.
Qed.

(** ** Who knows what *)

(** Slot [k mod cap] is touched for the [2 (k / cap) + 1]-st time by push [k]
    and next by pop [k]. [knows 1] is to know the pushes below a bound, [knows 2]
    the pops. *)
Definition knows (b : nat) (v : ring_view) (bound : nat) : Prop :=
  ∀ k, (k < bound)%nat → (2 * (k / cap) + b ≤ v (Touched (k mod cap)))%nat.

Lemma knows_0 b v : knows b v 0.
Proof. intros k Hk. lia. Qed.

Lemma knows_le b v v' bound : view_le v v' → knows b v bound → knows b v' bound.
Proof. intros Hle Hk k Hb. etrans; [by apply Hk|apply Hle]. Qed.

Lemma knows_S b v bound :
  knows b v bound → (2 * (bound / cap) + b ≤ v (Touched (bound mod cap)))%nat → knows b v (S bound).
Proof.
  intros Hk Hb k Hlt. destruct (decide (k = bound)) as [-> |]; [done|]. apply Hk. lia.
Qed.

Definition assigned (pc : producer_pc T) : nat :=
  match pc with ProducerPublishing _ _ => 1 | _ => 0 end.
Definition moved (pc : consumer_pc T) : nat :=
  match pc with ConsumerPublishing _ _ => 1 | _ => 0 end.

(** Pushes that have assigned their slot, and pops that have emptied theirs. *)
Definition assigns (c : WeakRing T) : nat :=
  (length (weak_pushed c) + assigned (at_ (weak_producer c)))%nat.
Definition moves (c : WeakRing T) : nat :=
  (length (weak_popped c) + moved (at_ (weak_consumer c)))%nat.

Definition producer_knows (c : WeakRing T) (sr : nat) (p : WeakThread (producer_pc T)) : Prop :=
  view_le (view_ p) (now (ring_mem c)) ∧
  (length (weak_pushed c) ≤ view_ p (Seen WritePos))%nat ∧ (sr ≤ view_ p (Seen ReadPos))%nat ∧
  knows 1 (view_ p) (length (weak_pushed c) + assigned (at_ p)) ∧ knows 2 (view_ p) sr ∧
  match at_ p with
  | ProducerRefreshing write _ =>
      write = position_of (length (weak_pushed c)) ∧ full_for bits write (cached p) = true
  | ProducerMeasured write => write = position_of (length (weak_pushed c))
  | _ => True
  end.

Definition consumer_knows (c : WeakRing T) (sw : nat) (k : WeakThread (consumer_pc T)) : Prop :=
  view_le (view_ k) (now (ring_mem c)) ∧
  (length (weak_popped c) ≤ view_ k (Seen ReadPos))%nat ∧ (sw ≤ view_ k (Seen WritePos))%nat ∧
  knows 2 (view_ k) (length (weak_popped c) + moved (at_ k)) ∧ knows 1 (view_ k) sw ∧
  match at_ k with
  | ConsumerRefreshing read => read = position_of (length (weak_popped c)) ∧ read = cached k
  | ConsumerMeasured write => ∃ t, write = position_of t ∧ (sw ≤ t ≤ length (weak_pushed c))%nat
  | _ => True
  end.

Record sync_ok (sr sw : nat) (c : WeakRing T) : Prop := {
  ok_write_length : length (history (ring_mem c) WritePos) = S (length (weak_pushed c));
  ok_write t msg : history (ring_mem c) WritePos !! t = Some msg →
    msg_value msg = position_of t ∧ knows 1 (msg_view msg) t;
  ok_read_length : length (history (ring_mem c) ReadPos) = S (length (weak_popped c));
  ok_read t msg : history (ring_mem c) ReadPos !! t = Some msg →
    msg_value msg = position_of t ∧ knows 2 (msg_view msg) t;
  ok_closed : closed (ring_mem c);
  ok_full k : (moves c ≤ k < assigns c)%nat → touches (ring_mem c) (k mod cap)%nat = (2 * (k / cap) + 1)%nat;
  ok_free k : (assigns c ≤ k < moves c + cap)%nat → touches (ring_mem c) (k mod cap)%nat = (2 * (k / cap))%nat;
  ok_producer : producer_knows c sr (weak_producer c);
  ok_consumer : consumer_knows c sw (weak_consumer c)
}.

Lemma sync_ok_init default : sync_ok 0 0 (weak_ring_init default).
Proof.
  pose proof (cap_pos bits Hbits).
  assert (Hb : ∀ v : ring_view, view_le view_bot v) by (intros v c; apply Nat.le_0_l).
  assert (Hk : ∀ b (v : ring_view), knows b v 0) by apply knows_0.
  constructor; simpl; try done.
  - intros t msg [-> <-]%list_lookup_singleton_Some. split; [done|apply Hk].
  - intros t msg [-> <-]%list_lookup_singleton_Some. split; [done|apply Hk].
  - apply closed_init.
  - unfold moves, assigns. simpl. lia.
  - unfold moves, assigns. simpl. intros k Hk'. rewrite Nat.div_small by lia. done.
Qed.

(** ** Loads *)

Lemma load_write sr sw c o t v x v' :
  sync_ok sr sw c → load o WritePos t (ring_mem c) v = Done (x, v') →
  (v (Seen WritePos) ≤ t ≤ length (weak_pushed c))%nat ∧ x = position_of t ∧
  view_le v v' ∧ (t ≤ v' (Seen WritePos))%nat ∧ (acquires o = true → knows 1 v' t) ∧
  (view_le v (now (ring_mem c)) → view_le v' (now (ring_mem c))).
Proof.
  intros Hok Hl. pose proof (λ H, load_closed _ _ _ _ _ _ _ (ok_closed _ _ _ Hok) Hl H) as Hcl.
  apply load_inv in Hl as (Ht & msg & Hm & -> & Hle & Hlast & Hacq).
  destruct (ok_write _ _ _ Hok _ _ Hm) as [-> Hk]. apply lookup_lt_Some in Hm.
  rewrite (ok_write_length _ _ _ Hok) in Hm. split_and!; try done; [lia|].
  intros Ho. eapply knows_le; [by apply Hacq|done].
Qed.

Lemma load_read sr sw c o t v x v' :
  sync_ok sr sw c → load o ReadPos t (ring_mem c) v = Done (x, v') →
  (v (Seen ReadPos) ≤ t ≤ length (weak_popped c))%nat ∧ x = position_of t ∧
  view_le v v' ∧ (t ≤ v' (Seen ReadPos))%nat ∧ (acquires o = true → knows 2 v' t) ∧
  (view_le v (now (ring_mem c)) → view_le v' (now (ring_mem c))).
Proof.
  intros Hok Hl. pose proof (λ H, load_closed _ _ _ _ _ _ _ (ok_closed _ _ _ Hok) Hl H) as Hcl.
  apply load_inv in Hl as (Ht & msg & Hm & -> & Hle & Hlast & Hacq).
  destruct (ok_read _ _ _ Hok _ _ Hm) as [-> Hk]. apply lookup_lt_Some in Hm.
  rewrite (ok_read_length _ _ _ Hok) in Hm. split_and!; try done; [lia|].
  intros Ho. eapply knows_le; [by apply Hacq|done].
Qed.

(** A step that changes only one thread's registers and view. *)
Lemma producer_moves sr sr' sw c p :
  sync_ok sr sw c → assigned (at_ p) = assigned (at_ (weak_producer c)) →
  producer_knows c sr' p → sync_ok sr' sw (with_producer p c).
Proof.
  intros [] Ha Hp. constructor; try done; unfold assigns, moves in *; simpl; by rewrite Ha.
Qed.

Lemma consumer_moves sr sw sw' c k :
  sync_ok sr sw c → moved (at_ k) = moved (at_ (weak_consumer c)) →
  consumer_knows c sw' k → sync_ok sr sw' (with_consumer k c).
Proof.
  intros [] Ha Hp. constructor; try done; unfold assigns, moves in *; simpl; by rewrite Ha.
Qed.

(** A thread whose view grows keeps what it knew. *)
Lemma producer_knows_le c sr sr' p at' v' cached' sizes' :
  producer_knows c sr p → view_le (view_ p) v' → view_le v' (now (ring_mem c)) →
  assigned at' = assigned (at_ p) → (sr' ≤ v' (Seen ReadPos))%nat → knows 2 v' sr' →
  match at' with
  | ProducerRefreshing write _ =>
      write = position_of (length (weak_pushed c)) ∧ full_for bits write cached' = true
  | ProducerMeasured write => write = position_of (length (weak_pushed c))
  | _ => True
  end → producer_knows c sr' (mkThread at' v' cached' sizes').
Proof.
  intros (_ & Hw & _ & Hk & _) Hle Hnow Ha Hsr Hk2 Hpc. unfold producer_knows; simpl. rewrite Ha.
  split_and!; try done; [etrans; [apply Hw|apply Hle]|by eapply knows_le].
Qed.

Lemma consumer_knows_le c sw sw' k at' v' cached' sizes' :
  consumer_knows c sw k → view_le (view_ k) v' → view_le v' (now (ring_mem c)) →
  moved at' = moved (at_ k) → (sw' ≤ v' (Seen WritePos))%nat → knows 1 v' sw' →
  match at' with
  | ConsumerRefreshing read => read = position_of (length (weak_popped c)) ∧ read = cached'
  | ConsumerMeasured write => ∃ t, write = position_of t ∧ (sw' ≤ t ≤ length (weak_pushed c))%nat
  | _ => True
  end → consumer_knows c sw' (mkThread at' v' cached' sizes').
Proof.
  intros (_ & Hw & _ & Hk & _) Hle Hnow Ha Hsr Hk2 Hpc. unfold consumer_knows; simpl. rewrite Ha.
  split_and!; try done; [etrans; [apply Hw|apply Hle]|by eapply knows_le].
Qed.

(** ** Slots *)

Lemma round_shift k : (cap ≤ k)%nat →
  (k / cap = S ((k - cap) / cap) ∧ k mod cap = (k - cap) mod cap)%nat.
Proof.
  intros Hk. pose proof (cap_pos bits Hbits). replace k with (k - cap + 1 * cap)%nat at 1 3 by lia.
  rewrite Nat.div_add, Nat.Div0.mod_add by lia. lia.
Qed.

(** Where the two threads are relative to each other. *)
Lemma ring_places sr sw c :
  ring_inv bits (abs sr sw c) →
  (length (weak_popped c) ≤ moves c ≤ length (weak_pushed c))%nat ∧
  (length (weak_pushed c) ≤ assigns c ≤ length (weak_popped c) + cap)%nat ∧
  (sr ≤ length (weak_popped c))%nat ∧ (length (weak_popped c) ≤ sw ≤ length (weak_pushed c))%nat ∧
  (length (weak_pushed c) ≤ sr + cap)%nat.
Proof.
  intros Hi. pose proof (inv_order _ _ Hi). pose proof (inv_seen_read _ _ Hi). pose proof (inv_seen_write _ _ Hi).
  pose proof (inv_space _ _ Hi). pose proof (inv_producer _ _ Hi) as Hp. pose proof (inv_consumer _ _ Hi) as Hc.
  simpl in *. unfold moves, assigns.
  destruct (at_ (weak_producer c)), (at_ (weak_consumer c)); simpl in *; lia.
Qed.

(** The slot the producer is about to assign: its last access was a pop the
    producer knows of. *)
Lemma producer_slot sr sw c write value :
  ring_inv bits (abs sr sw c) → sync_ok sr sw c →
  at_ (weak_producer c) = ProducerAssigning write value →
  slot_index bits write = (length (weak_pushed c) mod cap)%nat ∧
  (length (weak_pushed c) < sr + cap)%nat ∧
  touches (ring_mem c) (slot_index bits write) = (2 * (length (weak_pushed c) / cap))%nat ∧
  (touches (ring_mem c) (slot_index bits write) ≤ view_ (weak_producer c) (Touched (slot_index bits write)))%nat.
Proof.
  intros Hi Hok Hat. pose proof (ring_places _ _ _ Hi) as Hpl. pose proof (inv_producer _ _ Hi) as Hp.
  simpl in Hp. rewrite Hat in Hp. destruct Hp as [-> Hlt].
  rewrite (slot_index_position bits Hbits). pose proof (ok_free _ _ _ Hok (length (weak_pushed c))) as Hf.
  unfold assigns in Hf, Hpl. rewrite Hat in Hf, Hpl. simpl in Hf, Hpl. rewrite Hf by lia.
  split_and!; [done|done|done|]. destruct (decide (cap ≤ length (weak_pushed c))%nat) as [Hge|Hlo].
  - destruct (round_shift _ Hge) as [-> ->]. destruct (ok_producer _ _ _ Hok) as (_ & _ & _ & _ & Hk & _).
    specialize (Hk (length (weak_pushed c) - cap)%nat ltac:(lia)). lia.
  - rewrite Nat.div_small by lia. lia.
Qed.

(** The slot the consumer is about to move out: its last access was a push the
    consumer knows of. *)
Lemma consumer_slot sr sw c read :
  ring_inv bits (abs sr sw c) → sync_ok sr sw c →
  at_ (weak_consumer c) = ConsumerMoving read →
  slot_index bits read = (length (weak_popped c) mod cap)%nat ∧
  (length (weak_popped c) < sw)%nat ∧
  touches (ring_mem c) (slot_index bits read) = (2 * (length (weak_popped c) / cap) + 1)%nat ∧
  (touches (ring_mem c) (slot_index bits read) ≤ view_ (weak_consumer c) (Touched (slot_index bits read)))%nat.
Proof.
  intros Hi Hok Hat. pose proof (ring_places _ _ _ Hi) as Hpl. pose proof (inv_consumer _ _ Hi) as Hp.
  simpl in Hp. rewrite Hat in Hp. destruct Hp as [-> Hlt].
  rewrite (slot_index_position bits Hbits). pose proof (ok_full _ _ _ Hok (length (weak_popped c))) as Hf.
  unfold moves in Hf, Hpl. rewrite Hat in Hf, Hpl. simpl in Hf, Hpl. rewrite Hf by lia.
  split_and!; [done|done|done|]. destruct (ok_consumer _ _ _ Hok) as (_ & _ & _ & _ & Hk & _).
  specialize (Hk (length (weak_popped c)) Hlt). lia.
Qed.

(** The other thread keeps what it knew. *)
Lemma producer_knows_frame c c' sr p :
  producer_knows c sr p → view_le (now (ring_mem c)) (now (ring_mem c')) →
  weak_pushed c' = weak_pushed c → producer_knows c' sr p.
Proof.
  intros (Hv & Hrest) Hnow Hpu. unfold producer_knows. rewrite Hpu. split; [by etrans|done].
Qed.

Lemma consumer_knows_frame c c' sw k :
  consumer_knows c sw k → view_le (now (ring_mem c)) (now (ring_mem c')) →
  weak_popped c' = weak_popped c → (length (weak_pushed c) ≤ length (weak_pushed c'))%nat →
  consumer_knows c' sw k.
Proof.
  intros (Hv & Hr & Hw & Hk & Hk' & Hpc) Hnow Hpo Hpu. unfold consumer_knows. rewrite Hpo.
  split_and!; [by etrans|done|done|done|done|]. destruct (at_ k); try done.
  destruct Hpc as (t & ? & ?). exists t. split; [done|lia].
Qed.

(** Accesses to a slot. *)
Lemma assign_sync sr sw c write value x m v sz :
  ring_inv bits (abs sr sw c) → sync_ok sr sw c →
  at_ (weak_producer c) = ProducerAssigning write value →
  access (slot_index bits write) (λ _, value) (ring_mem c) (view_ (weak_producer c)) = Done (x, m, v) →
  sync_ok sr sw (with_memory m (with_producer
    (mkThread (ProducerPublishing write value) v (cached (weak_producer c)) sz) c)).
Proof.
  intros Hi Hok Hat Hacc. destruct (producer_slot _ _ _ _ _ Hi Hok Hat) as (Hslot & Hlt & Ht & _).
  pose proof (ring_places _ _ _ Hi) as Hpl. unfold assigns, moves in Hpl. rewrite Hat in Hpl. simpl in Hpl.
  apply access_inv in Hacc as (_ & _ & Hh & _ & Ht' & Hne & Hle & Hlast & Hnow & Hv).
  rewrite Hslot in *. rewrite Ht in Ht', Hlast.
  destruct Hok as [? Hw ? Hr Hcl Hfull Hfree Hp Hc]. unfold assigns, moves in Hfull, Hfree.
  rewrite Hat in Hfull, Hfree. simpl in Hfull, Hfree.
  constructor; unfold assigns, moves; simpl; rewrite ?Hh; try done.
  - intros a t msg. rewrite Hh. intros Hm. etrans; [by eapply Hcl|done].
  - intros k Hk. destruct (decide (k = length (weak_pushed c))) as [-> |Hk']; [lia|].
    destruct (Hne (k mod cap)%nat) as [_ ->]; [apply mod_cap_distinct; [done|lia|lia]|]. apply Hfull. lia.
  - intros k Hk. destruct (Hne (k mod cap)%nat) as [_ ->];
      [apply not_eq_sym, mod_cap_distinct; [done|lia|lia]|]. apply Hfree. lia.
  - destruct Hp as (? & ? & ? & Hk1 & Hk2 & _). rewrite Hat in Hk1. simpl in Hk1.
    unfold producer_knows; simpl. rewrite Nat.add_0_r in Hk1. rewrite Nat.add_1_r.
    split_and!; [by apply Hv|etrans; [done|apply Hle]..| |by eapply knows_le|done].
    apply knows_S; [by eapply knows_le|lia].
  - by apply (consumer_knows_frame c).
Qed.

Lemma move_sync sr sw c read out x m v sz :
  ring_inv bits (abs sr sw c) → sync_ok sr sw c →
  at_ (weak_consumer c) = ConsumerMoving read →
  access (slot_index bits read) moved_from (ring_mem c) (view_ (weak_consumer c)) = Done (x, m, v) →
  sync_ok sr sw (with_memory m (with_consumer
    (mkThread (ConsumerPublishing read out) v (cached (weak_consumer c)) sz) c)).
Proof.
  intros Hi Hok Hat Hacc. destruct (consumer_slot _ _ _ _ Hi Hok Hat) as (Hslot & Hlt & Ht & _).
  pose proof (ring_places _ _ _ Hi) as Hpl. unfold assigns, moves in Hpl. rewrite Hat in Hpl. simpl in Hpl.
  apply access_inv in Hacc as (_ & _ & Hh & _ & Ht' & Hne & Hle & Hlast & Hnow & Hv).
  rewrite Hslot in *. rewrite Ht in Ht', Hlast.
  destruct Hok as [? Hw ? Hr Hcl Hfull Hfree Hp Hc]. unfold assigns, moves in Hfull, Hfree.
  rewrite Hat in Hfull, Hfree. simpl in Hfull, Hfree.
  constructor; unfold assigns, moves; simpl; rewrite ?Hh; try done.
  - intros a t msg. rewrite Hh. intros Hm. etrans; [by eapply Hcl|done].
  - intros k Hk. destruct (Hne (k mod cap)%nat) as [_ ->];
      [apply not_eq_sym, mod_cap_distinct; [done|lia|lia]|]. apply Hfull. lia.
  - intros k Hk. destruct (decide (k = length (weak_popped c) + cap)%nat) as [-> |Hk'].
    + destruct (round_shift (length (weak_popped c) + cap)) as [-> ->]; [lia|].
      rewrite Nat.add_sub. lia.
    + destruct (Hne (k mod cap)%nat) as [_ ->]; [|apply Hfree; lia].
      apply not_eq_sym, mod_cap_distinct; [done|lia|lia].
  - by apply (producer_knows_frame c).
  - destruct Hc as (? & ? & ? & Hk1 & Hk2 & _). rewrite Hat in Hk1. simpl in Hk1.
    unfold consumer_knows; simpl. rewrite Nat.add_0_r in Hk1. rewrite Nat.add_1_r.
    split_and!; [by apply Hv|etrans; [done|apply Hle]..| |by eapply knows_le|done].
    apply knows_S; [by eapply knows_le|lia].
Qed.

(** Publications. *)
Lemma publish_write_sync sr sw c write value sz st :
  ring_inv bits (abs sr sw c) → sync_ok sr sw c →
  at_ (weak_producer c) = ProducerPublishing write value →
  st = store release WritePos (u64 (write + 1)) (ring_mem c) (view_ (weak_producer c)) →
  sync_ok sr sw (mkWeakRing st.1 (mkThread ProducerIdle st.2 (cached (weak_producer c)) sz)
    (weak_consumer c) (weak_pushed c ++ [value]) (weak_popped c)).
Proof.
  intros Hi Hok Hat ->. pose proof (inv_producer _ _ Hi) as Hp'. simpl in Hp'. rewrite Hat in Hp'.
  destruct Hp' as (-> & _ & _). rewrite position_succ.
  destruct Hok as [Hwl Hw Hrl Hr Hcl Hfull Hfree Hp Hc]. unfold assigns, moves in Hfull, Hfree.
  rewrite Hat in Hfull, Hfree. destruct Hp as (Hv & Hw1 & Hr1 & Hk1 & Hk2 & _). rewrite Hat in Hk1.
  simpl in Hfull, Hfree, Hk1. pose proof (store_now release WritePos (position_of (S (length (weak_pushed c))))
    (ring_mem c) (view_ (weak_producer c))) as Hnow.
  destruct (store_closed release WritePos (position_of (S (length (weak_pushed c)))) _ _ Hcl Hv) as [Hcl' Hv'].
  destruct (store_view release WritePos (position_of (S (length (weak_pushed c)))) (ring_mem c)
    (view_ (weak_producer c))) as [Hle Hlast].
  constructor; unfold assigns, moves; cbn [ring_mem weak_producer weak_consumer weak_pushed weak_popped at_ assigned];
    rewrite ?length_app, ?Nat.add_0_r; try done.
  - rewrite store_history_eq, length_app, Hwl. simpl. lia.
  - rewrite store_history_eq. apply history_snoc; [done|]. rewrite Hwl. split; [done|].
    rewrite Nat.add_1_r in Hk1. by eapply knows_le.
  - unfold producer_knows. cbn [ring_mem weak_pushed view_ at_ assigned]. rewrite length_app, Nat.add_0_r.
    split_and!; [done| | |by eapply knows_le..|done]; [rewrite Hwl in Hlast; simpl in *; lia|].
    etrans; [done|apply Hle].
  - eapply consumer_knows_frame; [done|done|done|]. simpl. rewrite length_app. lia.
Qed.

Lemma publish_read_sync sr sw c read out sz st :
  ring_inv bits (abs sr sw c) → sync_ok sr sw c →
  at_ (weak_consumer c) = ConsumerPublishing read out →
  st = store release ReadPos (u64 (read + 1)) (ring_mem c) (view_ (weak_consumer c)) →
  sync_ok sr sw (mkWeakRing st.1 (weak_producer c)
    (mkThread ConsumerIdle st.2 (cached (weak_consumer c)) sz) (weak_pushed c) (weak_popped c ++ [out])).
Proof.
  intros Hi Hok Hat ->. pose proof (inv_consumer _ _ Hi) as Hp'. simpl in Hp'. rewrite Hat in Hp'.
  destruct Hp' as (-> & _ & _). rewrite position_succ.
  destruct Hok as [Hwl Hw Hrl Hr Hcl Hfull Hfree Hp Hc]. unfold assigns, moves in Hfull, Hfree.
  rewrite Hat in Hfull, Hfree. destruct Hc as (Hv & Hw1 & Hr1 & Hk1 & Hk2 & _). rewrite Hat in Hk1.
  simpl in Hfull, Hfree, Hk1. pose proof (store_now release ReadPos (position_of (S (length (weak_popped c))))
    (ring_mem c) (view_ (weak_consumer c))) as Hnow.
  destruct (store_closed release ReadPos (position_of (S (length (weak_popped c)))) _ _ Hcl Hv) as [Hcl' Hv'].
  destruct (store_view release ReadPos (position_of (S (length (weak_popped c)))) (ring_mem c)
    (view_ (weak_consumer c))) as [Hle Hlast].
  constructor; unfold assigns, moves; cbn [ring_mem weak_producer weak_consumer weak_pushed weak_popped at_ moved];
    rewrite ?length_app, ?Nat.add_0_r; try done.
  - rewrite store_history_eq, length_app, Hrl. simpl. lia.
  - rewrite store_history_eq. apply history_snoc; [done|]. rewrite Hrl. split; [done|].
    rewrite Nat.add_1_r in Hk1. by eapply knows_le.
  - by eapply producer_knows_frame.
  - unfold consumer_knows. cbn [ring_mem weak_popped weak_pushed view_ at_ moved]. rewrite length_app, Nat.add_0_r.
    split_and!; [done| | |by eapply knows_le..|done]; [rewrite Hrl in Hlast; simpl in *; lia|].
    etrans; [done|apply Hle].
Qed.

(** ** Simulation *)

(** A step of the weak ring is a step of the interleaving semantics, or none. *)
Definition simulates (sr sw : nat) (c : WeakRing T) (ev : event T) (c' : WeakRing T) : Prop :=
  ∃ sr' sw', sync_ok sr' sw' c' ∧
    ((ev = internal ∧ abs sr' sw' c' = abs sr sw c) ∨ step (abs sr sw c) ev (abs sr' sw' c')).

Lemma push_simulates sr sw c value t ev c' :
  ring_inv bits (abs sr sw c) → sync_ok sr sw c →
  producer_push bits source_ring_orders value t c = Done (ev, c') → simulates sr sw c ev c'.
Proof.
  intros Hi Hok. unfold producer_push. destruct (at_ (weak_producer c)) eqn:Hat; [|done..].
  intros ([write v] & Hl & [= <- <-])%outcome_bind_done.
  pose proof (ring_places _ _ _ Hi) as Hpl. pose proof (ok_producer _ _ _ Hok) as Hp.
  destruct (load_write _ _ _ _ _ _ _ _ Hok Hl) as (Ht & -> & Hle & _ & _ & Hnow).
  pose proof Hp as (Hv & Hw & Hr & _ & Hk2 & _). replace t with (length (weak_pushed c)) in * by lia.
  exists sr, sw. destruct (full_for bits _ _) eqn:Hf.
  - split; [|left; split; [done|]; unfold abs; simpl; by rewrite Hat].
    apply (producer_moves sr); [done|by rewrite Hat|].
    eapply producer_knows_le; [done|done|by apply Hnow|by rewrite Hat| |by eapply knows_le|done].
    etrans; [done|apply Hle].
  - split.
    + apply (producer_moves sr); [done|by rewrite Hat|].
      eapply producer_knows_le; [done|done|by apply Hnow|by rewrite Hat| |by eapply knows_le|done].
      etrans; [done|apply Hle].
    + right. unfold abs; simpl. rewrite Hat.
      set (r := mkRing _ _ _ _ _). assert (Hlf : looks_full bits r = false) by exact Hf.
      pose proof (step_push_reserve bits moved_from r (abs_consumer (at_ (weak_consumer c)))
        (weak_pushed c) (weak_popped c) sr sw sr value (position_of (length (weak_pushed c))) r) as Hs.
      rewrite Hlf in Hs. apply Hs; [lia|]. unfold reserve_write. by rewrite Hlf.
Qed.

Lemma refresh_read_simulates sr sw c write value t ev c' :
  ring_inv bits (abs sr sw c) → sync_ok sr sw c →
  at_ (weak_producer c) = ProducerRefreshing write value →
  producer_step bits source_ring_orders t c = Done (ev, c') → simulates sr sw c ev c'.
Proof.
  intros Hi Hok Hat. unfold producer_step. rewrite Hat.
  intros ([read v] & Hl & Hc')%outcome_bind_done.
  destruct (load_read _ _ _ _ _ _ _ _ Hok Hl) as (Ht & -> & Hle & Ht' & Hacq & Hnow).
  pose proof (ok_producer _ _ _ Hok) as Hp. pose proof Hp as (Hv & _ & Hr & _ & _ & Hpc).
  rewrite Hat in Hpc. destruct Hpc as [-> Hfull].
  set (r := ring (abs sr sw c)). assert (Hlf : looks_full bits r = true) by exact Hfull.
  exists t, sw. destruct (full_for bits _ (position_of t)) eqn:Hf; simplify_eq;
    (split; [apply (producer_moves sr); [done|by rewrite Hat|];
             eapply producer_knows_le; [done|done|by apply Hnow|by rewrite Hat|done|by apply Hacq|done]|]);
    right; unfold abs; simpl; rewrite Hat; simpl.
  - apply (step_push_full bits moved_from r); [lia|]. unfold reserve_write. rewrite Hlf.
    change (looks_full bits (with_cached_read (position_of t) r)) with
      (full_for bits (position_of (length (weak_pushed c))) (position_of t)). by rewrite Hf.
  - pose proof (step_push_reserve bits moved_from r (abs_consumer (at_ (weak_consumer c)))
      (weak_pushed c) (weak_popped c) sr sw t value (position_of (length (weak_pushed c)))
      (with_cached_read (position_of t) r)) as Hs.
    rewrite Hlf in Hs. apply Hs; [lia|]. unfold reserve_write. rewrite Hlf.
    change (looks_full bits (with_cached_read (position_of t) r)) with
      (full_for bits (position_of (length (weak_pushed c))) (position_of t)). by rewrite Hf.
Qed.

Lemma producer_simulates sr sw c t ev c' :
  ring_inv bits (abs sr sw c) → sync_ok sr sw c →
  producer_step bits source_ring_orders t c = Done (ev, c') → simulates sr sw c ev c'.
Proof.
  intros Hi Hok Hstep. pose proof (ok_producer _ _ _ Hok) as Hp. pose proof Hp as (Hv & Hw & Hr & _ & Hk2 & Hpc).
  destruct (at_ (weak_producer c)) as [|write value|write value|write value| |write] eqn:Hat.
  - unfold producer_step in Hstep. by rewrite Hat in Hstep.
  - by eapply refresh_read_simulates.
  - unfold producer_step in Hstep. rewrite Hat in Hstep.
    apply outcome_bind_done in Hstep as ([[x m] v] & Hacc & [= <- <-]). exists sr, sw.
    split; [by eapply assign_sync|]. right. unfold abs; simpl. rewrite Hat; simpl.
    apply access_inv in Hacc as (_ & _ & _ & Hd & _ & Hne & _).
    rewrite (abs_slots_update (data (ring_mem c)) (data m) (slot_index bits write) value);
      [|done|intros j Hj; by apply Hne].
    apply (step_push_assign bits moved_from (ring (abs sr sw c))).
  - pose proof (inv_producer _ _ Hi) as Hpo. simpl in Hpo. rewrite Hat in Hpo. destruct Hpo as (Hwr & _).
    unfold producer_step in Hstep. rewrite Hat in Hstep.
    destruct (store _ _ _ _ _) as [m v] eqn:Hst. simplify_eq. exists sr, sw.
    split; [exact (publish_write_sync sr sw c _ value _ (m, v) Hi Hok Hat (eq_sym Hst))|]. right.
    pose proof (f_equal (λ st, data st.1) Hst) as Hd. simpl in Hd.
    unfold abs; simpl. rewrite <- Hd, Hat, length_app, Nat.add_1_r, <- position_succ; simpl.
    apply (step_push_publish bits moved_from (ring (abs sr sw c))).
  - unfold producer_step in Hstep. rewrite Hat in Hstep.
    apply outcome_bind_done in Hstep as ([write v] & Hl & [= <- <-]).
    destruct (load_write _ _ _ _ _ _ _ _ Hok Hl) as (Ht & -> & Hle & _ & _ & Hnow).
    exists sr, sw. split; [|left; split; [done|]; unfold abs; simpl; by rewrite Hat].
    apply (producer_moves sr); [done|by rewrite Hat|].
    eapply producer_knows_le; [done|done|by apply Hnow|by rewrite Hat| |by eapply knows_le|].
    + etrans; [done|apply Hle].
    + f_equal. lia.
  - unfold producer_step in Hstep. rewrite Hat in Hstep.
    apply outcome_bind_done in Hstep as ([read v] & Hl & [= <- <-]).
    destruct (load_read _ _ _ _ _ _ _ _ Hok Hl) as (Ht & -> & Hle & _ & _ & Hnow).
    exists sr, sw. split; [|left; split; [done|]; unfold abs; simpl; by rewrite Hat].
    apply (producer_moves sr); [done|by rewrite Hat|].
    eapply producer_knows_le; [done|done|by apply Hnow|by rewrite Hat| |by eapply knows_le|done].
    etrans; [done|apply Hle].
Qed.

Lemma pop_simulates sr sw c t ev c' :
  ring_inv bits (abs sr sw c) → sync_ok sr sw c →
  consumer_pop source_ring_orders t c = Done (ev, c') → simulates sr sw c ev c'.
Proof.
  intros Hi Hok. unfold consumer_pop. destruct (at_ (weak_consumer c)) eqn:Hat; [|done..].
  intros ([read v] & Hl & [= <- <-])%outcome_bind_done.
  pose proof (ring_places _ _ _ Hi) as Hpl. pose proof (ok_consumer _ _ _ Hok) as Hp.
  destruct (load_read _ _ _ _ _ _ _ _ Hok Hl) as (Ht & -> & Hle & _ & _ & Hnow).
  pose proof Hp as (Hv & Hw & Hr & _ & Hk2 & _). replace t with (length (weak_popped c)) in * by lia.
  exists sr, sw. destruct (Z.eqb_spec (position_of (length (weak_popped c))) (cached (weak_consumer c))) as [He|He].
  - split; [|left; split; [done|]; unfold abs; simpl; by rewrite Hat].
    apply (consumer_moves sr sw); [done|by rewrite Hat|].
    eapply consumer_knows_le; [done|done|by apply Hnow|by rewrite Hat| |by eapply knows_le|done].
    etrans; [done|apply Hle].
  - split.
    + apply (consumer_moves sr sw); [done|by rewrite Hat|].
      eapply consumer_knows_le; [done|done|by apply Hnow|by rewrite Hat| |by eapply knows_le|done].
      etrans; [done|apply Hle].
    + right. unfold abs; simpl. rewrite Hat.
      set (r := mkRing _ _ _ _ _). assert (Hlf : looks_empty r = false) by (by apply Z.eqb_neq).
      pose proof (step_pop_reserve bits moved_from r (abs_producer (at_ (weak_producer c)))
        (weak_pushed c) (weak_popped c) sr sw sw (position_of (length (weak_popped c))) r) as Hs.
      rewrite Hlf in Hs. apply Hs; [lia|]. unfold reserve_read. by rewrite Hlf.
Qed.

Lemma refresh_write_simulates sr sw c read t ev c' :
  ring_inv bits (abs sr sw c) → sync_ok sr sw c →
  at_ (weak_consumer c) = ConsumerRefreshing read →
  consumer_step bits moved_from source_ring_orders t c = Done (ev, c') → simulates sr sw c ev c'.
Proof.
  intros Hi Hok Hat. unfold consumer_step. rewrite Hat.
  intros ([write v] & Hl & Hc')%outcome_bind_done.
  destruct (load_write _ _ _ _ _ _ _ _ Hok Hl) as (Ht & -> & Hle & Ht' & Hacq & Hnow).
  pose proof (ok_consumer _ _ _ Hok) as Hp. pose proof Hp as (Hv & _ & Hr & _ & _ & Hpc).
  rewrite Hat in Hpc. destruct Hpc as [-> Hempty].
  set (r := ring (abs sr sw c)). assert (Hlf : looks_empty r = true) by (by apply Z.eqb_eq).
  exists sr, t. destruct (position_of (length (weak_popped c)) =? position_of t) eqn:Hf; simplify_eq;
    (split; [apply (consumer_moves sr sw); [done|by rewrite Hat|];
             eapply consumer_knows_le; [done|done|by apply Hnow|by rewrite Hat|done|by apply Hacq|done]|]);
    right; unfold abs; simpl; rewrite Hat; simpl.
  - apply (step_pop_empty bits moved_from r); [lia|]. unfold reserve_read. rewrite Hlf.
    change (looks_empty (with_cached_write (position_of t) r)) with
      (position_of (length (weak_popped c)) =? position_of t). by rewrite Hf.
  - pose proof (step_pop_reserve bits moved_from r (abs_producer (at_ (weak_producer c)))
      (weak_pushed c) (weak_popped c) sr sw t (position_of (length (weak_popped c)))
      (with_cached_write (position_of t) r)) as Hs.
    rewrite Hlf in Hs. apply Hs; [lia|]. unfold reserve_read. rewrite Hlf.
    change (looks_empty (with_cached_write (position_of t) r)) with
      (position_of (length (weak_popped c)) =? position_of t). by rewrite Hf.
Qed.

Lemma consumer_simulates sr sw c t ev c' :
  ring_inv bits (abs sr sw c) → sync_ok sr sw c →
  consumer_step bits moved_from source_ring_orders t c = Done (ev, c') → simulates sr sw c ev c'.
Proof.
  intros Hi Hok Hstep. pose proof (ok_consumer _ _ _ Hok) as Hp. pose proof Hp as (Hv & Hw & Hr & _ & Hk2 & Hpc).
  destruct (at_ (weak_consumer c)) as [|read|read|read out| |write] eqn:Hat.
  - unfold consumer_step in Hstep. by rewrite Hat in Hstep.
  - by eapply refresh_write_simulates.
  - destruct (consumer_slot _ _ _ _ Hi Hok Hat) as (Hslot & _).
    unfold consumer_step in Hstep. rewrite Hat in Hstep.
    apply outcome_bind_done in Hstep as ([[x m] v] & Hacc & [= <- <-]). exists sr, sw.
    split; [by eapply move_sync|]. right. unfold abs; simpl. rewrite Hat; simpl.
    apply access_inv in Hacc as (_ & -> & _ & Hd & _ & Hne & _).
    rewrite (abs_slots_update (data (ring_mem c)) (data m) (slot_index bits read)
      (moved_from (data (ring_mem c) (slot_index bits read)))); [|done|intros j Hj; by apply Hne].
    apply (step_pop_move bits moved_from (ring (abs sr sw c))). unfold move_slot. simpl.
    rewrite abs_slots_lookup; [done|]. rewrite Hslot. apply Nat.mod_upper_bound.
    pose proof (cap_pos bits Hbits). lia.
  - pose proof (inv_consumer _ _ Hi) as Hpo. simpl in Hpo. rewrite Hat in Hpo. destruct Hpo as (Hwr & _).
    unfold consumer_step in Hstep. rewrite Hat in Hstep.
    destruct (store _ _ _ _ _) as [m v] eqn:Hst. simplify_eq. exists sr, sw.
    split; [exact (publish_read_sync sr sw c _ out _ (m, v) Hi Hok Hat (eq_sym Hst))|]. right.
    pose proof (f_equal (λ st, data st.1) Hst) as Hd. simpl in Hd.
    unfold abs; simpl. rewrite <- Hd, Hat, length_app, Nat.add_1_r, <- position_succ; simpl.
    apply (step_pop_publish bits moved_from (ring (abs sr sw c))).
  - unfold consumer_step in Hstep. rewrite Hat in Hstep.
    apply outcome_bind_done in Hstep as ([write v] & Hl & [= <- <-]).
    destruct (load_write _ _ _ _ _ _ _ _ Hok Hl) as (Ht & -> & Hle & _ & _ & Hnow).
    exists sr, sw. split; [|left; split; [done|]; unfold abs; simpl; by rewrite Hat].
    apply (consumer_moves sr sw); [done|by rewrite Hat|].
    eapply consumer_knows_le; [done|done|by apply Hnow|by rewrite Hat| |by eapply knows_le|].
    + etrans; [done|apply Hle].
    + exists t. split; [done|lia].
  - unfold consumer_step in Hstep. rewrite Hat in Hstep.
    apply outcome_bind_done in Hstep as ([read v] & Hl & [= <- <-]).
    destruct (load_read _ _ _ _ _ _ _ _ Hok Hl) as (Ht & -> & Hle & _ & _ & Hnow).
    exists sr, sw. split; [|left; split; [done|]; unfold abs; simpl; by rewrite Hat].
    apply (consumer_moves sr sw); [done|by rewrite Hat|].
    eapply consumer_knows_le; [done|done|by apply Hnow|by rewrite Hat| |by eapply knows_le|done].
    etrans; [done|apply Hle].
Qed.

Lemma step_simulates sr sw c e ev c' :
  ring_inv bits (abs sr sw c) → sync_ok sr sw c → weak_ring_step e c = Done (ev, c') →
  simulates sr sw c ev c'.
Proof.
  intros Hi Hok. destruct e as [value t| |t|t| |t]; simpl.
  - by apply push_simulates.
  - unfold producer_size. destruct (at_ (weak_producer c)) eqn:Hat; [|done..]. intros [= <- <-].
    exists sr, sw. split; [|left; split; [done|]; unfold abs; simpl; by rewrite Hat].
    pose proof (ok_producer _ _ _ Hok) as Hp. pose proof Hp as (? & ? & ? & ? & ? & _).
    apply (producer_moves sr); [done|by rewrite Hat|].
    eapply producer_knows_le; try done. by rewrite Hat.
  - by apply producer_simulates.
  - by apply pop_simulates.
  - unfold consumer_size. destruct (at_ (weak_consumer c)) eqn:Hat; [|done..]. intros [= <- <-].
    exists sr, sw. split; [|left; split; [done|]; unfold abs; simpl; by rewrite Hat].
    pose proof (ok_consumer _ _ _ Hok) as Hp. pose proof Hp as (? & ? & ? & ? & ? & _).
    apply (consumer_moves sr sw); [done|by rewrite Hat|].
    eapply consumer_knows_le; try done. by rewrite Hat.
  - by apply consumer_simulates.
Qed.

(** ** Sizes *)

Definition size_ok (size : Z) : Prop := 0 ≤ size ≤ Capacity bits.
Definition sizes_ok (c : WeakRing T) : Prop :=
  Forall size_ok (sizes (weak_producer c)) ∧ Forall size_ok (sizes (weak_consumer c)).

Lemma size_ok_positions w r : (r ≤ w ≤ r + cap)%nat → size_ok (sizeApprox (position_of w) (position_of r)).
Proof.
  intros H. pose proof (Capacity_bounds bits Hbits). unfold size_ok, sizeApprox.
  rewrite position_distance by lia. lia.
Qed.

Lemma producer_sizes_ok sr sw c t ev c' :
  ring_inv bits (abs sr sw c) → sync_ok sr sw c → sizes_ok c →
  producer_step bits source_ring_orders t c = Done (ev, c') → sizes_ok c'.
Proof.
  intros Hi Hok [Hp Hc]. pose proof (ring_places _ _ _ Hi) as Hpl.
  destruct (ok_producer _ _ _ Hok) as (_ & _ & Hr & _ & _ & Hpc). unfold producer_step.
  destruct (at_ (weak_producer c)) as [|write value|write value|write value| |write] eqn:Hat; [done|..].
  - intros ([read v] & _ & Hx)%outcome_bind_done. by destruct (full_for bits write read); simplify_eq.
  - by intros ([[x m] v] & _ & [= <- <-])%outcome_bind_done.
  - destruct (store _ _ _ _ _). by intros [= <- <-].
  - by intros ([x v] & _ & [= <- <-])%outcome_bind_done.
  - intros ([read v] & Hl & [= <- <-])%outcome_bind_done.
    destruct (load_read _ _ _ _ _ _ _ _ Hok Hl) as (Ht & -> & _). subst write.
    split; [|done]. constructor; [|done]. apply size_ok_positions. lia.
Qed.

Lemma consumer_sizes_ok sr sw c t ev c' :
  ring_inv bits (abs sr sw c) → sync_ok sr sw c → sizes_ok c →
  consumer_step bits moved_from source_ring_orders t c = Done (ev, c') → sizes_ok c'.
Proof.
  intros Hi Hok [Hp Hc]. pose proof (ring_places _ _ _ Hi) as Hpl.
  destruct (ok_consumer _ _ _ Hok) as (_ & Hr & _ & _ & _ & Hpc). unfold consumer_step.
  destruct (at_ (weak_consumer c)) as [|read|read|read out| |write] eqn:Hat; [done|..].
  - intros ([write v] & _ & Hx)%outcome_bind_done. by destruct (read =? write); simplify_eq.
  - by intros ([[x m] v] & _ & [= <- <-])%outcome_bind_done.
  - destruct (store _ _ _ _ _). by intros [= <- <-].
  - by intros ([x v] & _ & [= <- <-])%outcome_bind_done.
  - intros ([read v] & Hl & [= <- <-])%outcome_bind_done.
    destruct (load_read _ _ _ _ _ _ _ _ Hok Hl) as (Ht & -> & _). destruct Hpc as (w & -> & Hw).
    split; [done|]. constructor; [|done]. apply size_ok_positions. lia.
Qed.

Lemma sizes_ok_step sr sw c e ev c' :
  ring_inv bits (abs sr sw c) → sync_ok sr sw c → sizes_ok c →
  weak_ring_step e c = Done (ev, c') → sizes_ok c'.
Proof.
  intros Hi Hok Hs. destruct e as [value t| |t|t| |t]; simpl.
  - unfold producer_push. destruct (at_ _); [|done..].
    by intros ([write v] & _ & [= <- <-])%outcome_bind_done.
  - unfold producer_size. destruct (at_ _); [|done..]. by intros [= <- <-].
  - by eapply producer_sizes_ok.
  - unfold consumer_pop. destruct (at_ _); [|done..].
    by intros ([read v] & _ & [= <- <-])%outcome_bind_done.
  - unfold consumer_size. destruct (at_ _); [|done..]. by intros [= <- <-].
  - by eapply consumer_sizes_ok.
Qed.

(** ** Whole schedules *)

Definition weak_ring_ok (c : WeakRing T) : Prop :=
  ∃ sr sw, ring_inv bits (abs sr sw c) ∧ sync_ok sr sw c ∧ sizes_ok c.

Lemma weak_ring_ok_init default : weak_ring_ok (weak_ring_init default).
Proof.
  exists 0%nat, 0%nat. split; [|split; [by apply sync_ok_init|by split; constructor]].
  pose proof (ring_inv_new bits Hbits default) as Hi. unfold newSystem, newRing in Hi.
  replace (replicate cap default) with (abs_slots (λ _, default)) in Hi; [done|].
  apply list_eq. intros i. destruct (decide (i < cap)%nat) as [Hlt|Hge].
  - by rewrite abs_slots_lookup, lookup_replicate_2.
  - rewrite !lookup_ge_None_2; [done|..]; unfold abs_slots;
      rewrite ?length_replicate, ?length_map, ?length_seq; lia.
Qed.

Lemma weak_ring_ok_step c e ev c' :
  weak_ring_ok c → weak_ring_step e c = Done (ev, c') → weak_ring_ok c'.
Proof.
  intros (sr & sw & Hi & Hok & Hs) Hstep.
  destruct (step_simulates _ _ _ _ _ _ Hi Hok Hstep) as (sr' & sw' & Hok' & Hsim).
  exists sr', sw'. split_and!; [|done|by eapply sizes_ok_step].
  destruct Hsim as [[_ ->]|Hst]; [done|]. by eapply step_inv.
Qed.

Lemma weak_ring_ok_run schedule c c' :
  weak_ring_ok c → weak_ring_run schedule c = Done c' → weak_ring_ok c'.
Proof.
  revert c; induction schedule as [|e schedule IH]; intros c Hc; simpl; [by intros [= <-]|].
  intros ([ev c1] & Hs & Hr)%outcome_bind_done. eapply IH; [|done]. by eapply weak_ring_ok_step.
Qed.

(** No access to a slot is a race. *)
Lemma weak_ring_no_race c e : weak_ring_ok c → weak_ring_step e c ≠ Race.
Proof.
  intros (sr & sw & Hi & Hok & _).
  assert (Hload : ∀ {A D V X} `{!EqDecision A, !EqDecision D} o (a : A) t (m : memory A D V) v
    (f : Z * view A D → outcome X), (∀ x, f x ≠ Race) → outcome_bind (load o a t m v) f ≠ Race).
  { intros * Hf. unfold load. destruct (decide _); [|done]. destruct (_ !! _); [apply Hf|done]. }
  destruct e as [value t| |t|t| |t]; simpl.
  - unfold producer_push. destruct (at_ _); try done. by apply Hload; intros [].
  - unfold producer_size. by destruct (at_ _).
  - unfold producer_step. destruct (at_ (weak_producer c)) eqn:Hat; try done;
      try (apply Hload; intros []; try done; by destruct (full_for _ _ _)).
    + destruct (producer_slot _ _ _ _ _ Hi Hok Hat) as (_ & _ & _ & Hle).
      destruct (ok_producer _ _ _ Hok) as (Hv & _).
      by destruct (access_ordered _ (λ _, value) _ _ Hle Hv) as [[[? ?] ?] ->].
  - unfold consumer_pop. destruct (at_ _); try done. by apply Hload; intros [].
  - unfold consumer_size. by destruct (at_ _).
  - unfold consumer_step. destruct (at_ (weak_consumer c)) eqn:Hat; try done;
      try (apply Hload; intros []; try done; by destruct (_ =? _)).
    + destruct (consumer_slot _ _ _ _ Hi Hok Hat) as (_ & _ & _ & Hle).
      destruct (ok_consumer _ _ _ Hok) as (Hv & _).
      by destruct (access_ordered _ moved_from _ _ Hle Hv) as [[[? ?] ?] ->].
Qed.

(** What is in the ring. *)
Definition weak_content (c : WeakRing T) : list T := drop (length (weak_popped c)) (weak_pushed c).

(** C32: The ring is a race-free bounded FIFO queue under the memory orders of
    the source. After any schedule of the two threads' accesses, each load
    returning any store that release and acquire ordering permits, the next
    access of either thread is never a data race on a slot, and whatever it is,
    it is a step of the bounded FIFO queue; what was popped followed by what is
    in the ring is what was pushed, at most the capacity is in the ring, and
    every size that [sizeApprox] reports to either thread is between zero and
    the capacity. *)
Theorem weak_ring_fifo default schedule c e :
  weak_ring_run schedule (weak_ring_init default) = Done c →
  weak_ring_step e c ≠ Race ∧
  ∀ ev c', weak_ring_step e c = Done (ev, c') →
    fifo_step bits (length (weak_popped c)) (weak_content c) ev (weak_content c') ∧
    weak_pushed c' = weak_popped c' ++ weak_content c' ∧ (length (weak_content c') ≤ cap)%nat ∧
    Forall (λ size, 0 ≤ size ≤ Capacity bits) (sizes (weak_producer c') ++ sizes (weak_consumer c')).
Proof.
  intros Hrun. pose proof (weak_ring_ok_run _ _ _ (weak_ring_ok_init default) Hrun) as Hc.
  split; [by apply weak_ring_no_race|]. intros ev c' Hstep.
  destruct (weak_ring_ok_step _ _ _ _ Hc Hstep) as (sr' & sw' & Hi' & _ & [Hs1 Hs2]).
  destruct Hc as (sr & sw & Hi & Hok & _). split_and!.
  - destruct (step_simulates _ _ _ _ _ _ Hi Hok Hstep) as (sr1 & sw1 & _ & [[-> Habs]|Hst]).
    + apply (f_equal (content (T := T))) in Habs. unfold content in Habs. simpl in Habs.
      unfold weak_content. rewrite Habs. constructor.
    + exact (step_fifo bits moved_from Hbits _ _ _ Hi Hst).
  - unfold weak_content. rewrite <- (take_drop (length (weak_popped c')) (weak_pushed c')) at 1.
    f_equal. symmetry. exact (inv_prefix _ _ Hi').
  - unfold weak_content. rewrite length_drop. pose proof (ring_places _ _ _ Hi'). lia.
  - by apply Forall_app_2.
Qed.

End Safety.

(** ** What the release order of the publication is for *)

(** One push, and a pop that is about to move the value out. *)
Definition handover_schedule : list (ring_event Z) :=
  [ProducerPushes 7 0; ProducerSteps 0; ProducerSteps 0; ConsumerPops 0; ConsumerSteps 1].

Definition relaxed_publish_orders : ring_orders := RingOrders relaxed acquire relaxed acquire.

(** With a relaxed publication the consumer learns the position and not the
    slot behind it: its access is a data race. *)
Example relaxed_publish_races :
  weak_ring_run 1 (λ _, 0) relaxed_publish_orders (handover_schedule ++ [ConsumerSteps 0])
    (weak_ring_init 0) = Race.
Proof. vm_compute. reflexivity. Qed.

(** ** An instance *)

(** The handover, the producer's own size, and the move. *)
Definition handover_config : WeakRing Z :=
  done_or (weak_ring_init 0)
    (weak_ring_run 1 (λ _, 0) source_ring_orders
       (handover_schedule ++ [ProducerSizes; ProducerSteps 1; ProducerSteps 0; ConsumerSteps 0])
       (weak_ring_init 0)).

Lemma weak_ring_fifo_witness :
  weak_content handover_config = [7] ∧ sizes (weak_producer handover_config) = [1] ∧
  ∃ c', weak_ring_step 1 (λ _, 0) source_ring_orders (ConsumerSteps 0) handover_config =
      Done (pop_done 7, c') ∧
    fifo_step 1 0 (weak_content handover_config) (pop_done 7) (weak_content c').
Proof.
  split; [vm_compute; reflexivity|]. split; [vm_compute; reflexivity|].
  destruct (weak_ring_step 1 (λ _, 0) source_ring_orders (ConsumerSteps 0) handover_config)
    as [[ev c']| |] eqn:Hs; [|vm_compute in Hs; discriminate Hs..].
  destruct (weak_ring_fifo 1 (λ _, 0) ltac:(lia) 0
    (handover_schedule ++ [ProducerSizes; ProducerSteps 1; ProducerSteps 0; ConsumerSteps 0])
    handover_config (ConsumerSteps 0)) as [_ Hf]; [apply is_done_or; vm_compute; reflexivity|].
  destruct (Hf ev c' Hs) as (Hstep & _).
  assert (Hev : ev = pop_done 7).
  { apply (f_equal (λ o, fst (done_or (internal, c') o))) in Hs. vm_compute in Hs. congruence. }
  subst ev. exists c'. split; [reflexivity|exact Hstep].
Defined.
