(* ===== verification/SnapshotLayout.v ===== *)
(** * The snapshot in memory

    How [RuntimeSnapshot] travels through the seqlock slot: its object
    representation on the targets the project builds for (little-endian, natural
    alignment, [src/include/safeedge/edge/runtime_snapshot.hpp]), the two
    [memcpy] calls of [src/include/safeedge/ipc/seqlock_slot.hpp], and, with the
    theorems of [SeqlockWeakSafety], what the readers of the published snapshots
    see. Padding bytes hold anything. *)

From stdpp Require Import base numbers list option.
From S2P Require Import Prelude Seqlock Snapshot WeakMemory SeqlockWeak SeqlockWeakSafety.

(** ** Layout *)

(** The members in order, each with its size in bytes; [p1] and [p2] are the
    padding before the 8-byte members that follow a lone 4-byte one. *)
Definition members (p1 p2 : Z) (s : Edge.RuntimeSnapshot) : list (nat * Z) :=
  [(8%nat, Edge.cycles_executed s); (8%nat, Edge.overruns s); (8%nat, Edge.skipped_cycles s);
   (8%nat, Edge.allocation_violations s); (8%nat, Edge.jitter_p50_ns s); (8%nat, Edge.jitter_p99_ns s);
   (8%nat, Edge.jitter_p999_ns s); (8%nat, Edge.jitter_max_ns s); (8%nat, Edge.execution_p50_ns s);
   (8%nat, Edge.execution_p99_ns s); (8%nat, Edge.execution_max_ns s);
   (4%nat, Edge.safety_state s); (4%nat, Edge.fault_reason s); (4%nat, Edge.torque_permitted s);
   (4%nat, Edge.fault_latched s); (8%nat, Edge.safety_transition_monotonic_ns s);
   (8%nat, Edge.safety_sequence s); (8%nat, Edge.safety_state_age_ns s);
   (4%nat, Edge.estop_asserted s); (4%nat, p1); (8%nat, Edge.telegrams_accepted s);
   (8%nat, Edge.telegrams_rejected s); (4%nat, Edge.realtime_scheduling_granted s); (4%nat, p2);
   (8%nat, Edge.uptime_ns s)].

Fixpoint represent (items : list (nat * Z)) : list Z :=
  match items with
  | [] => []
  | (width, value) :: items => le_bytes width value ++ represent items
  end.

Definition size_of_snapshot : nat := 168.

(** The object representation. *)
Definition to_bytes (p1 p2 : Z) (s : Edge.RuntimeSnapshot) : list Z := represent (members p1 p2 s).

Definition read_at (bytes : list Z) (offset width : nat) : Z :=
  le_value (take width (drop offset bytes)).

(** Reading the members of a snapshot object. *)
Definition of_bytes (b : list Z) : Edge.RuntimeSnapshot :=
  Edge.mkSnapshot
    (read_at b 0 8) (read_at b 8 8) (read_at b 16 8) (read_at b 24 8)
    (i64 (read_at b 32 8)) (i64 (read_at b 40 8)) (i64 (read_at b 48 8)) (i64 (read_at b 56 8))
    (i64 (read_at b 64 8)) (i64 (read_at b 72 8)) (i64 (read_at b 80 8))
    (read_at b 88 4) (read_at b 92 4) (read_at b 96 4) (read_at b 100 4)
    (read_at b 104 8) (read_at b 112 8) (read_at b 120 8) (read_at b 128 4)
    (read_at b 136 8) (read_at b 144 8) (read_at b 152 4) (i64 (read_at b 160 8)).

(** Every member holds a value of its type. *)
Definition snapshot_ok (s : Edge.RuntimeSnapshot) : Prop :=
  Forall is_u64 [Edge.cycles_executed s; Edge.overruns s; Edge.skipped_cycles s;
    Edge.allocation_violations s; Edge.safety_transition_monotonic_ns s; Edge.safety_sequence s;
    Edge.safety_state_age_ns s; Edge.telegrams_accepted s; Edge.telegrams_rejected s] ∧
  Forall is_i64 [Edge.jitter_p50_ns s; Edge.jitter_p99_ns s; Edge.jitter_p999_ns s; Edge.jitter_max_ns s;
    Edge.execution_p50_ns s; Edge.execution_p99_ns s; Edge.execution_max_ns s; Edge.uptime_ns s] ∧
  Forall is_u32 [Edge.safety_state s; Edge.fault_reason s; Edge.torque_permitted s; Edge.fault_latched s;
    Edge.estop_asserted s; Edge.realtime_scheduling_granted s].

#[export] Instance snapshot_ok_dec s : Decision (snapshot_ok s).
Proof. unfold snapshot_ok. apply _. Defined.

(** ** Round trip *)

Definition offset_of (items : list (nat * Z)) (k : nat) : nat := sum_list (take k items.*1).

Lemma length_represent items : length (represent items) = sum_list items.*1.
Proof.
  induction items as [|[w v] items IH]; [done|].
  simpl. by rewrite length_app, length_le_bytes, IH.
Qed.

(** A member is found at its offset. *)
Lemma read_member items k width value :
  items !! k = Some (width, value) →
  read_at (represent items) (offset_of items k) width = unsigned_wrap (8 * Z.of_nat width) value.
Proof.
  unfold read_at, offset_of. revert k. induction items as [|[w v] items IH]; intros [|k] Hk; simplify_eq/=.
  - rewrite drop_0, take_app_le by (rewrite length_le_bytes; lia).
    rewrite take_ge by (rewrite length_le_bytes; lia). apply le_value_bytes.
  - rewrite drop_app_ge by (rewrite length_le_bytes; lia).
    rewrite length_le_bytes, Nat.add_sub_swap, Nat.sub_diag by lia. simpl. by apply IH.
Qed.

Lemma represent_range items : Forall is_u8 (represent items).
Proof.
  induction items as [|[w v] items IH]; simpl; [constructor|].
  apply Forall_app_2; [apply le_bytes_range|done].
Qed.

Lemma to_bytes_well_sized p1 p2 s : well_sized size_of_snapshot (to_bytes p1 p2 s).
Proof. split; [by unfold to_bytes; rewrite length_represent|apply represent_range]. Qed.

Lemma i64_u64 x : is_i64 x → i64 (u64 x) = x.
Proof.
  intros Hx. rewrite <- (signed_wrap_id 64 x) at 2 by done.
  unfold signed_wrap, unsigned_wrap. by rewrite Zplus_mod_idemp_l.
Qed.

(** Reading member number [k]. *)
Lemma read_unsigned p1 p2 s k offset width value :
  members p1 p2 s !! k = Some (width, value) → offset_of (members p1 p2 s) k = offset →
  in_unsigned (8 * Z.of_nat width) value → read_at (to_bytes p1 p2 s) offset width = value.
Proof.
  intros Hk <- Hv. unfold to_bytes. rewrite (read_member _ _ _ _ Hk). by apply unsigned_wrap_id.
Qed.

Lemma read_signed p1 p2 s k offset value :
  members p1 p2 s !! k = Some (8%nat, value) → offset_of (members p1 p2 s) k = offset →
  is_i64 value → i64 (read_at (to_bytes p1 p2 s) offset 8) = value.
Proof.
  intros Hk <- Hv. unfold to_bytes. rewrite (read_member _ _ _ _ Hk). by apply i64_u64.
Qed.

(** Looks for the member to read among the numbers [ks]. *)
Ltac read_one_of lem ks :=
  lazymatch ks with
  | ?k :: ?ks => first [apply (lem k); [reflexivity|reflexivity|assumption] | read_one_of lem ks]
  end.
Ltac read_members p1 p2 s :=
  let ks := eval vm_compute in (seq 0 25) in
  match goal with
  | |- i64 (read_at _ _ _) = _ => read_one_of (read_signed p1 p2 s) ks
  | |- read_at _ _ _ = _ => read_one_of (read_unsigned p1 p2 s) ks
  end.

Lemma of_to_bytes p1 p2 s : snapshot_ok s → of_bytes (to_bytes p1 p2 s) = s.
Proof.
  intros (Hu & Hi & Hw). decompose_Forall_hyps.
  transitivity (Edge.mkSnapshot (Edge.cycles_executed s) (Edge.overruns s) (Edge.skipped_cycles s)
    (Edge.allocation_violations s) (Edge.jitter_p50_ns s) (Edge.jitter_p99_ns s) (Edge.jitter_p999_ns s)
    (Edge.jitter_max_ns s) (Edge.execution_p50_ns s) (Edge.execution_p99_ns s) (Edge.execution_max_ns s)
    (Edge.safety_state s) (Edge.fault_reason s) (Edge.torque_permitted s) (Edge.fault_latched s)
    (Edge.safety_transition_monotonic_ns s) (Edge.safety_sequence s) (Edge.safety_state_age_ns s)
    (Edge.estop_asserted s) (Edge.telegrams_accepted s) (Edge.telegrams_rejected s)
    (Edge.realtime_scheduling_granted s) (Edge.uptime_ns s)); [|by destruct s].
  unfold of_bytes. f_equal; read_members p1 p2 s.
Qed.

(** Natural alignment: every member, padding included, lies at a multiple of
    its size, and the last one ends the object. *)
Lemma members_aligned p1 p2 s :
  Forall (λ k, (offset_of (members p1 p2 s) k mod default 1 ((members p1 p2 s).*1 !! k) = 0)%nat) (seq 0 25) ∧
  offset_of (members p1 p2 s) 25 = size_of_snapshot.
Proof. split; [repeat constructor|reflexivity]. Qed.

(** ** Readers of published snapshots *)

(** The observations of a reader, newest first, as snapshots: every one loaded
    is version [k] of [published], version 0 being the zeroed slot, and versions
    never go back. *)
Inductive snapshot_trace (published : list Edge.RuntimeSnapshot) : list observation → nat → Prop :=
| snapshots_start : snapshot_trace published [] 0
| snapshots_loaded log k k' bytes :
    snapshot_trace published log k → (k ≤ k')%nat →
    (Edge.newSnapshot :: published) !! k' = Some (of_bytes bytes) →
    snapshot_trace published (Loaded (Some bytes) :: log) k'
| snapshots_failed log k :
    snapshot_trace published log k → snapshot_trace published (Loaded None :: log) k
| snapshots_generation log k k' :
    snapshot_trace published log k → (k ≤ k' ≤ length published)%nat →
    snapshot_trace published (Generation (Z.of_nat k') :: log) k'.

(** What the writer stored are representations of the snapshots [published]. *)
Definition represents (bytes : list Z) (s : Edge.RuntimeSnapshot) : Prop :=
  snapshot_ok s ∧ ∃ p1 p2, bytes = to_bytes p1 p2 s.

Lemma zero_version : of_bytes (unpack size_of_snapshot (replicate (kWordCount size_of_snapshot) 0)) = Edge.newSnapshot.
Proof. vm_compute. reflexivity. Qed.

Lemma register_snapshots values published log k :
  Forall2 represents values published → register_trace size_of_snapshot values log k →
  snapshot_trace published log k.
Proof.
  intros Hv. induction 1 as [|log k k' value _ IH Hle Hval|log k _ IH|log k k' _ IH Hle];
    [apply snapshots_start|..|by apply snapshots_failed
    |apply Forall2_length in Hv; eapply snapshots_generation; [done|lia]].
  eapply snapshots_loaded; [done|done|]. destruct k' as [|k'].
  - apply (inj Some) in Hval as <-. by rewrite zero_version.
  - destruct (Forall2_lookup_l _ _ _ _ _ Hv Hval) as (s & Hl & Hs & p1 & p2 & ->).
    simpl. rewrite Hl. f_equal. symmetry. by apply of_to_bytes.
Qed.

(** C24: Published snapshots reach their readers whole and in order. Let the writer
    of the slot store, one after the other, the object representations of the
    snapshots the control loop publishes, with anything in the padding. Then for
    every schedule of writer and readers under the memory orders of the source,
    every snapshot a reader obtains is member by member one the loop published
    (or the all-zero one before the first), and no reader is ever given an older
    snapshot after a newer one. *)
Theorem snapshots_reach_readers schedule c published :
  weak_run size_of_snapshot source_orders schedule weak_init = Done c → counter_fits c →
  Forall2 represents (completed c) published →
  ∀ i, ∃ k, snapshot_trace published (observed (readers c i)) k.
Proof.
  intros Hrun Hfit Hrep i.
  destruct (slot_ok_run size_of_snapshot _ _ _ (slot_ok_init size_of_snapshot) Hrun Hfit) as [_ Hr].
  destruct (Hr i) as (k & Ht & _). exists k. by eapply register_snapshots.
Qed.

(** A snapshot with something in every member, and a reader that loads it. *)
Definition demo_snapshot : Edge.RuntimeSnapshot :=
  Edge.mkSnapshot 1 2 3 4 (-5) 6 7 8 9 10 11 12 13 1 0 14 15 16 1 17 18 1 (-19).

Definition snapshot_schedule : list weak_event :=
  [WriterCalls (to_bytes 0xDEADBEEF 0x01020304 demo_snapshot) 0] ++ replicate 23 WriterStores ++
  [ReaderCalls 0 (CallTryLoad 32)] ++ map (ReaderLoads 0) ([2] ++ replicate 21 1 ++ [2])%nat.

Definition snapshot_config : Config :=
  done_or weak_init (weak_run size_of_snapshot source_orders snapshot_schedule weak_init).

Lemma snapshots_reach_readers_witness :
  ∃ k, snapshot_trace [demo_snapshot] (observed (readers snapshot_config 0)) k ∧
    match observed (readers snapshot_config 0) with
    | [Loaded (Some bytes)] => of_bytes bytes = demo_snapshot
    | _ => False
    end.
Proof.
  destruct (snapshots_reach_readers snapshot_schedule snapshot_config [demo_snapshot]) with (i := 0%nat)
    as [k Hk]; [apply is_done_or; vm_compute; reflexivity|unfold counter_fits; by_compute| |].
  - replace (completed snapshot_config) with [to_bytes 0xDEADBEEF 0x01020304 demo_snapshot]
      by (vm_compute; reflexivity).
    constructor; [|constructor]. split; [by_compute|by do 2 eexists].
  - exists k. split; [exact Hk|]. vm_compute. reflexivity.
Defined.
