(* ===== verification/EndToEnd.v ===== *)
(** * From the control loop to the events, under the memory orders of the source

    The composition of the control loop ([src/src/apps/safeedged.cpp]), the
    object representation of its snapshots, the seqlock slot with its memory
    orders, and the publishing thread of the OPC UA server
    ([src/src/apps/safeedge_opcua.cpp]): the reads the thread gets are in order,
    so its events account for every transition the loop made. *)

From Stdlib Require Import SpecFloat Ascii String.
From stdpp Require Import base numbers list option strings pretty.
From S2P Require Import Prelude Float64 CyclicExecutor Snapshot Seqlock WeakMemory SeqlockWeak SeqlockWeakSafety SnapshotLayout Runtime RuntimeSafety OpcuaServer OpcuaEvents.

(** ** Reads *)

(** What the calls of [tryLoad] of a reader returned, oldest first. *)
Definition loads (log : list observation) : list (option Edge.RuntimeSnapshot) :=
  omap (λ o, match o with Loaded out => Some (of_bytes <$> out) | Generation _ => None end) (reverse log).

Lemma in_order_snoc n lo reads r :
  in_order n lo reads →
  match r with Some i => (last_read lo reads ≤ i < n)%nat | None => True end →
  in_order n lo (reads ++ [r]) ∧
  last_read lo (reads ++ [r]) = default (last_read lo reads) r.
Proof.
  revert lo. induction reads as [|[i|] reads IH]; intros lo; simpl.
  - intros _. destruct r; simpl; [tauto|done].
  - intros [Hi Ho] Hr. destruct (IH i Ho Hr). tauto.
  - intros Ho Hr. by apply IH.
Qed.

(** A reader's observations are ordered reads of the versions. *)
Lemma trace_reads published log k :
  snapshot_trace published log k →
  ∃ reads, loads log = map (load (Edge.newSnapshot :: published)) reads ∧
    in_order (S (length published)) 0 reads ∧ (last_read 0 reads ≤ k)%nat.
Proof.
  unfold loads. induction 1 as [|log k k' bytes _ (reads & Hl & Ho & Hk) Hle Hv
    |log k _ (reads & Hl & Ho & Hk)|log k k' _ (reads & Hl & Ho & Hk) Hle].
  - exists []. done.
  - pose proof (lookup_lt_Some _ _ _ Hv) as Hlt. simpl in Hlt.
    destruct (in_order_snoc (S (length published)) 0 reads (Some k') Ho) as [Ho' Hr']; [lia|].
    exists (reads ++ [Some k']). rewrite reverse_cons, omap_app, map_app, Hl.
    split; [f_equal; simpl; by rewrite <- Hv|]. split; [done|]. rewrite Hr'. simpl. lia.
  - destruct (in_order_snoc (S (length published)) 0 reads None Ho I) as [Ho' Hr'].
    exists (reads ++ [None]). rewrite reverse_cons, omap_app, map_app, Hl.
    split; [done|]. split; [done|]. rewrite Hr'. done.
  - exists reads. rewrite reverse_cons, omap_app. simpl. rewrite app_nil_r. split; [done|]. split; [done|]. lia.
Qed.

(** The process stores the empty snapshot itself before the loop runs, so the
    zeroed slot and the first stored snapshot are the same. *)
Lemma in_order_pred n lo reads :
  (0 < n)%nat → in_order (S n) lo reads →
  in_order n (pred lo) (map (fmap pred) reads) ∧
  last_read (pred lo) (map (fmap pred) reads) = pred (last_read lo reads).
Proof.
  intros Hn. revert lo. induction reads as [|[i|] reads IH]; intros lo; simpl; [done| |apply IH].
  intros [Hi Ho]. destruct (IH i Ho) as [Ho' Hl']. split; [split; [lia|done]|done].
Qed.

Lemma load_pred l r :
  head l = Some Edge.newSnapshot → load (Edge.newSnapshot :: l) r = load l (pred <$> r).
Proof. intros Hh. destruct r as [[|k]|]; [|done|done]. simpl. destruct l; [done|]. simpl in *. congruence. Qed.

Lemma stored_reads clock cs log k :
  snapshot_trace (stored clock cs) log k →
  ∃ reads, loads log = map (load (stored clock cs)) reads ∧
    in_order (length (stored clock cs)) 0 reads.
Proof.
  intros (reads & Hl & Ho & _)%trace_reads. exists (map (fmap pred) reads). split.
  - rewrite Hl, map_map. apply map_ext. intros r. by apply load_pred.
  - apply (in_order_pred _ 0); [|done]. unfold stored. simpl. lia.
Qed.

(** Reads up to the first success. *)
Lemma split_first n reads :
  in_order n 0 reads →
  (∃ failed, reads = replicate failed None) ∨
  ∃ failed i rest, reads = replicate failed None ++ Some i :: rest ∧ in_order n i rest ∧ (i < n)%nat.
Proof.
  induction reads as [|[i|] reads IH]; simpl.
  - left. by exists 0%nat.
  - intros [Hi Ho]. right. exists 0%nat, i, reads. split; [done|]. split; [done|lia].
  - intros Ho. destruct (IH Ho) as [[f ->]|(f & i & rest & -> & Hr & Hi)].
    + left. by exists (S f).
    + right. exists (S f), i, rest. done.
Qed.

Lemma last_read_first lo failed i rest :
  last_read lo (replicate failed None ++ Some i :: rest) = last_read i rest.
Proof. induction failed; simpl; done. Qed.

(** ** The events *)

(** The first snapshot a reader obtained, by its number. *)
Fixpoint first_read (reads : list (option nat)) : option nat :=
  match reads with [] => None | Some i :: _ => Some i | None :: reads => first_read reads end.

Lemma first_read_replicate failed reads : first_read (replicate failed None ++ reads) = first_read reads.
Proof. induction failed; simpl; done. Qed.

(** The transitions between the first and the last read. *)
Definition transitions_read (l : list Edge.RuntimeSnapshot) (reads : list (option nat)) : Z :=
  match first_read reads with
  | Some i => Z.of_nat (transitions (default Edge.newSnapshot (l !! i)) (segment l i (last_read 0 reads)))
  | None => 0
  end.

Lemma failed_rounds good server failed :
  described (publish_rounds good (newPublisher server) (replicate failed None)) = [].
Proof.
  unfold publish_rounds. revert server. induction failed as [|n IH]; intros server; [done|].
  cbn [replicate foldl]. apply IH.
Qed.

(** No transition is lost between the control loop and the event stream, under
    the memory orders of the source. Let the process store the object
    representation of the empty snapshot when it starts and of its snapshot in
    every cycle of the loop, and let the publishing
    thread's loads interleave with those stores in any way the memory permits.
    Then the loads are reads of stored snapshots in order, and the transitions
    the thread's events report plus the ones they declare missed are exactly the
    changes of decision between the first and the last snapshot it obtained. *)
Theorem events_account_end_to_end schedule c clock cs good server i :
  weak_run size_of_snapshot source_orders schedule weak_init = Done c → counter_fits c →
  Forall2 represents (completed c) (stored clock cs) →
  ∃ reads, loads (observed (readers c i)) = map (load (stored clock cs)) reads ∧
    in_order (length (stored clock cs)) 0 reads ∧
    accounted (described (publish_rounds good (newPublisher server) (loads (observed (readers c i))))) =
      transitions_read (stored clock cs) reads.
Proof.
  intros Hrun Hfit Hrep. pose proof (Forall2_length _ _ _ Hrep) as Hlen.
  destruct (slot_ok_run size_of_snapshot _ _ _ (slot_ok_init size_of_snapshot) Hrun Hfit) as [_ Hr].
  destruct (Hr i) as (k & Ht & _).
  destruct (stored_reads _ _ _ _ (register_snapshots _ _ _ _ Hrep Ht)) as (reads & Hl & Ho).
  exists reads. split; [done|]. split; [done|]. rewrite Hl. unfold transitions_read.
  destruct (split_first _ _ Ho) as [[f ->]|(f & j & rest & -> & Hrest & Hj)].
  - rewrite <- (app_nil_r (replicate f None)) at 2. rewrite first_read_replicate. simpl.
    replace (map _ (replicate f None)) with (replicate f (@None Edge.RuntimeSnapshot))
      by (by rewrite fmap_replicate).
    by rewrite failed_rounds.
  - rewrite first_read_replicate, last_read_first. simpl first_read.
    destruct (lookup_lt_is_Some_2 (stored clock cs) j Hj) as [s Hs]. rewrite Hs.
    apply (events_account_for_transitions good clock cs server f j s rest); [|done|done].
    unfold counter_fits in Hfit. rewrite Hlen in Hfit. lia.
Qed.

(** ** An instance *)

Definition one_cycle_run : list Cycle := demo_cycles 1000000 [(false, false)].

Definition stored_bytes : list (list Z) := map (to_bytes 7 7) (stored (mkTimespec 0 0) one_cycle_run).

(** The writer's store number [n] of a snapshot, and an undisturbed load. *)
Definition store_events (n : nat) (bytes : list Z) : list weak_event :=
  WriterCalls bytes (2 * n) :: replicate 23 WriterStores.
Definition load_events (n : nat) : list weak_event :=
  ReaderCalls 0 (CallTryLoad 32) :: map (ReaderLoads 0) ([2 * n] ++ replicate 21 n ++ [2 * n])%nat.

Definition cycle_schedule : list weak_event :=
  load_events 0 ++ store_events 0 (nth 0 stored_bytes []) ++ load_events 1 ++
  store_events 1 (nth 1 stored_bytes []) ++ load_events 2.

Definition cycle_config : Config :=
  done_or weak_init (weak_run size_of_snapshot source_orders cycle_schedule weak_init).

Lemma events_account_end_to_end_witness :
  ∃ reads, in_order 2 0 reads ∧
    accounted (described (publish_rounds (λ _ _, true) (newPublisher newServer)
      (loads (observed (readers cycle_config 0))))) =
    transitions_read (stored (mkTimespec 0 0) one_cycle_run) reads.
Proof.
  destruct (events_account_end_to_end cycle_schedule cycle_config (mkTimespec 0 0) one_cycle_run
    (λ _ _, true) newServer 0) as (reads & _ & Ho & Ha).
  - apply is_done_or. vm_compute. reflexivity.
  - unfold counter_fits. by_compute.
  - replace (completed cycle_config) with stored_bytes by (vm_compute; reflexivity).
    apply Forall2_fmap_l, Forall_Forall2_diag, Forall_forall. intros s Hs.
    split; [|by do 2 eexists]. revert s Hs. apply Forall_forall. by_compute.
  - exists reads. split; [exact Ho|exact Ha].
Defined.
