(* ===== verification/FuzzTarget.v ===== *)
(** * The fuzz target of the telegram decoder

    [src/fuzz/fuzz_telegram_decode.cpp]: the libFuzzer entry point, its check
    of the decoder's outputs, and the proof of what the fuzzer samples: no input
    makes the check trap. *)

From stdpp Require Import base numbers list option.
From S2P Require Import Prelude BlackChannel BlackChannelFaults.

#[local] Opaque computeTelegramCrc.

Definition kAddress : SafetyAddress := mkAddress 0x0011 0x2200 0xDEADBEEF.

Definition is_valid (s : ReceiveStatus) : bool := match s with kValid => true | _ => false end.

(** [None] is [__builtin_trap]. *)
Definition checkReceiveOutput (result : ReceiveStatus) (frame : list Z) (payload_size : nat)
  : option () :=
  if is_valid result then
    if negb (payload_size + kOverheadBytes =? length frame)%nat then None else Some ()
  else if negb (payload_size =? 0)%nat then None
  else Some ().

(** What one input leaves behind. *)
Record FuzzRun := mkFuzzRun {
  first : ReceiveStatus;
  second : ReceiveStatus;
  polled : ReceiveStatus;
  exit_code : Z
}.

(** The first byte steers the arrival time, the rest is the frame. *)
Definition arrival (data : list Z) : Z := match data with [] => 0 | b :: _ => i64 (b * 1000000) end.

Definition LLVMFuzzerTestOneInput (data : list Z) : option FuzzRun :=
  let fresh := newReceiver kAddress 10000000 in
  let now_ns := arrival data in
  let frame := tail data in
  let once := receive fresh frame now_ns (replicate kMaxPayloadBytes 0) in
  _ ← checkReceiveOutput (result once) frame (payload_size once);
  let twice := receive (receiver once) frame (i64 (now_ns + 1000000)) (payload_out once) in
  _ ← checkReceiveOutput (result twice) frame (payload_size twice);
  Some (mkFuzzRun (result once) (result twice)
          (poll (receiver twice) (i64 (now_ns + 20000000))).1 0).

(** ** Outputs of one call *)

Lemma is_valid_spec s : is_valid s = true ↔ s = kValid.
Proof. by destruct s. Qed.

(** The outputs of any call pass the check. *)
Lemma receive_passes_check r raw now buffer :
  Forall is_u8 raw →
  checkReceiveOutput (result (receive r raw now buffer)) raw
    (payload_size (receive r raw now buffer)) = Some ().
Proof.
  intros Hraw. unfold checkReceiveOutput. destruct (safe_state_ r) eqn:Hs.
  { unfold receive. by rewrite Hs. }
  destruct (receive_cases r raw now buffer Hraw Hs)
    as [->|(p & st & n & c & -> & _ & _ & _ & _ & _ & _ & E)]; [done|]. rewrite E.
  destruct (is_valid (result (check_fields r p st n c now buffer))) eqn:Hv.
  - apply is_valid_spec, check_fields_valid in Hv as (-> & Ht & Hf).
    rewrite check_fields_accept by done. simpl. rewrite length_frame.
    unfold_sizes. by rewrite Nat.eqb_refl.
  - assert (Hn : result (check_fields r p st n c now buffer) ≠ kValid)
      by (intros Hx; apply is_valid_spec in Hx; congruence).
    apply check_fields_not_valid in Hn as (? & ? & ? & _ & _ & ->). done.
Qed.

(** A receiver in the safe state stays there. *)
Lemma receive_in_safe_state r raw now buffer :
  safe_state_ r = true → receive r raw now buffer = mkReceived kInSafeState r buffer 0 0.
Proof. intros Hs. unfold receive. by rewrite Hs. Qed.

(** A telegram that was just accepted is refused as a repetition. *)
Lemma accepted_repeats r raw now now' buffer :
  Forall is_u8 raw → result (receive r raw now buffer) = kValid →
  timely (receiver (receive r raw now buffer)) now' → length buffer = kMaxPayloadBytes →
  result (receive (receiver (receive r raw now buffer)) raw now'
    (payload_out (receive r raw now buffer))) = kRepetition ∧
  safe_state_ (receiver (receive (receiver (receive r raw now buffer)) raw now'
    (payload_out (receive r raw now buffer)))) = true.
Proof.
  intros Hraw Hv Htimely Hlen.
  destruct (safe_state_ r) eqn:Hs; [by rewrite receive_in_safe_state in Hv|].
  destruct (receive_cases r raw now buffer Hraw Hs)
    as [E|(p & st & n & c & -> & Hp & Hst & Hn & Hc & Hl & Hb & E)]; rewrite E in *; [done|].
  apply check_fields_valid in Hv as (-> & Ht & Hf). rewrite check_fields_accept in * by done.
  cbn [receiver payload_out accept] in *. rewrite receive_frame;
    [|done|done|done|unfold copy_into; rewrite length_app, length_drop; lia|done].
  unfold check_fields, timely in *. cbn [receiver_address synchronised_ watchdog_ns_ last_valid_ns_
    last_consecutive_number_ andb negb] in *. rewrite Z.eqb_refl. cbn [negb].
  specialize (Htimely eq_refl). destruct (Z.ltb_spec (watchdog_ns_ r) (elapsed now' now)); [lia|].
  destruct (Z.eqb_spec n (next_number n)) as [Hnn|_]; [|cbn [negb]; by rewrite Z.eqb_refl].
  rewrite next_number_cases in Hnn by done. destruct (Z.eqb_spec n (2 ^ 32 - 1)); lia.
Qed.

(** A rejection latches, an acceptance restarts the watchdog window. *)
Lemma receive_latches r raw now buffer :
  Forall is_u8 raw → result (receive r raw now buffer) ≠ kValid →
  safe_state_ (receiver (receive r raw now buffer)) = true.
Proof.
  intros Hraw Hv. destruct (safe_state_ r) eqn:Hs; [by rewrite receive_in_safe_state|].
  destruct (receive_cases r raw now buffer Hraw Hs)
    as [->|(p & st & n & c & -> & _ & _ & _ & _ & _ & _ & E)]; [done|].
  rewrite E in *. by apply check_fields_not_valid in Hv as (? & ? & ? & _ & _ & ->).
Qed.

Lemma receive_restarts r raw now buffer :
  Forall is_u8 raw → result (receive r raw now buffer) = kValid →
  last_valid_ns_ (receiver (receive r raw now buffer)) = now ∧
  watchdog_ns_ (receiver (receive r raw now buffer)) = watchdog_ns_ r.
Proof.
  intros Hraw Hv. destruct (safe_state_ r) eqn:Hs; [by rewrite receive_in_safe_state in Hv|].
  destruct (receive_cases r raw now buffer Hraw Hs)
    as [E|(p & st & n & c & -> & _ & _ & _ & _ & _ & _ & E)]; rewrite E in *; [done|].
  apply check_fields_valid in Hv as (-> & Ht & Hf). by rewrite check_fields_accept.
Qed.

(** ** The target *)

Lemma arrival_range data : Forall is_u8 data → 0 ≤ arrival data ≤ 255000000.
Proof.
  intros Hd. destruct data as [|b data]; simpl; [lia|]. apply Forall_cons_1 in Hd as [Hb _].
  rewrite signed_wrap_id by solve_range. solve_range.
Qed.

(** No input misbehaves. For every byte string the fuzzer can produce, neither
    check traps and the target returns zero. The second delivery of the same
    frame is never accepted: it is refused as a repetition when the first was
    accepted and by the latched safe state otherwise, and the receiver ends
    latched. *)
Theorem fuzz_target_safe data :
  Forall is_u8 data →
  ∃ s, LLVMFuzzerTestOneInput data =
    Some (mkFuzzRun s (if is_valid s then kRepetition else kInSafeState) kInSafeState 0).
Proof.
  intros Hd. assert (Hf : Forall is_u8 (tail data)) by (destruct Hd; [constructor|done]).
  pose proof (arrival_range data Hd) as Hnow. unfold LLVMFuzzerTestOneInput.
  cbv zeta. set (r0 := newReceiver kAddress 10000000). set (b0 := replicate kMaxPayloadBytes 0).
  set (once := receive r0 (tail data) (arrival data) b0).
  pose proof (receive_passes_check r0 (tail data) (arrival data) b0 Hf) as Hc. fold once in Hc.
  rewrite Hc. cbn [mbind option_bind].
  rewrite (receive_passes_check (receiver once)) by done. cbn [mbind option_bind].
  exists (result once). destruct (is_valid (result once)) eqn:Hv.
  - apply is_valid_spec in Hv.
    destruct (accepted_repeats r0 (tail data) (arrival data) (i64 (arrival data + 1000000)) b0) as [E1 E2];
      [done|done| |done|].
    + unfold timely. intros _. apply receive_restarts in Hv as [-> ->]; [|done]. simpl watchdog_ns_.
      unfold elapsed. rewrite (signed_wrap_id 64 (arrival data + 1000000)) by solve_range.
      rewrite signed_wrap_id by solve_range. lia.
    + fold once in E1, E2. rewrite E1. unfold poll. by rewrite E2.
  - assert (Hn : result once ≠ kValid) by (intros Hx; apply is_valid_spec in Hx; congruence).
    pose proof (receive_latches r0 (tail data) (arrival data) b0 Hf Hn) as Hs. fold once in Hs.
    rewrite receive_in_safe_state by done. unfold poll. simpl. by rewrite Hs.
Qed.

(** A well-formed telegram, delivered at 5 ms. *)
Definition fuzz_input : list Z := 5 :: sender_frame (newSender kAddress) [1; 2; 3] 7.

Lemma fuzz_target_safe_witness :
  ∃ s, LLVMFuzzerTestOneInput fuzz_input =
    Some (mkFuzzRun s (if is_valid s then kRepetition else kInSafeState) kInSafeState 0) ∧ s = kValid.
Proof.
  destruct (fuzz_target_safe fuzz_input) as [s Hs]; [by_compute|].
  exists s. split; [exact Hs|]. apply (f_equal (fmap first)) in Hs. vm_compute in Hs. congruence.
Defined.
