(* ===== verification/LogLines.v ===== *)
(** * Log lines

    [logEvent] of [src/src/apps/safeedged.cpp] and of
    [src/src/apps/safeedge_opcua.cpp]: one line of JSON per event, written with
    [printf] and no escaping. The reader below is that of a log collector: a flat
    JSON object (RFC 8259, without unicode escapes) of strings and natural
    numbers. *)

From Stdlib Require Import Ascii String.
From stdpp Require Import base numbers list option strings pretty.
From S2P Require Import Prelude Strings Snapshot Environment Runtime Handlers HttpService Process.

#[local] Open Scope string_scope.
#[local] Open Scope Z_scope.
#[local] Open Scope list_scope.

Definition kQuote : ascii := "034".
Definition kNewline : ascii := "010".

(** The member [name:value], the value a string, and the text after it. *)
Definition string_member (name value rest : string) : string :=
  String kQuote (name +:+ String kQuote (String ":" (String kQuote (value +:+ String kQuote rest)))).

Definition detail_member (detail : option string) (rest : string) : string :=
  match detail with Some detail => String "," (string_member "detail" detail rest) | None => rest end.

Definition kEnd : string := String "}" (String kNewline EmptyString).

Definition logEvent (ts : Z) (level message : string) (detail : option string) : string :=
  String "{" (String kQuote ("ts" +:+ String kQuote (String ":" (pretty ts +:+ String "," (
    string_member "level" level (String "," (
    string_member "msg" message (detail_member detail kEnd)))))))).

(** The server's own [logEvent] carries no time. *)
Definition server_logEvent (level message : string) (detail : option string) : string :=
  String "{" (string_member "level" level (String "," (
    string_member "msg" message (detail_member detail kEnd)))).

(** ** Reading a line *)

Inductive json_value := JsonString (s : string) | JsonNumber (n : Z).

#[export] Instance json_value_eq_dec : EqDecision json_value.
Proof. solve_decision. Defined.

Definition is_control (c : ascii) : bool := (N_of_ascii c <? 32)%N.

(** The character an escape stands for. *)
Definition unescape (c : ascii) : option ascii :=
  if bool_decide (c ∈ [kQuote; "\"%char; "/"%char]) then Some c
  else if bool_decide (c = "n"%char) then Some kNewline
  else if bool_decide (c = "t"%char) then Some "009"%char
  else if bool_decide (c = "r"%char) then Some "013"%char
  else if bool_decide (c = "b"%char) then Some "008"%char
  else if bool_decide (c = "f"%char) then Some "012"%char
  else None.

(** The rest of a string literal, after its opening quote. *)
Fixpoint read_string (s : string) : option (string * string) :=
  match s with
  | EmptyString => None
  | String c s' =>
      if bool_decide (c = kQuote) then Some (EmptyString, s')
      else if bool_decide (c = "\"%char) then
        match s' with
        | EmptyString => None
        | String e s' =>
            c ← unescape e; '(text, rest) ← read_string s'; Some (String c text, rest)
        end
      else if is_control c then None
      else '(text, rest) ← read_string s'; Some (String c text, rest)
  end.

(** A value and what follows it. *)
Definition read_value (s : string) : option (json_value * string) :=
  match s with
  | EmptyString => None
  | String c s' =>
      if bool_decide (c = kQuote) then '(text, rest) ← read_string s'; Some (JsonString text, rest)
      else
        match digit_value c with
        | Some _ => let (n, rest) := read_digits 0 s in Some (JsonNumber n, rest)
        | None => None
        end
  end.

(** A literal character. *)
Definition expect (c : ascii) (s : string) : option string :=
  match s with String c' s => if bool_decide (c' = c) then Some s else None | EmptyString => None end.

(** Members up to the closing brace; [fuel] bounds their number. *)
Fixpoint read_members (fuel : nat) (s : string) : option (list (string * json_value) * string) :=
  match fuel with
  | O => None
  | S fuel =>
      s ← expect kQuote s; '(name, s) ← read_string s; s ← expect ":" s;
      '(value, s) ← read_value s;
      match s with
      | String c s =>
          if bool_decide (c = "}"%char) then Some ([(name, value)], s)
          else if bool_decide (c = ","%char) then
            '(members, s) ← read_members fuel s; Some ((name, value) :: members, s)
          else None
      | EmptyString => None
      end
  end.

(** A whole line: one object, and the newline that ends it. *)
Definition read_line (s : string) : option (list (string * json_value)) :=
  s ← expect "{" s; '(members, s) ← read_members (String.length s) s; s ← expect kNewline s;
  if bool_decide (s = EmptyString) then Some members else None.

(** ** Text that needs no escaping *)

Definition plain_char (c : ascii) : bool :=
  negb (bool_decide (c = kQuote)) && negb (bool_decide (c = "\"%char)) && negb (is_control c).

Fixpoint plain (s : string) : bool :=
  match s with EmptyString => true | String c s => plain_char c && plain s end.

Lemma read_string_plain text rest :
  plain text = true → read_string (text +:+ String kQuote rest) = Some (text, rest).
Proof.
  induction text as [|c text IH]; intros Hp.
  - change (EmptyString +:+ String kQuote rest) with (String kQuote rest). done.
  - change (String c text +:+ String kQuote rest) with (String c (text +:+ String kQuote rest)).
    simpl in Hp. apply andb_prop in Hp as [Hc Hp]. unfold plain_char in Hc.
    apply andb_prop in Hc as [Hc H3]. apply andb_prop in Hc as [H1 H2].
    apply negb_true_iff in H1, H2, H3. cbn [read_string]. rewrite H1, H2, H3, IH by done. done.
Qed.

Lemma read_value_string text rest :
  plain text = true →
  read_value (String kQuote (text +:+ String kQuote rest)) = Some (JsonString text, rest).
Proof. intros Hp. cbn [read_value]. rewrite bool_decide_true, read_string_plain by done. done. Qed.

(** A number is read as the other readers read it. *)
Lemma read_value_number separator s n rest :
  read_number separator s = Some (n, rest) →
  read_value s = Some (JsonNumber n, String separator rest).
Proof.
  unfold read_number, read_value. destruct s as [|c s]; [done|].
  destruct (digit_value c) as [d|] eqn:Hd; [|done].
  destruct (read_digits 0 (String c s)) as [m [|c' rest']]; [done|].
  destruct (decide (c' = separator)) as [-> |]; [|by rewrite bool_decide_false].
  rewrite bool_decide_true by done. intros [= -> ->].
  rewrite bool_decide_false; [done|]. intros ->. discriminate Hd.
Qed.

(** ** A plain event is a line of JSON *)

Lemma expect_same c s : expect c (String c s) = Some s.
Proof. simpl. by rewrite bool_decide_true. Qed.

(** One string member, before another one and before the end. *)
Lemma read_string_member name value rest :
  plain name = true → plain value = true →
  (s ← expect kQuote (string_member name value rest); '(name, s) ← read_string s; s ← expect ":" s;
   '(value, s) ← read_value s; Some (name, value, s)) = Some (name, JsonString value, rest).
Proof.
  intros Hn Hv. unfold string_member. rewrite expect_same. cbn [mbind option_bind].
  rewrite read_string_plain by done. cbn [mbind option_bind]. rewrite expect_same.
  cbn [mbind option_bind]. by rewrite read_value_string.
Qed.

Lemma read_members_step fuel s name value c rest :
  (s ← expect kQuote s; '(name, s) ← read_string s; s ← expect ":" s;
   '(value, s) ← read_value s; Some (name, value, s)) = Some (name, value, String c rest) →
  read_members (S fuel) s =
    if bool_decide (c = "}"%char) then Some ([(name, value)], rest)
    else if bool_decide (c = ","%char) then
      '(members, s) ← read_members fuel rest; Some ((name, value) :: members, s)
    else None.
Proof.
  cbn [read_members]. destruct (expect kQuote s) as [s1|]; [|done]. cbn [mbind option_bind].
  destruct (read_string s1) as [[n s2]|]; [|done]. cbn [mbind option_bind].
  destruct (expect ":" s2) as [s3|]; [|done]. cbn [mbind option_bind].
  destruct (read_value s3) as [[v s4]|]; [|done]. cbn [mbind option_bind]. by intros [= -> -> ->].
Qed.

(** The members an event is made of. *)
Definition event_members (level message : string) (detail : option string)
  : list (string * json_value) :=
  [("level", JsonString level); ("msg", JsonString message)] ++
  match detail with Some detail => [("detail", JsonString detail)] | None => [] end.

Lemma read_event fuel level message detail :
  plain level = true → plain message = true → from_option plain true detail = true →
  read_members (3 + fuel) (string_member "level" level (String "," (
    string_member "msg" message (detail_member detail kEnd)))) =
  Some (event_members level message detail, String kNewline EmptyString).
Proof.
  intros Hl Hm Hd. rewrite Nat.add_comm. replace (fuel + 3)%nat with (S (S (S fuel))) by lia.
  rewrite (read_members_step _ _ _ _ _ _ (read_string_member "level" level _ eq_refl Hl)).
  rewrite bool_decide_false, bool_decide_true by done. destruct detail as [detail|]; simpl in Hd.
  - cbn [detail_member]. unfold kEnd.
    rewrite (read_members_step _ _ _ _ _ _ (read_string_member "msg" message _ eq_refl Hm)).
    rewrite bool_decide_false, bool_decide_true by done.
    rewrite (read_members_step _ _ _ _ _ _ (read_string_member "detail" detail _ eq_refl Hd)).
    by rewrite bool_decide_true.
  - cbn [detail_member]. unfold kEnd.
    rewrite (read_members_step _ _ _ _ _ _ (read_string_member "msg" message _ eq_refl Hm)).
    by rewrite bool_decide_true.
Qed.

Lemma length_string_member name value rest :
  (String.length rest < String.length (string_member name value rest))%nat.
Proof. unfold string_member. simpl. rewrite length_append. simpl. rewrite length_append. simpl. lia. Qed.

(** Enough fuel: an object has no more members than characters. *)
Lemma event_fuel level message detail :
  ∃ fuel, String.length (string_member "level" level (String "," (
    string_member "msg" message (detail_member detail kEnd)))) = (3 + fuel)%nat.
Proof.
  pose proof (length_string_member "level" level (String "," (
    string_member "msg" message (detail_member detail kEnd)))) as H1.
  pose proof (length_string_member "msg" message (detail_member detail kEnd)) as H2.
  change (String.length (String "," ?x)) with (S (String.length x)) in H1.
  exists (String.length (string_member "level" level (String "," (
    string_member "msg" message (detail_member detail kEnd)))) - 3)%nat. lia.
Qed.

(** Events are read back. With a level, a message and a detail in which nothing
    needs escaping (no quote, no backslash, no control character), the line of
    either process is one JSON object ended by the only newline in it, with
    exactly the members given. *)
Lemma read_logged ts level message detail :
  0 ≤ ts → plain level = true → plain message = true → from_option plain true detail = true →
  read_line (logEvent ts level message detail) =
    Some (("ts", JsonNumber ts) :: event_members level message detail) ∧
  read_line (server_logEvent level message detail) = Some (event_members level message detail).
Proof.
  intros Ht Hl Hm Hd. destruct (event_fuel level message detail) as [fuel Hf]. split.
  - unfold read_line, logEvent. rewrite expect_same. cbn [mbind option_bind].
    set (line := String kQuote _).
    assert (Hlen : ∃ n, String.length line = S (3 + n)).
    { subst line. revert Hf. generalize (string_member "level" level (String "," (
        string_member "msg" message (detail_member detail kEnd)))). intros body Hf.
      exists (String.length (pretty ts) + 5 + fuel)%nat. simpl.
      rewrite length_append. simpl. rewrite Hf. lia. }
    destruct Hlen as [n ->].
    rewrite (read_members_step _ line "ts" (JsonNumber ts) "," (string_member "level" level (String "," (
      string_member "msg" message (detail_member detail kEnd))))).
    + rewrite bool_decide_false, bool_decide_true by done. by rewrite read_event.
    + unfold line. rewrite expect_same. cbn [mbind option_bind].
      rewrite read_string_plain by done. cbn [mbind option_bind]. rewrite expect_same.
      cbn [mbind option_bind].
      erewrite read_value_number by (by apply read_number_pretty). done.
  - unfold read_line, server_logEvent. rewrite expect_same. cbn [mbind option_bind].
    rewrite Hf. by rewrite read_event.
Qed.

(** ** The lines of the process *)

Lemma plain_append a b : plain (a +:+ b) = plain a && plain b.
Proof.
  induction a as [|c a IH]; [done|]. change (String c a +:+ b) with (String c (a +:+ b)).
  simpl. by rewrite IH, andb_assoc.
Qed.

Lemma plain_substring n s : plain s = true → plain (String.substring 0 n s) = true.
Proof.
  revert n; induction s as [|c s IH]; intros [|n]; simpl; try done.
  intros [-> Hs]%andb_prop. by apply IH.
Qed.

Lemma plain_digit d : (d < 10)%N → plain_char (pretty_N_char d) = true.
Proof.
  intros Hd. assert (H : d ∈ [0; 1; 2; 3; 4; 5; 6; 7; 8; 9]%N) by (rewrite !elem_of_cons; lia).
  repeat (apply elem_of_cons in H as [->|H]; [reflexivity|]). by apply not_elem_of_nil in H.
Qed.

Lemma plain_pretty_N_go x s : plain s = true → plain (pretty_N_go x s) = true.
Proof.
  apply (pretty_N_go_ind (λ s, plain s = true)). intros d s' Hd Hs. simpl. by rewrite plain_digit.
Qed.

Lemma plain_pretty (n : Z) : plain (pretty n) = true.
Proof.
  destruct n as [|p|p]; [done|by apply plain_pretty_N_go|].
  change (pretty (Z.neg p)) with ("-" +:+ pretty_N_go (N.pos p) EmptyString).
  rewrite plain_append. by rewrite plain_pretty_N_go.
Qed.

Lemma plain_stopped s : plain (stopped_detail s) = true.
Proof.
  unfold stopped_detail, snprintf. apply plain_substring. rewrite !plain_append, !plain_pretty. done.
Qed.

(** The operation that the server names when it can not start. *)
Lemma listen_error_plain kernel port turns l t error :
  lifetime kernel port turns = (false, l, t) → listen_error_ l = Some error → plain error.1 = true.
Proof.
  unfold lifetime. destruct (start kernel port newListener []) as [[[] l'] t'] eqn:Hs.
  { destruct (stop _ _). by intros. }
  intros [= <- <-] He. revert Hs. unfold start, abandon. cbn [listening newListener].
  repeat case_match; intros; simplify_eq/=; done.
Qed.

(** An event whose texts need no escaping. *)
Definition plain_action (a : Action) : bool :=
  match a with
  | LogEvent level message detail => plain level && plain message && from_option plain true detail
  | _ => true
  end.

Section Process.
Context (h : Host).
Hypothesis Hestop : plain (estop_path h) = true.
Hypothesis Hack : plain (ack_path h) = true.
Hypothesis Hshm : plain (environmentString (getenv h "SAFEEDGE_SNAPSHOT_SHM") EmptyString) = true.
Hypothesis Herror : ∀ e, plain (error_message h e) = true.

Lemma publish_slot_plain shm region acts t :
  plain shm = true → publish_slot h shm = (region, acts, t) → forallb plain_action acts = true.
Proof.
  intros Hp. unfold publish_slot. repeat case_match; intros; simplify_eq/=; by rewrite ?Hp.
Qed.

Lemma run_control_plain period : forallb plain_action (run_control h period) = true.
Proof.
  unfold run_control, start_threads, shut_down.
  cbn [forallb app plain_action from_option]. rewrite Hestop, Hack.
  destruct (last_load h) as [s|]; cbn [fmap option_fmap option_map from_option]; [|done].
  by rewrite plain_stopped.
Qed.

Lemma main_plain argv : forallb plain_action (actions (main h argv)) = true.
Proof.
  unfold main. destruct (bool_decide (head argv = Some "--healthcheck")); [done|].
  destruct (negb (handlers_installed h)); [done|]. destruct (period_for _) as [period|]; [|done].
  destruct (publish_slot h _) as [[region acts] t] eqn:Hslot. apply publish_slot_plain in Hslot; [|done].
  destruct (lifetime _ _ _) as [[[] l] sockets] eqn:Hlife; simpl; rewrite ?forallb_app, Hslot; simpl.
  - apply (run_control_plain period).
  - destruct (listen_error_ l) as [e|] eqn:He; simpl; [|done].
    rewrite !plain_append, (listen_error_plain _ _ _ _ _ _ Hlife He), Herror. done.
Qed.

(** The log is JSON. If the paths and the region name the process is given, and
    the error texts of the system, need no escaping, then every event that
    [main] logs, on every path through it, is one line that reads back as a JSON
    object with exactly its time, level, message and detail. *)
Theorem process_log_is_json argv ts level message detail :
  0 ≤ ts → LogEvent level message detail ∈ actions (main h argv) →
  read_line (logEvent ts level message detail) =
    Some (("ts", JsonNumber ts) :: event_members level message detail).
Proof.
  intros Hts Hin. pose proof (main_plain argv) as Hp. rewrite forallb_forall in Hp.
  apply list_elem_of_In, Hp in Hin. simpl in Hin. apply andb_prop in Hin as [[? ?]%andb_prop ?].
  by destruct (read_logged ts level message detail).
Qed.

End Process.

(** ** Text that does *)

(** A path with a quote in it breaks the line; one written for the purpose adds
    members of its own. *)
Example unescaped_detail :
  let broken := "/tmp/a" +:+ String kQuote "b" in
  let forged := "x" +:+ String kQuote ("," +:+ String kQuote ("level" +:+ String kQuote
    (":" +:+ String kQuote "info"))) in
  read_line (logEvent 0 "warn" "emergency stop asserted" (Some broken)) = None ∧
  read_line (logEvent 0 "warn" "emergency stop asserted" (Some forged)) =
    Some [("ts", JsonNumber 0); ("level", JsonString "warn"); ("msg", JsonString "emergency stop asserted");
          ("detail", JsonString "x"); ("level", JsonString "info")].
Proof. split; vm_compute; reflexivity. Qed.

Lemma process_log_is_json_witness :
  LogEvent "info" "emergency stop file watched" (Some "/tmp/safeedge-estop") ∈ actions (main demo_host []) ∧
  read_line (logEvent 1700000000000 "info" "emergency stop file watched" (Some "/tmp/safeedge-estop")) =
    Some [("ts", JsonNumber 1700000000000); ("level", JsonString "info");
          ("msg", JsonString "emergency stop file watched"); ("detail", JsonString "/tmp/safeedge-estop")].
Proof.
  assert (Hin : LogEvent "info" "emergency stop file watched" (Some "/tmp/safeedge-estop")
    ∈ actions (main demo_host [])).
  { apply list_elem_of_In. vm_compute. tauto. }
  split; [exact Hin|].
  apply (process_log_is_json demo_host) with (argv := []);
    [reflexivity|reflexivity|reflexivity|intros e; reflexivity|lia|exact Hin].
Defined.
