(* ===== verification/CycleReport.v ===== *)
(** * The executor object and the cycle report

    The rest of [CyclicExecutor] (its construction, its thread configuration and
    its stop flag, from [src/include/safeedge/rt/cyclic_executor.hpp] and
    [src/src/rt/cyclic_executor.cpp]), and the example program
    [src/examples/rt_cycle_report.cpp] that runs it and prints what the platform
    delivered: the arguments, the measurement conditions, the run, the tables. *)

From Stdlib Require Import SpecFloat Ascii String.
From stdpp Require Import base numbers list option strings pretty.
From S2P Require Import Prelude Float64 Strings LatencyHistogram NoAllocGuard CyclicExecutor ThreadConfig Environment Metrics.

#[local] Open Scope string_scope.
#[local] Open Scope Z_scope.
#[local] Open Scope list_scope.

(** ** The executor *)

Record CyclicExecutor := mkExecutor {
  config_ : Config;
  thread_ : ThreadConfig;
  executor_stats : ExecutorStats;
  stop_requested_ : bool
}.

Definition newExecutor (config : Config) (thread : ThreadConfig) : CyclicExecutor :=
  mkExecutor config thread newStats false.

Definition configureCallingThread (kernel : Kernel) (e : CyclicExecutor) : ThreadConfigReport :=
  applyThreadConfig (thread_ e) kernel pretty.

Definition with_stop (flag : bool) (e : CyclicExecutor) : CyclicExecutor :=
  mkExecutor (config_ e) (thread_ e) (executor_stats e) flag.
Definition requestStop (e : CyclicExecutor) : CyclicExecutor := with_stop true e.
Definition stopRequested (e : CyclicExecutor) : bool := stop_requested_ e.

(** What happens up to the stop check of an iteration and in the iteration:
    whether anyone has called [requestStop] since the check before, and the two
    clock readings. *)
Record Tick := mkTick { requested : bool; tick_woke : Z; tick_finished : Z }.

(** The flag is set by a request and stays set. *)
Fixpoint observe (flag : bool) (ticks : list Tick) : list Iteration :=
  match ticks with
  | [] => []
  | tick :: ticks =>
      let flag := flag || requested tick in
      mkIteration flag (tick_woke tick) (tick_finished tick) :: observe flag ticks
  end.

(** [run] clears the flag before its loop. *)
Definition run_executor (callback : CycleContext → code) (max_cycles start_ns : Z)
    (ticks : list Tick) (e : CyclicExecutor) (g : Guard) : option (bool * Loop) :=
  let cleared := if period (config_ e) <=? 0 then e else with_stop false e in
  run (config_ e) callback max_cycles start_ns (observe (stop_requested_ cleared) ticks)
    (executor_stats e) g.

(** ** Printing *)

(** [%*d] and [%-*s]. *)
Definition spaces (n : nat) : string := string_of_list_ascii (replicate n " "%char).
Definition pad_left (width : nat) (s : string) : string := spaces (width - String.length s) +:+ s.
Definition pad_right (width : nat) (s : string) : string := s +:+ spaces (width - String.length s).

(** [scaled / 10 ^ decimals]. *)
Definition fixed (decimals : nat) (scaled : Z) : string :=
  match decimals with
  | O => pretty scaled
  | S _ => pretty (scaled / 10 ^ Z.of_nat decimals) +:+ "." +:+
             pad decimals (scaled mod 10 ^ Z.of_nat decimals)
  end.

(** [%.*f] of a double: its exact value rounded to that many decimals, ties to
    even. *)
Definition format_f (decimals : nat) (v : double) : string :=
  match v with
  | S754_zero s => (if s then "-" else EmptyString) +:+ fixed decimals 0
  | S754_infinity s => if s then "-inf" else "inf"
  | S754_nan => "nan"
  | S754_finite s m e =>
      let (n, d) := if 0 <=? e then (Z.pos m * 2 ^ e, 1) else (Z.pos m, 2 ^ (- e)) in
      (if s then "-" else EmptyString) +:+ fixed decimals (round_div (n * 10 ^ Z.of_nat decimals) d)
  end.

(** ** The example *)

(** [line.find(text) != npos]. *)
Definition contains (text line : string) : bool :=
  match String.index 0 text line with Some _ => true | None => false end.

(** [std::getline]. *)
Fixpoint first_line (s : string) : string :=
  match s with
  | EmptyString => EmptyString
  | String c rest => if bool_decide (c = "010"%char) then EmptyString else String c (first_line rest)
  end.

(** [version] is the text of [/proc/version], if it can be opened. *)
Definition isVirtualised (version : option string) : bool :=
  match version with
  | None => false
  | Some text =>
      let line := first_line text in
      contains "microsoft" line || contains "Microsoft" line || contains "WSL" line
  end.

Definition policyName (policy : Z) : string :=
  if policy =? 0 then "SCHED_OTHER" else if policy =? 1 then "SCHED_FIFO"
  else if policy =? 2 then "SCHED_RR" else "unknown".

Definition printHistogram (label : string) (h : LatencyHistogram) : string :=
  "| " +:+ pad_right 22 label +:+ " | " +:+ pad_left 7 (pretty (min h)) +:+ " | " +:+
  pad_left 7 (pretty (p50 h)) +:+ " | " +:+ pad_left 8 (pretty (p99 h)) +:+ " | " +:+
  pad_left 9 (pretty (p999 h)) +:+ " | " +:+ pad_left 10 (pretty (max_ h)) +:+ " |".

(** [argc > n ? strtol(argv[n], nullptr, 10) : fallback]. *)
Definition argument (argv : list string) (n : nat) (fallback : Z) : Z :=
  match argv !! n with Some text => (strtol text).1 | None => fallback end.

Section Report.
(** The answers of the kernel, the text of [/proc/version], and the allocation
    guard of the process. *)
Context (kernel : Kernel) (version : option string) (guard0 : Guard).

Definition thread_config : ThreadConfig := mkThreadConfig kFifo 80 2 true true (512 * 1024).

Definition report_period (frequency_hz : Z) : Z := Z.quot 1000000000 frequency_hz.
Definition report_cycles (frequency_hz seconds : Z) : Z := u64 (i64 (frequency_hz * seconds)).

Definition report_config (frequency_hz : Z) : Config :=
  mkExecConfig (report_period frequency_hz) kSkipMissed true.

Definition report_executor (frequency_hz : Z) : CyclicExecutor :=
  newExecutor (report_config frequency_hz) thread_config.

(** The guard as the program sets it up. *)
Definition report_guard : Guard := resetAllocationReport (setAllocationPolicy kCount guard0).

Definition trustworthy (r : ThreadConfigReport) : bool :=
  scheduling_applied r && affinity_applied r && negb (isVirtualised version).

(** One line per newline printed. *)
Definition conditions (frequency_hz seconds : Z) (r : ThreadConfigReport) : list string :=
  ["# safeedge cyclic executor report"; EmptyString; "## Measurement conditions"; EmptyString;
   "- Requested: " +:+ pretty frequency_hz +:+ " Hz for " +:+ pretty seconds +:+ " s (" +:+
     pretty (report_cycles frequency_hz seconds) +:+ " cycles, " +:+
     pretty (report_period frequency_hz) +:+ " ns period)";
   "- Scheduling requested: SCHED_FIFO priority 80";
   "- Scheduling obtained:  " +:+ policyName (effective_policy r) +:+ " priority " +:+
     pretty (effective_priority r) +:+ "  -> " +:+
     (if scheduling_applied r then "GRANTED" else "DENIED");
   "- CPU pinning:          " +:+ (if affinity_applied r then "verified" else "NOT APPLIED");
   "- Memory locked:        " +:+ (if memory_locked r then "yes (mlockall)" else "NO");
   "- Stack prefaulted:     " +:+ (if stack_prefaulted r then "yes" else "no");
   "- Allocation guard:     " +:+ (if guardIsInstalled report_guard then "installed" else "NOT LINKED");
   "- Virtualised host:     " +:+ (if isVirtualised version then "YES" else "no")] ++
  (if fullyApplied r then [] else ["- Diagnostics:          " +:+ diagnostics r]).

Definition disclaimer : list string :=
  [EmptyString; "> The figures below are NOT a characterisation of this code.";
   "> Without real-time scheduling on a non-virtualised host, the tail is";
   "> dominated by other threads and by the hypervisor. Treat the median as";
   "> indicative and everything above p99 as a measurement of the platform.";
   "> Run this on tuned bare-metal Linux before quoting any number from it."].

(** The control step allocates nothing; the accumulator after the cycles, given
    oldest first. *)
Definition control_step (ctx : CycleContext) : code := nothing.
Definition accumulate (ctxs : list CycleContext) : Z :=
  foldl (λ acc ctx, u64 (acc + Z.lxor (ctx_index ctx) (u64 (wakeup_jitter_ns ctx)))) 0 ctxs.

Definition overrun_percent (s : ExecutorStats) : double :=
  ddiv (dmul (double_of_Z 100) (double_of_Z (overruns s)))
    (double_of_Z (if cycles_executed s =? 0 then 1 else cycles_executed s)).

Definition results (s : ExecutorStats) : list string :=
  ["## Results"; EmptyString;
   "| Measurement (ns)       |     min |     p50 |      p99 |     p99.9 |        max |";
   "|------------------------|---------|---------|----------|-----------|------------|";
   printHistogram "wakeup jitter" (wakeup_jitter s);
   printHistogram "callback execution" (execution_time s);
   printHistogram "deadline to complete" (cycle_total s);
   EmptyString;
   "- Cycles executed:       " +:+ pretty (cycles_executed s);
   "- Overruns:              " +:+ pretty (overruns s) +:+ " (" +:+ format_f 4 (overrun_percent s) +:+ "%)";
   "- Deadlines skipped:     " +:+ pretty (skipped_cycles s);
   "- Allocation violations: " +:+ pretty (allocation_violations s) +:+
     (if allocation_violations s =? 0 then EmptyString else "  <-- DEFECT ON THE RT PATH");
   "- Mean wakeup jitter:    " +:+ format_f 0 (mean (wakeup_jitter s)) +:+ " ns"].

(** How the program ends: with the usage message and code 2, with the report
    and code 0, or (so far) in its loop, the lines of the conditions printed. *)
Inductive report_outcome :=
| Usage (message : string)
| Reported (lines : list string) (accumulator : Z)
| InLoop (lines : list string).

Definition preamble (frequency_hz seconds : Z) : list string :=
  let r := configureCallingThread kernel (report_executor frequency_hz) in
  conditions frequency_hz seconds r ++ (if trustworthy r then [] else disclaimer) ++ [EmptyString].

(** [None] is an abort by the allocation guard. *)
Definition report_main (argv : list string) (start_ns : Z) (ticks : list Tick) : option report_outcome :=
  let frequency_hz := argument argv 1 1000 in
  let seconds := argument argv 2 5 in
  if (frequency_hz <=? 0) || (seconds <=? 0) then
    Some (Usage ("usage: " +:+ default EmptyString (argv !! 0%nat) +:+ " [frequency_hz] [seconds]"))
  else
    match run_executor control_step (report_cycles frequency_hz seconds) start_ns ticks
            (report_executor frequency_hz) report_guard with
    | None => None
    | Some (true, l) =>
        Some (Reported (preamble frequency_hz seconds ++ results (stats_ l))
                (accumulate (reverse (invocations l))))
    | Some (false, l) => Some (InLoop (preamble frequency_hz seconds))
    end.

End Report.
