(* ===== verification/CycleReportSafety.v ===== *)
(** * The executor object and the cycle report: theorems

    A stop request ends a run before its next cycle, but one made before the run
    is lost. The report executes exactly the cycles it announces, and prints its
    figures without a disclaimer only on a host that granted what was asked. *)

From Stdlib Require Import SpecFloat Ascii String.
From stdpp Require Import base numbers list option strings pretty.
From S2P Require Import Prelude Float64 Strings LatencyHistogram NoAllocGuard CyclicExecutor CyclicExecutorTiming ThreadConfig Environment Metrics CycleReport.

#[local] Open Scope string_scope.
#[local] Open Scope Z_scope.
#[local] Open Scope list_scope.

(** ** Stop requests *)

Lemma observe_true ticks : Forall (λ it, stop_requested it = true) (observe true ticks).
Proof. induction ticks; simpl; constructor; done. Qed.

Lemma length_observe flag ticks : length (observe flag ticks) = length ticks.
Proof. revert flag; induction ticks; intros; simpl; [done|by f_equal]. Qed.

(** The cycles before the first request. *)
Fixpoint before_request (ticks : list Tick) : nat :=
  match ticks with
  | [] => 0
  | tick :: ticks => if requested tick then 0 else S (before_request ticks)
  end.

(** How many cycles a limit of [max_cycles] admits from [index] on. *)
Definition limited (max_cycles index : Z) (n : nat) : nat :=
  if max_cycles =? 0 then n else Nat.min n (Z.to_nat (max_cycles - index)).

Lemma executed_observe max_cycles index ticks :
  0 ≤ max_cycles → 0 ≤ index →
  length (executed max_cycles index (observe false ticks)) =
  limited max_cycles index (before_request ticks).
Proof.
  intros Hm. revert index. unfold limited. induction ticks as [|tick ticks IH]; intros index Hi; simpl.
  - destruct (max_cycles =? 0); simpl; [done|]. by destruct (index <? max_cycles).
  - destruct (Z.eqb_spec max_cycles 0) as [H0|H0]; simpl.
    + destruct (requested tick); simpl; [done|]. rewrite IH by lia.
      by destruct (Z.eqb_spec max_cycles 0).
    + destruct (Z.ltb_spec index max_cycles) as [Hlt|Hge]; simpl.
      * destruct (requested tick); simpl; [done|].
        rewrite IH by lia. destruct (Z.eqb_spec max_cycles 0); [lia|].
        replace (Z.to_nat (max_cycles - index)) with (S (Z.to_nat (max_cycles - (index + 1)))) by lia. lia.
      * replace (Z.to_nat (max_cycles - index)) with 0%nat by lia. lia.
Qed.

(** A run is still in its loop exactly when it has seen no request and not
    reached its limit. *)
Lemma loop_waits config callback max_cycles index ticks l0 b l :
  0 ≤ index → index + Z.of_nat (length ticks) < 2 ^ 64 →
  loop config callback max_cycles index (observe false ticks) l0 = Some (b, l) →
  b = false ↔ Forall (λ tick, requested tick = false) ticks ∧
    (max_cycles = 0 ∨ index + Z.of_nat (length ticks) < max_cycles).
Proof.
  revert index l0; induction ticks as [|tick ticks IH]; intros index l0 H0 Hb; simpl.
  - rewrite Z.add_0_r. destruct (Z.eqb_spec max_cycles 0) as [Hm|Hm]; simpl;
      [intros [= <- _]; split; [intros _; split; [by apply Forall_nil|by left]|done]|].
    destruct (Z.ltb_spec index max_cycles); intros [= <- _].
    + split; [|done]. intros _. split; [by apply Forall_nil|by right].
    + split; [done|]. intros [_ [?|?]]; [done|lia].
  - simpl in Hb. rewrite Forall_cons.
    destruct (Z.eqb_spec max_cycles 0) as [Hm|Hm]; [|destruct (Z.ltb_spec index max_cycles) as [Hi|Hi]];
      simpl; try (intros [= <- _]; split; [done|intros [_ [?|?]]; lia]).
    all: destruct (requested tick) eqn:Hr; [intros [= <- _]; split; [done|intros [[? _] _]; done]|].
    all: destruct (one_cycle config callback index _ l0) as [l1|]; [|done].
    all: rewrite unsigned_wrap_id by solve_range; intros H; apply IH in H; [|lia..]; rewrite H.
    all: split; [intros [? ?]; split; [done|lia]|intros [[_ ?] ?]; split; [done|lia]].
Qed.

Section Stop.
Context (callback : CycleContext → code) (e : CyclicExecutor).
Hypothesis Hperiod : 0 < period (config_ e).
Hypothesis Hdepth : ∀ ctx, 1 + depth (callback ctx) < 2 ^ 31.
Hypothesis Hfresh : executor_stats e = newStats.

Lemma run_executor_clears max_cycles start ticks g :
  run_executor callback max_cycles start ticks e g =
  run (config_ e) callback max_cycles start (observe false ticks) newStats g.
Proof. unfold run_executor. by rewrite (proj2 (Z.leb_gt _ _)), Hfresh. Qed.

Lemma run_executor_spec horizon start max_cycles ticks g :
  0 ≤ max_cycles → guard_ready g → well_timed (config_ e) horizon start (observe false ticks) →
  ∃ b l, run_executor callback max_cycles start ticks e g = Some (b, l) ∧
    cycles_executed (stats_ l) = Z.of_nat (limited max_cycles 0 (before_request ticks)) ∧
    (b = false ↔ Forall (λ tick, requested tick = false) ticks ∧
                 (max_cycles = 0 ∨ Z.of_nat (length ticks) < max_cycles)) ∧
    (b = true → allocation_violations (stats_ l) =
       u64 (total_violations (config_ e) callback (reverse (invocations l)))).
Proof.
  intros Hm Hg Hw. rewrite run_executor_clears.
  destruct (run_spec (config_ e) callback Hperiod Hdepth horizon start max_cycles _ g Hg Hw)
    as (b & l & Hr & Hi & Hc & _ & Hv). cbv zeta in *.
  eexists b, _. split; [exact Hr|]. destruct Hi as [_ Hn _ _ _ _ _ _].
  rewrite executed_observe in Hn by lia. split_and!.
  - by destruct b.
  - unfold run in Hr. rewrite (proj2 (Z.leb_gt _ _)) in Hr by done.
    destruct Hw as (Hs & _ & Hh). rewrite length_observe in Hh.
    destruct (loop _ _ _ _ _ _) as [[b' l']|] eqn:Hl; [|done].
    assert (b' = b) as -> by (destruct b', b; simplify_eq; done).
    apply loop_waits in Hl; [done|lia|].
    change (2 ^ 64) with 18446744073709551616. change (2 ^ 63) with 9223372036854775808 in Hh. nia.
  - intros ->. simpl. rewrite Hv, Hc. destruct Hg as (_ & _ & _ & Hu).
    unfold unsigned_wrap. rewrite Zminus_mod_idemp_l. f_equal. lia.
Qed.

(** A stop request ends the run. A request made during a run, by the callback
    or by another thread, ends it before its next cycle, so the cycles executed
    are those before the first request (or the limit, if that comes first); and
    the run does return. A request made before [run] is called has no effect at
    all, as [run] clears the flag. *)
Theorem stop_request_ends_run horizon start max_cycles ticks g :
  0 ≤ max_cycles → guard_ready g → well_timed (config_ e) horizon start (observe false ticks) →
  ∃ b l, run_executor callback max_cycles start ticks e g = Some (b, l) ∧
    cycles_executed (stats_ l) = Z.of_nat (limited max_cycles 0 (before_request ticks)) ∧
    (existsb requested ticks = true → b = true) ∧
    run_executor callback max_cycles start ticks (requestStop e) g =
      run_executor callback max_cycles start ticks e g.
Proof.
  intros Hm Hg Hw. destruct (run_executor_spec horizon start max_cycles ticks g Hm Hg Hw)
    as (b & l & Hr & Hn & Hb & _).
  exists b, l. split_and!; [done|done| |].
  - intros Hex. destruct b; [done|]. destruct (proj1 Hb eq_refl) as [Hf _].
    apply existsb_exists in Hex as (tick & Hin & Ht). rewrite Forall_forall in Hf.
    apply list_elem_of_In, Hf in Hin. congruence.
  - unfold run_executor, requestStop, with_stop. simpl. by rewrite (proj2 (Z.leb_gt _ _)).
Qed.

End Stop.

(** ** The report *)

Section Report.
Context (kernel : Kernel) (version : option string) (guard0 : Guard).
(** The program starts outside every allocation scope. *)
Hypothesis Hdepths : t_no_alloc_depth guard0 = 0 ∧ t_allow_depth guard0 = 0.

Local Abbreviation report_main := (report_main kernel version guard0).
Local Abbreviation preamble := (preamble kernel version guard0).

Lemma report_guard_ready : guard_ready (report_guard guard0).
Proof. destruct Hdepths. by repeat split. Qed.

Lemma control_step_quiet config ctxs : total_violations config control_step ctxs = 0.
Proof.
  induction ctxs as [|ctx ctxs IH]; [done|]. change (total_violations config control_step (ctx :: ctxs))
    with (Z.of_nat (length (cycle_violations config control_step ctx)) + total_violations config control_step ctxs).
  rewrite IH. unfold cycle_violations. by destruct (guard_allocations config).
Qed.

Lemma before_request_none ticks :
  Forall (λ tick, requested tick = false) ticks → before_request ticks = length ticks.
Proof. induction 1 as [|tick ticks Ht _ IH]; simpl; [done|]. by rewrite Ht, IH. Qed.

(** The report runs what it announces. Nothing in the program requests a stop,
    so for a frequency of at most 1 GHz and a cycle count that fits, the run
    ends as soon as the announced number of cycles has been executed, and not
    before: the printed report ends with the results of exactly
    [frequency * seconds] cycles and no allocation violation, and until then
    only the conditions are printed. *)
Theorem report_completes argv horizon start ticks :
  let f := argument argv 1 1000 in let s := argument argv 2 5 in
  0 < f ≤ 1000000000 → 0 < s → f * s < 2 ^ 63 →
  Forall (λ tick, requested tick = false) ticks →
  well_timed (report_config f) horizon start (observe false ticks) →
  if decide (f * s ≤ Z.of_nat (length ticks))
  then ∃ stats acc, report_main argv start ticks = Some (Reported (preamble f s ++ results stats) acc) ∧
         cycles_executed stats = f * s ∧ allocation_violations stats = 0
  else report_main argv start ticks = Some (InLoop (preamble f s)).
Proof.
  cbv zeta. intros Hf Hs Hfs Hreq Hw. unfold report_main.
  set (f := argument argv 1 1000) in *. set (s := argument argv 2 5) in *.
  rewrite (proj2 (Z.leb_gt f 0)), (proj2 (Z.leb_gt s 0)) by lia. cbn [orb].
  assert (Hc : report_cycles f s = f * s).
  { unfold report_cycles. rewrite signed_wrap_id by (unfold in_signed; simpl Z.sub; nia).
    apply unsigned_wrap_id. unfold in_unsigned. change (2 ^ 64) with (2 * 2 ^ 63). nia. }
  assert (Hp : 0 < period (config_ (report_executor f))).
  { simpl. unfold report_period. apply Z.quot_str_pos. lia. }
  destruct (run_executor_spec control_step (report_executor f) Hp (λ _, eq_refl) eq_refl
    horizon start (report_cycles f s) ticks (report_guard guard0)) as (b & l & Hr & Hn & Hb & Hv);
    [rewrite Hc; nia|apply report_guard_ready|done|].
  rewrite Hr. rewrite Hc, before_request_none in Hn by done. unfold limited in Hn.
  destruct (Z.eqb_spec (f * s) 0); [nia|]. rewrite Hc in Hb.
  destruct (decide (f * s ≤ Z.of_nat (length ticks))) as [Hle|Hgt].
  - destruct b; [|destruct (proj1 Hb eq_refl) as [_ [?|?]]; lia].
    exists (stats_ l), (accumulate (reverse (invocations l))). split; [done|].
    rewrite Hv, control_step_quiet by done. split; [|done]. rewrite Hn. nia.
  - destruct b; [|done]. discriminate (proj2 Hb). split; [done|right; lia].
Qed.

(** ** The disclaimer *)

(** The kernel granted and confirmed what the program asked for. *)
Definition granted : Prop :=
  setschedparam kernel = 0 ∧
  (∀ p q, getschedparam kernel = Some (p, q) → p = SCHED_FIFO) ∧
  setaffinity kernel = 0 ∧ getaffinity kernel = Some (true, 1) ∧ isVirtualised version = false.

Lemma trustworthy_granted f :
  trustworthy version (configureCallingThread kernel (report_executor f)) = true ↔ granted.
Proof.
  clear Hdepths. unfold trustworthy, configureCallingThread, applyThreadConfig, granted.
  destruct (apply_scheduling _ _ _) as [[[sched p] q] text] eqn:Es.
  destruct (apply_affinity _ _ _ text) as [aff text'] eqn:Ea.
  destruct (apply_lock _ _ _ _) as [lk t2]. destruct (apply_prefault _ _ _) as [pf t3]. simpl.
  unfold apply_scheduling in Es. simpl in Es. unfold apply_affinity in Ea. simpl in Ea.
  assert (Hs : sched = true ↔ setschedparam kernel = 0 ∧
    (∀ p q, getschedparam kernel = Some (p, q) → p = SCHED_FIFO)).
  { revert Es. destruct (Z.eqb_spec (setschedparam kernel) 0) as [H0|H0]; simpl.
    - destruct (getschedparam kernel) as [[p' q']|]; simpl; [|intros; simplify_eq; naive_solver].
      destruct (Z.eqb_spec p' SCHED_FIFO) as [H1|H1]; simpl; intros; simplify_eq; [naive_solver|].
      split; [done|]. intros [_ Hk]. by destruct H1, (Hk p q).
    - destruct (getschedparam kernel) as [[p' q']|]; intros; simplify_eq; naive_solver. }
  assert (Ha : aff = true ↔ setaffinity kernel = 0 ∧ getaffinity kernel = Some (true, 1)).
  { revert Ea. destruct (Z.eqb_spec (setaffinity kernel) 0) as [H0|H0]; simpl; [|intros; simplify_eq; naive_solver].
    destruct (getaffinity kernel) as [[[] [|[]|]]|]; intros; simplify_eq; naive_solver. }
  rewrite !andb_true_iff, negb_true_iff. naive_solver.
Qed.

(** No figure without its conditions. Whatever the run does, what the program
    prints begins with the measurement conditions, and unless the kernel
    accepted SCHED_FIFO and reports it, pinned the thread to exactly the CPU
    asked for, and the host is not recognised as virtualised, they end with the
    line saying that the figures below are not a characterisation of the code. *)
Theorem report_leads_with_conditions argv start ticks lines acc :
  report_main argv start ticks = Some (Reported lines acc) →
  ∃ pre stats, lines = pre ++ results stats ∧
    conditions version guard0 (argument argv 1 1000) (argument argv 2 5)
      (configureCallingThread kernel (report_executor (argument argv 1 1000))) `prefix_of` pre ∧
    ("> The figures below are NOT a characterisation of this code." ∉ pre → granted).
Proof.
  unfold report_main. destruct (_ || _); [done|].
  destruct (run_executor _ _ _ _ _ _) as [[[] l]|]; [|done|done].
  intros [= <- _]. exists (preamble (argument argv 1 1000) (argument argv 2 5)), (stats_ l).
  split; [reflexivity|]. unfold preamble. split; [by apply prefix_app_r|].
  intros Hno. apply (trustworthy_granted (argument argv 1 1000)).
  destruct (trustworthy _ _); [done|]. destruct Hno. apply elem_of_app. right. apply elem_of_app. left.
  by do 2 constructor.
Qed.

(** Above 1 GHz the period rounds to zero, [run] returns at once, and a report
    of no cycles is printed under the announcement of millions. *)
Theorem gigahertz_runs_nothing argv start ticks :
  1000000000 < argument argv 1 1000 → 0 < argument argv 2 5 →
  report_main argv start ticks =
    Some (Reported (preamble (argument argv 1 1000) (argument argv 2 5) ++ results newStats) 0).
Proof.
  intros Hf Hs. unfold report_main. rewrite (proj2 (Z.leb_gt (argument argv 1 1000) 0)),
    (proj2 (Z.leb_gt (argument argv 2 5) 0)) by lia. cbn [orb].
  unfold run_executor, run. simpl. unfold report_period. by rewrite Z.quot_small by lia.
Qed.

End Report.

(** The product of the arguments is not checked: 2^29 Hz for 2^35 s comes to
    zero cycles (in wrapping arithmetic), which means without limit. *)
Example product_overflows : report_cycles 536870912 34359738368 = 0 ∧ 0 < report_period 536870912.
Proof. by_compute. Qed.

(** ** Instances *)

Definition quiet_ticks : list Tick :=
  [mkTick false 1000100 1000200; mkTick false 2000100 2000200; mkTick false 3000100 3000200].

Lemma stop_request_ends_run_witness :
  ∃ b l, run_executor control_step 0 0 (take 2 quiet_ticks ++ [mkTick true 3000100 3000200])
      (report_executor 1000) (report_guard newGuard) = Some (b, l) ∧
    cycles_executed (stats_ l) = 2 ∧ b = true.
Proof.
  destruct (stop_request_ends_run control_step (report_executor 1000) ltac:(by_compute)
    (λ _, eq_refl) eq_refl 10000000 0 0 (take 2 quiet_ticks ++ [mkTick true 3000100 3000200])
    (report_guard newGuard)) as (b & l & Hr & Hn & Hb & _);
    [lia|apply report_guard_ready; done|by_compute|].
  exists b, l. split; [exact Hr|]. split; [exact Hn|]. by apply Hb.
Defined.

Definition report_argv : list string := ["rt_cycle_report"; "3"; "1"].

Definition second_ticks : list Tick :=
  [mkTick false 333333400 333333500; mkTick false 666666700 666666800; mkTick false 1000000000 1000000100].

Lemma report_completes_witness :
  ∃ stats acc, report_main demo_kernel (Some "Linux version 6.1") newGuard report_argv 0 second_ticks =
      Some (Reported (preamble demo_kernel (Some "Linux version 6.1") newGuard 3 1 ++ results stats) acc) ∧
    cycles_executed stats = 3 ∧ allocation_violations stats = 0.
Proof.
  apply (report_completes demo_kernel (Some "Linux version 6.1") newGuard (conj eq_refl eq_refl)
    report_argv 2000000000 0 second_ticks); by_compute.
Defined.

Lemma report_leads_with_conditions_witness :
  granted demo_kernel (Some "Linux version 6.1") ∧
  ∃ lines acc pre stats,
    report_main demo_kernel (Some "Linux version 6.1") newGuard report_argv 0 second_ticks =
      Some (Reported lines acc) ∧ lines = pre ++ results stats.
Proof.
  destruct (report_main demo_kernel (Some "Linux version 6.1") newGuard report_argv 0 second_ticks)
    as [[m|lines acc|lines]|] eqn:Hr;
    [apply (f_equal (λ o, match o with Some (Usage _) => true | _ => false end)) in Hr; vm_compute in Hr; discriminate Hr
    | |apply (f_equal (λ o, match o with Some (InLoop _) => true | _ => false end)) in Hr; vm_compute in Hr; discriminate Hr
    |apply (f_equal (λ o, match o with None => true | _ => false end)) in Hr; vm_compute in Hr; discriminate Hr].
  destruct (report_leads_with_conditions demo_kernel (Some "Linux version 6.1") newGuard
    report_argv 0 second_ticks lines acc Hr) as (pre & stats & Hl & _ & _).
  split; [|exists lines, acc, pre, stats; split; [reflexivity|exact Hl]].
  split_and!; [done| |done|done|by_compute]. by intros p q [= <- <-].
Defined.

Lemma gigahertz_runs_nothing_witness :
  ∃ lines, report_main demo_kernel None newGuard ["rt_cycle_report"; "2000000000"] 0 second_ticks =
    Some (Reported (lines ++ results newStats) 0).
Proof.
  eexists. apply (gigahertz_runs_nothing demo_kernel None newGuard ["rt_cycle_report"; "2000000000"]);
    by_compute.
Defined.
