(* ===== verification/ProbeReport.v ===== *)
(** * What the probe writes

    The rest of [src/src/apps/safeedge_opcua_probe.cpp]: the select clauses of
    the event filter, the identity it generates, the files it writes, the
    measuring loop with its deadline, and the report printed at the end. *)

From Stdlib Require Import SpecFloat Ascii String.
From stdpp Require Import base numbers list option strings pretty sorting.
From S2P Require Import Prelude Float64 Strings OpcuaSecurity OpcuaServer Metrics OpcuaProbe OpcuaProbeSafety CycleReport.

#[local] Open Scope string_scope.
#[local] Open Scope Z_scope.
#[local] Open Scope list_scope.

(** ** Select clauses *)

(** The type and the attribute a clause names, by their names in the standard. *)
Inductive EventTypeId := BaseEventType.
Inductive AttributeId := ValueAttribute.

Record SelectClause := mkClause {
  typeDefinitionId : EventTypeId;
  attributeId : AttributeId;
  browsePath : list (Z * string)
}.

Definition makeSelectClause (ns : Z) (name : string) : SelectClause :=
  mkClause BaseEventType ValueAttribute [(ns, name)].

(** The clauses of the filter: each names one field, on the base type. *)
Definition clauses (namespace_index : Z) : list SelectClause :=
  (λ c, makeSelectClause c.1 c.2) <$> select_clauses namespace_index.

(** ** Identity and files *)

Definition kProbeApplicationUri : string := "urn:safeedge:opcua:probe".

(** The names in the certificate, given to the stack's generator. *)
Definition probe_subject : list string := ["C=DE"; "O=safeedge"; "CN=safeedge-opcua-probe"].
Definition probe_subject_alt_name : list string := ["DNS:localhost"; "URI:" +:+ kProbeApplicationUri].

Definition createIdentity (generate : list string → list string → option (ByteString * ByteString))
  : option (ByteString * ByteString) := generate probe_subject probe_subject_alt_name.

(** A buffered stream: whether it opens, how much [fwrite] takes, and whether
    [fclose] can write the buffer out. *)
Record Stream := mkStream { fopen_ok : bool; fwrite_takes : nat; fclose_ok : bool }.

Definition writeFile (f : Stream) (bytes : ByteString) : bool :=
  if negb (fopen_ok f) then false else (fwrite_takes f =? length bytes)%nat.

(** What is on the disk afterwards. *)
Definition file_complete (f : Stream) (bytes : ByteString) : bool :=
  fopen_ok f && (fwrite_takes f =? length bytes)%nat && fclose_ok f.

(** A file small enough for the stream's buffer is reported as written even when
    the device is full: the failure of [fclose] is not looked at. *)
Lemma write_failure_unreported f bytes :
  fopen_ok f = true → fwrite_takes f = length bytes → fclose_ok f = false →
  writeFile f bytes = true ∧ file_complete f bytes = false.
Proof.
  intros Ho Hw Hc. unfold writeFile, file_complete. rewrite Ho, Hw, Hc, Nat.eqb_refl. done.
Qed.

(** ** The measuring loop *)

(** The readings of the clock before each turn, and what the turn delivers. *)
Fixpoint measuring_loop (deadline : Z) (turns : list (Z * list Notification)) (p : Probe)
  : bool * Probe :=
  match turns with
  | [] => (false, p)
  | (now, delivered) :: turns =>
      if now <? deadline then measuring_loop deadline turns (foldl dispatch p delivered) else (true, p)
  end.

(** Up to the first reading at or past the deadline everything delivered is
    measured and nothing after it, and the loop then ends. *)
Lemma measuring_loop_spec deadline before now delivered after p :
  Forall (λ t, t.1 < deadline) before → deadline ≤ now →
  measuring_loop deadline (before ++ (now, delivered) :: after) p =
  (true, foldl dispatch p (mjoin before.*2)).
Proof.
  intros Hbefore Hnow. revert p. induction Hbefore as [|[t ns] before Ht _ IH]; intros p; simpl in *.
  - by destruct (Z.ltb_spec now deadline); [lia|].
  - destruct (Z.ltb_spec t deadline); [|lia]. by rewrite IH, foldl_app.
Qed.

(** A runtime that had not yet changed state when the probe subscribed: the
    opening report is ignored as a repeat, and its first change is then taken
    for the opening report and not measured. *)
Lemma first_change_discarded now0 now n :
  u64 n ≠ 0 →
  g_latencies (foldl dispatch newProbe
    [DataChange now0 (Some (mkDataValue None (Some (Int64 0))));
     DataChange now (Some (mkDataValue None (Some (Int64 n))))]) = [].
Proof. intros Hn. simpl. by destruct (Z.eqb_spec (u64 n) 0). Qed.

(** ** The text *)

(** [static_cast<double>(ns) / 1e6]. *)
Definition ms (ns : Z) : double := ddiv (double_of_Z ns) (double_of_Z 1000000).

(** What the handlers print for the measurement they have just added. *)
Definition notification_line (n : nat) (ns : Z) : string :=
  "  notification " +:+ pad_left 2 (pretty n) +:+ ": " +:+ pad_left 8 (format_f 3 (ms ns)) +:+
  " ms after the runtime decided".

Definition event_line (n : nat) (sequence ns coalesced : Z) : string :=
  "  event " +:+ pad_left 2 (pretty n) +:+ ": seq " +:+ pretty sequence +:+ ", " +:+
  pad_left 8 (format_f 3 (ms ns)) +:+ " ms after the runtime decided" +:+
  (if 0 <? coalesced then " (server coalesced some)" else EmptyString).

Definition onTransitionChanged_prints (now : Z) (v : option DataValue) (p : Probe) : list string :=
  let p' := onTransitionChanged now v p in
  if negb (g_had_initial p) && g_had_initial p' then
    ["  (initial value discarded: it reports state, not a change)"]
  else
    match drop (length (g_latencies p)) (g_latencies p') with
    | ns :: _ => [notification_line (length (g_latencies p')) ns]
    | [] => []
    end.

Definition onSafetyEvent_prints (now : Z) (fields : list (option Scalar)) (p : Probe) : list string :=
  let p' := onSafetyEvent now fields p in
  match drop (length (g_event_latencies p)) (g_event_latencies p') with
  | ns :: _ =>
      [event_line (length (g_event_latencies p')) (default 0 (as_uint64 (field fields kFieldSequence)))
         ns (g_events_coalesced_by_server p')]
  | [] => []
  end.

Definition dispatch_prints (p : Probe) (n : Notification) : list string :=
  match n with
  | DataChange now v => onTransitionChanged_prints now v p
  | SafetyEvent now fields => onSafetyEvent_prints now fields p
  end.

(** The lines of a whole measurement. *)
Fixpoint progress (p : Probe) (ns : list Notification) : list string :=
  match ns with
  | [] => []
  | n :: ns => dispatch_prints p n ++ progress (dispatch p n) ns
  end.

Definition summary_line (s : nat * Z * Z * Z) : string :=
  let '(n, least, median, greatest) := s in
  "n=" +:+ pretty n +:+ "   min " +:+ format_f 1 (ms least) +:+ " ms   median " +:+
  format_f 1 (ms median) +:+ " ms   max " +:+ format_f 1 (ms greatest) +:+ " ms".

Definition explanation : list string :=
  [EmptyString;
   "The binding constraint is the REVISED publishing interval above, not";
   "the one this client requested. Measured on this server:";
   EmptyString;
   "  asked 10/10, revised to 100/50 (stock limits)  ->  median 74.9 ms";
   "  asked 10/10, granted 10/10 (limits lowered)    ->  median 12.1 ms";
   EmptyString;
   "Same client, same request, six times the difference -- decided entirely";
   "by the server's publishingIntervalLimits. A client cannot subscribe";
   "faster than the server permits, and one that reports the interval it";
   "asked for rather than the one it was given is reporting a wish.";
   EmptyString;
   "So a subscription is not inherently faster than a poll. What it removes";
   "is the *client's* poll; the server-side intervals remain, and they are";
   "somebody's configuration rather than a property of the protocol."].

Definition data_report (seconds : Z) (p : Probe) : list string :=
  match summary (g_latencies p) with
  | None =>
      ["no transitions observed in " +:+ pretty seconds +:+ " s -- nothing tripped the runtime"]
  | Some s => summary_line s :: explanation
  end.

Definition event_report (p : Probe) : list string :=
  [EmptyString;
   match summary (g_event_latencies p) with
   | None => "no safety events received"
   | Some s => "events: " +:+ summary_line s
   end;
   "counts: " +:+ pretty (length (g_latencies p)) +:+ " data-change notification(s), " +:+
     pretty (g_events_received p) +:+ " event(s)";
   "        " +:+ pretty (g_events_coalesced_by_server p) +:+
     " transition(s) the SERVER itself coalesced between snapshot";
   "        reads, which no subscription of either kind could recover."].

Definition status_report (p : Probe) : list string :=
  if g_saw_bad_status p then
    [EmptyString; "At least one notification carried a bad status: the server could not";
     "read the runtime snapshot at that moment."]
  else [].

Definition final_report (o : ProbeOptions) (p : Probe) : list string :=
  EmptyString :: data_report (seconds o) p ++
  (if subscribe_events o then event_report p else []) ++ status_report p.

(** ** What is printed is what was measured *)

Lemma drop_snoc {A} (l : list A) (x : A) : drop (length l) (l ++ [x]) = [x].
Proof. by rewrite drop_app_length. Qed.

(** The lines a probe has printed so far, by its state. *)
Definition lines_due (p : Probe) : nat :=
  (length (g_latencies p) + length (g_event_latencies p) + if g_had_initial p then 1 else 0)%nat.

(** Every branch of a handler, with the lines and latencies it adds. *)
Ltac count_lines :=
  repeat (case_match; simplify_eq; cbn in *; rewrite ?drop_all, ?drop_snoc in *; simplify_eq;
          rewrite ?length_app; simpl); try done; try lia.

Lemma dispatch_lines p n :
  lines_due (dispatch p n) = (lines_due p + length (dispatch_prints p n))%nat.
Proof.
  destruct n as [now v|now fields]; unfold lines_due, dispatch_prints, dispatch.
  - unfold onTransitionChanged_prints, onTransitionChanged. count_lines.
  - unfold onSafetyEvent_prints, onSafetyEvent. count_lines.
Qed.

(** One line for each latency kept, and one for the opening report. *)
Lemma progress_lines p ns :
  lines_due (foldl dispatch p ns) = (lines_due p + length (progress p ns))%nat.
Proof.
  revert p. induction ns as [|n ns IH]; intros p; simpl; [lia|].
  rewrite IH, dispatch_lines, length_app. lia.
Qed.

(** An event without a usable time is counted and has no latency: the report
    then says that no events were received and counts one. *)
Example report_contradicts_itself :
  let p := foldl dispatch newProbe
             [SafetyEvent 5 [Some (Int64 9); Some (UInt64 1); Some (UInt64 0); None]] in
  event_report p =
  [EmptyString; "no safety events received";
   "counts: 0 data-change notification(s), 1 event(s)";
   "        0 transition(s) the SERVER itself coalesced between snapshot";
   "        reads, which no subscription of either kind could recover."].
Proof. vm_compute. reflexivity. Qed.

Example summary_line_example :
  summary_line (3%nat, 1500000, 12050000, 74949999) =
  "n=3   min 1.5 ms   median 12.1 ms   max 74.9 ms".
Proof. vm_compute. reflexivity. Qed.
