(* ===== verification/FairTermination.v ===== *)
(** * Termination under fair scheduling

    Systems of threads that step one at a time, in an order chosen by a schedule
    that lets every thread run again and again. A class states what makes such a
    system end: a measure that no step increases, and in every state a thread
    whose step decreases it and that stays the helpful one until it runs. *)

From stdpp Require Import base numbers list option.
From S2P Require Import Prelude.

(** ** Schedules *)

Section Schedules.
Context {S E T : Type} (step : E → S → S) (thread_of : E → option T).

(** The state after the first [n] events. *)
Fixpoint run_schedule (schedule : nat → E) (n : nat) (s : S) : S :=
  match n with
  | O => s
  | Datatypes.S n => run_schedule (λ k, schedule (Datatypes.S k)) n (step (schedule O) s)
  end.

(** Every thread has a step after every moment. *)
Definition fair (schedule : nat → E) : Prop :=
  ∀ t n, ∃ k, (n ≤ k)%nat ∧ thread_of (schedule k) = Some t.

Lemma run_schedule_add schedule m n s :
  run_schedule schedule (m + n) s =
  run_schedule (λ k, schedule (m + k)%nat) n (run_schedule schedule m s).
Proof. revert schedule s. induction m as [|m IH]; intros schedule s; [done|apply IH]. Qed.

Lemma fair_drop m schedule : fair schedule → fair (λ k, schedule (m + k)%nat).
Proof.
  intros Hf t n. destruct (Hf t (m + n)%nat) as (k & Hk & Et). exists (k - m)%nat.
  split; [lia|]. by replace (m + (k - m))%nat with k by lia.
Qed.

(** Threads that take turns of [count] steps are scheduled fairly, whatever
    events come first. *)
Lemma in_turns_are_fair (es : list E) (turn : nat → E) (count : nat) (place : T → nat) :
  (0 < count)%nat → (∀ t n, thread_of (turn (place t + n * count)%nat) = Some t) →
  fair (λ k, default (turn k) (es !! k)).
Proof.
  intros Hc Ht t n. exists (place t + (n + length es) * count)%nat. split; [nia|].
  rewrite (proj2 (lookup_ge_None _ _)) by nia. apply Ht.
Qed.

(** An invariant holds along a schedule. *)
Lemma run_schedule_invariant (ok : S → Prop) schedule n s :
  (∀ e s, ok s → ok (step e s)) → ok s → ok (run_schedule schedule n s).
Proof. intros Hok. revert schedule s. induction n as [|n IH]; intros schedule s Hs; [done|]. by apply IH, Hok. Qed.

(** A finite run is the beginning of a schedule. *)
Lemma run_schedule_foldl es (rest : nat → E) s :
  run_schedule (λ k, default (rest k) (es !! k)) (length es) s = foldl (λ s e, step e s) s es.
Proof.
  revert rest s. induction es as [|e es IH]; intros rest s; [done|].
  apply (IH (λ k, rest (Datatypes.S k))).
Qed.
End Schedules.

(** ** Ending *)

Class FairTermination {S E T : Type} (step : E → S → S) (thread_of : E → option T)
    (ok : S → Prop) (ended : S → bool) := {
  steps_left : S → nat;
  helpful : S → T;
  ft_ok e s : ok s → ok (step e s);
  ft_no_more e s : ok s → (steps_left (step e s) ≤ steps_left s)%nat;
  ft_fewer e s :
    ok s → ended s = false → thread_of e = Some (helpful s) →
    (steps_left (step e s) < steps_left s)%nat;
  ft_stays e s :
    ok s → ended s = false → thread_of e ≠ Some (helpful s) →
    (steps_left (step e s) < steps_left s)%nat ∨ helpful (step e s) = helpful s
}.

Section Ending.
Context {S E T : Type} `{!EqDecision T} {step : E → S → S} {thread_of : E → option T}
  {ok : S → Prop} {ended : S → bool} `{!FairTermination step thread_of ok ended}.

(** Within the time until the helpful thread runs, the system ends or has fewer
    steps left. *)
Lemma helpful_runs k schedule s :
  ok s → thread_of (schedule k) = Some (helpful s) →
  ∃ n, ended (run_schedule step schedule n s) = true ∨
       (steps_left (run_schedule step schedule n s) < steps_left s)%nat.
Proof.
  revert schedule s. induction k as [|k IH]; intros schedule s Hs Hk.
  all: destruct (ended s) eqn:He; [by exists 0%nat; left|].
  { exists 1%nat. right. cbn [run_schedule]. by apply ft_fewer. }
  destruct (decide (thread_of (schedule 0%nat) = Some (helpful s))) as [H0|H0].
  { exists 1%nat. right. cbn [run_schedule]. by apply ft_fewer. }
  destruct (ft_stays _ _ Hs He H0) as [Hlt|Hsame]; [by exists 1%nat; right|].
  pose proof (ft_no_more (schedule 0%nat) s Hs) as Hle.
  destruct (IH (λ k, schedule (Datatypes.S k)) (step (schedule 0%nat) s)) as [n Hn].
  - by apply ft_ok.
  - by rewrite Hsame.
  - exists (Datatypes.S n). cbn [run_schedule]. destruct Hn as [Hn|Hn]; [by left|right; lia].
Qed.

(** Under every fair schedule the system ends. *)
Lemma fair_terminates schedule s :
  ok s → fair thread_of schedule → ∃ n, ended (run_schedule step schedule n s) = true.
Proof.
  remember (steps_left s) as m eqn:Hm. revert schedule s Hm.
  induction (lt_wf m) as [m _ IH]; intros schedule s -> Hs Hf.
  destruct (Hf (helpful s) 0%nat) as (k & _ & Hk).
  destruct (helpful_runs k schedule s Hs Hk) as (n & [Hn|Hn]); [by exists n|].
  destruct (IH _ Hn (λ k, schedule (n + k)%nat) _ eq_refl) as [n' Hn'].
  - apply run_schedule_invariant; [|done]. intros e s'. apply ft_ok.
  - by apply fair_drop.
  - exists (n + n')%nat. by rewrite run_schedule_add.
Qed.
End Ending.
