(* ===== verification/ProcessThreads.v ===== *)
(** * The threads of the runtime process

    [src/src/apps/safeedged.cpp] from the started server to the end of [main], as
    five threads that step one at a time: [main] works off the actions of
    [Process.run_control], the control thread configures itself and runs the
    executor's loop, the accept loop serves connections, and the two watchers
    watch their files. A signal may arrive at any moment. One step is one access
    to what the threads share: the flags, the files, a cycle, or a blocking
    call. *)

From Stdlib Require Import Ascii String.
From stdpp Require Import base numbers list option strings pretty.
From S2P Require Import Prelude CyclicExecutor ThreadConfig HttpServer Snapshot Runtime Process.

#[local] Open Scope string_scope.
#[local] Open Scope Z_scope.
#[local] Open Scope list_scope.

(** ** The state of each thread *)

(** Where the control thread is: before the thread exists; configuring itself;
    before [loop_running] is set; at the start of [run]; at the head of its
    loop; in [sleepUntil]; before the callback; in the callback after the
    snapshot is stored; after [run]; ended. *)
Inductive ControlPc :=
  | ControlAbsent
  | Configuring (thread : ThreadConfig)
  | Marking
  | Entering
  | Testing
  | Sleeping
  | InCycle
  | LeavingCycle
  | Unmarking
  | ControlEnded.

(** The flags are those of the executor ([stop_requested_]) and of [main]
    ([loop_running]); [granted] is [thread_report.scheduling_applied];
    [published] are the stored snapshots, newest first. *)
Record ControlThread := mkControl {
  control_at : ControlPc;
  executor : Config;
  stop_requested_ : bool;
  loop_running : bool;
  granted : bool;
  published : list Edge.RuntimeSnapshot
}.

(** Where the accept loop is; [Reading] holds the request so far. *)
Inductive AcceptPc :=
  | AcceptTesting
  | Polling
  | Accepting
  | Reading (request : string)
  | Responding (request : string)
  | Closing
  | AcceptEnded.

Record ServerThread := mkServerThread {
  accept_at : AcceptPc;
  server_running_ : bool
}.

(** Where a watcher's thread is; inside an iteration, [Runtime.pc] says where. *)
Inductive WatchPc := WatcherAbsent | WatcherTesting | Watching | WatcherSleeping | WatcherEnded.

Record WatcherThread := mkWatcherThread {
  watcher_at : WatchPc;
  watcher_running_ : bool
}.

(** ** The process *)

(** The arguments of [logEvent]. *)
Definition LogRecord : Type := string * string * option string.

(** [todo] is what [main] has still to do; [logged] is newest first. *)
Record ProcessState := mkProcess {
  todo : list Action;
  g_shutdown_requested : bool;
  control : ControlThread;
  server : ServerThread;
  estop_thread : WatcherThread;
  ack_thread : WatcherThread;
  system : System;
  logged : list LogRecord
}.

Inductive ThreadId := MainThread | ControlId | AcceptId | EstopId | AckId.

#[export] Instance thread_id_eq_dec : EqDecision ThreadId.
Proof. solve_decision. Defined.

(** The next step: of a thread, with what it gets from outside (the surroundings
    of a cycle; the result of [poll] or [accept] and the text of [read]; the
    outcome of [unlink]), the delivery of a signal, or somebody creating or
    removing one of the files. *)
Inductive ThreadEvent :=
  | MainStep
  | ControlStep (surroundings : Cycle)
  | AcceptStep (result : Z) (chunk : string)
  | EstopStep
  | AckStep (unlink_ok : bool)
  | Signal
  | SetEstopFile (present : bool)
  | SetAckFile (present : bool).

Definition thread_of (e : ThreadEvent) : option ThreadId :=
  match e with
  | MainStep => Some MainThread
  | ControlStep _ => Some ControlId
  | AcceptStep _ _ => Some AcceptId
  | EstopStep => Some EstopId
  | AckStep _ => Some AckId
  | _ => None
  end.

(** ** The control thread *)

(** The cycle's surroundings with the report that the thread captured. *)
Definition with_granted (granted : bool) (c : Cycle) : Cycle :=
  mkCycle (context c) (estop_asserted c) (acknowledge_taken c) (stats c) (transition_clock c)
    (age_clock c) (estop_asserted_again c) granted (uptime c).

(** The snapshot that the callback stores. *)
Definition snapshot_stored (s : System) (c : Cycle) : Edge.RuntimeSnapshot :=
  (cycle (runtime s) (with_flags (asserted (estop s)) (takeOnce (acknowledge s)).1 c)).1.

(** What the thread logs of its configuration. *)
Definition configuration_record (r : ThreadConfigReport) : LogRecord :=
  if negb (ThreadConfig.scheduling_applied r) then
    ("warn", "real-time scheduling not granted; latency metrics are indicative only",
     Some (diagnostics r))
  else ("info", "real-time scheduling granted", None).

Section Steps.
Context (kernel : Kernel).

(** The callback ends with the test of the shutdown flag; the flag is read once
    in [LeavingCycle]. *)
Definition control_step (shutdown : bool) (c : Cycle) (t : ControlThread) (s : System)
  : ControlThread * System * list LogRecord :=
  let '(mkControl pc x stop running g snapshots) := t in
  match pc with
  | ControlAbsent | ControlEnded => (t, s, [])
  | Configuring thread =>
      let r := applyThreadConfig thread kernel pretty in
      (mkControl Marking x stop running (ThreadConfig.scheduling_applied r) snapshots, s,
       [configuration_record r])
  | Marking => (mkControl Entering x stop true g snapshots, s, [])
  | Entering =>
      if period x <=? 0 then (mkControl Unmarking x stop running g snapshots, s, [])
      else (mkControl Testing x false running g snapshots, s, [])
  | Testing => (mkControl (if stop then Unmarking else Sleeping) x stop running g snapshots, s, [])
  | Sleeping => (mkControl InCycle x stop running g snapshots, s, [])
  | InCycle =>
      let c := with_granted g c in
      (mkControl LeavingCycle x stop running g (snapshot_stored s c :: snapshots),
       system_step s (LoopCycle c), [])
  | LeavingCycle => (mkControl Testing x (if shutdown then true else stop) running g snapshots, s, [])
  | Unmarking => (mkControl ControlEnded x stop false g snapshots, s, [])
  end.

(** ** The accept loop *)

(** A timeout or an error of [poll], and a [read] of nothing, drop the
    connection; the thread computes the response and writes it in one step. *)
Definition accept_step (result : Z) (chunk : string) (t : ServerThread) : ServerThread :=
  let '(mkServerThread pc running) := t in
  match pc with
  | AcceptEnded => t
  | AcceptTesting => mkServerThread (if running then Polling else AcceptEnded) running
  | Polling => mkServerThread (if result <=? 0 then AcceptTesting else Accepting) running
  | Accepting => mkServerThread (if result <? 0 then AcceptTesting else Reading EmptyString) running
  | Reading request =>
      if negb (contains (CRLF +:+ CRLF) request) &&
         (Z.of_nat (String.length request) <? kMaxRequestBytes) then
        if result <=? 0 then mkServerThread Closing running
        else
          match chunk with
          | EmptyString => mkServerThread Closing running
          | _ => mkServerThread (Reading (request +:+ chunk)) running
          end
      else mkServerThread (Responding request) running
  | Responding _ => mkServerThread Closing running
  | Closing => mkServerThread AcceptTesting running
  end.

(** ** The watchers *)

(** A step of a watcher's thread around the steps of an iteration: [inside] is
    where the iteration stands after its step. *)
Definition watch_step (inside : WatcherPc) (t : WatcherThread) : WatcherThread :=
  let '(mkWatcherThread pc running) := t in
  match pc with
  | WatcherAbsent | WatcherEnded => t
  | WatcherTesting => mkWatcherThread (if running then Watching else WatcherEnded) running
  | Watching =>
      mkWatcherThread (match inside with AtAccess => WatcherSleeping | _ => Watching end) running
  | WatcherSleeping => mkWatcherThread WatcherTesting running
  end.

Definition is_watching (t : WatcherThread) : bool :=
  match watcher_at t with Watching => true | _ => false end.

(** What a watcher logs in the step that stores its flag. *)
Definition watcher_record (path : string) (w : FileFlagWatcher) : list LogRecord :=
  match pc w, mode_ w with
  | AtStore _, kLatchOnce => [("info", "fault acknowledgement received", Some path)]
  | AtStore present, kLevel =>
      [("warn", if present then "emergency stop asserted" else "emergency stop cleared", Some path)]
  | _, _ => []
  end.

(** ** [main] *)

Definition log_main (level message : string) (detail : option string) (rest : list Action)
    (p : ProcessState) : ProcessState :=
  mkProcess rest (g_shutdown_requested p) (control p) (server p) (estop_thread p) (ack_thread p)
    (system p) ((level, message, detail) :: logged p).
Definition go_on (rest : list Action) (p : ProcessState) : ProcessState :=
  mkProcess rest (g_shutdown_requested p) (control p) (server p) (estop_thread p) (ack_thread p)
    (system p) (logged p).
Definition with_control (t : ControlThread) (p : ProcessState) : ProcessState :=
  mkProcess (todo p) (g_shutdown_requested p) t (server p) (estop_thread p) (ack_thread p)
    (system p) (logged p).
Definition with_server (t : ServerThread) (p : ProcessState) : ProcessState :=
  mkProcess (todo p) (g_shutdown_requested p) (control p) t (estop_thread p) (ack_thread p)
    (system p) (logged p).
Definition watcher_thread (mode : Mode) (p : ProcessState) : WatcherThread :=
  match mode with kLevel => estop_thread p | kLatchOnce => ack_thread p end.
Definition with_watcher (mode : Mode) (t : WatcherThread) (p : ProcessState) : ProcessState :=
  match mode with
  | kLevel =>
      mkProcess (todo p) (g_shutdown_requested p) (control p) (server p) t (ack_thread p)
        (system p) (logged p)
  | kLatchOnce =>
      mkProcess (todo p) (g_shutdown_requested p) (control p) (server p) (estop_thread p) t
        (system p) (logged p)
  end.

Definition control_ended (t : ControlThread) : bool :=
  match control_at t with ControlEnded => true | _ => false end.
Definition accept_ended (t : ServerThread) : bool :=
  match accept_at t with AcceptEnded => true | _ => false end.
Definition watcher_ended (t : WatcherThread) : bool :=
  match watcher_at t with WatcherEnded => true | _ => false end.

(** A step of [main]: a wait or a join that can not go on leaves the state. The
    destructor of a watcher and [HttpServer::stop] clear the flag of their
    thread in one step and join it in another. *)
Definition main_step (p : ProcessState) : ProcessState :=
  match todo p with
  | [] => p
  | a :: rest =>
      match a with
      | LogEvent level message detail => log_main level message detail rest p
      | InstallHandlers | StoreEmptySnapshot _ => go_on rest p
      | StartWatcher _ mode _ =>
          go_on rest (with_watcher mode (mkWatcherThread WatcherTesting true) p)
      | StartControl x thread =>
          go_on rest (with_control (mkControl (Configuring thread) x false
            (loop_running (control p)) false (published (control p))) p)
      | AwaitShutdown => if g_shutdown_requested p then go_on rest p else p
      | JoinControl => if control_ended (control p) then go_on rest p else p
      | StopServer =>
          if server_running_ (server p)
          then with_server (mkServerThread (accept_at (server p)) false) p
          else if accept_ended (server p) then go_on rest p else p
      | JoinWatcher _ mode =>
          let t := watcher_thread mode p in
          if watcher_running_ t then with_watcher mode (mkWatcherThread (watcher_at t) false) p
          else if watcher_ended t then go_on rest p else p
      end
  end.

(** ** The process *)

(** The steps of a thread that act on the system of files, flags and loop; the
    paths are those the watchers were given. *)
Context (estop_path ack_path : string).

Definition estop_step (p : ProcessState) : ProcessState :=
  if is_watching (estop_thread p) then
    let s := system_step (system p) EstopWatcher in
    mkProcess (todo p) (g_shutdown_requested p) (control p) (server p)
      (watch_step (pc (estop s)) (estop_thread p)) (ack_thread p) s
      (watcher_record estop_path (estop (system p)) ++ logged p)
  else with_watcher kLevel (watch_step AtAccess (estop_thread p)) p.

Definition ack_step (unlink_ok : bool) (p : ProcessState) : ProcessState :=
  if is_watching (ack_thread p) then
    let s := system_step (system p) (AckWatcher unlink_ok) in
    mkProcess (todo p) (g_shutdown_requested p) (control p) (server p) (estop_thread p)
      (watch_step (pc (acknowledge s)) (ack_thread p)) s
      (watcher_record ack_path (acknowledge (system p)) ++ logged p)
  else with_watcher kLatchOnce (watch_step AtAccess (ack_thread p)) p.

Definition with_system (s : System) (p : ProcessState) : ProcessState :=
  mkProcess (todo p) (g_shutdown_requested p) (control p) (server p) (estop_thread p)
    (ack_thread p) s (logged p).

(** [onSignal]. *)
Definition onSignal (p : ProcessState) : ProcessState :=
  mkProcess (todo p) true (control p) (server p) (estop_thread p) (ack_thread p) (system p)
    (logged p).

Definition process_step (e : ThreadEvent) (p : ProcessState) : ProcessState :=
  match e with
  | MainStep => main_step p
  | ControlStep c =>
      let '(t, s, records) := control_step (g_shutdown_requested p) c (control p) (system p) in
      mkProcess (todo p) (g_shutdown_requested p) t (server p) (estop_thread p) (ack_thread p) s
        (records ++ logged p)
  | AcceptStep result chunk => with_server (accept_step result chunk (server p)) p
  | EstopStep => estop_step p
  | AckStep unlink_ok => ack_step unlink_ok p
  | Signal => onSignal p
  | SetEstopFile present =>
      with_system (system_step (system p) (if present then TouchEstop else RemoveEstop)) p
  | SetAckFile present =>
      with_system (system_step (system p) (if present then TouchAck else RemoveAck)) p
  end.

Definition process_run (es : list ThreadEvent) (p : ProcessState) : ProcessState :=
  foldl (λ p e, process_step e p) p es.

End Steps.

(** The process when its server has started: whether a signal has arrived since
    the handlers were installed, and what was logged before. *)
Definition started (h : Host) (period : Z) (clock : timespec) (signalled estop_file ack_file : bool)
    (records : list LogRecord) : ProcessState :=
  mkProcess (run_control h period) signalled
    (mkControl ControlAbsent (executor_config period) false false false [])
    (mkServerThread AcceptTesting true)
    (mkWatcherThread WatcherAbsent true) (mkWatcherThread WatcherAbsent true)
    (newSystem clock estop_file ack_file) records.

(** [main] has returned. *)
Definition exited (p : ProcessState) : bool := match todo p with [] => true | _ => false end.
