(* ===== verification/ProcessThreadsSafety.v ===== *)
(** * The runtime process stops when told to, and only then

    What [ProcessThreads] guarantees under every interleaving of its threads: the
    order in which they end, the honesty of the health flag, the number of
    cycles after a signal, that every thread ends, that the rest of the library
    speaks of these runs, and what is left behind. *)

From Stdlib Require Import Ascii String.
From stdpp Require Import base numbers list option strings pretty sets.
From S2P Require Import Prelude Strings CyclicExecutor ThreadConfig HttpServer Snapshot Runtime RuntimeSafety Process FairTermination ProcessThreads.

#[local] Open Scope string_scope.
#[local] Open Scope Z_scope.
#[local] Open Scope list_scope.

#[local] Arguments run_control : simpl never.

(** The control thread is between the two stores to [loop_running]. *)
Definition in_run (t : ControlThread) : bool :=
  match control_at t with
  | Entering | Testing | Sleeping | InCycle | LeavingCycle | Unmarking => true
  | _ => false
  end.

Definition control_absent (t : ControlThread) : bool :=
  match control_at t with ControlAbsent => true | _ => false end.
Definition watcher_absent (t : WatcherThread) : bool :=
  match watcher_at t with WatcherAbsent => true | _ => false end.

Section Process.
Context (h : Host) (kernel : Kernel) (period_ns : Z) (estop_name ack_name : string).
Hypothesis Hperiod : 0 < period_ns.

Local Abbreviation step := (process_step kernel estop_name ack_name).
Local Abbreviation program := (run_control h period_ns).

(** ** The invariant *)

(** A watcher's thread, by the positions of [main] at which it is started, told
    to end, and joined. *)
Record watcher_inv (start stop join k : nat) (t : WatcherThread) : Prop := mkWatcherInv {
  wi_absent : watcher_absent t = (k <=? start)%nat;
  wi_running : watcher_running_ t = false → (stop ≤ k)%nat;
  wi_joined : (join ≤ k)%nat → watcher_ended t = true;
  wi_ended : watcher_ended t = true → watcher_running_ t = false
}.

(** [main] has done the first [k] of its actions. *)
Record process_inv (k : nat) (p : ProcessState) : Prop := mkProcessInv {
  pi_length : (k ≤ 13)%nat;
  pi_todo : todo p = drop k program;
  pi_absent : control_absent (control p) = (k <=? 5)%nat;
  pi_signalled : (7 ≤ k)%nat → g_shutdown_requested p = true;
  pi_joined : (9 ≤ k)%nat → control_ended (control p) = true;
  pi_period : executor (control p) = executor_config period_ns;
  pi_stop : stop_requested_ (control p) = true → g_shutdown_requested p = true;
  pi_leaving : control_at (control p) = Unmarking ∨ control_at (control p) = ControlEnded →
    g_shutdown_requested p = true;
  pi_marked : loop_running (control p) = in_run (control p);
  pi_serving : server_running_ (server p) = false → (9 ≤ k)%nat;
  pi_server_joined : (10 ≤ k)%nat → accept_ended (server p) = true;
  pi_accept_ended : accept_ended (server p) = true → server_running_ (server p) = false;
  pi_estop : watcher_inv 1 12 13 k (estop_thread p);
  pi_ack : watcher_inv 3 11 12 k (ack_thread p)
}.

(** The fields of an invariant after a step, once the step is computed. *)
Ltac field := intros; destruct_or?; simpl in *; subst; first [done|lia|congruence|auto with lia|tauto].
Ltac solve_fields := constructor; simpl in *; field.
Ltac unfold_tests :=
  unfold control_absent, control_ended, in_run, accept_ended, watcher_absent, watcher_ended in *.

Lemma watcher_inv_next start stop join k t :
  (k ≠ start)%nat → (S k < join ∨ watcher_ended t = true)%nat →
  watcher_inv start stop join k t → watcher_inv start stop join (S k) t.
Proof.
  intros Hs Hj [Ha Hr Hw He]. constructor; [|intros; specialize (Hr ltac:(done)); lia|naive_solver lia|done].
  rewrite Ha. destruct (Nat.leb_spec k start), (Nat.leb_spec (S k) start); lia || done.
Qed.

Lemma watch_step_inv start stop join inside k t :
  watcher_inv start stop join k t → watcher_inv start stop join k (watch_step inside t).
Proof.
  intros [Ha Hr Hw He]. destruct t as [[] []]; simpl in *; try (by constructor); try by destruct inside.
  all: destruct inside; solve_fields.
Qed.

(** A watcher that is started, and one that is told to end. *)
Lemma watcher_inv_started start stop join :
  (S start < stop)%nat → (stop < join)%nat →
  watcher_inv start stop join (S start) (mkWatcherThread WatcherTesting true).
Proof.
  intros. constructor; [|done|lia|done]. symmetry. apply Nat.leb_gt. lia.
Qed.

Lemma watcher_inv_told start stop join k t :
  (stop ≤ k)%nat → watcher_inv start stop join k t →
  watcher_inv start stop join k (mkWatcherThread (watcher_at t) false).
Proof. intros Hk [Ha Hr Hw He]. by constructor. Qed.

Lemma started_inv clock signalled estop_file ack_file records :
  process_inv 0 (started h period_ns clock signalled estop_file ack_file records).
Proof. constructor; simpl; try done; try lia; [naive_solver|constructor; simpl; done || lia..]. Qed.

(** Every thread but [main] leaves it where it is. *)
Lemma control_step_inv c k p : process_inv k p → process_inv k (step (ControlStep c) p).
Proof.
  intros [Hk Ht Ha Hs Hj Hp Hst Hl Hm Hsv Hsj Hae He Hack].
  destruct p as [td flag [pc x stop running g snaps] sv et at_ sys lg]. unfold_tests. simpl in *. subst x.
  destruct pc; simpl in *; try (rewrite (proj2 (Z.leb_gt _ _)) by done);
    destruct flag, stop; solve_fields.
Qed.

Lemma accept_step_inv result chunk k p :
  process_inv k p → process_inv k (step (AcceptStep result chunk) p).
Proof.
  intros [Hk Ht Ha Hs Hj Hp Hst Hl Hm Hsv Hsj Hae He Hack].
  destruct p as [td flag ct [pc running] et at_ sys lg]. simpl in *. unfold accept_ended in *. simpl in *.
  destruct pc; simpl; repeat case_match; constructor; simpl in *; unfold accept_ended; simpl; field.
Qed.

Lemma watcher_step_inv e k p :
  thread_of e = Some EstopId ∨ thread_of e = Some AckId →
  process_inv k p → process_inv k (step e p).
Proof.
  intros He [].
  destruct e; try (by destruct He); simpl; [unfold estop_step|unfold ack_step];
    (destruct (is_watching _); [|unfold with_watcher]; constructor; simpl; auto using watch_step_inv).
Qed.

Lemma outside_step_inv e k p : thread_of e = None → process_inv k p → process_inv k (step e p).
Proof. intros He []. destruct e; try done; constructor; simpl; auto. Qed.

(** [main] goes on past an action that starts no thread, once what it waits for
    has come. *)
Lemma advance_inv k p records :
  process_inv k p → (k < 13)%nat → k ∉ [1; 3; 5]%nat →
  (k = 6%nat → g_shutdown_requested p = true) →
  (k = 8%nat → control_ended (control p) = true) →
  (k = 9%nat → accept_ended (server p) = true) →
  (k = 11%nat → watcher_ended (ack_thread p) = true) →
  (k = 12%nat → watcher_ended (estop_thread p) = true) →
  process_inv (S k)
    (mkProcess (drop (S k) program) (g_shutdown_requested p) (control p) (server p)
       (estop_thread p) (ack_thread p) (system p) records).
Proof.
  intros [Hk Ht Ha Hs Hj Hp Hst Hl Hm Hsv Hsj Hae He Hack] Hlt Hstart H6 H8 H9 H11 H12.
  rewrite !not_elem_of_cons in Hstart. destruct Hstart as (? & ? & ? & _).
  constructor; simpl; try done.
  - rewrite Ha. destruct (Nat.leb_spec k 5), (Nat.leb_spec k 4); first [done|exfalso; lia].
  - intros. destruct (decide (k = 6%nat)); [auto|apply Hs; lia].
  - intros. destruct (decide (k = 8%nat)); [auto|apply Hj; lia].
  - intros Hr. apply Hsv in Hr. lia.
  - intros. destruct (decide (k = 9%nat)); [auto|apply Hsj; lia].
  - apply watcher_inv_next; [lia| |done]. destruct (decide (k = 12%nat)); [right; auto|left; lia].
  - apply watcher_inv_next; [lia| |done].
    destruct (decide (k = 11%nat)); [right; auto|]. destruct (decide (k < 11)%nat); [left; lia|].
    right. apply (wi_joined _ _ _ _ _ Hack). lia.
Qed.

(** [main] goes on, stays, or has told a thread to end. *)
Lemma main_step_inv k p : process_inv k p → ∃ k', process_inv k' (step MainStep p).
Proof.
  intros Hinv. pose proof Hinv as [Hk Ht Ha Hs Hj Hp Hst Hl Hm Hsv Hsj Hae He Hack].
  simpl. unfold main_step. rewrite Ht.
  do 14 (try destruct k as [|k]); try lia.
  14: { change (drop 13 program) with (@nil Action). by exists 13%nat. }
  all: erewrite drop_S by reflexivity; cbv beta iota.
  all: repeat case_match; try (eexists; exact Hinv).
  all: try (eexists; apply (advance_inv _ p _ Hinv); try (intros; done || lia); set_solver).
  - exists 2%nat. constructor; simpl; try done; try (intros; lia).
    + intros H%Hsv. lia.
    + apply watcher_inv_started; lia.
    + by apply watcher_inv_next; [|left; lia|].
  - exists 4%nat. constructor; simpl; try done; try (intros; lia).
    + intros H%Hsv. lia.
    + by apply watcher_inv_next; [|left; lia|].
    + apply watcher_inv_started; lia.
  - exists 6%nat. constructor; simpl; try done; try (intros; lia).
    + by intros [|].
    + rewrite Hm. revert Ha. unfold control_absent, in_run. by destruct (control_at (control p)).
    + intros H%Hsv. lia.
    + by apply watcher_inv_next; [|left; lia|].
    + by apply watcher_inv_next; [|left; lia|].
  - exists 9%nat. by constructor.
  - exists 11%nat. constructor; simpl; try done. by apply watcher_inv_told; [lia|].
  - exists 12%nat. constructor; simpl; try done. by apply watcher_inv_told; [lia|].
Qed.

Lemma process_step_inv e p : (∃ k, process_inv k p) → ∃ k, process_inv k (step e p).
Proof.
  intros [k Hk]. destruct e;
    eauto using main_step_inv, control_step_inv, accept_step_inv, outside_step_inv, watcher_step_inv.
Qed.

Lemma process_run_inv es p :
  (∃ k, process_inv k p) → ∃ k, process_inv k (process_run kernel estop_name ack_name es p).
Proof. revert p. induction es as [|e es IH]; intros p Hp; [done|]. by apply IH, process_step_inv. Qed.

(** ** After a signal *)

(** The cycles that can still begin. *)
Definition cycles_left (t : ControlThread) : nat :=
  match control_at t with
  | LeavingCycle | Unmarking | ControlEnded => 0
  | Testing => if stop_requested_ t then 0 else 1
  | _ => 1
  end.

Definition cycles_bound (p : ProcessState) : nat :=
  (length (published (control p)) + cycles_left (control p))%nat.

Lemma cycles_bound_step e p :
  (∃ k, process_inv k p) → g_shutdown_requested p = true →
  g_shutdown_requested (step e p) = true ∧ (cycles_bound (step e p) ≤ cycles_bound p)%nat.
Proof.
  intros [k Hinv] Hf. unfold cycles_bound. destruct e; simpl.
  2:{ destruct p as [td flag [pc x stop running g snaps] sv et at_ sys lg]. simpl in *. subst flag.
      unfold cycles_left. destruct pc, stop; simpl; repeat case_match; simpl in *; (split; [done|simplify_eq/=; lia]). }
  1:{ destruct Hinv as [Hk Ht Ha _ _ _ _ _ _ _ _ _ _ _]. unfold main_step. rewrite Ht.
      do 14 (try destruct k as [|k]); try lia.
      14: { change (drop 13 program) with (@nil Action). split; [done|lia]. }
      all: erewrite drop_S by reflexivity; cbv beta iota.
      all: repeat case_match; simpl; (split; [done|]); try lia.
      revert Ha. unfold cycles_left, control_absent. destruct (control_at (control p)); simpl; done || lia. }
  all: unfold estop_step, ack_step; repeat case_match; simpl; (split; [done|lia]).
Qed.

Lemma cycles_bound_run es p :
  (∃ k, process_inv k p) → g_shutdown_requested p = true →
  (cycles_bound (process_run kernel estop_name ack_name es p) ≤ cycles_bound p)%nat.
Proof.
  revert p. induction es as [|e es IH]; intros p Hp Hf; [done|]. simpl.
  destruct (cycles_bound_step e p Hp Hf) as [Hf' Hle].
  etransitivity; [apply IH; [by apply process_step_inv|done]|done].
Qed.

(** ** Steps to the end *)

(** The steps a thread takes at most until it ends, once it is told to. *)
Definition control_left (t : ControlThread) : nat :=
  match control_at t with
  | ControlAbsent | Configuring _ => 9
  | Marking => 8
  | Entering => 7
  | Testing => if stop_requested_ t then 2 else 6
  | Sleeping => 5
  | InCycle => 4
  | LeavingCycle => 3
  | Unmarking => 1
  | ControlEnded => 0
  end.

Definition kRequestRoom : nat := Z.to_nat kMaxRequestBytes.

Definition accept_left (t : ServerThread) : nat :=
  match accept_at t with
  | Polling => 6 + kRequestRoom
  | Accepting => 5 + kRequestRoom
  | Reading request => 4 + (kRequestRoom - String.length request)
  | Responding _ => 3
  | Closing => 2
  | AcceptTesting => 1
  | AcceptEnded => 0
  end.

Definition inside_left (inside : WatcherPc) : nat :=
  match inside with AtAccess => 3 | AtUnlink => 2 | AtStore _ => 1 end.

Definition watch_left (inside : WatcherPc) (t : WatcherThread) : nat :=
  match watcher_at t with
  | Watching => 2 + inside_left inside
  | WatcherAbsent | WatcherSleeping => 2
  | WatcherTesting => 1
  | WatcherEnded => 0
  end.

Definition inside_of (mode : Mode) (p : ProcessState) : WatcherPc :=
  match mode with kLevel => pc (estop (system p)) | kLatchOnce => pc (acknowledge (system p)) end.

Lemma control_left_step c t s :
  control_absent t = false → control_ended t = false →
  (control_left (control_step kernel true c t s).1.1 < control_left t)%nat.
Proof.
  destruct t as [[] x [] running g snaps]; try done; unfold control_left; simpl;
    repeat case_match; simplify_eq/=; lia.
Qed.

Lemma accept_left_step result chunk t :
  server_running_ t = false → accept_ended t = false →
  (accept_left (accept_step result chunk t) < accept_left t)%nat.
Proof.
  destruct t as [pc running]. simpl. intros -> He. unfold accept_left. destruct pc as [| | |request| | |];
    simpl; try lia; try done.
  - destruct (result <=? 0); simpl; lia.
  - destruct (result <? 0); cbn [accept_at String.length]; lia.
  - destruct (negb _ && _) eqn:Hloop; [|simpl; lia].
    apply andb_prop in Hloop as [_ Hl%Z.ltb_lt]. unfold kRequestRoom.
    destruct (result <=? 0); [simpl; lia|]. destruct chunk as [|c chunk]; [simpl; lia|].
    cbn [accept_at]. rewrite length_append. simpl. lia.
Qed.

Lemma inside_step unlink_ok file w :
  pc (watcher_step unlink_ok file w).2 = AtAccess ∨
  (inside_left (pc (watcher_step unlink_ok file w).2) < inside_left (pc w))%nat.
Proof. destruct w as [[] a []]; simpl; repeat case_match; simpl; auto; right; simpl; lia. Qed.

Lemma watch_step_running inside t : watcher_running_ (watch_step inside t) = watcher_running_ t.
Proof. by destruct t as [[] running]. Qed.

(** A watcher's thread inside an iteration, and between two. *)
Lemma watch_left_step old inside t :
  is_watching t = true → inside = AtAccess ∨ (inside_left inside < inside_left old)%nat →
  (watch_left inside (watch_step inside t) < watch_left old t)%nat.
Proof.
  destruct t as [[] running]; try done; intros _ Hi; unfold watch_left; simpl.
  destruct Hi as [->|Hlt]; [destruct old; simpl; lia|]. destruct inside; simpl in *; lia.
Qed.

Lemma watch_left_between inside t :
  is_watching t = false → watcher_running_ t = false → watcher_absent t = false →
  watcher_ended t = false →
  (watch_left inside (watch_step AtAccess t) < watch_left inside t)%nat.
Proof. destruct t as [[] running]; try done; simpl; intros _ -> _ _; unfold watch_left; simpl; lia. Qed.

(** The steps to the end of an action of [main] that comes later, and of the one
    it is at. *)
Definition weight (a : Action) : nat :=
  match a with
  | JoinControl => 10
  | StopServer => 8 + kRequestRoom
  | JoinWatcher _ _ => 7
  | _ => 1
  end.

Definition action_left (a : Action) (p : ProcessState) : nat :=
  match a with
  | JoinControl => 1 + control_left (control p)
  | StopServer =>
      if server_running_ (server p) then weight a else 1 + accept_left (server p)
  | JoinWatcher _ mode =>
      if watcher_running_ (watcher_thread mode p) then weight a
      else 1 + watch_left (inside_of mode p) (watcher_thread mode p)
  | _ => 1
  end.

Definition process_left (p : ProcessState) : nat :=
  match todo p with [] => 0 | a :: rest => action_left a p + sum_list (weight <$> rest) end.

(** Whose step brings the end nearer: the thread [main] waits for, or [main]. *)
Definition process_helpful (p : ProcessState) : ThreadId :=
  match todo p with
  | JoinControl :: _ => if control_ended (control p) then MainThread else ControlId
  | StopServer :: _ =>
      if server_running_ (server p) || accept_ended (server p) then MainThread else AcceptId
  | JoinWatcher _ mode :: _ =>
      let t := watcher_thread mode p in
      if watcher_running_ t || watcher_ended t then MainThread
      else match mode with kLevel => EstopId | kLatchOnce => AckId end
  | _ => MainThread
  end.

Definition told (p : ProcessState) : Prop :=
  (∃ k, process_inv k p) ∧ g_shutdown_requested p = true.

Lemma accept_left_bound t : (accept_left t ≤ 6 + kRequestRoom)%nat.
Proof. unfold accept_left. destruct (accept_at t); lia. Qed.

Lemma watch_left_bound inside t : (watch_left inside t ≤ 5)%nat.
Proof. unfold watch_left. destruct (watcher_at t), inside; simpl; lia. Qed.

Lemma action_left_weight a p : (1 ≤ action_left a p ≤ weight a)%nat.
Proof.
  destruct a; simpl; try lia.
  - unfold control_left. destruct (control_at _); simpl; repeat case_match; lia.
  - pose proof (accept_left_bound (server p)). destruct (server_running_ _); lia.
  - pose proof (watch_left_bound (inside_of mode p) (watcher_thread mode p)).
    destruct (watcher_running_ _); lia.
Qed.

(** [main] at an action it can leave. *)
Lemma process_left_rest a rest p p' :
  todo p = a :: rest → todo p' = rest → (process_left p' < process_left p)%nat.
Proof.
  intros Ht Ht'. unfold process_left. rewrite Ht, Ht'. pose proof (action_left_weight a p).
  destruct rest as [|b rest]; [simpl; lia|]. pose proof (action_left_weight b p').
  rewrite fmap_cons. cbn [sum_list sum_list_with foldr]. simpl. lia.
Qed.

(** [main] at the same action as before. *)
Lemma process_left_same a rest p p' :
  todo p = a :: rest → todo p' = a :: rest →
  ((action_left a p' < action_left a p)%nat → (process_left p' < process_left p)%nat) ∧
  ((action_left a p' ≤ action_left a p)%nat → (process_left p' ≤ process_left p)%nat).
Proof. intros Ht Ht'. unfold process_left. rewrite Ht, Ht'. lia. Qed.

Lemma todo_other e p : thread_of e ≠ Some MainThread → todo (step e p) = todo p.
Proof. destruct e; simpl; try done; unfold estop_step, ack_step; repeat case_match; done. Qed.

(** Where [main] is, from the action it is at. *)
Lemma main_position k p a rest :
  process_inv k p → todo p = a :: rest →
  match a with
  | JoinControl => k = 8
  | JoinWatcher _ kLatchOnce => k = 11
  | JoinWatcher _ kLevel => k = 12
  | _ => True
  end%nat.
Proof.
  intros [Hk Ht _ _ _ _ _ _ _ _ _ _ _ _]. rewrite Ht.
  do 14 (try destruct k as [|k]); try lia.
  14: done.
  all: erewrite drop_S by reflexivity; by intros [= <- <-].
Qed.

(** A step of [main] that it does not wait in. *)
Lemma main_helpful p :
  told p → exited p = false → process_helpful p = MainThread →
  (process_left (step MainStep p) < process_left p)%nat.
Proof.
  intros [_ Hf] He Hh. unfold exited, process_helpful in *. simpl. unfold main_step.
  destruct (todo p) as [|a rest] eqn:Ht; [done|].
  destruct a; try (by apply (process_left_rest _ rest _ _ Ht)).
  - rewrite Hf. by apply (process_left_rest _ rest _ _ Ht).
  - destruct (control_ended _); [|done]. by apply (process_left_rest _ rest _ _ Ht).
  - destruct (server_running_ (server p)) eqn:Hr; simpl in Hh.
    + apply (process_left_same StopServer rest); [done|done|]. unfold action_left at 2. rewrite Hr.
      cbn [action_left with_server server server_running_].
      pose proof (accept_left_bound (mkServerThread (accept_at (server p)) false)).
      unfold weight. lia.
    + destruct (accept_ended _); [|done]. by apply (process_left_rest _ rest _ _ Ht).
  - destruct (watcher_running_ (watcher_thread mode p)) eqn:Hr; simpl in Hh.
    + apply (process_left_same (JoinWatcher path mode) rest); [done|by destruct mode|].
      unfold action_left. rewrite Hr. set (p' := with_watcher _ _ _).
      assert (watcher_running_ (watcher_thread mode p') = false) as -> by (by destruct mode).
      pose proof (watch_left_bound (inside_of mode p') (watcher_thread mode p')). simpl. lia.
    + destruct (watcher_ended _); [|by destruct mode]. by apply (process_left_rest _ rest _ _ Ht).
Qed.

(** [main] waits. *)
Lemma main_waits p : process_helpful p ≠ MainThread → step MainStep p = p.
Proof.
  unfold process_helpful. simpl. unfold main_step. destruct (todo p) as [|[] rest]; try done.
  - by destruct (control_ended _).
  - by destruct (server_running_ _), (accept_ended _).
  - by destruct (watcher_running_ _), (watcher_ended _).
Qed.

(** A cycle leaves the watchers where they are. *)
Lemma cycle_keeps_watchers s c :
  estop (system_step s (LoopCycle c)) = estop s ∧
  pc (acknowledge (system_step s (LoopCycle c))) = pc (acknowledge s).
Proof. simpl. by destruct (cycle _ _). Qed.

(** What a step of one thread leaves alone. *)
Lemma control_frame e p :
  thread_of e ≠ Some MainThread → thread_of e ≠ Some ControlId → control (step e p) = control p.
Proof. destruct e; simpl; try done; unfold estop_step, ack_step; repeat case_match; done. Qed.

Lemma server_frame e p :
  thread_of e ≠ Some MainThread → thread_of e ≠ Some AcceptId → server (step e p) = server p.
Proof. destruct e; simpl; try done; unfold estop_step, ack_step; repeat case_match; done. Qed.

Definition watcher_id (mode : Mode) : ThreadId :=
  match mode with kLevel => EstopId | kLatchOnce => AckId end.

Lemma watcher_frame mode e p :
  thread_of e ≠ Some MainThread → thread_of e ≠ Some (watcher_id mode) →
  watcher_thread mode (step e p) = watcher_thread mode p ∧
  inside_of mode (step e p) = inside_of mode p.
Proof.
  intros Hm Hw. destruct e as [|c| | |unlink_ok| | |]; try done.
  - simpl. destruct p as [td flag [cpc x stop running g snaps] sv et at_ sys lg].
    destruct (cycle_keeps_watchers sys (with_granted g c)) as [H1 H2].
    destruct cpc, mode; try done; cbn -[system_step with_granted snapshot_stored]; rewrite ?H1, ?H2; try done;
      by destruct (period x <=? 0).
  - destruct mode; [done|]. simpl. unfold estop_step. destruct (is_watching _); [|by split].
    simpl. by destruct (watcher_step _ _ _); split.
  - destruct mode; [|done]. simpl. unfold ack_step. destruct (is_watching _); [|by split].
    simpl. by destruct (watcher_step _ _ _); split.
  - by destruct mode, present.
  - by destruct mode, present.
Qed.

(** The step of a thread that [main] waits for, and of one that it does not. *)
Lemma watcher_left mode e p :
  thread_of e = Some (watcher_id mode) → watcher_running_ (watcher_thread mode p) = false →
  watcher_absent (watcher_thread mode p) = false → watcher_ended (watcher_thread mode p) = false →
  watcher_running_ (watcher_thread mode (step e p)) = false ∧
  (watch_left (inside_of mode (step e p)) (watcher_thread mode (step e p)) <
   watch_left (inside_of mode p) (watcher_thread mode p))%nat.
Proof.
  intros Hid Hr Ha He. destruct e, mode; try done; simpl in *; [unfold estop_step|unfold ack_step].
  all: destruct (is_watching _) eqn:Hw; simpl; [|rewrite watch_step_running; auto using watch_left_between].
  - pose proof (inside_step true (estop_file (system p)) (estop (system p))) as Hi.
    destruct (watcher_step _ _ _) as [file w]. simpl in *. rewrite watch_step_running.
    auto using watch_left_step.
  - pose proof (inside_step unlink_ok (ack_file (system p)) (acknowledge (system p))) as Hi.
    destruct (watcher_step _ _ _) as [file w]. simpl in *. rewrite watch_step_running.
    auto using watch_left_step.
Qed.

Lemma watcher_own_step mode e p :
  thread_of e = Some (watcher_id mode) →
  ∃ inside, watcher_thread mode (step e p) = watch_step inside (watcher_thread mode p).
Proof.
  destruct e, mode; try done; intros _; simpl; [unfold estop_step|unfold ack_step];
    destruct (is_watching _); eexists; reflexivity.
Qed.

(** The step of a thread other than [main], while [main] is at [a]: nothing comes
    further away, the helpful thread brings the end nearer, and any other leaves
    it the helpful one. *)
Definition keeps_nearing (a : Action) (e : ThreadEvent) (p : ProcessState) : Prop :=
  (action_left a (step e p) ≤ action_left a p)%nat ∧
  (thread_of e = Some (process_helpful p) → (action_left a (step e p) < action_left a p)%nat) ∧
  (thread_of e ≠ Some (process_helpful p) → process_helpful (step e p) = process_helpful p).

Ltac nearing := split_and!; done || lia.

Lemma waiting_for_control e p rest :
  control_absent (control p) = false → g_shutdown_requested p = true →
  todo p = JoinControl :: rest → thread_of e ≠ Some MainThread → keeps_nearing JoinControl e p.
Proof.
  intros Ha Hf Ht Hm. unfold keeps_nearing, process_helpful. rewrite (todo_other e p Hm), Ht. simpl.
  destruct (decide (thread_of e = Some ControlId)) as [Hc|Hc].
  2:{ rewrite control_frame by done. destruct (control_ended _); nearing. }
  destruct e as [|c| | | | | |]; try done. simpl. rewrite Hf.
  destruct (control_ended (control p)) eqn:He.
  - assert (control_step kernel true c (control p) (system p) = (control p, system p, [])) as ->.
    { revert He. unfold control_ended. by destruct (control p) as [[] ?????]. }
    simpl. rewrite He. nearing.
  - pose proof (control_left_step c (control p) (system p) Ha He) as Hlt.
    destruct (control_step _ _ _ _ _) as [[t s'] records]. simpl in *. nearing.
Qed.

Lemma waiting_for_server e p rest :
  todo p = StopServer :: rest → thread_of e ≠ Some MainThread → keeps_nearing StopServer e p.
Proof.
  intros Ht Hm. unfold keeps_nearing, process_helpful. rewrite (todo_other e p Hm), Ht. simpl.
  destruct (decide (thread_of e = Some AcceptId)) as [Hc|Hc].
  2:{ rewrite server_frame by done. destruct (server_running_ _ || _); nearing. }
  destruct e as [| |result chunk| | | | |]; try done. simpl.
  assert (Hr : server_running_ (accept_step result chunk (server p)) = server_running_ (server p)).
  { destruct (server p) as [[] ?]; simpl; repeat case_match; done. }
  rewrite Hr. destruct (server_running_ (server p)) eqn:Er; simpl; [nearing|].
  destruct (accept_ended (server p)) eqn:He.
  - assert (accept_step result chunk (server p) = server p) as ->.
    { revert He. unfold accept_ended. by destruct (server p) as [[] ?]. }
    rewrite He. nearing.
  - pose proof (accept_left_step result chunk (server p) Er He). nearing.
Qed.

Lemma waiting_for_watcher path mode e p rest :
  watcher_absent (watcher_thread mode p) = false →
  todo p = JoinWatcher path mode :: rest → thread_of e ≠ Some MainThread →
  keeps_nearing (JoinWatcher path mode) e p.
Proof.
  intros Ha Ht Hm. unfold keeps_nearing, process_helpful. rewrite (todo_other e p Hm), Ht. simpl.
  destruct (decide (thread_of e = Some (watcher_id mode))) as [Hc|Hc].
  2:{ destruct (watcher_frame mode e p Hm Hc) as [-> ->].
      destruct (watcher_running_ _ || _), mode; nearing. }
  destruct (watcher_own_step mode e p Hc) as [inside Hs].
  assert (Hr : watcher_running_ (watcher_thread mode (step e p)) =
               watcher_running_ (watcher_thread mode p)) by (by rewrite Hs, watch_step_running).
  rewrite Hr. destruct (watcher_running_ (watcher_thread mode p)) eqn:Er; simpl.
  { rewrite Hc. destruct mode; nearing. }
  destruct (watcher_ended (watcher_thread mode p)) eqn:He.
  - assert (E : watcher_thread mode (step e p) = watcher_thread mode p).
    { rewrite Hs. revert He. unfold watcher_ended. by destruct (watcher_thread mode p) as [[] ?]. }
    rewrite E, He. revert He. unfold watcher_ended, watch_left.
    by destruct (watcher_at _).
  - destruct (watcher_left mode e p Hc Er Ha He) as [_ Hlt]. rewrite Hc. destruct mode; nearing.
Qed.

Lemma other_step e p a rest :
  told p → todo p = a :: rest → thread_of e ≠ Some MainThread → keeps_nearing a e p.
Proof.
  intros [[k Hinv] Hf] Ht Hm. pose proof (main_position k p a rest Hinv Ht) as Hpos.
  destruct a.
  7: { eapply waiting_for_control; [|done..]. rewrite (pi_absent _ _ Hinv). by subst k. }
  7: by eapply waiting_for_server.
  7: { eapply waiting_for_watcher; [|done..]. destruct mode; subst k.
       - exact (wi_absent _ _ _ _ _ (pi_estop _ _ Hinv)).
       - exact (wi_absent _ _ _ _ _ (pi_ack _ _ Hinv)). }
  all: unfold keeps_nearing, process_helpful; rewrite (todo_other e p Hm), Ht; nearing.
Qed.

#[local] Instance process_terminates : FairTermination step thread_of told exited.
Proof.
  refine {| steps_left := process_left; helpful := process_helpful |}.
  - intros e p [Hp Hf]. split; [by apply process_step_inv|]. by apply cycles_bound_step.
  - intros e p Hp. destruct (decide (thread_of e = Some MainThread)) as [Hm|Hm].
    + destruct e; try done. destruct (decide (process_helpful p = MainThread)) as [Hh|Hh];
        [|by rewrite main_waits].
      destruct (exited p) eqn:He; [|by apply Nat.lt_le_incl, main_helpful].
      unfold exited in He. simpl. unfold main_step. by destruct (todo p).
    + destruct (todo p) as [|a rest] eqn:Ht; [unfold process_left; by rewrite todo_other, Ht|].
      apply (process_left_same a rest); [done|by rewrite todo_other|]. by eapply other_step.
  - intros e p Hp He Hh. destruct (decide (thread_of e = Some MainThread)) as [Hm|Hm].
    + destruct e; try done. apply main_helpful; [done|done|congruence].
    + unfold exited in He. destruct (todo p) as [|a rest] eqn:Ht; [done|].
      apply (process_left_same a rest); [done|by rewrite todo_other|]. by eapply other_step.
  - intros e p Hp He Hh. right. destruct (decide (thread_of e = Some MainThread)) as [Hm|Hm].
    + destruct e; try done. rewrite main_waits; [done|]. by intros E; rewrite E in Hh.
    + unfold exited in He. destruct (todo p) as [|a rest] eqn:Ht; [done|]. by eapply other_step.
Qed.

(** ** The theorems *)

Lemma exited_position k p : process_inv k p → exited p = true → k = 13%nat.
Proof.
  intros [Hk Ht _ _ _ _ _ _ _ _ _ _ _ _] He. unfold exited in He. rewrite Ht in He.
  assert (Hd : drop k program = []) by (by destruct (drop k program)).
  apply (f_equal length) in Hd. rewrite length_drop in Hd.
  change (length program) with 13%nat in Hd. simpl in Hd. lia.
Qed.

(** A watcher that has not been told to end is running. *)
Lemma watcher_inv_alive start stop join k t :
  (k < stop)%nat → watcher_inv start stop join k t →
  watcher_running_ t = true ∧ watcher_ended t = false.
Proof.
  intros Hk [_ Hr _ He]. destruct (watcher_running_ t) eqn:E; [|specialize (Hr eq_refl); lia].
  split; [done|]. destruct (watcher_ended t); [|done]. by specialize (He eq_refl).
Qed.

Section Started.
Context (clock : timespec) (signalled estop_file ack_file : bool) (records : list LogRecord).

Local Abbreviation start := (started h period_ns clock signalled estop_file ack_file records).
Local Abbreviation run es := (process_run kernel estop_name ack_name es start).

(** C13: The runtime stops in order, and only when told to. Under every interleaving
    of its threads, with signals, files and clients at any moment: without a
    signal neither the process nor its control thread ends; while the control
    thread runs, both watchers and the server do; the flag behind [/healthz] is
    set exactly while the thread is in the executor's [run]; after a signal at
    most one more cycle begins; and when [main] returns every thread has
    ended. *)
Theorem stops_only_when_told es :
  let p := run es in
  (g_shutdown_requested p = false → exited p = false ∧ control_ended (control p) = false) ∧
  (control_absent (control p) = false → control_ended (control p) = false →
     watcher_running_ (estop_thread p) = true ∧ watcher_ended (estop_thread p) = false ∧
     watcher_running_ (ack_thread p) = true ∧ watcher_ended (ack_thread p) = false ∧
     server_running_ (server p) = true ∧ accept_ended (server p) = false) ∧
  loop_running (control p) = in_run (control p) ∧
  (g_shutdown_requested p = true → ∀ es',
     length (published (control (run (es ++ es')))) ≤ length (published (control p)) + 1)%nat ∧
  (exited p = true →
     control_ended (control p) = true ∧ loop_running (control p) = false ∧
     accept_ended (server p) = true ∧
     watcher_ended (estop_thread p) = true ∧ watcher_ended (ack_thread p) = true).
Proof.
  cbv zeta. destruct (process_run_inv es start) as [k Hinv]; [eexists; apply started_inv|].
  split_and!.
  - intros Hf. split.
    + destruct (exited _) eqn:He; [|done]. rewrite (exited_position k _ Hinv He) in Hinv.
      rewrite (pi_signalled _ _ Hinv) in Hf by lia. done.
    + destruct (control_ended _) eqn:He; [|done]. unfold control_ended in He.
      rewrite (pi_leaving _ _ Hinv) in Hf; [done|]. right. by destruct (control_at _).
  - intros _ He. assert (Hk : (k < 9)%nat).
    { destruct (decide (9 ≤ k)%nat) as [H|H]; [|lia]. by rewrite (pi_joined _ _ Hinv H) in He. }
    destruct (watcher_inv_alive 1 12 13 k _ ltac:(lia) (pi_estop _ _ Hinv)) as [? ?].
    destruct (watcher_inv_alive 3 11 12 k _ ltac:(lia) (pi_ack _ _ Hinv)) as [? ?].
    destruct (server_running_ (server (run es))) eqn:Hr; [|apply (pi_serving _ _ Hinv) in Hr; lia].
    split_and!; try done. destruct (accept_ended _) eqn:Ha; [|done].
    by rewrite (pi_accept_ended _ _ Hinv Ha) in Hr.
  - by apply (pi_marked _ _ Hinv).
  - intros Hf es'. unfold process_run. rewrite foldl_app.
    pose proof (cycles_bound_run es' (run es) ltac:(eauto) Hf) as Hb. unfold cycles_bound in Hb.
    assert (cycles_left (control (run es)) ≤ 1)%nat.
    { unfold cycles_left. repeat case_match; lia. }
    fold (process_run kernel estop_name ack_name es start).
    fold (process_run kernel estop_name ack_name es' (run es)). lia.
  - intros He. rewrite (exited_position k _ Hinv He) in Hinv.
    assert (Hc : control_ended (control (run es)) = true) by (apply (pi_joined _ _ Hinv); lia).
    split_and!; [done| |apply (pi_server_joined _ _ Hinv); lia
      |apply (wi_joined _ _ _ _ _ (pi_estop _ _ Hinv)); lia
      |apply (wi_joined _ _ _ _ _ (pi_ack _ _ Hinv)); lia].
    rewrite (pi_marked _ _ Hinv). revert Hc. unfold control_ended, in_run. by destruct (control_at _).
Qed.

(** C14: A signal ends the process. Under every schedule in which each thread gets to
    run again and again (sleeps end, a client that stalls is dropped, a write to
    a client returns) and in which a signal arrives at some moment, even before
    the first thread is started, [main] returns. *)
Theorem signal_ends_process schedule n :
  fair thread_of schedule → schedule n = Signal →
  ∃ m, exited (run_schedule step schedule m start) = true.
Proof.
  intros Hf Hn. set (p := run_schedule step schedule (n + 1) start).
  assert (Hp : told p).
  { unfold p. rewrite run_schedule_add. cbn [run_schedule]. rewrite Nat.add_0_r, Hn. split; [|done].
    apply process_step_inv, (run_schedule_invariant step (λ p, ∃ k, process_inv k p)).
    - intros e s. apply process_step_inv.
    - eexists. apply started_inv. }
  destruct (fair_terminates (λ k, schedule (n + 1 + k)%nat) p Hp (fair_drop thread_of _ _ Hf))
    as [m Hm].
  exists (n + 1 + m)%nat. by rewrite run_schedule_add.
Qed.
End Started.
End Process.

(** ** A fair schedule *)

(** The threads in turn, after the first events of a schedule. *)
Definition in_turn (c : Cycle) (k : nat) : ThreadEvent :=
  match (k mod 5)%nat with
  | 0%nat => MainStep
  | 1%nat => ControlStep c
  | 2%nat => AcceptStep 0 EmptyString
  | 3%nat => EstopStep
  | _ => AckStep true
  end.

Definition first_then_in_turn (es : list ThreadEvent) (c : Cycle) (k : nat) : ThreadEvent :=
  default (in_turn c k) (es !! k).

Lemma in_turn_fair es c : fair thread_of (first_then_in_turn es c).
Proof.
  apply (in_turns_are_fair thread_of es (in_turn c) 5 (λ t, match t with
    | MainThread => 0 | ControlId => 1 | AcceptId => 2 | EstopId => 3 | AckId => 4 end)%nat); [lia|].
  intros t n. unfold in_turn. rewrite Nat.Div0.mod_add. by destruct t.
Qed.

Lemma signal_ends_process_witness :
  ∃ m, exited (run_schedule (process_step ThreadConfig.demo_kernel EmptyString EmptyString)
    (first_then_in_turn [Signal] (demo_cycle 1000000 0 false false)) m
    (started Process.demo_host 1000000 (mkTimespec 0 0) false false false [])) = true.
Proof.
  apply (signal_ends_process Process.demo_host ThreadConfig.demo_kernel 1000000 EmptyString
    EmptyString ltac:(lia) (mkTimespec 0 0) false false false [] _ 0);
    [apply in_turn_fair|reflexivity].
Defined.

Lemma stops_only_when_told_witness :
  let p := process_run ThreadConfig.demo_kernel EmptyString EmptyString [MainStep; EstopStep]
    (started Process.demo_host 1000000 (mkTimespec 0 0) false false false []) in
  loop_running (control p) = in_run (control p).
Proof.
  destruct (stops_only_when_told Process.demo_host ThreadConfig.demo_kernel 1000000 EmptyString
    EmptyString ltac:(lia) (mkTimespec 0 0) false false false [] [MainStep; EstopStep])
    as (_ & _ & H & _). exact H.
Defined.
