(* ===== verification/ProcessThreadsRuns.v ===== *)
(** * The threads and the rest of the library

    The runs of [ProcessThreads] are runs of the files, flags and loop of
    [Runtime], whose theorems therefore speak of the process; what every thread
    logs; and what a process that has ended leaves behind. *)

From Stdlib Require Import Ascii String.
From stdpp Require Import base numbers list option strings pretty sets.
From S2P Require Import Prelude Strings CyclicExecutor ThreadConfig HttpServer Snapshot Runtime RuntimeSafety WatcherSafety Process FairTermination ProcessThreads ProcessThreadsSafety LogLines.

#[local] Open Scope string_scope.
#[local] Open Scope Z_scope.
#[local] Open Scope list_scope.

#[local] Arguments run_control : simpl never.

Section Runs.
Context (kernel : Kernel) (estop_name ack_name : string).

Local Abbreviation step := (process_step kernel estop_name ack_name).
Local Abbreviation process_run := (process_run kernel estop_name ack_name).

(** ** Projection *)

(** What a step of the process is for the files, the flags and the loop. *)
Definition system_event (e : ThreadEvent) (p : ProcessState) : option Event :=
  match e with
  | ControlStep c =>
      match control_at (control p) with
      | InCycle => Some (LoopCycle (with_granted (granted (control p)) c))
      | _ => None
      end
  | EstopStep => if is_watching (estop_thread p) then Some EstopWatcher else None
  | AckStep unlink_ok => if is_watching (ack_thread p) then Some (AckWatcher unlink_ok) else None
  | SetEstopFile present => Some (if present then TouchEstop else RemoveEstop)
  | SetAckFile present => Some (if present then TouchAck else RemoveAck)
  | MainStep | AcceptStep _ _ | Signal => None
  end.

Fixpoint system_events (es : list ThreadEvent) (p : ProcessState) : list Event :=
  match es with
  | [] => []
  | e :: es => option_list (system_event e p) ++ system_events es (step e p)
  end.

Lemma main_step_system p :
  system (main_step p) = system p ∧ published (control (main_step p)) = published (control p).
Proof. unfold main_step. repeat case_match; try done; by destruct mode. Qed.

(** The snapshot that an event of the loop publishes. *)
Definition publishes (s : System) (e : Event) : list Edge.RuntimeSnapshot :=
  match e with LoopCycle c => [snapshot_stored s c] | _ => [] end.

Lemma step_projects e p :
  system (step e p) = from_option (system_step (system p)) (system p) (system_event e p) ∧
  published (control (step e p)) =
    from_option (publishes (system p)) [] (system_event e p) ++ published (control p).
Proof.
  destruct e as [|c| | |unlink_ok| | |]; [apply main_step_system| |done| | |done| |].
  - destruct p as [td flag [[] x stop running g snaps] sv et at_ sys lg]; try done.
    simpl. by destruct (period x <=? 0).
  - simpl. unfold estop_step. by destruct (is_watching _).
  - simpl. unfold ack_step. by destruct (is_watching _).
  - by destruct present.
  - by destruct present.
Qed.

Lemma event_projects s ev evs :
  reverse (publishes s ev) ++
    (run_cycles (runtime (system_step s ev)) (loop_cycles (system_step s ev) evs)).1 =
  (run_cycles (runtime s) (loop_cycles s (ev :: evs))).1.
Proof.
  destruct ev; try done; cbn [publishes system_step loop_cycles].
  - by destruct (watcher_step _ _ _).
  - by destruct (watcher_step _ _ _).
  - unfold snapshot_stored. cbn [takeOnce run_cycles fst]. destruct (cycle _ _) as [s1 rt1].
    cbn [runtime fst]. by destruct (run_cycles rt1 _).
Qed.

Lemma run_projects es p :
  system (process_run es p) = system_steps (system p) (system_events es p) ∧
  reverse (published (control (process_run es p))) =
    reverse (published (control p)) ++
    (run_cycles (runtime (system p)) (loop_cycles (system p) (system_events es p))).1.
Proof.
  revert p. induction es as [|e es IH]; intros p; [by rewrite app_nil_r|].
  destruct (step_projects e p) as [Hs Hp]. destruct (IH (step e p)) as [IHs IHp].
  change (process_run (e :: es) p) with (process_run es (step e p)). cbn [system_events].
  rewrite IHs, IHp, Hs, Hp. destruct (system_event e p) as [ev|]; [|done].
  cbn [from_option option_list app]. split; [done|].
  by rewrite reverse_app, <- app_assoc, event_projects.
Qed.

(** The whole process projects to the system of [Runtime]. Under every
    interleaving of its five threads the files, the watchers' flags and the
    loop's variables are those of the system after the events that the threads'
    steps stand for, and the snapshots it has published are exactly those of the
    loop's cycles among them, in order. *)
Lemma process_projects h period clock signalled estop_file ack_file records es :
  let p := started h period clock signalled estop_file ack_file records in
  let s := newSystem clock estop_file ack_file in
  let evs := system_events es p in
  system (process_run es p) = system_steps s evs ∧
  reverse (published (control (process_run es p))) =
    (run_cycles (newRuntime clock) (loop_cycles s evs)).1.
Proof. cbv zeta. apply (run_projects es (started _ _ _ _ _ _ _)). Qed.

End Runs.

(** ** What the threads log *)

Lemma plain_appendDiagnostic buffer text :
  plain buffer = true → plain text = true → plain (appendDiagnostic buffer text) = true.
Proof.
  intros Hb Ht. unfold appendDiagnostic, strncpy.
  destruct (_ =? 0); [done|]. destruct (_ && _); rewrite !plain_append, Hb, plain_substring; done.
Qed.

Lemma plain_appendErrno buffer prefix error :
  plain buffer = true → plain prefix = true → plain (appendErrno pretty buffer prefix error) = true.
Proof.
  intros Hb Hp. apply plain_appendDiagnostic; [done|]. apply plain_substring.
  by rewrite !plain_append, Hp, plain_pretty.
Qed.

#[local] Hint Resolve plain_appendDiagnostic plain_appendErrno : core.

(** The diagnostics of a thread's configuration need no escaping. *)
Lemma plain_diagnostics kernel thread :
  plain (diagnostics (applyThreadConfig thread kernel pretty)) = true.
Proof.
  unfold applyThreadConfig.
  assert (H1 : plain (apply_scheduling thread kernel pretty).2 = true).
  { unfold apply_scheduling. repeat case_match; simplify_eq; cbn [snd]; auto. }
  destruct (apply_scheduling _ _ _) as [[[? ?] ?] text]. simpl in H1.
  assert (H2 : plain (apply_affinity thread kernel pretty text).2 = true).
  { unfold apply_affinity. repeat case_match; simpl; auto. }
  destruct (apply_affinity _ _ _ _) as [? text2]. simpl in H2.
  assert (H3 : plain (apply_lock thread kernel pretty text2).2 = true).
  { unfold apply_lock. repeat case_match; simpl; auto. }
  destruct (apply_lock _ _ _ _) as [? text3]. simpl in H3.
  assert (H4 : plain (apply_prefault thread kernel text3).2 = true).
  { unfold apply_prefault. repeat case_match; simpl; auto. }
  by destruct (apply_prefault _ _ _) as [? text4].
Qed.

Definition plain_record (r : LogRecord) : bool :=
  let '(level, message, detail) := r in
  plain level && plain message && from_option plain true detail.

Section Logs.
Context (h : Host) (kernel : Kernel).
Hypothesis Hestop : plain (estop_path h) = true.
Hypothesis Hack : plain (ack_path h) = true.

Local Abbreviation step := (process_step kernel (estop_path h) (ack_path h)).

Lemma step_logs_plain e p :
  forallb plain_action (todo p) = true → forallb plain_record (logged p) = true →
  forallb plain_action (todo (step e p)) = true ∧ forallb plain_record (logged (step e p)) = true.
Proof.
  intros Ht Hl. destruct e as [|c| | |unlink_ok| | |]; try done.
  - simpl. unfold main_step. destruct (todo p) as [|a rest] eqn:E; [by rewrite E|].
    simpl in Ht. apply andb_prop in Ht as [Ha Hr].
    destruct a; simpl in *; repeat case_match; simpl; rewrite ?E, ?Ha, ?Hr, ?Hl; try done;
      by destruct mode; simpl; rewrite ?E, ?Hl; simpl; rewrite ?Hr.
  - destruct p as [td flag [[] x stop running g snaps] sv et at_ sys lg]; try done; simpl in *.
    + unfold configuration_record. destruct (negb _); simpl; [by rewrite plain_diagnostics|done].
    + by destruct (period x <=? 0).
  - simpl. unfold estop_step, watcher_record. destruct (is_watching _); [|done]. simpl.
    rewrite forallb_app, Hl, andb_true_r. split; [done|].
    destruct (pc (estop (system p))), (mode_ (estop (system p))); simpl; rewrite ?Hestop; repeat case_match; done.
  - simpl. unfold ack_step, watcher_record. destruct (is_watching _); [|done]. simpl.
    rewrite forallb_app, Hl, andb_true_r. split; [done|].
    destruct (pc (acknowledge (system p))), (mode_ (acknowledge (system p))); simpl; rewrite ?Hack; repeat case_match; done.
Qed.

(** Every line of every thread is JSON. If the configured paths need no escaping
    and the lines logged before the threads start are such, every event logged
    by [main], the control thread (its diagnostics included) or a watcher, in
    any interleaving, is one line that reads back as a JSON object with exactly
    its time, level, message and detail. *)
Theorem threads_log_json period clock signalled estop_file ack_file records es ts level message detail :
  forallb plain_record records = true → 0 ≤ ts →
  (level, message, detail) ∈ logged (process_run kernel (estop_path h) (ack_path h) es
    (started h period clock signalled estop_file ack_file records)) →
  read_line (logEvent ts level message detail) =
    Some (("ts", JsonNumber ts) :: event_members level message detail).
Proof.
  intros Hr Hts. set (p := started _ _ _ _ _ _ _).
  assert (Hp : forallb plain_action (todo p) = true ∧ forallb plain_record (logged p) = true).
  { split; [by apply run_control_plain|done]. }
  clearbody p. revert p Hp. induction es as [|e es IH]; intros p [Ht Hl] Hin.
  - rewrite forallb_forall in Hl. apply list_elem_of_In, Hl in Hin. simpl in Hin.
    apply andb_prop in Hin as [[? ?]%andb_prop ?]. by destruct (read_logged ts level message detail).
  - apply (IH (step e p)); [|done]. by apply step_logs_plain.
Qed.
End Logs.

(** ** A process that runs two cycles and is told to stop *)

Definition demo_started : ProcessState :=
  started Process.demo_host 1000000 (mkTimespec 0 0) false false false [].

Local Abbreviation cycle_steps n i :=
  (replicate n (ControlStep (demo_cycle 1000000 i false false))).

(** The threads start; two cycles; a signal; the threads end one by one. *)
Definition demo_stop : list ThreadEvent :=
  replicate 6 MainStep ++ cycle_steps 6 0%nat ++ cycle_steps 4 1%nat ++ [Signal] ++
  cycle_steps 3 1%nat ++ replicate 4 MainStep ++ [AcceptStep 0 EmptyString] ++
  replicate 3 MainStep ++ [AckStep true] ++ replicate 2 MainStep ++ [EstopStep; MainStep].

Local Abbreviation demo_run es :=
  (process_run ThreadConfig.demo_kernel (estop_path Process.demo_host) (ack_path Process.demo_host)
     es demo_started).

(** What a stopped runtime leaves behind: the process has returned, and the last
    snapshot it stored, which stays in the shared region, permits torque. *)
Example stopped_runtime_permits_torque :
  exited (demo_run demo_stop) = true ∧
  Edge.torque_permitted <$> head (published (control (demo_run demo_stop))) = Some 1.
Proof. split; vm_compute; reflexivity. Qed.

Lemma threads_log_json_witness :
  read_line (logEvent 7 "info" "real-time scheduling granted" None) =
    Some (("ts", JsonNumber 7) :: event_members "info" "real-time scheduling granted" None).
Proof.
  apply (threads_log_json Process.demo_host ThreadConfig.demo_kernel eq_refl eq_refl 1000000
    (mkTimespec 0 0) false false false [] demo_stop); [reflexivity|lia|].
  apply (bool_decide_unpack _). vm_compute. exact I.
Defined.
