(* ===== verification/ProcessStop.v ===== *)
(** * The emergency stop through the whole process

    The stop file, its watcher's thread, the control thread and [main] of
    [src/src/apps/safeedged.cpp] together: once the file exists, a bounded number
    of steps of the watcher's thread is enough for torque to be off in every
    snapshot that is published from then on, whatever the other threads do and
    also while the process is shutting down. *)

From Stdlib Require Import Ascii String.
From stdpp Require Import base numbers list option strings pretty sets.
From S2P Require Import Prelude Strings CyclicExecutor SafetyStateMachine ThreadConfig HttpServer Snapshot Runtime RuntimeSafety WatcherSafety Process FairTermination ProcessThreads ProcessThreadsSafety ProcessThreadsRuns.

#[local] Open Scope string_scope.
#[local] Open Scope Z_scope.
#[local] Open Scope list_scope.

#[local] Arguments run_control : simpl never.

(** Nobody removes the stop file. *)
Definition keeps_stop_file (e : ThreadEvent) : Prop :=
  match e with SetEstopFile present => present = true | _ => True end.

#[export] Instance keeps_stop_file_dec e : Decision (keeps_stop_file e).
Proof. destruct e; apply _. Defined.

Definition is_estop_step (e : ThreadEvent) : bool := match e with EstopStep => true | _ => false end.

(** How many steps the stop watcher's thread takes. *)
Fixpoint estop_thread_steps (es : list ThreadEvent) : nat :=
  match es with [] => 0 | e :: es => bool_nat (is_estop_step e) + estop_thread_steps es end.

(** A snapshot that withdraws the permission. *)
Definition shows_torque_off (s : Edge.RuntimeSnapshot) : Prop :=
  Edge.torque_permitted s = 0 ∧ Edge.safety_state s = 0 ∧ Edge.fault_latched s = 1.

(** The steps of the thread until the flag is set and stays set, while the file
    exists. *)
Definition stop_distance (p : ProcessState) : nat :=
  match pc (estop (system p)), asserted_ (estop (system p)) with
  | AtStore true, _ => 1
  | AtStore false, _ => 5
  | _, true => 0
  | _, false =>
      match watcher_at (estop_thread p) with Watching => 2 | WatcherTesting => 3 | _ => 4 end
  end.

Section Stop.
Context (h : Host) (kernel : Kernel) (period_ns : Z) (estop_name ack_name : string).
Hypothesis Hperiod : 0 < period_ns.

Local Abbreviation step := (process_step kernel estop_name ack_name).
Local Abbreviation process_run := (process_run kernel estop_name ack_name).
Local Abbreviation reachable p := (∃ k, process_inv h period_ns k p).

(** ** What [main] leaves alone *)

Ltac main_action Ht :=
  unfold main_step; rewrite Ht;
  match type of Ht with todo _ = drop ?k _ => do 14 (try destruct k as [|k]); try lia end;
  first [progress change (drop 13 (run_control h period_ns)) with (@nil Action); done
        |erewrite drop_S by reflexivity; cbv beta iota; repeat case_match; done].

Lemma main_keeps_estop k p :
  process_inv h period_ns k p → (k ≠ 1)%nat → (k < 12)%nat →
  estop_thread (main_step p) = estop_thread p.
Proof. intros [Hk Ht _ _ _ _ _ _ _ _ _ _ _ _] H1 H12. main_action Ht. Qed.

Lemma main_keeps_control k p :
  process_inv h period_ns k p → (k ≠ 5)%nat → control (main_step p) = control p.
Proof. intros [Hk Ht _ _ _ _ _ _ _ _ _ _ _ _] H5. main_action Ht. Qed.
(** ** The watcher's thread *)

(** Between two iterations the watcher stands before its look at the file. *)
Record stop_ok (p : ProcessState) : Prop := mkStopOk {
  so_reachable : reachable p;
  so_system : system_ok (system p);
  so_idle : is_watching (estop_thread p) = false → pc (estop (system p)) = AtAccess
}.

Lemma stop_ok_started clock signalled estop_file ack_file records :
  stop_ok (started h period_ns clock signalled estop_file ack_file records).
Proof. split; [|apply system_ok_new|done]. exists 0%nat. by apply started_inv. Qed.

Lemma main_keeps_idle p :
  reachable p → is_watching (estop_thread (main_step p)) = false →
  is_watching (estop_thread p) = false.
Proof.
  intros [k Hinv]. destruct (decide (k = 1%nat)) as [->|H1].
  { intros _. destruct (pi_estop _ _ _ _ Hinv) as [Ha _ _ _]. revert Ha.
    unfold watcher_absent, is_watching. by destruct (watcher_at (estop_thread p)). }
  destruct (decide (k < 12)%nat) as [H12|H12]; [by rewrite (main_keeps_estop k)|].
  pose proof (pi_todo _ _ _ _ Hinv) as Ht. pose proof (pi_length _ _ _ _ Hinv).
  assert (k = 12 ∨ k = 13)%nat as [-> | ->] by lia; unfold main_step; rewrite Ht; [|done].
  erewrite drop_S by reflexivity. cbv beta iota. by repeat case_match.
Qed.

Lemma estop_step_idle p :
  is_watching (estop_thread (estop_step estop_name p)) = false →
  (is_watching (estop_thread p) = false → pc (estop (system p)) = AtAccess) →
  pc (estop (system (estop_step estop_name p))) = AtAccess.
Proof.
  unfold estop_step. destruct (is_watching (estop_thread p)) eqn:Hw; [|auto].
  cbn [estop_thread system]. set (s := system_step _ _). intros Hi _.
  destruct (estop_thread p) as [[] running]; try done. by destruct (pc (estop s)).
Qed.

Lemma stop_ok_step e p : stop_ok p → stop_ok (step e p).
Proof.
  intros [Hr Hs Hi]. split; [by apply process_step_inv| |].
  - destruct (step_projects kernel estop_name ack_name e p) as [-> _].
    destruct (system_event e p); [by apply system_ok_step|done].
  - destruct e as [|c|result chunk| |ok| |present|present]; cbn [process_step].
    + intros Hw. rewrite (proj1 (main_step_system p)). by apply Hi, main_keeps_idle.
    + destruct p as [td flag [[] x stop running g snaps] sv et at_ sys lg]; try done.
      * cbn. by destruct (period x <=? 0).
      * cbn. by destruct (cycle _ _).
    + done.
    + intros Hw. by apply estop_step_idle.
    + unfold ack_step. destruct (is_watching (ack_thread p)); [|done].
      cbn. by destruct (watcher_step _ _ _).
    + done.
    + by destruct present.
    + by destruct present.
Qed.

Lemma stop_ok_run es p : stop_ok p → stop_ok (process_run es p).
Proof. revert p. induction es as [|e es IH]; intros p Hp; [done|]. by apply IH, stop_ok_step. Qed.
(** ** The flag follows the file *)

(** The control thread has ended, or the flag is at most [n] steps of the
    watcher's thread away. *)
Definition stop_within (n : nat) (p : ProcessState) : Prop :=
  control_ended (control p) = true ∨
  estop_file (system p) = true ∧ watcher_absent (estop_thread p) = false ∧
  (stop_distance p ≤ n)%nat.

(** While the control thread runs, [main] neither starts the watcher's thread
    again nor tells it to end. *)
Lemma watcher_kept k p :
  process_inv h period_ns k p → watcher_absent (estop_thread p) = false →
  control_ended (control p) = false →
  watcher_running_ (estop_thread p) = true ∧ watcher_ended (estop_thread p) = false ∧
  estop_thread (main_step p) = estop_thread p.
Proof.
  intros Hinv Ha Hc. destruct (pi_estop _ _ _ _ Hinv) as [Habs Hrun _ Hended].
  rewrite Ha in Habs. symmetry in Habs. apply Nat.leb_gt in Habs.
  assert (Hk : (k < 9)%nat).
  { apply Nat.nle_gt. intros H9. by rewrite (pi_joined _ _ _ _ Hinv H9) in Hc. }
  destruct (watcher_running_ _); [|specialize (Hrun eq_refl); lia].
  split; [done|]. split; [by destruct (watcher_ended _); [specialize (Hended eq_refl)|]|].
  apply (main_keeps_estop k); [done|lia|lia].
Qed.

(** A step of the thread itself. *)
Lemma estop_step_distance p :
  stop_ok p → estop_file (system p) = true → watcher_absent (estop_thread p) = false →
  watcher_running_ (estop_thread p) = true → watcher_ended (estop_thread p) = false →
  let p' := estop_step estop_name p in
  estop_file (system p') = true ∧ watcher_absent (estop_thread p') = false ∧
  (stop_distance p' ≤ stop_distance p - 1)%nat.
Proof.
  intros [_ [_ Hm _ Hu] Hi] Hf Ha Hr He. cbv zeta. unfold estop_step, stop_distance.
  destruct p as [td flag ct sv [at_ running] atr [rt [mode a pcw] ef ackw af] lg].
  cbn in *. subst mode ef running.
  destruct at_; try done; cbn in *; try specialize (Hi eq_refl);
    destruct pcw as [| |[]], a; try done; cbn; (split; [done|split; [done|lia]]).
Qed.

Lemma control_ended_step e p :
  reachable p → control_ended (control p) = true →
  control_ended (control (step e p)) = true ∧
  published (control (step e p)) = published (control p).
Proof.
  intros [k Hinv] Hend. destruct e as [|c| | | | | |]; cbn [process_step]; try done.
  - rewrite (main_keeps_control k); [done..|].
    intros ->. pose proof (pi_absent _ _ _ _ Hinv) as Habs. revert Habs Hend.
    unfold control_absent, control_ended. by destruct (control_at (control p)).
  - by destruct p as [td flag [[] x stop running g snaps] sv et at_ sys lg].
  - unfold estop_step. by destruct (is_watching _).
  - unfold ack_step. by destruct (is_watching _).
Qed.

(** What the steps of the other threads leave alone. *)
Lemma other_step_frame e p :
  is_estop_step e = false → e ≠ MainStep → keeps_stop_file e → estop_file (system p) = true →
  estop_thread (step e p) = estop_thread p ∧ estop (system (step e p)) = estop (system p) ∧
  estop_file (system (step e p)) = true.
Proof.
  intros Ho Hm Hk Hf. destruct e as [|c|result chunk| |ok| |present|present]; try done; cbn.
  - destruct p as [td flag [[] x stop running g snaps] sv et at_ [rt es ef ak af] lg]; try done;
      cbn in *; [by destruct (period x <=? 0)|by destruct (cycle _ _)].
  - unfold ack_step. destruct (is_watching (ack_thread p)); [|done].
    cbn. by destruct (watcher_step _ _ _).
  - by rewrite Hk.
  - by destruct present.
Qed.

Lemma stop_within_step n e p :
  stop_ok p → keeps_stop_file e → stop_within n p →
  stop_within (n - bool_nat (is_estop_step e)) (step e p).
Proof.
  intros Hok He Hn. pose proof (so_reachable _ Hok) as [k Hinv].
  destruct (control_ended (control p)) eqn:Hc.
  { left. apply control_ended_step; [by exists k|done]. }
  destruct Hn as [Hn|(Hf & Ha & Hd)]; [congruence|]. right.
  destruct (watcher_kept k p Hinv Ha Hc) as (Hr & Hw & Hm).
  destruct (is_estop_step e) eqn:Eo.
  { destruct e; try done. cbn [process_step bool_nat].
    destruct (estop_step_distance p Hok Hf Ha Hr Hw) as (H1 & H2 & H3). split_and!; [done..|lia]. }
  assert (Hs : estop_thread (step e p) = estop_thread p ∧
    estop (system (step e p)) = estop (system p) ∧ estop_file (system (step e p)) = true).
  { destruct e; [|by apply other_step_frame..].
    cbn [process_step]. by rewrite Hm, (proj1 (main_step_system p)). }
  destruct Hs as (E1 & E2 & E3). unfold stop_distance in *. rewrite E1, E2, E3. cbn [bool_nat].
  split_and!; [done..|lia].
Qed.

Lemma stop_within_run n es p :
  stop_ok p → Forall keeps_stop_file es → stop_within n p →
  stop_within (n - estop_thread_steps es) (process_run es p).
Proof.
  intros Hok Hes. revert n p Hok. induction Hes as [|e es He _ IH]; intros n p Hok Hn.
  { by rewrite Nat.sub_0_r. }
  cbn [estop_thread_steps]. rewrite Nat.sub_add_distr.
  apply (IH _ (step e p)); [by apply stop_ok_step|by apply stop_within_step].
Qed.

(** ** What is published *)

(** With the flag set, what a step publishes shows torque off. *)
Lemma stopped_step_publishes e p :
  reachable p → stop_within 0 p →
  ∃ new, published (control (step e p)) = new ++ published (control p) ∧
    Forall shows_torque_off new.
Proof.
  intros Hr [Hend|(_ & _ & Hd)].
  { exists []. split; [|done]. by apply control_ended_step. }
  destruct (step_projects kernel estop_name ack_name e p) as [_ ->].
  eexists. split; [done|]. destruct (system_event e p) as [[]|]; cbn; try done.
  assert (Ha : asserted_ (estop (system p)) = true).
  { unfold stop_distance in Hd. repeat case_match; lia || done. }
  constructor; [|done]. unfold snapshot_stored, asserted. rewrite Ha.
  destruct (cycle_demand (runtime (system p)) (with_flags true (takeOnce (acknowledge (system p))).1
    surroundings)) as (Ht & Hs & Hl & _); [reflexivity|]. done.
Qed.

Lemma stopped_run_publishes es p :
  stop_ok p → Forall keeps_stop_file es → stop_within 0 p →
  ∃ new, published (control (process_run es p)) = new ++ published (control p) ∧
    Forall shows_torque_off new.
Proof.
  intros Hok Hes. revert p Hok. induction Hes as [|e es He _ IH]; intros p Hok Hn.
  { by exists []. }
  destruct (stopped_step_publishes e p (so_reachable _ Hok) Hn) as (new & E & Hnew).
  destruct (IH (step e p)) as (new' & E' & Hnew').
  - by apply stop_ok_step.
  - by apply (stop_within_step 0).
  - exists (new' ++ new). rewrite <- app_assoc, <- E. split; [done|]. by apply Forall_app_2.
Qed.

End Stop.

(** ** An instance *)

(** The threads start and a cycle permits torque; the file appears, the watcher
    takes five steps, and two more cycles run. *)
Definition cycle_steps (n i : nat) : list ThreadEvent :=
  replicate n (ControlStep (demo_cycle 1000000 i false false)).

Definition stop_before : list ThreadEvent :=
  replicate 6 MainStep ++ cycle_steps 6 0 ++ cycle_steps 4 1 ++ [SetEstopFile true].
Definition stop_seen : list ThreadEvent := replicate 5 EstopStep.
Definition stop_after : list ThreadEvent := cycle_steps 4 2 ++ cycle_steps 4 3.

