(* ===== verification/DeadRuntime.v ===== *)
(** * What the OPC UA server shows of a runtime that has died

    The slot of a runtime that stores nothing any more
    ([src/include/safeedge/ipc/seqlock_slot.hpp]), read and published by the
    rounds of [src/src/apps/safeedge_opcua.cpp]. Whether a snapshot counts as
    fresh is decided by [tryLoad] alone, and a slot at rest can always be
    read. *)

From stdpp Require Import base numbers list option relations.
From S2P Require Import Prelude Seqlock SeqlockSafety Snapshot SnapshotLayout OpcuaServer.

(** What the publishing thread loads from a slot that no longer changes. *)
Definition dead_load (s : System) (attempts k : nat) : option Edge.RuntimeSnapshot :=
  of_bytes <$> (tryLoad size_of_snapshot (λ _, slot s) attempts k).1.

Section Dead.
Context (good : list Call → Call → bool).

(** The write of one variable is among the calls of a round. *)
Lemma round_writes_torque p loaded :
  WriteDataValue (g_namespace_index (server p)) kTorquePermitted
    (Boolean (negb (Edge.torque_permitted (default Edge.newSnapshot loaded) =? 0)))
    (bool_decide (is_Some loaded)) ∈ calls (server (publish_round good p loaded)).
Proof.
  set (c := WriteDataValue _ _ _ _). unfold publish_round. rewrite publishSnapshot_calls.
  set (w := reverse _ ++ calls _).
  assert (Hw : c ∈ w).
  { unfold w. apply elem_of_app. left. apply elem_of_reverse. simpl. right. left. }
  clearbody w c. destruct (bool_decide _); [|exact Hw].
  destruct (negb (have_sequence p)); [exact Hw|]. destruct (negb _); [|exact Hw]. cbn [server].
  destruct (fire_calls good (describeTransition (default Edge.newSnapshot loaded) (last_sequence p))
    (mkServer w (g_namespace_index (server p)))) as [[l Hl] _].
  rewrite Hl. apply elem_of_app. by right.
Qed.

(** C40: A dead runtime is served as current. Let the runtime die at any moment of any
    sequence of stores. If that is between two stores, then every later round of
    the OPC UA server, for ever, obtains its last snapshot, takes it for fresh
    and writes its permission of torque with good status. Only if it is in the
    middle of a store does the server notice: it then writes that torque is not
    permitted, with bad status. *)
Theorem dead_runtime_served_as_current states t attempts k p :
  timeline size_of_snapshot states → (0 < attempts)%nat →
  let s := states t in
  let loaded := dead_load s attempts k in
  let torque v fresh :=
    WriteDataValue (g_namespace_index (server p)) kTorquePermitted (Boolean v) fresh
      ∈ calls (server (publish_round good p loaded)) in
  match writer s with
  | WIdle =>
      let x := of_bytes (current_value size_of_snapshot s) in
      loaded = Some x ∧ torque (negb (Edge.torque_permitted x =? 0)) true
  | WStoring _ _ _ => loaded = None ∧ torque false false
  end.
Proof.
  intros Hl Ha. cbv zeta. pose proof (timeline_inv size_of_snapshot states t Hl) as Hi.
  pose proof (round_writes_torque p (dead_load (states t) attempts k)) as Hw.
  destruct (writer (states t)) eqn:E.
  - assert (H : dead_load (states t) attempts k =
      Some (of_bytes (current_value size_of_snapshot (states t)))).
    { unfold dead_load. by rewrite (tryLoad_quiet size_of_snapshot _ attempts k (states t)). }
    rewrite H in Hw |- *. by split.
  - assert (H : dead_load (states t) attempts k = None).
    { unfold dead_load. rewrite (tryLoad_dead size_of_snapshot _ attempts k (states t)); try done.
      by rewrite E. }
    rewrite H in Hw |- *. by split.
Qed.
End Dead.

(** ** A runtime that stores one snapshot and dies *)

(** The next step of a writer that makes one store of [value]. *)
Definition store_once (value : list Z) (s : System) : System :=
  match writer s with
  | WIdle =>
      match published s with
      | [] => mkSystem (begin_store (slot s)) (WStoring (sequence_ (slot s)) value 0) (S (count s)) []
      | _ => s
      end
  | WStoring start v index =>
      match pack size_of_snapshot v !! index with
      | Some word =>
          mkSystem (store_word index word (slot s)) (WStoring start v (S index)) (count s) (published s)
      | None => mkSystem (end_store start (slot s)) WIdle (S (count s)) (v :: published s)
      end
  end.

Definition storing (value : list Z) (t : nat) : System :=
  Nat.iter t (store_once value) (newSystem size_of_snapshot).

Lemma storing_timeline value :
  well_sized size_of_snapshot value → timeline size_of_snapshot (storing value).
Proof.
  intros Hv.
  assert (Hstep : ∀ s, slot_inv size_of_snapshot s →
    store_once value s = s ∨ writer_step size_of_snapshot s (store_once value s)).
  { intros [sl [|start v i] c p] Hi; unfold store_once; simpl.
    - destruct p as [|u p]; [right; by apply writer_begin|by left].
    - right. destruct (pack size_of_snapshot v !! i) as [w|] eqn:E; [by apply writer_word|].
      destruct (inv_writer _ _ Hi) as (_ & _ & Hle & _). apply lookup_ge_None in E.
      rewrite length_pack in E. replace i with (kWordCount size_of_snapshot) by lia. apply writer_end. }
  assert (Hinv : ∀ t, slot_inv size_of_snapshot (storing value t)).
  { intros t. induction t as [|t IH]; [apply slot_inv_new|]. simpl.
    destruct (Hstep _ IH) as [->|H]; [done|]. by eapply slot_inv_step. }
  split; [done|]. intros t. by apply Hstep.
Qed.

(** The snapshot of [SnapshotLayout], which permits torque, after all its words
    are stored and the counter is even again. *)
Lemma dead_runtime_served_as_current_witness :
  WriteDataValue 0 kTorquePermitted (Boolean true) true ∈
    calls (server (publish_round (λ _ _, true) (newPublisher newServer)
      (dead_load (storing (to_bytes 0 0 demo_snapshot) 23) 32 0))).
Proof.
  assert (Hv : well_sized size_of_snapshot (to_bytes 0 0 demo_snapshot)) by by_compute.
  pose proof (dead_runtime_served_as_current (λ _ _, true) _ 23 32 0 (newPublisher newServer)
    (storing_timeline _ Hv) ltac:(lia)) as H. cbv zeta in H.
  assert (E : writer (storing (to_bytes 0 0 demo_snapshot) 23) = WIdle) by (vm_compute; reflexivity).
  rewrite E in H. destruct H as [_ H].
  assert (Ht : Edge.torque_permitted (of_bytes (current_value size_of_snapshot
    (storing (to_bytes 0 0 demo_snapshot) 23))) = 1) by (vm_compute; reflexivity).
  rewrite Ht in H. exact H.
Defined.
