(* ===== verification/ServerThreads.v ===== *)
(** * The threads of the OPC UA server process

    [src/src/apps/safeedge_opcua.cpp] from the start of the publishing thread to
    the end of [main]: [main] works off the actions of [OpcuaStartup.serve], the
    publishing thread makes its rounds, and a signal clears the flag that the
    protocol stack's [UA_Server_run] looks at. What the stack does inside that
    call is a parameter: it returns when the flag is clear, or with a fault. *)

From Stdlib Require Import Ascii String.
From stdpp Require Import base numbers list option strings pretty sets.
From S2P Require Import Prelude Snapshot OpcuaServer OpcuaStartup FairTermination.

#[local] Open Scope string_scope.
#[local] Open Scope Z_scope.
#[local] Open Scope list_scope.

(** ** The process *)

(** Where the publishing thread is: at the test of [running], before a round, in
    its sleep. *)
Inductive PublisherPc := PublisherAbsent | PublisherTesting | InRound | PublisherSleeping | PublisherEnded.

Record ServerProcess := mkServerProcess {
  serve_todo : list Action;
  g_server_running : bool;
  publisher_at : PublisherPc;
  running : bool;
  publisher : Publisher;
  deleted : bool;
  round_warnings : nat
}.

(** A step of [main], and whether the stack's loop fails in it; a step of the
    publishing thread, and what [tryLoad] gives; a signal. *)
Inductive ServerEvent :=
  | ServerMain (fault : bool)
  | PublisherStep (loaded : option Edge.RuntimeSnapshot)
  | ServerSignal.

Inductive ServerThreadId := ServerMainId | PublisherId.

#[export] Instance server_thread_id_eq_dec : EqDecision ServerThreadId.
Proof. solve_decision. Defined.

Definition server_thread_of (e : ServerEvent) : option ServerThreadId :=
  match e with
  | ServerMain _ => Some ServerMainId
  | PublisherStep _ => Some PublisherId
  | ServerSignal => None
  end.

Section Steps.
Context (h : Host).

(** Whether a round logs that an event could not be fired. *)
Definition round_warns (p : Publisher) (loaded : option Edge.RuntimeSnapshot) : bool :=
  match loaded with
  | Some x =>
      have_sequence p && negb (Edge.safety_sequence x =? last_sequence p) &&
      negb (fireSafetyTransition (good h) (describeTransition x (last_sequence p))
              (publishSnapshot (good h) x true (server p))).1
  | None => false
  end.

Definition publisher_step (loaded : option Edge.RuntimeSnapshot) (p : ServerProcess) : ServerProcess :=
  let '(mkServerProcess todo flag pc run pub del warned) := p in
  match pc with
  | PublisherAbsent | PublisherEnded => p
  | PublisherTesting =>
      mkServerProcess todo flag (if run then InRound else PublisherEnded) run pub del warned
  | InRound =>
      mkServerProcess todo flag PublisherSleeping run (publish_round (good h) pub loaded) del
        (if round_warns pub loaded then S warned else warned)
  | PublisherSleeping => mkServerProcess todo flag PublisherTesting run pub del warned
  end.

Definition publisher_ended (p : ServerProcess) : bool :=
  match publisher_at p with PublisherEnded => true | _ => false end.
Definition publisher_absent (p : ServerProcess) : bool :=
  match publisher_at p with PublisherAbsent => true | _ => false end.

Definition server_main_step (fault : bool) (p : ServerProcess) : ServerProcess :=
  let '(mkServerProcess todo flag pc run pub del warned) := p in
  match todo with
  | [] => p
  | a :: rest =>
      match a with
      | LogEvent _ _ _ | SetIntervalFloors _ _ => mkServerProcess rest flag pc run pub del warned
      | StartPublisher _ => mkServerProcess rest flag PublisherTesting run pub del warned
      | RunServer =>
          if negb flag || (fault && bool_decide (is_Some (runs h)))
          then mkServerProcess rest flag pc run pub del warned else p
      | StopPublisher => mkServerProcess rest flag pc false pub del warned
      | JoinPublisher =>
          if publisher_ended p then mkServerProcess rest flag pc run pub del warned else p
      | DeleteServer => mkServerProcess rest flag pc run pub true warned
      end
  end.

(** [onSignal]. *)
Definition server_onSignal (p : ServerProcess) : ServerProcess :=
  let '(mkServerProcess todo _ pc run pub del warned) := p in
  mkServerProcess todo false pc run pub del warned.

Definition server_step (e : ServerEvent) (p : ServerProcess) : ServerProcess :=
  match e with
  | ServerMain fault => server_main_step fault p
  | PublisherStep loaded => publisher_step loaded p
  | ServerSignal => server_onSignal p
  end.

Definition server_run (es : list ServerEvent) (p : ServerProcess) : ServerProcess :=
  foldl (λ p e, server_step e p) p es.

(** The process when its address space is ready, and whether a signal has
    arrived before. *)
Definition serving (port : Z) (s : Server) (signalled : bool) : ServerProcess :=
  mkServerProcess (serve h port s).1 (negb signalled) PublisherAbsent true (newPublisher s) false 0.

Definition server_exited (p : ServerProcess) : bool :=
  match serve_todo p with [] => true | _ => false end.

(** ** The invariant *)

Section Program.
Context (port : Z) (server0 : Server).

Local Abbreviation program := (serve h port server0).1.

(** The position of the store that stops the publisher. *)
Definition stop_position : nat := match runs h with Some _ => 4 | None => 3 end.

Record serving_inv (k : nat) (p : ServerProcess) : Prop := mkServingInv {
  si_length : (k ≤ stop_position + 4)%nat;
  si_todo : serve_todo p = drop k program;
  si_absent : publisher_absent p = (k <=? 0)%nat;
  si_running : running p = (k <=? stop_position)%nat;
  si_joined : (stop_position + 2 ≤ k)%nat → publisher_ended p = true;
  si_ended : publisher_ended p = true → running p = false;
  si_deleted : deleted p = (stop_position + 3 <=? k)%nat
}.

(** A field after a step, by the position of [main]. *)
Ltac position_field :=
  intros; unfold publisher_absent, publisher_ended in *; simpl in *;
  first [done|lia|congruence|auto with lia].

Lemma serving_inv_start signalled : serving_inv 0 (serving port server0 signalled).
Proof. constructor; unfold stop_position; simpl; try done; destruct (runs h); position_field. Qed.

Lemma publisher_step_inv loaded k p : serving_inv k p → serving_inv k (publisher_step loaded p).
Proof.
  intros [Hl Ht Ha Hr Hj He Hd]. destruct p as [todo flag pc run pub del warned].
  destruct pc; simpl in *; try (by constructor); constructor; simpl; try done; destruct run; position_field.
Qed.

Lemma signal_step_inv k p : serving_inv k p → serving_inv k (server_onSignal p).
Proof. intros [Hl Ht Ha Hr Hj He Hd]. by destruct p. Qed.

Lemma server_main_step_inv fault k p :
  serving_inv k p → ∃ k', serving_inv k' (server_main_step fault p).
Proof.
  intros Hinv. pose proof Hinv as [Hl Ht Ha Hr Hj He Hd].
  destruct p as [todo flag pc run pub del warned]. simpl in *. rewrite Ht.
  unfold stop_position in *. unfold serve in *. simpl in *.
  destruct (runs h) as [status|] eqn:Hruns; do 9 (try destruct k as [|k]); simpl in *; try lia.
  all: repeat case_match; simplify_eq; try (by eexists; rewrite ?Ht in Hinv; exact Hinv).
  all: match type of Hinv with serving_inv ?k _ => exists (S k) end.
  all: constructor; simpl; unfold serve, stop_position; rewrite ?Hruns; simpl; try position_field.
Qed.

Lemma server_step_inv e p : (∃ k, serving_inv k p) → ∃ k, serving_inv k (server_step e p).
Proof.
  intros [k Hk]. destruct e; simpl; eauto using server_main_step_inv, publisher_step_inv, signal_step_inv.
Qed.

Lemma server_run_inv es p : (∃ k, serving_inv k p) → ∃ k, serving_inv k (server_run es p).
Proof. revert p. induction es as [|e es IH]; intros p Hp; [done|]. by apply IH, server_step_inv. Qed.

(** Where [main] is, from what it has still to do. *)
Lemma serving_position k p :
  serving_inv k p →
  match serve_todo p with
  | [] => k = (stop_position + 4)%nat
  | JoinPublisher :: _ => k = (stop_position + 1)%nat
  | _ => True
  end.
Proof.
  intros [Hl Ht _ _ _ _ _]. rewrite Ht. unfold stop_position, serve in *. simpl in *.
  destruct (runs h); do 9 (try destruct k as [|k]); simpl in *; done || lia.
Qed.

(** While [UA_Server_run] is ahead nothing has been torn down. *)
Lemma serving_not_stopped k p :
  serving_inv k p → RunServer ∈ serve_todo p → server_exited p = false ∧ deleted p = false.
Proof.
  intros [Hl Ht _ _ _ _ Hd]. unfold server_exited. rewrite Hd, Ht.
  unfold stop_position, serve in *. simpl in *.
  destruct (runs h); do 9 (try destruct k as [|k]); simpl in *; intros Hin; try done; try lia; set_solver.
Qed.

(** ** Steps to the end *)

Definition publisher_left (p : ServerProcess) : nat :=
  match publisher_at p with
  | PublisherAbsent | InRound => 3
  | PublisherSleeping => 2
  | PublisherTesting => 1
  | PublisherEnded => 0
  end.

Lemma sum_list_cons n ns : sum_list (n :: ns) = (n + sum_list ns)%nat.
Proof. done. Qed.

Definition serve_weight (a : Action) : nat := match a with JoinPublisher => 4 | _ => 1 end.

Definition serve_left (p : ServerProcess) : nat :=
  match serve_todo p with
  | [] => 0
  | a :: rest =>
      match a with JoinPublisher => 1 + publisher_left p | _ => 1 end +
      sum_list (serve_weight <$> rest)
  end.

Definition serve_helpful (p : ServerProcess) : ServerThreadId :=
  match serve_todo p with
  | JoinPublisher :: _ => if publisher_ended p then ServerMainId else PublisherId
  | _ => ServerMainId
  end.

Definition server_told (p : ServerProcess) : Prop :=
  (∃ k, serving_inv k p) ∧ g_server_running p = false.

(** [main] at an action that it can leave. *)
Lemma serve_left_rest a rest p p' :
  serve_todo p = a :: rest → serve_todo p' = rest → (serve_left p' < serve_left p)%nat.
Proof.
  intros Ht Ht'. unfold serve_left. rewrite Ht, Ht'.
  destruct rest as [|b rest]; [destruct a; simpl; lia|]. rewrite fmap_cons, sum_list_cons.
  assert (publisher_left p' ≤ 3)%nat by (unfold publisher_left; destruct (publisher_at p'); lia).
  destruct a, b; cbn [serve_weight]; lia.
Qed.

(** The helpful thread's step; [main]'s while it waits for the publisher. *)
Lemma serve_main_helpful fault p :
  g_server_running p = false → server_exited p = false → serve_helpful p = ServerMainId →
  (serve_left (server_main_step fault p) < serve_left p)%nat.
Proof.
  destruct p as [[|a rest] flag pc run pub del warned]; [done|]. simpl. intros -> _ Hh.
  destruct a; try (by eapply serve_left_rest).
  unfold serve_helpful in Hh. simpl in Hh. unfold publisher_ended in *. simpl in *.
  destruct pc; try done. by eapply serve_left_rest.
Qed.

Lemma serve_main_waits fault p :
  serve_helpful p ≠ ServerMainId → server_main_step fault p = p.
Proof.
  destruct p as [[|[] rest] flag pc run pub del warned]; try done. unfold serve_helpful. simpl.
  by destruct (publisher_ended _).
Qed.

Lemma publisher_step_left loaded p :
  server_told p →
  serve_todo (publisher_step loaded p) = serve_todo p ∧
  (serve_left (publisher_step loaded p) ≤ serve_left p)%nat ∧
  (serve_helpful p = PublisherId → (serve_left (publisher_step loaded p) < serve_left p)%nat) ∧
  (serve_helpful p ≠ PublisherId → serve_helpful (publisher_step loaded p) = serve_helpful p).
Proof.
  intros [[k Hinv] _]. pose proof (serving_position k p Hinv) as Hpos.
  pose proof (si_running _ _ Hinv) as Hr. pose proof (si_absent _ _ Hinv) as Ha.
  destruct p as [[|a rest] flag pc run pub del warned]; [by destruct pc|].
  split; [by destruct pc|]. destruct a; try (by destruct pc; unfold serve_left, serve_helpful; simpl;
    split_and!; lia || done).
  simpl in Hpos, Hr. subst k. rewrite (proj2 (Nat.leb_gt _ _)) in Hr by lia.
  rewrite (proj2 (Nat.leb_gt _ _)) in Ha by lia. subst run.
  unfold serve_left, serve_helpful, publisher_ended, publisher_left, publisher_absent in *.
  destruct pc; simpl in *; try done; split_and!; done || lia.
Qed.

#[local] Instance server_terminates :
  FairTermination server_step server_thread_of server_told server_exited.
Proof.
  refine {| steps_left := serve_left; helpful := serve_helpful |}.
  - intros e p [Hp Hf]. split; [by apply server_step_inv|].
    destruct p as [[|[] rest] flag [] run pub del warned], e; simpl in *; repeat case_match; done.
  - intros [fault|loaded|] p Hp; simpl.
    + destruct (decide (serve_helpful p = ServerMainId)) as [Hh|Hh]; [|by rewrite serve_main_waits].
      destruct (server_exited p) eqn:He; [by destruct p as [[]]|].
      apply Nat.lt_le_incl, serve_main_helpful; [apply Hp|done..].
    + by apply publisher_step_left.
    + by destruct p.
  - intros [fault|loaded|] p Hp He Hh; simpl in *; [| |done].
    + apply serve_main_helpful; [apply Hp|done|congruence].
    + apply publisher_step_left; [done|congruence].
  - intros [fault|loaded|] p Hp He Hh; right; simpl in *; [| |by destruct p].
    + rewrite serve_main_waits; [done|]. by intros E; rewrite E in Hh.
    + apply publisher_step_left; [done|]. by intros E; rewrite E in Hh.
Qed.

(** ** The theorems *)

(** The rounds the publishing thread has made. *)
Fixpoint rounds (es : list ServerEvent) (p : ServerProcess) : list (option Edge.RuntimeSnapshot) :=
  match es with
  | [] => []
  | e :: es =>
      match e, publisher_at p with PublisherStep loaded, InRound => [loaded] | _, _ => [] end ++
      rounds es (server_step e p)
  end.

Lemma rounds_published es p :
  publisher (server_run es p) = publish_rounds (good h) (publisher p) (rounds es p).
Proof.
  revert p. induction es as [|e es IH]; intros p; [done|].
  change (server_run (e :: es) p) with (server_run es (server_step e p)). rewrite IH.
  unfold publish_rounds. cbn [rounds]. rewrite foldl_app. f_equal.
  destruct p as [[|[] rest] flag [] run pub del warned], e; simpl; repeat case_match; done.
Qed.

Lemma server_run_schedule_told signalled schedule n :
  schedule n = ServerSignal →
  server_told (run_schedule server_step schedule (n + 1) (serving port server0 signalled)).
Proof.
  intros Hn. rewrite run_schedule_add. cbn [run_schedule]. rewrite Nat.add_0_r, Hn. split.
  - apply server_step_inv, (run_schedule_invariant server_step (λ p, ∃ k, serving_inv k p)).
    + intros e s. apply server_step_inv.
    + eexists. apply serving_inv_start.
  - simpl. by destruct (run_schedule _ _ _ _).
Qed.

(** An event that gives [UA_Server_run] no reason to return. *)
Definition undisturbed (e : ServerEvent) : bool :=
  match e with ServerMain fault => negb fault | PublisherStep _ => true | ServerSignal => false end.

Lemma undisturbed_serves es p :
  forallb undisturbed es = true → g_server_running p = true → RunServer ∈ serve_todo p →
  RunServer ∈ serve_todo (server_run es p).
Proof.
  revert p. induction es as [|e es IH]; intros p; [done|]. simpl. intros [He Hes]%andb_true_iff Hf Hin.
  apply IH; [done|..].
  all: destruct p as [[|[] rest] flag [] run pub del warned], e as [[]| |]; simpl in *; subst;
    set_solver.
Qed.

(** C16: The OPC UA server stops in order, whatever the interleaving. The publishing
    thread never uses a server that was deleted: at the moment of the deletion
    and ever after it has ended. What it has written is what its rounds wrote.
    Without a signal and without a fault of the stack the process goes on
    serving; and under every fair schedule in which a signal arrives, [main]
    returns. *)
Theorem server_stops_in_order signalled :
  let p0 := serving port server0 signalled in
  (∀ es, let p := server_run es p0 in
     (deleted p = true → publisher_ended p = true) ∧
     (server_exited p = true → deleted p = true) ∧
     publisher p = publish_rounds (good h) (newPublisher server0) (rounds es p0) ∧
     (signalled = false → forallb undisturbed es = true →
        server_exited p = false ∧ deleted p = false)) ∧
  (∀ schedule n, fair server_thread_of schedule → schedule n = ServerSignal →
     ∃ m, server_exited (run_schedule server_step schedule m p0) = true).
Proof.
  cbv zeta. split.
  - intros es. destruct (server_run_inv es (serving port server0 signalled)) as [k Hinv];
      [eexists; apply serving_inv_start|].
    split_and!; [| |apply rounds_published|].
    + rewrite (si_deleted _ _ Hinv). intros Hk%Nat.leb_le. apply (si_joined _ _ Hinv). lia.
    + intros He. pose proof (serving_position k _ Hinv) as Hk. unfold server_exited in He.
      destruct (serve_todo _); [|done]. rewrite (si_deleted _ _ Hinv). apply Nat.leb_le. lia.
    + intros -> Hu. apply (serving_not_stopped k); [done|].
      apply undisturbed_serves; [done..|]. simpl. set_solver.
  - intros schedule n Hf Hn.
    destruct (fair_terminates (λ k, schedule (n + 1 + k)%nat) _
      (server_run_schedule_told signalled schedule n Hn) (fair_drop server_thread_of _ _ Hf)) as [m Hm].
    exists (n + 1 + m)%nat. by rewrite run_schedule_add.
Qed.
End Program.
End Steps.

(** ** A fair schedule *)

Definition alternating (k : nat) : ServerEvent :=
  match (k mod 2)%nat with 0%nat => ServerMain false | _ => PublisherStep None end.

Lemma alternating_fair (es : list ServerEvent) :
  fair server_thread_of (λ k, default (alternating k) (es !! k)).
Proof.
  apply (in_turns_are_fair _ _ _ 2 (λ t, match t with ServerMainId => 0 | PublisherId => 1 end)%nat); [lia|].
  intros t n. unfold alternating. rewrite Nat.Div0.mod_add. by destruct t.
Qed.

Lemma server_stops_in_order_witness :
  ∃ m, server_exited (run_schedule (server_step demo_host)
    (λ k, default (alternating k)
       ([ServerMain false; PublisherStep None; PublisherStep (Some Edge.newSnapshot); ServerSignal] !! k))
    m (serving demo_host 4840 newServer false)) = true.
Proof.
  destruct (server_stops_in_order demo_host 4840 newServer false) as [_ H].
  apply (H _ 3%nat); [apply alternating_fair|reflexivity].
Defined.
