(* ===== verification/Regex.v ===== *)
(** * Python text and regular expressions

    What [scripts/traceability.py] uses of the Python library: text as a list of
    code points, the classes of characters, [str.splitlines] and [str.strip], and
    [re] for patterns that repeat single characters only. Matching backtracks in
    the order of [re]: a greedy repetition tries the longest text first, a lazy
    one the shortest, an alternative its left side. *)

From Stdlib Require Import Ascii String.
From stdpp Require Import base numbers list option strings.
From S2P Require Import Prelude.

#[local] Open Scope Z_scope.
#[local] Open Scope list_scope.

(** ** Text *)

Abbreviation text := (list Z).

(** The code points of an ASCII literal. *)
Definition codes (s : string) : text := (λ a, Z.of_nat (nat_of_ascii a)) <$> list_ascii_of_string s.

(** The classes of characters; beyond ASCII they are those of the Unicode
    database. *)
Record Unicode := mkUnicode {
  unicode_space : Z → bool;
  unicode_digit : Z → bool;
  unicode_alnum : Z → bool
}.

Definition in_range (a b c : Z) : bool := (a <=? c) && (c <=? b).

Definition isspace (u : Unicode) (c : Z) : bool :=
  if c <? 128 then in_range 9 13 c || in_range 28 32 c else unicode_space u c.
Definition isdigit (u : Unicode) (c : Z) : bool :=
  if c <? 128 then in_range 48 57 c else unicode_digit u c.
Definition isword (u : Unicode) (c : Z) : bool :=
  if c <? 128 then in_range 48 57 c || in_range 65 90 c || in_range 97 122 c || (c =? 95)
  else unicode_alnum u c.

(** The line breaks of [str.splitlines]. *)
Definition line_break (c : Z) : bool :=
  in_range 10 13 c || in_range 28 30 c || (c =? 133) || in_range 8232 8233 c.

Fixpoint splitlines_from (line s : text) : list text :=
  match s with
  | [] => match line with [] => [] | _ => [reverse line] end
  | c :: s1 =>
      if line_break c then
        reverse line ::
        match s1 with
        | d :: s2 => if (c =? 13) && (d =? 10) then splitlines_from [] s2 else splitlines_from [] s1
        | [] => []
        end
      else splitlines_from (c :: line) s1
  end.

Definition splitlines (s : text) : list text := splitlines_from [] s.

(** The translation of line ends when a file is read as text. *)
Fixpoint universal_newlines (s : text) : text :=
  match s with
  | [] => []
  | c :: s1 =>
      if c =? 13 then
        10 :: match s1 with
              | d :: s2 => if d =? 10 then universal_newlines s2 else universal_newlines s1
              | [] => []
              end
      else c :: universal_newlines s1
  end.

Fixpoint lstrip (u : Unicode) (s : text) : text :=
  match s with
  | [] => []
  | c :: s' => if isspace u c then lstrip u s' else s
  end.

Definition strip (u : Unicode) (s : text) : text := reverse (lstrip u (reverse (lstrip u s))).

(** ["sep".join(items)]. *)
Fixpoint join (sep : text) (items : list text) : text :=
  match items with
  | [] => []
  | [x] => x
  | x :: rest => x ++ sep ++ join sep rest
  end.

Definition endswith (suffix s : text) : bool :=
  (length suffix <=? length s)%nat && bool_decide (drop (length s - length suffix) s = suffix).

(** The order of text, by code points. *)
Fixpoint text_leb (a b : text) : bool :=
  match a, b with
  | [], _ => true
  | _ :: _, [] => false
  | x :: a, y :: b => (x <? y) || (x =? y) && text_leb a b
  end.

(** ** Patterns *)

(** [One] is a character, [Many] a repetition of at least [least] of them; [Maybe]
    is a greedy [?], [AtEnd] is [$]. Groups are not nested. *)
Inductive Regex :=
  | One (p : Z → bool)
  | Many (least : nat) (lazy : bool) (p : Z → bool)
  | Then (a b : Regex)
  | Either (a b : Regex)
  | Maybe (a : Regex)
  | Group (a : Regex)
  | AtEnd.

Declare Scope regex_scope.
Delimit Scope regex_scope with regex.
Infix "▷" := Then (at level 60, right associativity) : regex_scope.
#[local] Open Scope regex_scope.

(** A literal text. *)
Fixpoint literal (s : text) : Regex :=
  match s with
  | [] => Many 0 false (λ _, false)
  | c :: s => One (Z.eqb c) ▷ literal s
  end.

Definition word (s : string) : Regex := literal (codes s).

(** [.], which is any character but a line feed. *)
Definition any (c : Z) : bool := negb (c =? 10).

(** ** Matching *)

Section Match.
Context {A : Type}.

Fixpoint many (least : nat) (lazy : bool) (p : Z → bool) (s : text) (k : text → option A) : option A :=
  match s with
  | [] => match least with O => k s | S _ => None end
  | c :: s' =>
      match least with
      | S least => if p c then many least lazy p s' k else None
      | O =>
          if p c then
            if lazy then match k s with Some x => Some x | None => many 0 lazy p s' k end
            else match many 0 lazy p s' k with Some x => Some x | None => k s end
          else k s
      end
  end.

Fixpoint matches (r : Regex) (s : text) (groups : list text) (k : text → list text → option A)
  : option A :=
  match r with
  | One p => match s with c :: s' => if p c then k s' groups else None | [] => None end
  | Many least lazy p => many least lazy p s (λ s', k s' groups)
  | Then a b => matches a s groups (λ s' groups, matches b s' groups k)
  | Either a b => match matches a s groups k with Some x => Some x | None => matches b s groups k end
  | Maybe a => match matches a s groups k with Some x => Some x | None => k s groups end
  | Group a =>
      matches a s groups (λ s' groups, k s' (groups ++ [take (length s - length s') s]))
  | AtEnd => if bool_decide (s = [] ∨ s = [10]) then k s groups else None
  end.
End Match.

(** [pattern.match]: what is left of the text, and the groups. *)
Definition match_prefix (r : Regex) (s : text) : option (text * list text) :=
  matches r s [] (λ s' groups, Some (s', groups)).

(** [pattern.findall], for a pattern that does not match the empty text; [skip]
    characters belong to the last match. *)
Fixpoint findall_from (r : Regex) (skip : nat) (s : text) : list (list text) :=
  match s with
  | [] => []
  | _ :: s' =>
      match skip with
      | S skip => findall_from r skip s'
      | O =>
          match match_prefix r s with
          | Some (rest, groups) => groups :: findall_from r (length s - length rest - 1) s'
          | None => findall_from r 0 s'
          end
      end
  end.

Definition findall (r : Regex) (s : text) : list (list text) := findall_from r 0 s.

(** ** What a pattern means *)

(** [denotes r pre rest groups]: [r] matches [pre] when [rest] follows, with
    these groups. *)
Fixpoint denotes (r : Regex) (pre rest : text) (groups : list text) : Prop :=
  match r with
  | One p => ∃ c, pre = [c] ∧ p c = true ∧ groups = []
  | Many least _ p => Forall (λ c, p c = true) pre ∧ (least ≤ length pre)%nat ∧ groups = []
  | Then a b =>
      ∃ pre1 pre2 groups1 groups2, pre = pre1 ++ pre2 ∧ groups = groups1 ++ groups2 ∧
        denotes a pre1 (pre2 ++ rest) groups1 ∧ denotes b pre2 rest groups2
  | Either a b => denotes a pre rest groups ∨ denotes b pre rest groups
  | Maybe a => denotes a pre rest groups ∨ (pre = [] ∧ groups = [])
  | Group a => ∃ inner, denotes a pre rest inner ∧ groups = inner ++ [pre]
  | AtEnd => pre = [] ∧ groups = [] ∧ (rest = [] ∨ rest = [10])
  end.

Section Meaning.
Context {A : Type}.

Lemma many_sound least lazy p s (k : text → option A) x :
  many least lazy p s k = Some x →
  ∃ pre rest, s = pre ++ rest ∧ Forall (λ c, p c = true) pre ∧ (least ≤ length pre)%nat ∧
    k rest = Some x.
Proof.
  revert least. induction s as [|c s IH]; intros least.
  { destruct least; [|done]. intros Hk. exists [], []. by split_and!. }
  assert (Hmore : ∀ least', p c = true → many least' lazy p s k = Some x →
    ∃ pre rest, c :: s = pre ++ rest ∧ Forall (λ c, p c = true) pre ∧ (S least' ≤ length pre)%nat ∧
      k rest = Some x).
  { intros least' Hc (pre & rest & -> & Hp & Hl & Hk)%IH. exists (c :: pre), rest.
    split_and!; [done|by constructor|simpl; lia|done]. }
  assert (Hnone : k (c :: s) = Some x → ∃ pre rest, c :: s = pre ++ rest ∧
    Forall (λ c, p c = true) pre ∧ (0 ≤ length pre)%nat ∧ k rest = Some x)
    by (intros; by exists [], (c :: s)).
  simpl. destruct least as [|least], (p c) eqn:Hc; try done; [|by apply Hmore].
  assert (Hmore0 : many 0 lazy p s k = Some x → ∃ pre rest, c :: s = pre ++ rest ∧
    Forall (λ c, p c = true) pre ∧ (0 ≤ length pre)%nat ∧ k rest = Some x).
  { intros (pre & rest & ? & ? & ? & ?)%Hmore; [|done]. exists pre, rest. split_and!; try done. lia. }
  destruct lazy.
  - destruct (k (c :: s)) eqn:Hk; [intros [= ->]; by apply Hnone|apply Hmore0].
  - destruct (many 0 false p s k) eqn:Hk; [intros [= ->]; by apply Hmore0|apply Hnone].
Qed.

Lemma many_complete least lazy p pre rest (k : text → option A) :
  Forall (λ c, p c = true) pre → (least ≤ length pre)%nat → is_Some (k rest) →
  is_Some (many least lazy p (pre ++ rest) k).
Proof.
  intros Hp. revert least. induction Hp as [|c pre Hc Hp IH]; intros least Hl Hk; simpl in *.
  { destruct least; [|lia]. destruct rest as [|d rest]; simpl; [done|].
    destruct (p d); [|done]. destruct lazy; [by destruct Hk as [x ->]|].
    destruct (many 0 false p rest k); [done|by destruct Hk as [x ->]]. }
  rewrite Hc. destruct least as [|least]; [|apply IH; [lia|done]].
  destruct (IH 0%nat ltac:(lia) Hk) as [x ->]. destruct lazy; [|by eexists]. case_match; by eexists.
Qed.

(** The matcher finds only what the pattern means, *)
Lemma matches_sound r s groups (k : text → list text → option A) x :
  matches r s groups k = Some x →
  ∃ pre rest found, s = pre ++ rest ∧ denotes r pre rest found ∧ k rest (groups ++ found) = Some x.
Proof.
  revert s groups k. induction r as [p|least lazy p|a IHa b IHb|a IHa b IHb|a IHa|a IHa|];
    intros s groups k; simpl.
  - destruct s as [|c s]; [done|]. destruct (p c) eqn:Hc; [|done]. intros Hk.
    exists [c], s, []. rewrite app_nil_r. split_and!; eauto.
  - intros (pre & rest & -> & Hp & Hl & Hk)%many_sound. exists pre, rest, []. by rewrite app_nil_r.
  - intros (pre1 & rest1 & g1 & -> & Ha & (pre2 & rest & g2 & -> & Hb & Hk)%IHb)%IHa.
    exists (pre1 ++ pre2), rest, (g1 ++ g2). rewrite <- !app_assoc in *.
    split_and!; [done| |done]. by exists pre1, pre2, g1, g2.
  - destruct (matches a s groups k) eqn:Ha.
    + intros [= ->]. apply IHa in Ha as (pre & rest & g & ? & ? & ?). exists pre, rest, g. eauto.
    + intros (pre & rest & g & ? & ? & ?)%IHb. exists pre, rest, g. eauto.
  - destruct (matches a s groups k) eqn:Ha.
    + intros [= ->]. apply IHa in Ha as (pre & rest & g & ? & ? & ?). exists pre, rest, g. eauto.
    + intros Hk. exists [], s, []. rewrite app_nil_r. split_and!; auto.
  - intros (pre & rest & g & -> & Ha & Hk)%IHa. exists pre, rest, (g ++ [pre]).
    split_and!; [done|by exists g|]. rewrite app_assoc, <- Hk.
    by rewrite length_app, Nat.add_sub, take_app_length.
  - case_bool_decide as He; [|done]. intros Hk. exists [], s, []. rewrite app_nil_r. by split_and!.
Qed.

(** and it finds a match when there is one. *)
Lemma matches_complete r pre rest groups found (k : text → list text → option A) :
  denotes r pre rest found → is_Some (k rest (groups ++ found)) →
  is_Some (matches r (pre ++ rest) groups k).
Proof.
  revert pre rest groups found k.
  induction r as [p|least lazy p|a IHa b IHb|a IHa b IHb|a IHa|a IHa|];
    intros pre rest groups found k; simpl.
  - intros (c & -> & Hc & ->). simpl. by rewrite Hc, app_nil_r.
  - intros (Hp & Hl & ->). rewrite app_nil_r. intros Hk. by apply (many_complete least lazy p pre rest (λ s, k s groups)).
  - intros (pre1 & pre2 & g1 & g2 & -> & -> & Ha & Hb) Hk. rewrite <- app_assoc.
    apply (IHa _ _ _ g1 _ Ha). apply (IHb _ _ _ g2 _ Hb). by rewrite <- app_assoc.
  - intros [Ha|Hb] Hk; [by destruct (IHa _ _ _ _ k Ha Hk) as [x ->]|].
    destruct (matches a _ _ _); [done|]. by apply (IHb _ _ _ _ _ Hb).
  - intros [Ha|[-> ->]] Hk; [by destruct (IHa _ _ _ _ k Ha Hk) as [x ->]|].
    destruct (matches a _ _ _); [done|]. by rewrite app_nil_r in Hk.
  - intros (g & Ha & ->) Hk. apply (IHa _ _ _ _ _ Ha).
    rewrite length_app, Nat.add_sub, take_app_length. by rewrite <- app_assoc.
  - intros (-> & -> & Hr). rewrite app_nil_r. simpl. by rewrite bool_decide_true.
Qed.
End Meaning.

(** A pattern is found at the beginning of a text exactly when it means one of
    the text's beginnings. *)
Lemma match_prefix_iff r s :
  is_Some (match_prefix r s) ↔ ∃ pre rest groups, s = pre ++ rest ∧ denotes r pre rest groups.
Proof.
  split.
  - intros [x (pre & rest & g & -> & Hr & _)%matches_sound]. by exists pre, rest, g.
  - intros (pre & rest & g & -> & Hr). by apply (matches_complete r pre rest [] g).
Qed.

Lemma match_prefix_sound r s rest groups :
  match_prefix r s = Some (rest, groups) → ∃ pre, s = pre ++ rest ∧ denotes r pre rest groups.
Proof. intros (pre & rest' & g & -> & Hr & [= -> <-])%matches_sound. by exists pre. Qed.

(** Groups are parts of the text. *)
Lemma denotes_groups (P : Z → Prop) r pre rest groups :
  denotes r pre rest groups → Forall P pre → Forall (Forall P) groups.
Proof.
  revert pre rest groups. induction r as [p|least lazy p|a IHa b IHb|a IHa b IHb|a IHa|a IHa|];
    intros pre rest groups; simpl.
  - by intros (c & -> & _ & ->).
  - by intros (_ & _ & ->).
  - intros (pre1 & pre2 & g1 & g2 & -> & -> & Ha & Hb) [H1 H2]%Forall_app.
    apply Forall_app. split; eauto.
  - intros [Ha|Hb]; eauto.
  - intros [Ha|[-> ->]]; eauto.
  - intros (g & Ha & ->) Hp. apply Forall_app. split; [eauto|by repeat constructor].
  - by intros (-> & -> & _).
Qed.

Lemma denotes_literal l pre rest groups :
  denotes (literal l) pre rest groups → pre = l ∧ groups = [].
Proof.
  revert pre rest groups. induction l as [|c l IH]; intros pre rest groups; simpl.
  - intros (Hp & _ & ->). split; [|done]. destruct Hp; done.
  - intros (pre1 & pre2 & g1 & g2 & -> & -> & (d & -> & Hd & ->) & [-> ->]%IH).
    apply Z.eqb_eq in Hd as ->. done.
Qed.

(** ** Matching without a choice *)

Section Direct.
Context {A : Type}.

Lemma matches_then a b s groups (k : text → list text → option A) :
  matches (a ▷ b) s groups k = matches a s groups (λ s' groups, matches b s' groups k).
Proof. done. Qed.

Lemma matches_literal l s groups (k : text → list text → option A) :
  matches (literal l) (l ++ s) groups k = k s groups.
Proof.
  induction l as [|c l IH]; simpl; [by destruct s|]. by rewrite Z.eqb_refl.
Qed.

(** A greedy repetition takes all it can when what follows then matches. *)
Lemma many_greedy least p pre rest (k : text → option A) x :
  Forall (λ c, p c = true) pre → (least ≤ length pre)%nat →
  (∀ c, head rest = Some c → p c = false) → k rest = Some x →
  many least false p (pre ++ rest) k = Some x.
Proof.
  intros Hp Hl Hr Hk. revert least Hl. induction Hp as [|c pre Hc Hp IH]; intros least Hl; simpl in *.
  { destruct least; [|lia]. destruct rest as [|d rest]; [done|]. simpl. by rewrite (Hr d). }
  rewrite Hc. destruct least as [|least]; [|apply IH; lia]. by rewrite IH by lia.
Qed.

Lemma matches_group a pre rest groups (k : text → list text → option A) x :
  (∀ k', k' rest groups = Some x → matches a (pre ++ rest) groups k' = Some x) →
  k rest (groups ++ [pre]) = Some x →
  matches (Group a) (pre ++ rest) groups k = Some x.
Proof.
  intros Ha Hk. simpl. apply Ha. by rewrite length_app, Nat.add_sub, take_app_length.
Qed.
End Direct.

(** The longest beginning of a text in a class. *)
Lemma longest_prefix (p : Z → bool) s :
  ∃ pre rest, s = pre ++ rest ∧ Forall (λ c, p c = true) pre ∧
    (∀ c, head rest = Some c → p c = false).
Proof.
  induction s as [|c s (pre & rest & -> & Hp & Hr)]; [by exists [], []|].
  destruct (p c) eqn:Hc; [exists (c :: pre), rest; eauto|].
  exists [], (c :: pre ++ rest). split_and!; [done..|]. by intros ? [= <-].
Qed.

(** ** Finding all matches *)

Lemma findall_from_sound r skip s groups :
  groups ∈ findall_from r skip s →
  ∃ pre here rest, s = pre ++ here ∧ match_prefix r here = Some (rest, groups).
Proof.
  revert skip. induction s as [|c s IH]; intros skip Hin; simpl in Hin; [by apply elem_of_nil in Hin|].
  assert (Hlater : ∀ skip, groups ∈ findall_from r skip s →
    ∃ pre here rest, c :: s = pre ++ here ∧ match_prefix r here = Some (rest, groups)).
  { intros skip' (pre & here & rest & -> & Hm)%IH. by exists (c :: pre), here, rest. }
  destruct skip as [|skip]; [|by apply (Hlater skip)].
  destruct (match_prefix r (c :: s)) as [[rest found]|] eqn:Hm; [|by apply (Hlater 0%nat)].
  apply elem_of_cons in Hin as [->|Hin]; [by exists [], (c :: s), rest|by eapply Hlater].
Qed.

(** When a match has the character it begins with nowhere else, no match hides
    another one. *)
Section Complete.
Context (r : Regex) (start : Z).
Hypothesis starts : ∀ s rest groups, match_prefix r s = Some (rest, groups) →
  ∃ inner, s = start :: inner ++ rest ∧ start ∉ inner.

Lemma findall_from_complete pre here rest groups skip :
  match_prefix r here = Some (rest, groups) → (skip ≤ length pre)%nat →
  groups ∈ findall_from r skip (pre ++ here).
Proof.
  intros Hm. revert skip. pose proof (starts _ _ _ Hm) as (inner & Hhere & _).
  induction pre as [|c pre IH]; intros skip Hskip; simpl in Hskip |- *.
  { destruct skip; [|lia]. rewrite Hhere in *. simpl. rewrite Hm. by left. }
  destruct skip as [|skip]; [|apply IH; lia].
  destruct (match_prefix r (c :: pre ++ here)) as [[rest' found]|] eqn:Hm'; [|apply IH; lia].
  right. apply IH. destruct (starts _ _ _ Hm') as (inner' & [= -> Hs] & Hno).
  rewrite Hs. rewrite length_app. destruct (decide (length inner' ≤ length pre)%nat); [lia|].
  destruct Hno. apply list_elem_of_lookup. exists (length pre).
  assert (Hl : (inner' ++ rest') !! length pre = Some start)
    by (rewrite <- Hs, Hhere; by rewrite lookup_app_r, Nat.sub_diag by lia).
  rewrite lookup_app_l in Hl by lia. done.
Qed.
End Complete.
