(* ===== verification/Traceability.v ===== *)
(** * The requirements traceability matrix

    [scripts/traceability.py]: the tool that builds [docs/traceability-matrix.md]
    from the annotations in the sources and fails the build when a requirement
    is not linked to code and to a test, or when an annotation names a
    requirement that does not exist. The repository is a list of files; the
    command line is whether [--check] was given. *)

From Stdlib Require Import Ascii String.
From stdpp Require Import base numbers list option strings pretty sorting.
From S2P Require Import Prelude Regex.

#[local] Open Scope regex_scope.
#[local] Open Scope string_scope.
#[local] Open Scope Z_scope.
#[local] Open Scope list_scope.

(** ** The repository *)

(** A path below the root, by its parts; the files with their decoded contents. *)
Abbreviation Path := (list text).
Definition Tree : Type := list (Path * text).

Fixpoint find_file (t : Tree) (path : Path) : option text :=
  match t with
  | [] => None
  | (p, contents) :: t => if bool_decide (p = path) then Some contents else find_file t path
  end.

Definition is_file (t : Tree) (path : Path) : bool := bool_decide (is_Some (find_file t path)).

(** [path.read_text]; the callers have seen that the file exists. *)
Definition read_text (t : Tree) (path : Path) : text :=
  universal_newlines (default [] (find_file t path)).

(** [path.write_text]. *)
Fixpoint write_text (t : Tree) (path : Path) (contents : text) : Tree :=
  match t with
  | [] => [(path, contents)]
  | (p, old) :: t =>
      if bool_decide (p = path) then (p, contents) :: t else (p, old) :: write_text t path contents
  end.

Definition as_posix (path : Path) : text := join (codes "/") path.

(** The order of paths, part by part. *)
Fixpoint path_leb (a b : Path) : bool :=
  match a, b with
  | [], _ => true
  | _ :: _, [] => false
  | x :: a, y :: b => text_leb x y && (negb (text_leb y x) || path_leb a b)
  end.

Definition path_le (a b : Path) : Prop := path_leb a b = true.

#[export] Instance path_le_dec : RelDecision path_le.
Proof. intros a b. unfold path_le. apply _. Defined.

(** Whether a path is below [directory] and its name ends in [suffix]. *)
Definition below (directory suffix : text) (path : Path) : bool :=
  match path with
  | d :: _ :: _ => bool_decide (d = directory) && endswith suffix (List.last path [])
  | _ => false
  end.

Definition rglob (t : Tree) (directory suffix : text) : list Path :=
  List.filter (below directory suffix) (fst <$> t).

(** ** Constants *)

Definition REQUIREMENTS_FILE : Path := [codes "docs"; codes "safety-requirements.md"].
Definition MATRIX_FILE : Path := [codes "docs"; codes "traceability-matrix.md"].
Definition FMEA_FILE : Path := [codes "docs"; codes "fmea.md"].

Definition IMPLEMENTATION_DIRS : list text := [codes "include"; codes "src"].
Definition VERIFICATION_DIRS : list text := [codes "tests"; codes "fuzz"].
Definition SOURCE_SUFFIXES : list text := [codes ".hpp"; codes ".cpp"; codes ".h"; codes ".cc"].
Definition EXTRA_IMPLEMENTATION_FILES : list Path :=
  [[codes "Dockerfile"]; [codes "deploy"; codes "docker-compose.yml"];
   [codes "deploy"; codes "prometheus.yml"]].

Definition em_dash : Z := 8212.

(** [[A-Za-z0-9-]]. *)
Definition ident_char (c : Z) : bool :=
  in_range 65 90 c || in_range 97 122 c || in_range 48 57 c || (c =? 45).

Section Patterns.
Context (u : Unicode).

Definition REQUIREMENT_HEADING : Regex :=
  word "###" ▷ Many 1 false (isspace u) ▷
  Group (word "REQ-" ▷ Many 1 false (in_range 65 90) ▷ word "-" ▷ Many 1 false (isdigit u)) ▷
  Many 1 false (isspace u) ▷ Many 1 false (λ c, (c =? 45) || (c =? em_dash)) ▷
  Many 1 false (isspace u) ▷ Group (Many 1 true any) ▷ Many 0 false (isspace u) ▷ AtEnd.

Definition STATEMENT_LINE : Regex :=
  word "**Statement:**" ▷ Many 0 false (isspace u) ▷ Group (Many 0 false any) ▷ AtEnd.

Definition ANNOTATION : Regex :=
  word "@" ▷ Group (Either (word "satisfies") (word "verifies")) ▷ Many 1 false (isspace u) ▷
  Group (word "REQ-" ▷ Many 1 false ident_char).

Definition TEST_DECLARATION : Regex :=
  Many 0 false (isspace u) ▷ word "TEST" ▷ Maybe (word "_F") ▷ word "(" ▷
  Many 0 false (isspace u) ▷ Group (Many 1 false (isword u)) ▷ Many 0 false (isspace u) ▷
  word "," ▷ Many 0 false (isspace u) ▷ Group (Many 1 false (isword u)) ▷
  Many 0 false (isspace u) ▷ word ")".

(** The whole match is the group. *)
Definition reference : Regex := Group (word "REQ-" ▷ Many 1 false ident_char).
End Patterns.

(** ** Data *)

Record Requirement := mkRequirement {
  ident : text;
  title : text;
  statement : text;
  satisfied_by : list text;
  verified_by : list text
}.

Inductive Kind := kSatisfies | kVerifies.

#[export] Instance kind_eq_dec : EqDecision Kind.
Proof. solve_decision. Defined.

Definition kind_name (k : Kind) : text :=
  match k with kSatisfies => codes "satisfies" | kVerifies => codes "verifies" end.

Record Annotation := mkAnnotation {
  annotation_ident : text;
  location : text;
  label : text
}.

Definition digits (n : nat) : text := codes (pretty n).

Section Tool.
Context (u : Unicode) (root : text).

(** ** [parse_requirements] *)

(** The requirements so far are newest first: the first is [current]. *)
Fixpoint parse_lines (number : nat) (lines : list text) (requirements : list Requirement)
  : text + list Requirement :=
  match lines with
  | [] => inr (reverse requirements)
  | raw :: lines =>
      match match_prefix (REQUIREMENT_HEADING u) raw with
      | Some (_, [i; t]) =>
          if bool_decide (i ∈ (ident <$> requirements)) then
            inl (codes "error: safety-requirements.md:" ++ digits number ++
                 codes ": duplicate requirement " ++ i)
          else parse_lines (S number) lines (mkRequirement i t [] [] [] :: requirements)
      | _ =>
          match match_prefix (STATEMENT_LINE u) raw, requirements with
          | Some (_, [s]), current :: earlier =>
              parse_lines (S number) lines
                (match statement current with
                 | [] => mkRequirement (ident current) (title current) (strip u s)
                           (satisfied_by current) (verified_by current) :: earlier
                 | _ => requirements
                 end)
          | _, _ => parse_lines (S number) lines requirements
          end
      end
  end.

Fixpoint check_statements (requirements : list Requirement) : option text :=
  match requirements with
  | [] => None
  | r :: rest =>
      match statement r with
      | [] => Some (codes "error: " ++ ident r ++ codes " has no **Statement:** line")
      | _ => check_statements rest
      end
  end.

Definition parse_requirements (t : Tree) : text + list Requirement :=
  if negb (is_file t REQUIREMENTS_FILE) then
    inl (codes "error: requirements file not found: " ++ root ++ codes "/" ++ as_posix REQUIREMENTS_FILE)
  else
    match parse_lines 1 (splitlines (read_text t REQUIREMENTS_FILE)) [] with
    | inl error => inl error
    | inr requirements =>
        match check_statements requirements with
        | Some error => inl error
        | None => inr requirements
        end
    end.

(** ** Annotations *)

Definition source_files (t : Tree) (directories : list text) : list Path :=
  (directories ≫= λ directory,
     SOURCE_SUFFIXES ≫= λ suffix, merge_sort path_le (rglob t directory suffix)) ++
  (if bool_decide (directories = IMPLEMENTATION_DIRS)
   then List.filter (is_file t) EXTRA_IMPLEMENTATION_FILES else []).

Fixpoint enclosing_test (lines : list text) (index : nat) : option text :=
  match match_prefix (TEST_DECLARATION u) (default [] (lines !! index)) with
  | Some (_, [suite; name]) => Some (suite ++ codes "." ++ name)
  | _ => match index with O => None | S index => enclosing_test lines index end
  end.

(** The annotations of [kind] on a line. *)
Definition line_annotations (kind : Kind) (relative : text) (lines : list text) (index : nat)
    (line : text) : list Annotation :=
  findall (ANNOTATION u) line ≫= λ groups,
    match groups with
    | [found_kind; i] =>
        if bool_decide (found_kind = kind_name kind) then
          let test := match kind with kVerifies => enclosing_test lines index | kSatisfies => None end in
          [mkAnnotation i (relative ++ codes ":" ++ digits (index + 1)) (default relative test)]
        else []
    | _ => []
    end.

Definition file_annotations (kind : Kind) (t : Tree) (path : Path) : list Annotation :=
  let lines := splitlines (read_text t path) in
  concat (imap (line_annotations kind (as_posix path) lines) lines).

Definition collect_annotations (t : Tree) (directories : list text) (kind : Kind) : list Annotation :=
  source_files t directories ≫= file_annotations kind t.

(** ** [check_fmea_references] *)

Definition line_problems (known : list text) (index : nat) (line : text) : list text :=
  findall reference line ≫= λ groups,
    match groups with
    | [i] =>
        if bool_decide (i ∈ known) then []
        else [codes "docs/fmea.md:" ++ digits (index + 1) ++
              codes ": references unknown requirement " ++ i]
    | _ => []
    end.

Definition check_fmea_references (t : Tree) (requirements : list Requirement) : list text :=
  if negb (is_file t FMEA_FILE) then [codes "fmea.md is missing"]
  else concat (imap (line_problems (ident <$> requirements)) (splitlines (read_text t FMEA_FILE))).

(** ** [build_matrix] *)

Definition links (kind : Kind) (r : Requirement) : list text :=
  match kind with kSatisfies => satisfied_by r | kVerifies => verified_by r end.

(** A label goes into the list of its kind, once. *)
Definition add_link (kind : Kind) (l : text) (r : Requirement) : Requirement :=
  if bool_decide (l ∈ links kind r) then r
  else
    match kind with
    | kSatisfies =>
        mkRequirement (ident r) (title r) (statement r) (satisfied_by r ++ [l]) (verified_by r)
    | kVerifies =>
        mkRequirement (ident r) (title r) (statement r) (satisfied_by r) (verified_by r ++ [l])
    end.

Definition unknown_problem (kind : Kind) (a : Annotation) : text :=
  location a ++ codes ": @" ++ kind_name kind ++ codes " references unknown requirement " ++
  annotation_ident a.

Definition link (kind : Kind) (state : list Requirement * list text) (a : Annotation)
  : list Requirement * list text :=
  let (requirements, problems) := state in
  if bool_decide (annotation_ident a ∈ (ident <$> requirements)) then
    ((λ r, if bool_decide (ident r = annotation_ident a) then add_link kind (label a) r else r)
       <$> requirements, problems)
  else (requirements, problems ++ [unknown_problem kind a]).

Definition missing_links (r : Requirement) : list text :=
  (if bool_decide (satisfied_by r = [])
   then [ident r ++ codes ": no implementation is annotated @satisfies " ++ ident r] else []) ++
  (if bool_decide (verified_by r = [])
   then [ident r ++ codes ": no test is annotated @verifies " ++ ident r] else []).

Definition link_all (t : Tree) (requirements : list Requirement) : list Requirement * list text :=
  let state := foldl (link kSatisfies) (requirements, [])
    (collect_annotations t IMPLEMENTATION_DIRS kSatisfies) in
  foldl (link kVerifies) state (collect_annotations t VERIFICATION_DIRS kVerifies).

Definition cell (items : list text) : text :=
  match items with
  | [] => [em_dash]
  | _ => join (codes "<br>") ((λ item, codes "`" ++ item ++ codes "`") <$> items)
  end.

Definition row (r : Requirement) : text :=
  codes "| **" ++ ident r ++ codes "** | " ++ title r ++ codes " | " ++ cell (satisfied_by r) ++
  codes " | " ++ cell (verified_by r) ++ codes " |".

Definition matrix_lines (requirements : list Requirement) : list text :=
  let total := digits (length requirements) in
  let count (f : Requirement → list text) := digits (length (filter (λ r, f r ≠ []) requirements)) in
  [codes "# Requirements traceability matrix";
   [];
   codes "**Generated by `scripts/traceability.py` " ++ [em_dash] ++ codes " do not edit by hand.**";
   [];
   codes "A hand-maintained matrix is accurate on the day it is written and wrong";
   codes "ever after. This one is derived from `@satisfies` and `@verifies`";
   codes "annotations in the source, and CI fails if any requirement has no";
   codes "implementation link, no verification link, or if an annotation names a";
   codes "requirement that does not exist.";
   [];
   codes "- Requirements: **" ++ total ++ codes "**";
   codes "- With an implementation link: **" ++ count satisfied_by ++ codes "/" ++ total ++ codes "**";
   codes "- With a verification link: **" ++ count verified_by ++ codes "/" ++ total ++ codes "**";
   [];
   codes "This is not a safety case. See `docs/safety-requirements.md`.";
   [];
   codes "| Requirement | Title | Implemented by | Verified by |";
   codes "|---|---|---|---|"] ++
  (row <$> requirements) ++ [[]].

Definition build_matrix (t : Tree) (requirements : list Requirement) : list text * list text :=
  let (requirements, problems) := link_all t requirements in
  (matrix_lines requirements, problems ++ (requirements ≫= missing_links)).

(** ** [main] *)

(** The exit code, what is printed, and the repository afterwards. *)
Record Outcome := mkOutcome {
  exit_code : Z;
  stdout : list text;
  stderr : list text;
  tree : Tree
}.

Definition line_feed : text := [10].

Definition main (check : bool) (t : Tree) : Outcome :=
  match parse_requirements t with
  | inl error => mkOutcome 1 [] [error] t
  | inr requirements =>
      let (lines, problems) := build_matrix t requirements in
      let problems := problems ++ check_fmea_references t requirements in
      let rendered := join line_feed lines ++ line_feed in
      match problems with
      | _ :: _ =>
          mkOutcome 1 []
            ((codes "traceability: " ++ digits (length problems) ++ codes " problem(s)" ++ line_feed) ::
             ((λ problem, codes "  " ++ problem) <$> problems) ++ [[]]) t
      | [] =>
          if check then
            if negb (is_file t MATRIX_FILE) then
              mkOutcome 1 []
                [codes "error: traceability-matrix.md is missing; run scripts/traceability.py"] t
            else if bool_decide (read_text t MATRIX_FILE ≠ rendered) then
              mkOutcome 1 []
                [codes "error: traceability-matrix.md is out of date; " ++
                 codes "run scripts/traceability.py and commit the result"] t
            else
              mkOutcome 0
                [codes "traceability OK: " ++ digits (length requirements) ++
                 codes " requirements, all implemented and verified, matrix current"] [] t
          else
            mkOutcome 0
              [codes "wrote " ++ as_posix MATRIX_FILE ++ codes " (" ++ digits (length requirements) ++
               codes " requirements)"] []
              (write_text t MATRIX_FILE rendered)
      end
  end.
End Tool.
