(* ===== verification/TraceabilitySafety.v ===== *)
(** * What the traceability tool guarantees

    The annotations that [findall] sees are exactly those in the text; the tool
    succeeds exactly when every link is there; what it writes is what its check
    accepts. *)

From Stdlib Require Import Ascii String.
From stdpp Require Import base numbers list option strings pretty sorting.
From S2P Require Import Prelude Regex Traceability.

#[local] Open Scope regex_scope.
#[local] Open Scope string_scope.
#[local] Open Scope Z_scope.
#[local] Open Scope list_scope.

(** ** Annotations in a line *)

Section Lines.
Context (u : Unicode).

(** An identifier as annotations have it. *)
Definition annotation_id (i : text) : Prop :=
  ∃ body, i = codes "REQ-" ++ body ∧ body ≠ [] ∧ Forall (λ c, ident_char c = true) body.

(** The line has an annotation of [i] at its beginning, and [rest] after it. *)
Definition annotates_here (k : Kind) (i line rest : text) : Prop :=
  ∃ sp, line = codes "@" ++ kind_name k ++ sp ++ i ++ rest ∧
    sp ≠ [] ∧ Forall (λ c, isspace u c = true) sp ∧ annotation_id i ∧
    (∀ c, head rest = Some c → ident_char c = false).

Definition annotates (k : Kind) (i line : text) : Prop :=
  ∃ pre here rest, line = pre ++ here ∧ annotates_here k i here rest.

Lemma matches_kind {A} k rest groups (f : text → list text → option A) x :
  f rest groups = Some x →
  matches (Either (word "satisfies") (word "verifies")) (kind_name k ++ rest) groups f = Some x.
Proof.
  intros Hf. destruct k; cbn [matches].
  - unfold word, kind_name. by rewrite matches_literal, Hf.
  - change (matches (word "satisfies") (kind_name kVerifies ++ rest) groups f) with (@None A).
    cbn iota. unfold word, kind_name. by rewrite matches_literal.
Qed.

Lemma matches_id {A} i rest groups (f : text → list text → option A) x :
  annotation_id i → (∀ c, head rest = Some c → ident_char c = false) → f rest groups = Some x →
  matches (word "REQ-" ▷ Many 1 false ident_char) (i ++ rest) groups f = Some x.
Proof.
  intros (body & -> & Hb & Hc) Hr Hf. unfold word. cbn [matches].
  rewrite <- app_assoc, matches_literal. apply many_greedy; try done. destruct body; [done|simpl; lia].
Qed.

Lemma annotation_matches k i line rest :
  annotates_here k i line rest → match_prefix (ANNOTATION u) line = Some (rest, [kind_name k; i]).
Proof.
  intros (sp & -> & Hsp & Hs & Hi & Hr). unfold match_prefix, ANNOTATION.
  rewrite matches_then. unfold word at 1. rewrite matches_literal, matches_then.
  apply (matches_group _ (kind_name k)); [intros f Hf; by apply matches_kind|].
  rewrite matches_then.
  apply many_greedy; [done|destruct sp; [done|simpl; lia]| |].
  { destruct Hi as (body & -> & _). by intros c [= <-]. }
  apply (matches_group _ i); [|done]. intros f Hf. by apply matches_id.
Qed.

(** What matches is an annotation. *)
Lemma annotation_denotes pre rest groups :
  denotes (ANNOTATION u) pre rest groups →
  ∃ k sp i, pre = codes "@" ++ kind_name k ++ sp ++ i ∧ sp ≠ [] ∧
    Forall (λ c, isspace u c = true) sp ∧ annotation_id i.
Proof.
  intros (p0 & p1 & g0 & g1 & -> & -> & [-> ->]%denotes_literal & H).
  destruct H as (p2 & p3 & g2 & g3 & -> & -> & (gi & Hk & ->) & H).
  destruct H as (sp & i & g4 & g5 & -> & -> & (Hs & Hl & ->) & (gj & Hi & ->)).
  destruct Hi as (p4 & body & g6 & g7 & -> & -> & [-> ->]%denotes_literal & (Hb & Hb1 & ->)).
  exists (if bool_decide (p2 = kind_name kSatisfies) then kSatisfies else kVerifies), sp, (codes "REQ-" ++ body).
  split_and!; [|by destruct sp; [simpl in Hl; lia|]|done|].
  - by destruct Hk as [[-> ->]%denotes_literal|[-> ->]%denotes_literal].
  - exists body. split_and!; [done| |done]. by destruct body; [simpl in Hb1; lia|].
Qed.

(** A match is the annotation at this place, with its whole identifier. *)
Lemma match_annotates line rest groups :
  match_prefix (ANNOTATION u) line = Some (rest, groups) →
  ∃ k i, groups = [kind_name k; i] ∧ annotates_here k i line rest.
Proof.
  intros Hm. pose proof (match_prefix_sound _ _ _ _ Hm) as (pre & -> & Hd).
  apply annotation_denotes in Hd as (k & sp & i & -> & Hsp & Hs & (body & -> & Hb & Hc)).
  destruct (longest_prefix ident_char rest) as (more & rest' & -> & Hmore & Hr).
  assert (Hh : annotates_here k (codes "REQ-" ++ (body ++ more))
    ((codes "@" ++ kind_name k ++ sp ++ codes "REQ-" ++ body) ++ more ++ rest') rest').
  { exists sp. split_and!; try done; [by rewrite <- !app_assoc|]. exists (body ++ more).
    split_and!; [done|by destruct body|by apply Forall_app]. }
  pose proof (annotation_matches _ _ _ _ Hh) as Hm'. rewrite Hm in Hm'.
  injection Hm' as Hrest ->. rewrite Hrest in *. eauto.
Qed.
Lemma not_space_at sp : Forall (λ c, isspace u c = true) sp → 64 ∉ sp.
Proof. intros Hs Hin. rewrite Forall_forall in Hs. by apply Hs in Hin. Qed.

Lemma annotation_starts line rest groups :
  match_prefix (ANNOTATION u) line = Some (rest, groups) →
  ∃ inner, line = 64 :: inner ++ rest ∧ 64 ∉ inner.
Proof.
  intros (k & i & -> & (sp & -> & Hsp & Hs%not_space_at & (body & -> & Hb & Hc) & Hr))%match_annotates.
  exists (kind_name k ++ sp ++ codes "REQ-" ++ body). split; [by rewrite <- !app_assoc|].
  rewrite !elem_of_app. intros [Hin|[Hin|[Hin|Hin]]]; [destruct k| | |].
  1-2,4: revert Hin; by refine (bool_decide_eq_false_1 _ _).
  - done.
  - rewrite Forall_forall in Hc. by apply Hc in Hin.
Qed.

Lemma kind_name_inj k k' : kind_name k = kind_name k' → k = k'.
Proof. by destruct k, k'. Qed.

(** [findall] gives exactly the annotations of the line. *)
Lemma findall_annotates k i line :
  [kind_name k; i] ∈ findall (ANNOTATION u) line ↔ annotates k i line.
Proof.
  split.
  - intros (pre & here & rest & -> & (k' & i' & [= ->%kind_name_inj ->] & Hh)%match_annotates)%findall_from_sound.
    by exists pre, here, rest.
  - intros (pre & here & rest & -> & Hm%annotation_matches).
    apply (findall_from_complete _ 64 annotation_starts _ _ _ _ _ Hm). lia.
Qed.

(** Every match has a kind and an identifier. *)
Lemma findall_shape groups line :
  groups ∈ findall (ANNOTATION u) line → ∃ k i, groups = [kind_name k; i].
Proof.
  intros (pre & here & rest & -> & (k & i & -> & _)%match_annotates)%findall_from_sound. eauto.
Qed.
End Lines.

(** ** Annotations in the repository *)

Section Repository.
Context (u : Unicode) (root : text).

Definition dirs (k : Kind) : list text :=
  match k with kSatisfies => IMPLEMENTATION_DIRS | kVerifies => VERIFICATION_DIRS end.

(** A file that is searched for annotations of this kind has one of [i]. *)
Definition annotated (t : Tree) (k : Kind) (i : text) : Prop :=
  ∃ path line, path ∈ source_files t (dirs k) ∧ line ∈ splitlines (read_text t path) ∧
    annotates u k i line.

Lemma elem_line_annotations k relative lines index line a :
  a ∈ line_annotations u k relative lines index line → annotates u k (annotation_ident a) line.
Proof.
  intros (groups & Ha & Hg)%list_elem_of_bind. pose proof (findall_shape u _ _ Hg) as (k' & i & ->).
  case_bool_decide as Hk; [|by apply elem_of_nil in Ha]. apply kind_name_inj in Hk as ->.
  apply list_elem_of_singleton in Ha as ->. by apply findall_annotates.
Qed.

Lemma line_annotations_elem k relative lines index line i :
  annotates u k i line →
  ∃ a, a ∈ line_annotations u k relative lines index line ∧ annotation_ident a = i.
Proof.
  intros Hg%findall_annotates. eexists. split; [|shelve].
  apply list_elem_of_bind. exists [kind_name k; i]. split; [|done]. rewrite bool_decide_true by done.
  by apply list_elem_of_singleton. Unshelve. done.
Qed.

Lemma elem_concat_imap {A B} (f : nat → A → list B) l y :
  y ∈ concat (imap f l) ↔ ∃ n x, l !! n = Some x ∧ y ∈ f n x.
Proof.
  rewrite list_elem_of_In, in_concat. split.
  - intros (z & Hz & Hy). apply list_elem_of_In, list_elem_of_lookup in Hz as [n Hn].
    rewrite list_lookup_imap in Hn. apply fmap_Some in Hn as (x & Hx & ->).
    exists n, x. split; [done|]. by apply list_elem_of_In.
  - intros (n & x & Hx & Hy). exists (f n x). split; [|by apply list_elem_of_In].
    apply list_elem_of_In, list_elem_of_lookup. exists n. by rewrite list_lookup_imap, Hx.
Qed.

(** The tool collects exactly the annotations that are there. *)
Lemma collected t k i :
  (∃ a, a ∈ collect_annotations u t (dirs k) k ∧ annotation_ident a = i) ↔ annotated t k i.
Proof.
  split.
  - intros (a & (path & Ha & Hp)%list_elem_of_bind & <-).
    apply elem_concat_imap in Ha as (n & line & Hl & Ha%elem_line_annotations).
    exists path, line. split_and!; [done|by eapply list_elem_of_lookup_2|done].
  - intros (path & line & Hp & [n Hl]%list_elem_of_lookup & Ha).
    destruct (line_annotations_elem k (as_posix path) (splitlines (read_text t path)) n line i Ha)
      as (a & Hin & Hi).
    exists a. split; [|done]. apply list_elem_of_bind. exists path. split; [|done].
    apply elem_concat_imap. eauto.
Qed.

(** ** Links *)

(** A requirement after the annotations of one kind. *)
Definition absorb (k : Kind) (annotations : list Annotation) (r : Requirement) : Requirement :=
  foldl (λ r a, if bool_decide (ident r = annotation_ident a) then add_link k (label a) r else r)
    r annotations.

Definition unknown (k : Kind) (idents : list text) (annotations : list Annotation) : list text :=
  unknown_problem k <$> filter (λ a, annotation_ident a ∉ idents) annotations.

Lemma add_link_ident k l r : ident (add_link k l r) = ident r.
Proof. unfold add_link. case_bool_decide; [done|]. by destruct k. Qed.

Lemma absorb_ident k annotations r : ident (absorb k annotations r) = ident r.
Proof.
  unfold absorb. revert r. induction annotations as [|a annotations IH]; intros r; [done|].
  simpl. rewrite IH. case_bool_decide; [apply add_link_ident|done].
Qed.

Lemma foldl_link k annotations requirements problems :
  foldl (link k) (requirements, problems) annotations =
  (absorb k annotations <$> requirements,
   problems ++ unknown k (ident <$> requirements) annotations).
Proof.
  revert requirements problems. induction annotations as [|a annotations IH]; intros rs ps; simpl.
  { unfold unknown. simpl. rewrite app_nil_r. f_equal. symmetry. apply list_fmap_id. }
  unfold unknown. rewrite filter_cons. case_bool_decide as Hin; rewrite IH.
  - rewrite decide_False by tauto. rewrite <- !list_fmap_compose.
    replace (ident ∘ _ <$> rs) with (ident <$> rs); [done|]. apply list_fmap_ext.
    intros n r _. simpl. case_bool_decide; [by rewrite add_link_ident|done].
  - rewrite decide_True by done. cbn [fmap list_fmap]. rewrite <- app_assoc. f_equal.
    apply list_fmap_ext. intros n r Hr. unfold absorb. simpl. rewrite bool_decide_false; [done|].
    intros Hi. apply Hin. rewrite <- Hi. apply list_elem_of_fmap_2, (list_elem_of_lookup_2 _ _ _ Hr).
Qed.
(** The labels of the annotations of a requirement, each once, in order. *)
Definition add_once (ls : list text) (l : text) : list text :=
  if bool_decide (l ∈ ls) then ls else ls ++ [l].

Definition labels (annotations : list Annotation) (i : text) : list text :=
  foldl add_once [] (label <$> filter (λ a, annotation_ident a = i) annotations).

Lemma absorb_links k annotations r :
  links k (absorb k annotations r) =
  foldl add_once (links k r) (label <$> filter (λ a, annotation_ident a = ident r) annotations).
Proof.
  unfold absorb. revert r. induction annotations as [|a annotations IH]; intros r; [done|].
  simpl. rewrite IH, filter_cons. clear IH. case_bool_decide as Hi.
  - rewrite decide_True by done. rewrite add_link_ident. simpl. f_equal.
    unfold add_link, add_once. case_bool_decide; [done|]. by destruct k.
  - by rewrite decide_False.
Qed.

Lemma absorb_other k k' annotations r :
  k ≠ k' → links k' (absorb k annotations r) = links k' r.
Proof.
  intros Hk. unfold absorb. revert r. induction annotations as [|a annotations IH]; intros r; [done|].
  simpl. rewrite IH. case_bool_decide; [|done]. unfold add_link. case_bool_decide; [done|].
  by destruct k, k'.
Qed.

Lemma elem_add_once ls more l : l ∈ foldl add_once ls more ↔ l ∈ ls ∨ l ∈ more.
Proof.
  revert ls. induction more as [|m more IH]; intros ls; simpl.
  { rewrite elem_of_nil. tauto. }
  rewrite IH, elem_of_cons. unfold add_once. case_bool_decide as Hm; [|rewrite elem_of_app, list_elem_of_singleton; tauto].
  split; [tauto|]. by intros [?|[->|?]]; auto.
Qed.

Lemma NoDup_add_once ls more : NoDup ls → NoDup (foldl add_once ls more).
Proof.
  revert ls. induction more as [|m more IH]; intros ls Hls; [done|]. apply IH. unfold add_once.
  case_bool_decide; [done|]. apply NoDup_app. split_and!; [done| |apply NoDup_singleton].
  by intros x Hx ->%list_elem_of_singleton.
Qed.

Lemma labels_nonempty annotations i :
  labels annotations i ≠ [] ↔ ∃ a, a ∈ annotations ∧ annotation_ident a = i.
Proof.
  unfold labels. split.
  - destruct (foldl _ _ _) as [|l ls] eqn:He; [done|]. intros _.
    assert (Hl : l ∈ foldl add_once [] (label <$> filter (λ a, annotation_ident a = i) annotations))
      by (rewrite He; by left).
    apply elem_add_once in Hl as [Hl%elem_of_nil|(a & _ & Ha)%list_elem_of_fmap]; [done|].
    apply list_elem_of_filter in Ha as [? ?]. eauto.
  - intros (a & Ha & Hi) He. apply (not_elem_of_nil (label a)). rewrite <- He.
    apply elem_add_once. right. apply list_elem_of_fmap_2. by apply list_elem_of_filter.
Qed.

(** A requirement with all its links. *)
Definition linked (t : Tree) (r : Requirement) : Requirement :=
  mkRequirement (ident r) (title r) (statement r)
    (labels (collect_annotations u t (dirs kSatisfies) kSatisfies) (ident r))
    (labels (collect_annotations u t (dirs kVerifies) kVerifies) (ident r)).

Lemma absorb_title k annotations r :
  title (absorb k annotations r) = title r ∧ statement (absorb k annotations r) = statement r.
Proof.
  unfold absorb. revert r. induction annotations as [|a annotations IH]; intros r; [done|].
  simpl. destruct (IH (if bool_decide (ident r = annotation_ident a) then add_link k (label a) r else r))
    as [-> ->]. case_bool_decide; [|done]. unfold add_link. case_bool_decide; [done|]. by destruct k.
Qed.

Lemma absorb_both t r :
  satisfied_by r = [] → verified_by r = [] →
  absorb kVerifies (collect_annotations u t VERIFICATION_DIRS kVerifies)
    (absorb kSatisfies (collect_annotations u t IMPLEMENTATION_DIRS kSatisfies) r) = linked t r.
Proof.
  intros Hs Hv. set (v := collect_annotations u t VERIFICATION_DIRS kVerifies).
  set (s := collect_annotations u t IMPLEMENTATION_DIRS kSatisfies).
  pose proof (absorb_title kVerifies v (absorb kSatisfies s r)) as [Ht1 Hst1].
  pose proof (absorb_title kSatisfies s r) as [Ht2 Hst2].
  assert (Hi : ident (absorb kVerifies v (absorb kSatisfies s r)) = ident r)
    by (by rewrite !absorb_ident).
  pose proof (absorb_links kVerifies v (absorb kSatisfies s r)) as Hlv.
  pose proof (absorb_other kVerifies kSatisfies v (absorb kSatisfies s r) ltac:(done)) as Hls.
  rewrite (absorb_other kSatisfies kVerifies s r) in Hlv by done.
  rewrite (absorb_links kSatisfies s r) in Hls. rewrite absorb_ident in Hlv. simpl in *.
  rewrite Hs in Hls. rewrite Hv in Hlv.
  destruct (absorb kVerifies v _). simpl in *. unfold linked, labels. cbn [dirs]. fold s v. congruence.
Qed.

(** [build_matrix] after the parser: each requirement gets its links, and the
    unknown identifiers are the problems. *)
Lemma link_all_spec t requirements :
  Forall (λ r, satisfied_by r = [] ∧ verified_by r = []) requirements →
  link_all u t requirements =
  (linked t <$> requirements,
   unknown kSatisfies (ident <$> requirements) (collect_annotations u t (dirs kSatisfies) kSatisfies) ++
   unknown kVerifies (ident <$> requirements) (collect_annotations u t (dirs kVerifies) kVerifies)).
Proof.
  intros Hr. unfold link_all. rewrite !foldl_link. f_equal.
  - rewrite <- list_fmap_compose. apply list_fmap_ext. intros n r Hn.
    rewrite Forall_lookup in Hr. destruct (Hr n r Hn). by apply absorb_both.
  - simpl. f_equal. f_equal. rewrite <- list_fmap_compose. apply list_fmap_ext.
    intros n r _. apply absorb_ident.
Qed.

Lemma unknown_nil t k idents :
  unknown k idents (collect_annotations u t (dirs k) k) = [] ↔ ∀ i, annotated t k i → i ∈ idents.
Proof.
  unfold unknown. split.
  - intros Hf%fmap_nil_inv i (a & Ha & <-)%collected. destruct (decide (annotation_ident a ∈ idents)) as [|Hn]; [done|].
    assert (Hin : a ∈ filter (λ a, annotation_ident a ∉ idents) (collect_annotations u t (dirs k) k))
      by (by apply list_elem_of_filter).
    rewrite Hf in Hin. by apply elem_of_nil in Hin.
  - intros Hi. destruct (filter _ _) as [|a l] eqn:He; [done|].
    assert (Hin : a ∈ filter (λ a, annotation_ident a ∉ idents) (collect_annotations u t (dirs k) k))
      by (rewrite He; by left).
    apply list_elem_of_filter in Hin as [Hn Ha]. destruct Hn. apply Hi, collected. eauto.
Qed.

Lemma missing_nil t requirements :
  (linked t <$> requirements) ≫= missing_links = [] ↔
  ∀ k i, i ∈ (ident <$> requirements) → annotated t k i.
Proof.
  assert (Hone : ∀ r, missing_links (linked t r) = [] ↔ ∀ k, annotated t k (ident r)).
  { intros r. unfold missing_links. simpl. split.
    - intros He k. apply collected, labels_nonempty. intros Hl.
      destruct k; rewrite (bool_decide_true _ Hl) in He; [done|]. by destruct (bool_decide _).
    - intros Hk. rewrite !bool_decide_false; [done|..]; apply labels_nonempty, collected, Hk. }
  induction requirements as [|r rs IH]; simpl.
  { split; [|done]. intros _ k i Hi. by apply elem_of_nil in Hi. }
  rewrite app_nil, IH, Hone. split.
  - intros [H1 H2] k i [->|Hi]%elem_of_cons; auto.
  - intros H. split; intros; apply H; rewrite elem_of_cons; auto.
Qed.
End Repository.
