(* ===== verification/TraceabilityGate.v ===== *)
(** * When the traceability tool lets a build pass

    The parser of the requirements against the sections of the file; the exit
    code of the tool against the links in the repository; the matrix it writes
    against its own check. *)

From Stdlib Require Import Ascii String.
From stdpp Require Import base numbers list option strings pretty sorting.
From S2P Require Import Prelude Regex Traceability TraceabilitySafety.

#[local] Open Scope string_scope.
#[local] Open Scope Z_scope.
#[local] Open Scope list_scope.

Section Gate.
Context (u : Unicode) (root : text).

(** ** The sections of the requirements *)

Definition heading (line : text) : option (text * text) :=
  match match_prefix (REQUIREMENT_HEADING u) line with
  | Some (_, [i; t]) => Some (i, t)
  | _ => None
  end.

Definition statement_of (line : text) : option text :=
  match match_prefix (STATEMENT_LINE u) line with
  | Some (_, [s]) => Some (strip u s)
  | _ => None
  end.

(** The lines before the first heading, and every heading with the lines up to
    the next one. *)
Fixpoint sections (lines : list text) : list text * list (text * text * list text) :=
  match lines with
  | [] => ([], [])
  | line :: lines =>
      let (before, found) := sections lines in
      match heading line with
      | Some it => ([], (it, before) :: found)
      | None => (line :: before, found)
      end
  end.

Definition absorb_statement (r : Requirement) (line : text) : Requirement :=
  match statement_of line, statement r with
  | Some s, [] => mkRequirement (ident r) (title r) s (satisfied_by r) (verified_by r)
  | _, _ => r
  end.

Definition section_requirement (section : text * text * list text) : Requirement :=
  let '(i, t, body) := section in foldl absorb_statement (mkRequirement i t [] [] []) body.

Definition section_ident (section : text * text * list text) : text := section.1.1.

Definition settle (lines : list text) (requirements : list Requirement) : list Requirement :=
  match requirements with
  | [] => []
  | current :: earlier => foldl absorb_statement current lines :: earlier
  end.

Lemma parse_lines_step n line lines requirements :
  parse_lines u n (line :: lines) requirements =
  match heading line with
  | Some (i, t) =>
      if bool_decide (i ∈ (ident <$> requirements)) then
        inl (codes "error: safety-requirements.md:" ++ digits n ++
             codes ": duplicate requirement " ++ i)
      else parse_lines u (S n) lines (mkRequirement i t [] [] [] :: requirements)
  | None => parse_lines u (S n) lines (settle [line] requirements)
  end.
Proof.
  cbn [parse_lines]. unfold heading.
  assert (Hs : match match_prefix (STATEMENT_LINE u) line, requirements with
    | Some (_, [s]), current :: earlier =>
        parse_lines u (S n) lines
          (match statement current with
           | [] => mkRequirement (ident current) (title current) (strip u s)
                     (satisfied_by current) (verified_by current) :: earlier
           | _ => requirements
           end)
    | _, _ => parse_lines u (S n) lines requirements
    end = parse_lines u (S n) lines (settle [line] requirements)).
  { unfold settle, absorb_statement, statement_of. simpl.
    destruct (match_prefix (STATEMENT_LINE u) line) as [[? [|s [|]]]|], requirements as [|c e]; try done.
    by destruct (statement c). }
  destruct (match_prefix (REQUIREMENT_HEADING u) line) as [[? [|i [|t [|]]]]|]; done.
Qed.

Lemma absorb_statement_ident r line : ident (absorb_statement r line) = ident r.
Proof. unfold absorb_statement. by destruct (statement_of line), (statement r). Qed.

Lemma settle_idents line requirements :
  ident <$> settle [line] requirements = ident <$> requirements.
Proof. destruct requirements as [|c e]; [done|]. simpl. by rewrite absorb_statement_ident. Qed.

Lemma settle_nil requirements : settle [] requirements = requirements.
Proof. by destruct requirements. Qed.

(** The parser succeeds when no heading comes twice, and then has the sections. *)
Lemma parse_lines_spec lines n requirements result :
  let (before, found) := sections lines in
  parse_lines u n lines requirements = inr result ↔
  NoDup (section_ident <$> found) ∧
  (∀ i, i ∈ (section_ident <$> found) → i ∉ (ident <$> requirements)) ∧
  result = reverse (settle before requirements) ++ (section_requirement <$> found).
Proof.
  revert n requirements. induction lines as [|line lines IH]; intros n rs.
  { simpl. rewrite app_nil_r, settle_nil.
    split; [intros [= <-]|by intros (_ & _ & ->)]. split_and!; [constructor| |done].
    intros i Hi. by apply elem_of_nil in Hi. }
  cbn [sections]. rewrite parse_lines_step. destruct (sections lines) as [before found].
  destruct (heading line) as [[i t]|].
  - case_bool_decide as Hin.
    { split; [done|]. intros (_ & Hn & _). destruct (Hn i); [left|done]. }
    assert (E : reverse (settle before (mkRequirement i t [] [] [] :: rs)) ++
        (section_requirement <$> found) =
      reverse (settle [] rs) ++ (section_requirement <$> (i, t, before) :: found)).
    { rewrite settle_nil. cbn [settle fmap list_fmap]. by rewrite reverse_cons, <- app_assoc. }
    rewrite IH, E, !fmap_cons, NoDup_cons. change (section_ident (i, t, before)) with i.
    setoid_rewrite not_elem_of_cons. setoid_rewrite elem_of_cons. split.
    + intros (Hd & Hi & ->). split_and!; [|done| |done].
      * intros Hf. by destruct (Hi i Hf).
      * intros j [->|Hj]; [done|]. by apply Hi.
    + intros ((Hi & Hd) & Hj & ->). split_and!; [done| |done]. intros j Hf. split; [|by apply Hj; right].
      by intros ->.
  - rewrite IH, settle_idents. by destruct rs.
Qed.

(** ** What a complete repository is *)

Definition required (t : Tree) : list (text * text * list text) :=
  (sections (splitlines (read_text t REQUIREMENTS_FILE))).2.

Definition has_statement (body : list text) : Prop :=
  ∃ line s, line ∈ body ∧ statement_of line = Some s ∧ s ≠ [].

Definition fmea_reference (t : Tree) (i : text) : Prop :=
  ∃ line, line ∈ splitlines (read_text t FMEA_FILE) ∧ [i] ∈ findall reference line.

(** The requirements are there, distinct and stated; the annotations of either
    kind name exactly them; the failure analysis names no others. *)
Record complete (t : Tree) : Prop := mkComplete {
  complete_file : is_file t REQUIREMENTS_FILE = true;
  complete_distinct : NoDup (section_ident <$> required t);
  complete_stated : Forall (λ s, has_statement s.2) (required t);
  complete_links : ∀ k i, i ∈ (section_ident <$> required t) ↔ annotated u t k i;
  complete_fmea_file : is_file t FMEA_FILE = true;
  complete_fmea : ∀ i, fmea_reference t i → i ∈ (section_ident <$> required t)
}.

(** The matrix of a repository. *)
Definition rendered (t : Tree) : text :=
  join line_feed (matrix_lines (linked u t <$> (section_requirement <$> required t))) ++ line_feed.

(** ** Parsing *)

Lemma foldl_statement body r :
  ident (foldl absorb_statement r body) = ident r ∧
  satisfied_by (foldl absorb_statement r body) = satisfied_by r ∧
  verified_by (foldl absorb_statement r body) = verified_by r ∧
  (statement (foldl absorb_statement r body) ≠ [] ↔ statement r ≠ [] ∨ has_statement body).
Proof.
  revert r. induction body as [|line body IH]; intros r; simpl.
  { split_and!; try done. split; [by left|]. intros [?|(l & s & Hl & _)]; [done|by apply elem_of_nil in Hl]. }
  destruct (IH (absorb_statement r line)) as (-> & -> & -> & ->). clear IH.
  unfold has_statement. setoid_rewrite elem_of_cons. unfold absorb_statement.
  destruct (statement_of line) as [s|] eqn:Hs, (statement r) as [|c st] eqn:Hr; simpl;
    split_and!; try done; rewrite ?Hr; naive_solver.
Qed.

Lemma section_idents (found : list (text * text * list text)) :
  ident <$> (section_requirement <$> found) = section_ident <$> found.
Proof.
  rewrite <- list_fmap_compose. apply list_fmap_ext. intros n [[i t] body] _.
  apply (foldl_statement body (mkRequirement i t [] [] [])).
Qed.

Lemma section_unlinked (found : list (text * text * list text)) :
  Forall (λ r, satisfied_by r = [] ∧ verified_by r = []) (section_requirement <$> found).
Proof.
  apply Forall_fmap, Forall_forall. intros [[i t] body] _. simpl.
  by destruct (foldl_statement body (mkRequirement i t [] [] [])) as (_ & -> & -> & _).
Qed.

Lemma check_statements_none requirements :
  check_statements requirements = None ↔ Forall (λ r, statement r ≠ []) requirements.
Proof.
  induction requirements as [|r rs IH]; simpl; [done|]. rewrite Forall_cons.
  destruct (statement r); [split; [done|by intros [? _]]|]. rewrite IH. naive_solver.
Qed.

Lemma parse_requirements_spec t requirements :
  parse_requirements u root t = inr requirements ↔
  is_file t REQUIREMENTS_FILE = true ∧ NoDup (section_ident <$> required t) ∧
  Forall (λ s, has_statement s.2) (required t) ∧ requirements = section_requirement <$> required t.
Proof.
  unfold parse_requirements, required. set (lines := splitlines _).
  destruct (is_file t REQUIREMENTS_FILE); cbn [negb]; [|split; [done|by intros [? _]]].
  assert (Hst : ∀ found, Forall (λ r, statement r ≠ []) (section_requirement <$> found) ↔
    Forall (λ s, has_statement s.2) found).
  { intros found. rewrite Forall_fmap. apply Forall_proper; [|done]. intros [[i title] body]. simpl.
    destruct (foldl_statement body (mkRequirement i title [] [] [])) as (_ & _ & _ & ->). naive_solver. }
  pose proof (λ result, parse_lines_spec lines 1 [] result) as Hp.
  destruct (sections lines) as [before found]. cbn [snd settle] in *.
  rewrite <- Hst, <- check_statements_none.
  assert (Hno : ∀ i, i ∈ (section_ident <$> found) → i ∉ ident <$> []) by (intros; apply not_elem_of_nil).
  destruct (parse_lines u 1 lines []) as [error|rs].
  - split; [done|]. intros (_ & Hd & _ & _).
    destruct (Hp (section_requirement <$> found)) as [_ Hp2]. by discriminate Hp2.
  - destruct (Hp rs) as [Hp1 _]. destruct (Hp1 eq_refl) as (Hd & _ & ->). simpl.
    destruct (check_statements _); naive_solver.
Qed.

(** ** Problems *)

Lemma reference_shape groups line : groups ∈ findall reference line → ∃ i, groups = [i].
Proof.
  intros (pre & here & rest & -> & (p & -> & (inner & Hd & ->))%match_prefix_sound)%findall_from_sound.
  destruct Hd as (p1 & p2 & g1 & g2 & _ & -> & [_ ->]%denotes_literal & (_ & _ & ->)). by exists p.
Qed.

Lemma fmea_nil t requirements :
  check_fmea_references t requirements = [] ↔
  is_file t FMEA_FILE = true ∧ ∀ i, fmea_reference t i → i ∈ (ident <$> requirements).
Proof.
  unfold check_fmea_references. destruct (is_file t FMEA_FILE); cbn [negb]; [|split; [done|by intros [? _]]].
  split.
  - intros He. split; [done|]. intros i (line & [n Hl]%list_elem_of_lookup & Hi).
    destruct (decide (i ∈ (ident <$> requirements))) as [|Hn]; [done|].
    destruct (not_elem_of_nil (codes "docs/fmea.md:" ++ digits (n + 1) ++
              codes ": references unknown requirement " ++ i)). rewrite <- He.
    apply elem_concat_imap. exists n, line. split; [done|]. apply list_elem_of_bind.
    exists [i]. split; [|done]. rewrite bool_decide_false by done. by left.
  - intros [_ Hi]. destruct (concat _) as [|y ys] eqn:He; [done|].
    assert (Hy : y ∈ y :: ys) by by left. rewrite <- He in Hy.
    apply elem_concat_imap in Hy as (n & line & Hl & (groups & Hy & Hg)%list_elem_of_bind).
    destruct (reference_shape _ _ Hg) as [i ->].
    rewrite bool_decide_true in Hy; [by apply elem_of_nil in Hy|].
    apply Hi. exists line. split; [by eapply list_elem_of_lookup_2|done].
Qed.

(** The matrix and the problems of parsed requirements. *)
Lemma build_matrix_spec t :
  let requirements := section_requirement <$> required t in
  let (lines, problems) := build_matrix u t requirements in
  join line_feed lines ++ line_feed = rendered t ∧
  (problems = [] ↔ ∀ k i, i ∈ (section_ident <$> required t) ↔ annotated u t k i).
Proof.
  cbv zeta. unfold build_matrix. rewrite link_all_spec by apply section_unlinked.
  split; [done|]. rewrite !app_nil, !unknown_nil, missing_nil, section_idents. split.
  - intros [[Hs Hv] Hm] k i. split; [apply Hm|]. destruct k; [apply Hs|apply Hv].
  - intros Hk. split_and!; [intros i; apply (Hk kSatisfies)|intros i; apply (Hk kVerifies)|intros k i; apply Hk].
Qed.

(** ** The gate *)

Definition failed (t : Tree) (o : Outcome) : Prop :=
  exit_code o = 1 ∧ stderr o ≠ [] ∧ stdout o = [] ∧ tree o = t.

Lemma main_cases t : complete t ∨ ∀ check, failed t (main u root check t).
Proof.
  unfold main. destruct (parse_requirements u root t) as [error|rs] eqn:Hp; [by right|].
  apply parse_requirements_spec in Hp as (Hf & Hd & Hs & ->).
  pose proof (build_matrix_spec t) as Hb. cbv zeta in Hb.
  destruct (build_matrix u t _) as [lines problems]. destruct Hb as [_ Hb].
  destruct (problems ++ _) eqn:He; [|by right]. apply app_nil in He as [H1 [H2 H3]%fmea_nil].
  rewrite section_idents in H3. left. constructor; try done. by apply Hb.
Qed.

(** The last part of [main]. *)
Definition deliver (check : bool) (t : Tree) (requirements : nat) : Outcome :=
  if check then
    if negb (is_file t MATRIX_FILE) then
      mkOutcome 1 []
        [codes "error: traceability-matrix.md is missing; run scripts/traceability.py"] t
    else if bool_decide (read_text t MATRIX_FILE ≠ rendered t) then
      mkOutcome 1 []
        [codes "error: traceability-matrix.md is out of date; " ++
         codes "run scripts/traceability.py and commit the result"] t
    else
      mkOutcome 0
        [codes "traceability OK: " ++ digits requirements ++
         codes " requirements, all implemented and verified, matrix current"] [] t
  else
    mkOutcome 0
      [codes "wrote " ++ as_posix MATRIX_FILE ++ codes " (" ++ digits requirements ++
       codes " requirements)"] []
      (write_text t MATRIX_FILE (rendered t)).

Lemma main_passes t check :
  complete t → main u root check t = deliver check t (length (required t)).
Proof.
  intros [Hf Hd Hs Hl Hff Hfr]. unfold main.
  rewrite (proj2 (parse_requirements_spec t (section_requirement <$> required t))) by done.
  pose proof (build_matrix_spec t) as Hb. cbv zeta in Hb.
  destruct (build_matrix u t _) as [lines problems]. destruct Hb as [Hr Hb].
  rewrite (proj2 Hb), (proj2 (fmea_nil t _)), Hr, length_fmap by (rewrite ?section_idents; done). done.
Qed.

(** C27: A build passes the traceability gate exactly when the repository is complete:
    the requirements file is there, its requirements are distinct and stated, the
    [@satisfies] annotations in the code and the [@verifies] annotations in the
    tests name exactly these requirements, and the failure analysis names no
    others. With [--check] the matrix must besides be the current one. A run
    that fails says why and changes nothing. *)
Theorem traceability_gate t :
  (exit_code (main u root false t) = 0 ↔ complete t) ∧
  (exit_code (main u root true t) = 0 ↔
     complete t ∧ is_file t MATRIX_FILE = true ∧ read_text t MATRIX_FILE = rendered t) ∧
  (∀ check, let o := main u root check t in
     exit_code o = 0 ∨ failed t o).
Proof.
  destruct (main_cases t) as [Hc|Hf].
  - rewrite !main_passes by done. split_and!; [done| |].
    + unfold deliver. destruct (is_file t MATRIX_FILE); cbn [negb]; [|naive_solver].
      case_bool_decide; simpl; naive_solver.
    + intros check. cbv zeta. rewrite main_passes by done. unfold deliver, failed.
      destruct check; [|by left]. destruct (negb _); [by right|]. destruct (bool_decide _); [by right|by left].
  - assert (Hn : ¬ complete t).
    { intros Hc. destruct (Hf false) as [H1 _]. by rewrite main_passes in H1. }
    destruct (Hf false) as [-> _], (Hf true) as [-> _]. split_and!; [naive_solver..|]. by right.
Qed.
End Gate.
