(* ===== verification/TraceabilityMatrix.v ===== *)
(** * The matrix that the traceability tool writes

    Writing the matrix does not change what it is computed from, so that a check
    after a regeneration passes; and what the tool does not see. *)

From Stdlib Require Import Ascii String.
From stdpp Require Import base numbers list option strings pretty sorting.
From S2P Require Import Prelude Strings Regex Traceability TraceabilitySafety TraceabilityGate.

#[local] Open Scope string_scope.
#[local] Open Scope Z_scope.
#[local] Open Scope list_scope.

(** ** Writing a file *)

Lemma find_file_write t path contents p :
  find_file (write_text t path contents) p = if bool_decide (path = p) then Some contents else find_file t p.
Proof.
  induction t as [|[q old] t IH]; simpl; [done|].
  destruct (decide (q = path)) as [->|Hq].
  - rewrite bool_decide_true by done. simpl. by case_bool_decide.
  - rewrite (bool_decide_false (q = path)) by done. simpl. rewrite IH.
    destruct (decide (q = p)) as [->|Hp]; [|by rewrite !(bool_decide_false (q = p))].
    rewrite !(bool_decide_true (p = p)) by done. by rewrite bool_decide_false.
Qed.

Lemma read_text_write t path contents p :
  path ≠ p → read_text (write_text t path contents) p = read_text t p.
Proof. intros Hp. unfold read_text. by rewrite find_file_write, bool_decide_false. Qed.

Lemma is_file_write t path contents p :
  path ≠ p → is_file (write_text t path contents) p = is_file t p.
Proof. intros Hp. unfold is_file. by rewrite find_file_write, (bool_decide_false (path = p)). Qed.

Lemma rglob_write t path contents directory suffix :
  below directory suffix path = false →
  rglob (write_text t path contents) directory suffix = rglob t directory suffix.
Proof.
  intros Hb. unfold rglob. induction t as [|[q old] t IH]; [by simpl; rewrite Hb|].
  cbn [write_text]. case_bool_decide as Hq; rewrite !fmap_cons; [done|]. cbn [List.filter fst].
  by rewrite IH.
Qed.

(** The matrix is no source, *)
Lemma source_not_matrix k d s : d ∈ dirs k → below d s MATRIX_FILE = false.
Proof.
  intros Hin. unfold below, MATRIX_FILE. rewrite bool_decide_false; [done|].
  intros <-. revert Hin. destruct k; by refine (bool_decide_eq_false_1 _ _).
Qed.

Lemma elem_source_files t k path :
  path ∈ source_files t (dirs k) ↔
  (path ∈ t.*1 ∧ ∃ d s, d ∈ dirs k ∧ s ∈ SOURCE_SUFFIXES ∧ below d s path = true) ∨
  (k = kSatisfies ∧ path ∈ EXTRA_IMPLEMENTATION_FILES ∧ is_file t path = true).
Proof.
  unfold source_files. rewrite elem_of_app, list_elem_of_bind. f_equiv.
  - setoid_rewrite list_elem_of_bind. unfold rglob. setoid_rewrite merge_sort_Permutation.
    setoid_rewrite list_elem_of_In at 1. setoid_rewrite filter_In. setoid_rewrite <- list_elem_of_In.
    naive_solver.
  - destruct k; [rewrite bool_decide_true by done|rewrite bool_decide_false by done].
    + rewrite list_elem_of_In, filter_In, <- list_elem_of_In. naive_solver.
    + rewrite elem_of_nil. naive_solver.
Qed.

(** so that writing it changes no source, *)
Lemma source_files_write t contents k :
  source_files (write_text t MATRIX_FILE contents) (dirs k) = source_files t (dirs k).
Proof.
  unfold source_files. f_equal.
  - apply Forall_bind_ext, Forall_forall. intros d Hd. apply Forall_bind_ext, Forall_forall. intros s _.
    rewrite rglob_write; [done|]. by apply (source_not_matrix k).
  - destruct k; [|done]. rewrite !bool_decide_true by done. cbn [List.filter EXTRA_IMPLEMENTATION_FILES].
    by rewrite !is_file_write.
Qed.

Lemma matrix_not_source t k : MATRIX_FILE ∉ source_files t (dirs k).
Proof.
  rewrite elem_source_files. intros [(_ & d & s & Hd & _ & Hb)|(_ & Hin & _)].
  - by rewrite (source_not_matrix k) in Hb.
  - revert Hin. by refine (bool_decide_eq_false_1 _ _).
Qed.

Section Matrix.
Context (u : Unicode) (root : text).

Lemma collect_write t contents k :
  collect_annotations u (write_text t MATRIX_FILE contents) (dirs k) k =
  collect_annotations u t (dirs k) k.
Proof.
  unfold collect_annotations. rewrite source_files_write. apply Forall_bind_ext, Forall_forall.
  intros path Hp. unfold file_annotations. rewrite read_text_write; [done|].
  intros <-. by apply matrix_not_source in Hp.
Qed.

(** nor the links, nor the matrix. *)
Lemma required_write t contents : required u (write_text t MATRIX_FILE contents) = required u t.
Proof. unfold required. by rewrite read_text_write by done. Qed.

Lemma rendered_write t contents : rendered u (write_text t MATRIX_FILE contents) = rendered u t.
Proof.
  unfold rendered. rewrite required_write. do 3 f_equal. apply list_fmap_ext. intros n r _.
  unfold linked. by rewrite !collect_write.
Qed.

Lemma complete_write t contents : complete u t → complete u (write_text t MATRIX_FILE contents).
Proof.
  intros [Hf Hd Hs Hl Hff Hfr]. constructor; rewrite ?required_write, ?is_file_write by done; try done.
  - intros k i. rewrite Hl, <- !collected, collect_write. done.
  - intros i (line & Hline & Hi). apply Hfr. exists line. by rewrite read_text_write in Hline.
Qed.

(** ** Line ends in the matrix *)

Definition no_cr (s : text) : Prop := Forall (λ c, c ≠ 13) s.

Lemma no_cr_app a b : no_cr (a ++ b) ↔ no_cr a ∧ no_cr b.
Proof. apply Forall_app. Qed.

Lemma no_cr_universal s : no_cr (universal_newlines s).
Proof.
  assert (H : ∀ n s, (length s < n)%nat → no_cr (universal_newlines s)); [|apply (H (S (length s))); lia].
  clear s. induction n as [|n IH]; intros s Hn; [lia|]. unfold no_cr in *.
  destruct s as [|c [|d s]]; simpl in *; [done|by destruct (Z.eqb_spec c 13); repeat constructor|].
  destruct (Z.eqb_spec c 13); [constructor; [done|]|constructor; [done|apply (IH (d :: s)); simpl; lia]].
  destruct (d =? 10); [apply IH; lia|apply (IH (d :: s)); simpl; lia].
Qed.

(** Text without carriage returns is read as it was written. *)
Lemma universal_no_cr s : no_cr s → universal_newlines s = s.
Proof.
  induction 1 as [|c s Hc Hs IH]; simpl; [done|]. by rewrite (proj2 (Z.eqb_neq c 13)), IH.
Qed.

Lemma splitlines_from_no_cr n line s :
  (length s < n)%nat → no_cr line → no_cr s → Forall no_cr (splitlines_from line s).
Proof.
  revert line s. induction n as [|n IH]; intros line s Hn Hl Hs; [lia|].
  assert (Hr : no_cr (reverse line)) by (by apply Forall_reverse).
  destruct Hs as [|c s Hc Hs]; simpl in *; [destruct line; by repeat constructor|].
  destruct (line_break c); [|apply IH; [lia|by constructor|done]]. constructor; [done|].
  destruct s as [|d s]; [done|]. simpl in *. destruct (_ && _).
  - apply IH; [lia|by constructor|by inversion Hs].
  - apply (IH [] (d :: s)); [simpl; lia|by constructor|done].
Qed.

Lemma lines_no_cr t path : Forall no_cr (splitlines (read_text t path)).
Proof. apply (splitlines_from_no_cr (S (length (read_text t path)))); [lia|by constructor|apply no_cr_universal]. Qed.

Lemma no_cr_groups r line rest groups :
  no_cr line → match_prefix r line = Some (rest, groups) → Forall no_cr groups.
Proof.
  intros Hl (pre & -> & Hd)%match_prefix_sound. apply no_cr_app in Hl as [Hl _].
  by apply (denotes_groups _ _ _ _ _ Hd).
Qed.

Lemma no_cr_join sep items : no_cr sep → Forall no_cr items → no_cr (join sep items).
Proof.
  intros Hsep. induction 1 as [|x items Hx Hi IH]; [by constructor|]. simpl.
  destruct items; [done|]. apply no_cr_app. split; [done|]. by apply no_cr_app.
Qed.

Lemma no_cr_pretty_go x s : no_cr (codes s) → no_cr (codes (pretty_N_go x s)).
Proof.
  apply (pretty_N_go_ind (λ s, no_cr (codes s))). intros d s' _ Hs. constructor; [|done].
  destruct d as [|[[[[]|[]|]|[[]|[]|]|]|[[[]|[]|]|[[]|[]|]|]|]]; done.
Qed.

Lemma no_cr_digits n : no_cr (digits n).
Proof.
  unfold digits. change (pretty n) with (pretty (N.of_nat n)).
  destruct (N.of_nat n) as [|p]; [by repeat constructor|].
  apply (no_cr_pretty_go (N.pos p) EmptyString). constructor.
Qed.

(** What a section is headed by stands in a line. *)
Lemma section_heading lines i t body :
  (i, t, body) ∈ (sections u lines).2 → ∃ line, line ∈ lines ∧ heading u line = Some (i, t).
Proof.
  induction lines as [|line lines IH]; simpl; [by intros Hin%elem_of_nil|].
  destruct (sections u lines) as [before found]. cbn [snd] in IH.
  destruct (heading u line) as [it|] eqn:Hh; cbn [snd]; intros Hin.
  - apply elem_of_cons in Hin as [[= <- ->]|Hin]; [exists line; split; [by left|done]|].
    destruct (IH Hin) as (l & Hl & E). exists l. split; [by right|done].
  - destruct (IH Hin) as (l & Hl & E). exists l. split; [by right|done].
Qed.

Lemma foldl_statement_title body r : title (foldl (absorb_statement u) r body) = title r.
Proof.
  revert r. induction body as [|line body IH]; intros r; [done|]. simpl. rewrite IH.
  unfold absorb_statement. by destruct (statement_of u line), (statement r).
Qed.

Lemma required_no_cr t r :
  r ∈ (section_requirement u <$> required u t) → no_cr (ident r) ∧ no_cr (title r).
Proof.
  intros ([[i ti] body] & -> & Hin)%list_elem_of_fmap. simpl. rewrite foldl_statement_title.
  destruct (foldl_statement u body (mkRequirement i ti [] [] [])) as (-> & _). simpl.
  apply section_heading in Hin as (line & Hl & Hh). unfold heading in Hh.
  destruct (match_prefix _ line) as [[rest groups]|] eqn:Hm; [|done].
  assert (Hn : no_cr line) by (pose proof (lines_no_cr t REQUIREMENTS_FILE) as H; rewrite Forall_forall in H; by apply H).
  apply (no_cr_groups _ _ _ _ Hn) in Hm.
  destruct groups as [|i' [|t' [|]]]; simplify_eq. by inversion Hm as [|?? ? Hm']; inversion Hm'.
Qed.

Lemma enclosing_no_cr lines index name :
  Forall no_cr lines → enclosing_test u lines index = Some name → no_cr name.
Proof.
  intros Hl. assert (Hone : ∀ n rest suite test,
    match_prefix (TEST_DECLARATION u) (default [] (lines !! n)) = Some (rest, [suite; test]) →
    no_cr (suite ++ codes "." ++ test)).
  { intros n rest suite test Hm. apply no_cr_groups in Hm.
    - inversion Hm as [|?? Hs Hm']; inversion Hm'; subst. apply no_cr_app. split; [done|].
      apply no_cr_app. split; [by repeat constructor|done].
    - destruct (lines !! n) eqn:Hn; [|by constructor]. by eapply Forall_lookup in Hl. }
  induction index as [|index IH]; cbn [enclosing_test].
  all: destruct (match_prefix _ _) as [[rest [|suite [|test [|]]]]|] eqn:Hm; try done.
  all: intros [= <-]; by eapply Hone.
Qed.

Definition names_plain (t : Tree) : Prop := Forall (λ f, Forall no_cr f.1) t.

Lemma source_name_no_cr t k path :
  names_plain t → path ∈ source_files t (dirs k) → no_cr (as_posix path).
Proof.
  intros Ht Hp. apply no_cr_join; [by repeat constructor|].
  apply elem_source_files in Hp as [[(f & -> & Hf)%list_elem_of_fmap _]|(_ & Hin & _)].
  - unfold names_plain in Ht. rewrite Forall_forall in Ht. by apply Ht.
  - unfold EXTRA_IMPLEMENTATION_FILES in Hin. rewrite !elem_of_cons, elem_of_nil in Hin.
    destruct Hin as [->|[->|[->|[]]]]; by_compute.
Qed.

Lemma label_no_cr t k a :
  names_plain t → a ∈ collect_annotations u t (dirs k) k → no_cr (label a).
Proof.
  intros Ht (path & Ha & Hp)%list_elem_of_bind. pose proof (source_name_no_cr t k path Ht Hp) as Hn.
  apply elem_concat_imap in Ha as (n & line & _ & (groups & Ha & _)%list_elem_of_bind).
  destruct groups as [|kind [|i [|]]]; try (by apply elem_of_nil in Ha).
  case_bool_decide; [|by apply elem_of_nil in Ha]. apply list_elem_of_singleton in Ha as ->. simpl.
  destruct k; [done|]. destruct (enclosing_test _ _ _) eqn:He; [|done]. simpl.
  by apply enclosing_no_cr in He; [|apply lines_no_cr].
Qed.

Lemma labels_no_cr t k i :
  names_plain t → Forall no_cr (labels (collect_annotations u t (dirs k) k) i).
Proof.
  intros Ht. apply Forall_forall. intros l [Hl%elem_of_nil|Hl]%elem_add_once; [done|].
  apply list_elem_of_fmap in Hl as (a & -> & [_ Ha]%list_elem_of_filter). by eapply label_no_cr.
Qed.

(** A concatenation of literals, numbers and texts known to be free of them. *)
Ltac no_cr :=
  repeat match goal with
  | |- no_cr (_ ++ _) => apply no_cr_app; split
  | |- no_cr (codes _) => by_compute
  | |- no_cr (digits _) => apply no_cr_digits
  | |- no_cr [] => constructor
  | |- no_cr [em_dash] => by_compute
  | H : no_cr ?s |- no_cr ?s => exact H
  end.

Lemma cell_no_cr items : Forall no_cr items → no_cr (cell items).
Proof.
  intros Hi. destruct Hi as [|x items Hx Hi]; [by_compute|]. apply no_cr_join; [by_compute|].
  apply Forall_fmap. apply (Forall_impl no_cr); [by constructor|]. intros y Hy. unfold compose. no_cr.
Qed.

Lemma row_no_cr t r :
  names_plain t → no_cr (ident r) → no_cr (title r) → no_cr (row (linked u t r)).
Proof.
  intros Ht Hi Hti.
  assert (no_cr (cell (satisfied_by (linked u t r)))) by (by apply cell_no_cr, labels_no_cr).
  assert (no_cr (cell (verified_by (linked u t r)))) by (by apply cell_no_cr, labels_no_cr).
  unfold row. no_cr; done.
Qed.

Lemma rendered_no_cr t : names_plain t → no_cr (rendered u t).
Proof.
  intros Ht. unfold rendered. apply no_cr_app. split; [|by_compute].
  apply no_cr_join; [by_compute|]. unfold matrix_lines. cbv zeta.
  apply Forall_app. split; [repeat (constructor; [no_cr|]); constructor|].
  apply Forall_app. split; [|repeat constructor].
  apply Forall_fmap, Forall_fmap, Forall_forall. intros r Hr.
  destruct (required_no_cr t r Hr). by apply row_no_cr.
Qed.

(** ** The theorems *)

(** C28: What the tool generates, its check accepts. When the tool succeeds and no
    file name contains a carriage return, the check of the repository it leaves
    succeeds too, changes nothing, and generating again writes the same. *)
Theorem regenerate_then_check t :
  names_plain t → exit_code (main u root false t) = 0 →
  let t' := tree (main u root false t) in
  find_file t' MATRIX_FILE = Some (rendered u t) ∧
  (∀ path, path ≠ MATRIX_FILE → find_file t' path = find_file t path) ∧
  exit_code (main u root true t') = 0 ∧ tree (main u root true t') = t' ∧
  find_file (tree (main u root false t')) MATRIX_FILE = Some (rendered u t).
Proof.
  intros Ht. destruct (main_cases u root t) as [Hc|Hf]; [intros _|by destruct (Hf false) as [-> _]].
  cbv zeta. rewrite (main_passes u root t false Hc). unfold deliver at 1 2 3 4 5. cbn [tree].
  pose proof (complete_write t (rendered u t) Hc) as Hc'.
  rewrite !main_passes by done. unfold deliver. cbn [tree]. rewrite rendered_write.
  rewrite !find_file_write, bool_decide_true by done. split; [done|]. split.
  { intros path Hp. by rewrite find_file_write, bool_decide_false. }
  unfold is_file, read_text. rewrite find_file_write, (bool_decide_true (MATRIX_FILE = _)) by done.
  rewrite (bool_decide_true (is_Some _)) by eauto. cbn [default negb from_option id].
  rewrite universal_no_cr by (by apply rendered_no_cr). by rewrite bool_decide_false by (intros H; by apply H).
Qed.

(** The rows of the matrix are exact. In a complete repository a requirement's
    row names every file that is annotated as implementing it and the test that
    encloses every annotation of it in the tests, each once, and nothing else. *)
Theorem matrix_links_exact t r k l :
  complete u t → r ∈ (section_requirement u <$> required u t) →
  NoDup (links k (linked u t r)) ∧ links k (linked u t r) ≠ [] ∧
  (l ∈ links k (linked u t r) ↔
   ∃ a, a ∈ collect_annotations u t (dirs k) k ∧ annotation_ident a = ident r ∧ label a = l).
Proof.
  intros Hc Hr.
  assert (El : links k (linked u t r) = labels (collect_annotations u t (dirs k) k) (ident r))
    by (by destruct k).
  rewrite El. split_and!.
  - apply NoDup_add_once. constructor.
  - apply labels_nonempty, collected, (complete_links u t Hc). rewrite <- (section_idents u).
    by apply list_elem_of_fmap_2.
  - unfold labels. rewrite elem_add_once, elem_of_nil, list_elem_of_fmap.
    setoid_rewrite list_elem_of_filter. naive_solver.
Qed.
End Matrix.

(** ** A small repository *)

Definition demo_unicode : Unicode := mkUnicode (λ _, false) (λ _, false) (λ _, false).

(** Lines of ASCII text; [~] stands for the dash of the headings. *)
Definition demo_text (lines : list string) : text :=
  lines ≫= λ l, ((λ c, if c =? 126 then em_dash else c) <$> codes l) ++ line_feed.

Definition demo_tree (implementation test : list string) : Tree :=
  [(REQUIREMENTS_FILE, demo_text
      ["# Requirements"; "### REQ-SAF-001 ~ Corruption is detected"; "**Statement:** It shall."]);
   (FMEA_FILE, demo_text ["| corruption | REQ-SAF-001 |"]);
   ([codes "src"; codes "crc.cpp"], demo_text implementation);
   ([codes "tests"; codes "test_crc.cpp"], demo_text test)].

Definition demo_repository : Tree :=
  demo_tree ["// @satisfies REQ-SAF-001"] ["TEST(Crc, Detects) {"; "  // @verifies REQ-SAF-001"].

Lemma regenerate_then_check_witness :
  exit_code (main demo_unicode [] true (tree (main demo_unicode [] false demo_repository))) = 0.
Proof.
  destruct (regenerate_then_check demo_unicode [] demo_repository) as (_ & _ & H & _).
  - by_compute.
  - vm_compute. reflexivity.
  - exact H.
Defined.

Lemma demo_complete : complete demo_unicode demo_repository.
Proof.
  destruct (main_cases demo_unicode [] demo_repository) as [H|H]; [done|].
  by destruct (H false) as [H1 _]; vm_compute in H1.
Qed.

Lemma matrix_links_exact_witness :
  codes "Crc.Detects" ∈ links kVerifies (linked demo_unicode demo_repository
    (mkRequirement (codes "REQ-SAF-001") (codes "Corruption is detected") (codes "It shall.") [] [])).
Proof.
  destruct (matrix_links_exact demo_unicode demo_repository
    (mkRequirement (codes "REQ-SAF-001") (codes "Corruption is detected") (codes "It shall.") [] [])
    kVerifies (codes "Crc.Detects") demo_complete) as (_ & _ & H).
  - vm_compute. left.
  - apply H. exists (mkAnnotation (codes "REQ-SAF-001") (codes "tests/test_crc.cpp:2") (codes "Crc.Detects")).
    split; [|by split]. vm_compute. left.
Defined.

(** The letter O for a zero is found, *)
Example typo_found :
  exit_code (main demo_unicode [] false
    (demo_tree ["// @satisfies REQ-SAF-001"; "// @satisfies REQ-SAF-OO1"]
       ["TEST(Crc, Detects) {"; "  // @verifies REQ-SAF-001"])) = 1.
Proof. vm_compute. reflexivity. Qed.

(** but not in an annotation of the kind that belongs in the other directories, *)
Example wrong_place_unseen :
  exit_code (main demo_unicode [] false
    (demo_tree ["// @satisfies REQ-SAF-001"; "// @verifies REQ-SAF-OO1"]
       ["TEST(Crc, Detects) {"; "  // @verifies REQ-SAF-001"])) = 0.
Proof. vm_compute. reflexivity. Qed.

(** nor in the second identifier of an annotation. *)
Example second_ident_unseen :
  exit_code (main demo_unicode [] false
    (demo_tree ["// @satisfies REQ-SAF-001, REQ-SAF-OO1"]
       ["TEST(Crc, Detects) {"; "  // @verifies REQ-SAF-001"])) = 0.
Proof. vm_compute. reflexivity. Qed.
