(* ===== verification/BenchStats.v ===== *)
(** * Statistics of the benchmarks

    [benchmarks/bench_spsc_ring.cpp] and [benchmarks/bench_transports.cpp] keep
    every sample and report percentiles: the sorting, the choice of the index in
    binary64, the spread of repeated measurements, and the rows they print. *)

From Stdlib Require Import Ascii String SpecFloat.
From stdpp Require Import base numbers list option strings pretty sorting.
From S2P Require Import Prelude Float64 LatencyHistogram CycleReport.

#[local] Open Scope string_scope.
#[local] Open Scope Z_scope.
#[local] Open Scope list_scope.

(** ** Percentiles *)

(** [static_cast<std::size_t>(x)] of a number that is not negative. *)
Definition truncated (x : double) : Z :=
  match x with
  | S754_finite s m e =>
      let n := if s then Zneg m else Zpos m in
      if 0 <=? e then n * 2 ^ e else Z.quot n (2 ^ (- e))
  | _ => 0
  end.

(** The index for a quantile among [size] samples. *)
Definition pick_index (q : double) (size : Z) : Z := truncated (dmul q (double_of_Z (size - 1))).

Definition pick (q : double) (samples : list Z) : Z :=
  default 0 (samples !! Z.to_nat (pick_index q (Z.of_nat (length samples)))).

Record Percentiles := mkPercentiles {
  bench_p50 : Z;
  bench_p90 : Z;
  bench_p99 : Z;
  bench_p999 : Z;
  bench_max : Z
}.

Definition noPercentiles : Percentiles := mkPercentiles 0 0 0 0 0.

Definition computePercentiles (samples : list Z) : Percentiles :=
  match samples with
  | [] => noPercentiles
  | _ =>
      let samples := merge_sort Z.le samples in
      mkPercentiles (pick (literal 50 100) samples) (pick (literal 90 100) samples)
        (pick (literal 99 100) samples) (pick (literal 999 1000) samples) (default 0 (last samples))
  end.

(** The other program has no 90th percentile. *)
Record RoundTripPercentiles := mkRoundTrip {
  trip_p50 : Z;
  trip_p99 : Z;
  trip_p999 : Z;
  trip_max : Z
}.

Definition noRoundTrip : RoundTripPercentiles := mkRoundTrip 0 0 0 0.

Definition percentilesOf (samples : list Z) : RoundTripPercentiles :=
  match samples with
  | [] => noRoundTrip
  | _ =>
      let samples := merge_sort Z.le samples in
      mkRoundTrip (pick (literal 50 100) samples) (pick (literal 99 100) samples)
        (pick (literal 999 1000) samples) (default 0 (last samples))
  end.

(** ** Spread *)

Record Spread := mkSpread {
  median : double;
  spread_min : double;
  spread_max : double
}.

Definition double_le (x y : double) : Prop := dle x y = true.

#[export] Instance double_le_dec : RelDecision double_le.
Proof. intros x y. unfold double_le. apply _. Defined.

(** The callers give at least one value. *)
Definition summarize (values : list double) : Spread :=
  let values := merge_sort double_le values in
  mkSpread (default dzero (values !! (length values / 2)%nat)) (default dzero (head values))
    (default dzero (last values)).

(** ** Rows *)

Definition printSpread (label : string) (s : Spread) : string :=
  "| " +:+ pad_right 40 label +:+ " | " +:+ pad_left 8 (format_f 1 (median s)) +:+ " | " +:+
  pad_left 8 (format_f 1 (spread_min s)) +:+ " | " +:+ pad_left 8 (format_f 1 (spread_max s)) +:+ " |".

Definition printRow (label : string) (p : RoundTripPercentiles) (note : string) : string :=
  "| " +:+ pad_right 26 label +:+ " | " +:+ pad_left 7 (pretty (trip_p50 p)) +:+ " | " +:+
  pad_left 8 (pretty (trip_p99 p)) +:+ " | " +:+ pad_left 9 (pretty (trip_p999 p)) +:+ " | " +:+
  pad_left 9 (pretty (trip_max p)) +:+ " | " +:+ pad_right 18 note +:+ " |".

(** ** The numbers of samples *)

Definition kLatencyItems : Z := 300000.
Definition kClockSamples : Z := 200000.
Definition kRoundTrips : Z := 20000.

(** How many samples a program that runs to its end has. *)
Definition sample_count (n : Z) : Prop := n = kRoundTrips ∨ n = kClockSamples ∨ n = kLatencyItems.

(** ** The index is the exact one *)

Definition index_exact (n : Z) : bool :=
  (pick_index (literal 50 100) n =? 50 * (n - 1) / 100) &&
  (pick_index (literal 90 100) n =? 90 * (n - 1) / 100) &&
  (pick_index (literal 99 100) n =? 99 * (n - 1) / 100) &&
  (pick_index (literal 999 1000) n =? 999 * (n - 1) / 1000).

Lemma sample_count_exact n : sample_count n → index_exact n = true.
Proof. intros [-> | [-> | ->]]; vm_compute; reflexivity. Qed.

(** ** What is reported *)

(** The sample at the exact rank of a quantile [num / den]. *)
Definition sample_at (num den : Z) (samples : list Z) : option Z :=
  merge_sort Z.le samples !! Z.to_nat (num * (Z.of_nat (length samples) - 1) / den).

Lemma length_sorted samples : length (merge_sort Z.le samples) = length samples.
Proof. apply Permutation_length, merge_sort_Permutation. Qed.

Lemma pick_sample num den samples n :
  n = Z.of_nat (length samples) → 1 ≤ n → 0 ≤ num < den →
  pick_index (literal num den) n = num * (n - 1) / den →
  sample_at num den samples = Some (pick (literal num den) (merge_sort Z.le samples)) ∧
  pick (literal num den) (merge_sort Z.le samples) ∈ samples.
Proof.
  intros Hn H1 Hq Hi. unfold sample_at, pick. rewrite length_sorted, <- Hn, Hi.
  assert (Hb : 0 ≤ num * (n - 1) / den < n).
  { split; [apply Z.div_pos; nia|]. apply Z.div_lt_upper_bound; nia. }
  destruct (lookup_lt_is_Some_2 (merge_sort Z.le samples) (Z.to_nat (num * (n - 1) / den))) as [x Hx].
  { rewrite length_sorted. lia. }
  rewrite Hx. split; [done|]. simpl. apply list_elem_of_lookup_2 in Hx. by rewrite merge_sort_Permutation in Hx.
Qed.

(** Ranks keep the order. *)
Lemma sorted_lookup_le (l : list Z) i j x y :
  StronglySorted Z.le l → (i ≤ j)%nat → l !! i = Some x → l !! j = Some y → x ≤ y.
Proof.
  intros Hs. revert i j. induction Hs as [|z l Hs IH Hz]; intros i j Hij Hi Hj; [done|].
  destruct i as [|i], j as [|j]; simpl in *; [|  |lia|by apply (IH i j); [lia|..]].
  - simplify_eq. lia.
  - simplify_eq. rewrite Forall_forall in Hz. by apply Hz, (list_elem_of_lookup_2 _ j).
Qed.

Lemma sorted_samples samples : StronglySorted Z.le (merge_sort Z.le samples).
Proof. apply Sorted_StronglySorted; [apply _|]. apply Sorted_merge_sort. apply _. Qed.

Lemma rank_le num den num' den' n :
  0 ≤ n → 0 < den → 0 < den' → num * den' ≤ num' * den → num * n / den ≤ num' * n / den'.
Proof.
  intros Hn Hd Hd' Hq. apply Z.div_le_lower_bound; [done|].
  pose proof (Z.mul_div_le (num * n) den Hd). apply (Z.mul_le_mono_pos_l _ _ den); nia.
Qed.

Lemma sample_at_le num den num' den' samples x y :
  0 < den → 0 < den' → num * den' ≤ num' * den →
  sample_at num den samples = Some x → sample_at num' den' samples = Some y → x ≤ y.
Proof.
  intros Hd Hd' Hq Hx Hy. eapply sorted_lookup_le; [apply sorted_samples| |exact Hx|exact Hy].
  assert (Hl : (0 < length samples)%nat)
    by (apply lookup_lt_Some in Hx; rewrite length_sorted in Hx; lia).
  pose proof (rank_le num den num' den' (Z.of_nat (length samples) - 1)). lia.
Qed.

(** The last of the sorted samples is the largest. *)
Lemma sorted_last samples x :
  x ∈ samples → ∃ y, last (merge_sort Z.le samples) = Some y ∧ y ∈ samples ∧ x ≤ y.
Proof.
  intros Hx. assert (Hs : x ∈ merge_sort Z.le samples) by (by rewrite merge_sort_Permutation).
  destruct (list_elem_of_lookup_1 _ _ Hs) as [i Hi]. pose proof (lookup_lt_Some _ _ _ Hi) as Hl.
  rewrite last_lookup.
  destruct (lookup_lt_is_Some_2 (merge_sort Z.le samples) (pred (length (merge_sort Z.le samples))))
    as [y Hy]; [lia|].
  exists y. split_and!; [done| |].
  - apply list_elem_of_lookup_2 in Hy. by rewrite merge_sort_Permutation in Hy.
  - eapply sorted_lookup_le; [apply sorted_samples| |exact Hi|exact Hy]. lia.
Qed.

(** What the benchmarks report of a complete measurement. Each percentile is the
    sample at the exact rank, although the rank is computed in binary64; the
    percentiles are in order; and the maximum is the largest sample. *)
Theorem percentiles_exact samples :
  sample_count (Z.of_nat (length samples)) →
  let p := computePercentiles samples in
  let r := percentilesOf samples in
  sample_at 50 100 samples = Some (bench_p50 p) ∧ sample_at 90 100 samples = Some (bench_p90 p) ∧
  sample_at 99 100 samples = Some (bench_p99 p) ∧ sample_at 999 1000 samples = Some (bench_p999 p) ∧
  bench_p50 p ≤ bench_p90 p ≤ bench_p99 p ∧ bench_p99 p ≤ bench_p999 p ≤ bench_max p ∧
  bench_max p ∈ samples ∧ Forall (λ x, x ≤ bench_max p) samples ∧
  r = mkRoundTrip (bench_p50 p) (bench_p99 p) (bench_p999 p) (bench_max p).
Proof.
  intros Hc. pose proof (sample_count_exact _ Hc) as He. unfold index_exact in He.
  rewrite !andb_true_iff, !Z.eqb_eq in He. destruct He as [[[H50 H90] H99] H999].
  assert (Hn : 1 ≤ Z.of_nat (length samples)) by (destruct Hc as [-> | [-> | ->]]; done).
  destruct samples as [|x samples]; [simpl in Hn; lia|].
  cbv zeta. unfold computePercentiles, percentilesOf. cbn [bench_p50 bench_p90 bench_p99 bench_p999 bench_max].
  destruct (sorted_last (x :: samples) x) as (y & Hy & Hin & _); [by left|]. rewrite Hy. cbn [default from_option id].
  destruct (pick_sample 50 100 (x :: samples) _ eq_refl Hn ltac:(lia) H50) as [E50 _].
  destruct (pick_sample 90 100 (x :: samples) _ eq_refl Hn ltac:(lia) H90) as [E90 _].
  destruct (pick_sample 99 100 (x :: samples) _ eq_refl Hn ltac:(lia) H99) as [E99 _].
  destruct (pick_sample 999 1000 (x :: samples) _ eq_refl Hn ltac:(lia) H999) as [E999 I999].
  assert (Hmax : ∀ z, z ∈ x :: samples → z ≤ y).
  { intros z Hz. destruct (sorted_last _ _ Hz) as (y' & Hy' & _ & Hle). congruence. }
  assert (Hle : ∀ num den num' den' v w, 0 < den → 0 < den' → num * den' ≤ num' * den →
    sample_at num den (x :: samples) = Some v → sample_at num' den' (x :: samples) = Some w → v ≤ w)
    by (intros *; apply sample_at_le).
  split_and!; [exact E50|exact E90|exact E99|exact E999|..].
  - by apply (Hle 50 100 90 100).
  - by apply (Hle 90 100 99 100).
  - by apply (Hle 99 100 999 1000).
  - by apply Hmax.
  - exact Hin.
  - by apply Forall_forall.
  - reflexivity.
Qed.

Lemma percentiles_exact_witness :
  sample_count (Z.of_nat (length (seqZ 0 kRoundTrips))) ∧
  bench_max (computePercentiles (seqZ 0 kRoundTrips)) ∈ seqZ 0 kRoundTrips.
Proof.
  assert (Hc : sample_count (Z.of_nat (length (seqZ 0 kRoundTrips)))) by (left; by rewrite length_seqZ).
  split; [exact Hc|].
  destruct (percentiles_exact (seqZ 0 kRoundTrips) Hc) as (_ & _ & _ & _ & _ & _ & H & _). exact H.
Defined.
