(* ===== verification/BenchRings.v ===== *)
(** * The rings of the benchmark

    [benchmarks/bench_spsc_ring.cpp] measures two rings through one interface:
    [SpscRing], and the naive ring it is compared with. The interface is a class,
    what both promise is a class of laws, and the programs that push and pop are
    written and proved against these. An operation is one step of its thread;
    for [SpscRing] under its memory orders [SpscRingSafety] and
    [SpscRingWeakSafety] justify that. *)

From stdpp Require Import base numbers list option sorting.
From S2P Require Import Prelude Float64 SpscRing SpscRingSafety FairTermination BenchStats.

(** ** The interface *)

Class RingOps (ring T : Type) := {
  ring_push : T → ring → bool * ring;
  ring_pop : ring → option T * ring
}.

(** A bounded first-in first-out queue: [represents] relates a ring to what is in
    it. *)
Class BoundedFifo (ring T : Type) `{!RingOps ring T} (capacity : nat)
    (represents : ring → list T → Prop) := {
  fifo_capacity r q : represents r q → (length q ≤ capacity)%nat;
  fifo_push x r q : represents r q →
    (ring_push x r).1 = bool_decide (length q < capacity)%nat ∧
    represents (ring_push x r).2 (if bool_decide (length q < capacity)%nat then q ++ [x] else q);
  fifo_pop r q : represents r q →
    (ring_pop r).1 = head q ∧ represents (ring_pop r).2 (tail q)
}.

(** ** The naive ring *)

Section Naive.
Context {T : Type} (bits : Z).

Record NaiveRing := mkNaive {
  naive_write_pos : Z;
  naive_read_pos : Z;
  naive_slots : list T
}.

Definition newNaive (default : T) : NaiveRing :=
  mkNaive 0 0 (replicate (Z.to_nat (Capacity bits)) default).

Definition naive_tryPush (value : T) (r : NaiveRing) : bool * NaiveRing :=
  let write := naive_write_pos r in
  if Capacity bits <=? u64 (write - naive_read_pos r) then (false, r)
  else (true, mkNaive (u64 (write + 1)) (naive_read_pos r)
                (<[slot_index bits write := value]> (naive_slots r))).

(** [None] is the [false] return; the value is copied out of its slot. *)
Definition naive_tryPop (r : NaiveRing) : option T * NaiveRing :=
  let read := naive_read_pos r in
  if read =? naive_write_pos r then (None, r)
  else (naive_slots r !! slot_index bits read,
        mkNaive (naive_write_pos r) (u64 (read + 1)) (naive_slots r)).

#[export] Instance naive_ops : RingOps NaiveRing T := {|
  ring_push := naive_tryPush;
  ring_pop := naive_tryPop
|}.

(** After [r] pops the ring holds [q]. *)
Definition naive_holds (n : NaiveRing) (r : nat) (q : list T) : Prop :=
  naive_write_pos n = position_of (r + length q) ∧ naive_read_pos n = position_of r ∧
  length (naive_slots n) = Z.to_nat (Capacity bits) ∧ (length q ≤ Z.to_nat (Capacity bits))%nat ∧
  ∀ i x, q !! i = Some x → naive_slots n !! ((r + i) mod Z.to_nat (Capacity bits))%nat = Some x.

Definition naive_represents (n : NaiveRing) (q : list T) : Prop := ∃ r, naive_holds n r q.

Hypothesis Hbits : 1 ≤ bits < 64.

Lemma newNaive_represents default : naive_represents (newNaive default) [].
Proof. exists 0%nat. split_and!; try done; simpl; [by rewrite length_replicate|lia]. Qed.

Lemma naive_push_spec x n q :
  naive_represents n q →
  (naive_tryPush x n).1 = bool_decide (length q < Z.to_nat (Capacity bits))%nat ∧
  naive_represents (naive_tryPush x n).2
    (if bool_decide (length q < Z.to_nat (Capacity bits))%nat then q ++ [x] else q).
Proof.
  intros (r & Hw & Hr & Hl & Hq & Hs). pose proof (Capacity_bounds bits Hbits) as Hc.
  pose proof (cap_pos bits Hbits) as Hpos. unfold naive_tryPush. rewrite Hw, Hr.
  rewrite position_distance by lia. case_bool_decide as Hfull.
  - rewrite (proj2 (Z.leb_gt _ _)) by lia. simpl. split; [done|]. exists r. unfold naive_holds. simpl.
    rewrite position_succ, length_insert, length_app, slot_index_position by done. simpl.
    split_and!; [f_equal; lia|done|done|lia|]. intros i y Hi.
    destruct (decide (i = length q)) as [->|Hne].
    + rewrite lookup_app_r, Nat.sub_diag in Hi by lia. injection Hi as <-.
      apply list_lookup_insert_eq. rewrite Hl. by apply Nat.mod_upper_bound; lia.
    + assert (i < length q)%nat by (apply lookup_lt_Some in Hi; rewrite length_app in Hi; simpl in Hi; lia).
      rewrite lookup_app_l in Hi by done. rewrite list_lookup_insert_ne; [by apply Hs|].
      symmetry. apply mod_cap_distinct; [done|lia..].
  - rewrite (proj2 (Z.leb_le _ _)) by lia. split; [done|]. by exists r.
Qed.

Lemma naive_pop_spec n q :
  naive_represents n q →
  (naive_tryPop n).1 = head q ∧ naive_represents (naive_tryPop n).2 (tail q).
Proof.
  intros (r & Hw & Hr & Hl & Hq & Hs). pose proof (Capacity_bounds bits Hbits) as Hc.
  unfold naive_tryPop. rewrite Hw, Hr. destruct q as [|x q].
  - rewrite Nat.add_0_r, Z.eqb_refl. split; [done|]. exists r. by split_and!.
  - rewrite (proj2 (Z.eqb_neq _ _)); [|intros E; apply position_eq in E; simpl in *; lia].
    simpl. rewrite slot_index_position by done. split.
    + pose proof (Hs 0%nat x eq_refl) as H0. by rewrite Nat.add_0_r in H0.
    + exists (S r). unfold naive_holds. simpl. rewrite position_succ. simpl in *.
      split_and!; [f_equal; lia|done|done|lia|].
      intros i y Hi. specialize (Hs (S i) y Hi). by rewrite Nat.add_succ_r in Hs.
Qed.

#[export] Instance naive_fifo : BoundedFifo NaiveRing T (Z.to_nat (Capacity bits)) naive_represents.
Proof.
  constructor; [by intros n q (r & _ & _ & _ & Hq & _)|apply naive_push_spec|apply naive_pop_spec].
Qed.
End Naive.

Arguments NaiveRing : clear implicits.

(** ** The ring of the library *)

Section Spsc.
Context {T : Type} (bits : Z) (moved_from : T → T).

#[export] Instance spsc_ops : RingOps (SpscRing T) T := {|
  ring_push := tryPush bits;
  ring_pop := tryPop bits moved_from
|}.

Definition spsc_represents (r : SpscRing T) (q : list T) : Prop :=
  ∃ default s, reachable bits moved_from (newSystem bits default) s ∧
    producer s = PIdle ∧ consumer s = CIdle ∧ SpscRing.ring s = r ∧ content s = q.

Lemma newRing_represents default : spsc_represents (newRing bits default) [].
Proof. exists default, (newSystem bits default). split; [constructor|done]. Qed.

Hypothesis Hbits : 1 ≤ bits < 64.

#[export] Instance spsc_fifo : BoundedFifo (SpscRing T) T (Z.to_nat (Capacity bits)) spsc_represents.
Proof.
  constructor.
  - intros r q (default & s & Hr & _ & _ & _ & <-).
    pose proof (reachable_inv bits moved_from Hbits default s Hr) as Hi.
    rewrite (length_content bits s Hi). pose proof (inv_space bits s Hi). pose proof (inv_seen_read bits s Hi). lia.
  - intros x r q (default & s & Hr & Hp & Hc & <- & <-).
    pose proof (reachable_inv bits moved_from Hbits default s Hr) as Hi.
    destruct (tryPush_run bits moved_from Hbits _ s x Hr Hi Hp Hc) as (s' & Hr' & Hp' & Hc' & E & Eq).
    cbn [ring_push spsc_ops]. rewrite E. split; [done|]. exists default, s'. split_and!; try done.
    rewrite Eq. by case_bool_decide; case_decide.
  - intros r q (default & s & Hr & Hp & Hc & <- & <-).
    pose proof (reachable_inv bits moved_from Hbits default s Hr) as Hi.
    destruct (tryPop_run bits moved_from Hbits _ s Hr Hi Hp Hc) as (s' & Hr' & Hp' & Hc' & E & Eq).
    cbn [ring_pop spsc_ops]. rewrite E. split; [done|]. by exists default, s'.
Qed.
End Spsc.

(** ** One thread *)

Section SingleThread.
Context {ring T : Type} `{!RingOps ring T}.

(** [while (!ring.tryPush(x)) {}] and [while (!ring.tryPop(sink)) {}]. *)
Fixpoint spin_push (fuel : nat) (x : T) (r : ring) : option ring :=
  match fuel with
  | O => None
  | S fuel => let (pushed, r) := ring_push x r in if pushed then Some r else spin_push fuel x r
  end.

Fixpoint spin_pop (fuel : nat) (r : ring) : option (T * ring) :=
  match fuel with
  | O => None
  | S fuel => match ring_pop r with (Some x, r) => Some (x, r) | (None, r) => spin_pop fuel r end
  end.

(** The loop over the items; the result is the last item popped. *)
Fixpoint push_pop_all (fuel : nat) (items : list T) (sink : T) (r : ring) : option (T * ring) :=
  match items with
  | [] => Some (sink, r)
  | x :: items =>
      match spin_push fuel x r with
      | None => None
      | Some r =>
          match spin_pop fuel r with
          | None => None
          | Some (sink, r) => push_pop_all fuel items sink r
          end
      end
  end.

Context {capacity : nat} {represents : ring → list T → Prop}.
Context `{!BoundedFifo ring T capacity represents}.

(** Neither loop spins: one attempt is enough, and every item comes back. *)
Lemma push_pop_all_spec fuel items sink r :
  (0 < capacity)%nat → (0 < fuel)%nat → represents r [] →
  ∃ r', push_pop_all fuel items sink r = Some (default sink (list.last items), r') ∧ represents r' [].
Proof.
  intros Hcap Hfuel. destruct fuel as [|fuel]; [lia|]. revert sink r.
  induction items as [|x items IH]; intros sink r Hr; [by exists r|]. simpl.
  destruct (fifo_push x r [] Hr) as [Hok Hr1]. rewrite bool_decide_true in Hok, Hr1 by done.
  destruct (ring_push x r) as [pushed r1]. simpl in *. subst pushed.
  destruct (fifo_pop r1 [x] Hr1) as [Hout Hr2]. destruct (ring_pop r1) as [out r2]. simpl in *. subst out.
  destruct (IH x r2 Hr2) as (r' & E & Hr'). exists r'. split; [|done]. rewrite E.
  destruct items as [|y items]; [done|]. rewrite last_cons_cons.
  by destruct (list.last (y :: items)) eqn:El; [|apply last_None in El].
Qed.
End SingleThread.

(** [items] per second, from the nanoseconds they took. *)
Definition per_second (items ns : Z) : double :=
  ddiv (double_of_Z items) (ddiv (double_of_Z ns) (double_of_Z 1000000000)).

(** [start_ns] and [end_ns] are the clock readings around the loop. *)
Definition benchSingleThreadedThroughput (fuel : nat) (items : nat) (start_ns end_ns : Z) : option double :=
  match push_pop_all (RingOps0 := spsc_ops 10 (λ x, x)) fuel (Z.of_nat <$> seq 0 items) 0 (newRing 10 0) with
  | Some _ => Some (per_second (Z.of_nat items) (end_ns - start_ns))
  | None => None
  end.

(** ** Two threads *)

Inductive HandoffThread := ProducerThread | ConsumerThread.

#[export] Instance handoff_thread_eq_dec : EqDecision HandoffThread.
Proof. solve_decision. Defined.

(** A step of a thread, with what the clock shows. *)
Inductive HandoffEvent := ProducerStep (now_ns : Z) | ConsumerStep (now_ns : Z).

Definition handoff_thread (e : HandoffEvent) : option HandoffThread :=
  match e with ProducerStep _ => Some ProducerThread | ConsumerStep _ => Some ConsumerThread end.

Section TwoThreads.
Context {ring T : Type} `{!RingOps ring T}.
(** The item number [i] when the clock shows [now_ns]. *)
Context (make : nat → Z → T) (items : nat).

(** The ring; the flag both threads start by; the item being pushed; the items
    made and the items received, each with the clock; whether the consumer has
    been joined. *)
Record Handoff := mkHandoff {
  handoff_ring : ring;
  go : bool;
  pending : option T;
  sent : list T;
  received : list (T * Z);
  joined : bool
}.

Definition newHandoff (r : ring) : Handoff := mkHandoff r false None [] [] false.

Definition producer_turn (now_ns : Z) (h : Handoff) : Handoff :=
  let '(mkHandoff r g p s got j) := h in
  if negb g then mkHandoff r true p s got j
  else
    match p with
    | Some x =>
        let (pushed, r) := ring_push x r in
        mkHandoff r g (if pushed then None else p) s got j
    | None =>
        if (length s <? items)%nat then
          let x := make (length s) now_ns in mkHandoff r g (Some x) (s ++ [x]) got j
        else if (items <=? length got)%nat then mkHandoff r g p s got true
        else h
    end.

Definition consumer_turn (now_ns : Z) (h : Handoff) : Handoff :=
  let '(mkHandoff r g p s got j) := h in
  if negb g then h
  else if (length got <? items)%nat then
    match ring_pop r with
    | (Some x, r) => mkHandoff r g p s (got ++ [(x, now_ns)]) j
    | (None, r) => mkHandoff r g p s got j
    end
  else h.

Definition handoff_step (e : HandoffEvent) (h : Handoff) : Handoff :=
  match e with ProducerStep now => producer_turn now h | ConsumerStep now => consumer_turn now h end.

(** ** Nothing is lost *)

Context {capacity : nat} {represents : ring → list T → Prop}.
Context `{!BoundedFifo ring T capacity represents}.
Record handoff_inv (h : Handoff) : Prop := mkHandoffInv {
  hi_queue : ∃ q, represents (handoff_ring h) q ∧ (received h).*1 ++ q ++ option_list (pending h) = sent h;
  hi_made i x : sent h !! i = Some x → ∃ now, x = make i now;
  hi_items : (length (sent h) ≤ items)%nat;
  hi_joined : joined h = true → length (received h) = items;
  hi_waiting : go h = false → sent h = []
}.

Lemma handoff_inv_new r : represents r [] → handoff_inv (newHandoff r).
Proof. intros Hr. constructor; simpl; try done; [by exists []|lia]. Qed.

Lemma producer_turn_inv now h : handoff_inv h → handoff_inv (producer_turn now h).
Proof.
  intros [(q & Hr & Hq) Hm Hi Hj Hw]. destruct h as [r g p s got j]. simpl in *.
  destruct g; simpl; [|constructor; simpl; try done; by exists q].
  destruct p as [x|].
  - destruct (fifo_push x r q Hr) as [Hok Hr']. destruct (ring_push x r) as [pushed r']. simpl in *.
    subst pushed. constructor; simpl; try done. case_bool_decide; eexists; split; try done.
    by rewrite <- Hq, <- app_assoc.
  - destruct (Nat.ltb_spec (length s) items).
    + constructor; simpl; try done.
      * exists q. split; [done|]. rewrite <- Hq. simpl. by rewrite !app_nil_r, <- app_assoc.
      * intros i x [[_ Hx]|[-> <-]]%lookup_snoc_Some; [by apply Hm|]. by exists now.
      * rewrite length_app. simpl. lia.
    + destruct (Nat.leb_spec items (length got)); constructor; simpl; try done; try by exists q.
      intros _. apply (f_equal length) in Hq. rewrite !length_app, length_fmap in Hq. simpl in *. lia.
Qed.

Lemma consumer_turn_inv now h : handoff_inv h → handoff_inv (consumer_turn now h).
Proof.
  intros [(q & Hr & Hq) Hm Hi Hj Hw]. destruct h as [r g p s got j]. simpl in *.
  destruct g; simpl; [|constructor; simpl; try done; by exists q].
  destruct (Nat.ltb_spec (length got) items); [|constructor; simpl; try done; by exists q].
  destruct (fifo_pop r q Hr) as [Hout Hr']. destruct (ring_pop r) as [out r']. simpl in *. subst out.
  destruct q as [|x q]; simpl in *; constructor; simpl; try done; [by exists []| |].
  - exists q. split; [done|]. rewrite fmap_app. simpl. by rewrite <- Hq, <- app_assoc.
  - intros ->. specialize (Hj eq_refl). lia.
Qed.

Lemma handoff_step_inv e h : handoff_inv h → handoff_inv (handoff_step e h).
Proof. destruct e; [apply producer_turn_inv|apply consumer_turn_inv]. Qed.

(** ** Both threads end *)

Hypothesis Hcapacity : (0 < capacity)%nat.

Definition being_pushed (h : Handoff) : nat := length (option_list (pending h)).
Definition queued (h : Handoff) : nat := length (sent h) - being_pushed h - length (received h).

Definition handoff_left (h : Handoff) : nat :=
  (if joined h then 0 else 1) + (if go h then 0 else 1) + 3 * (items - length (sent h)) +
  2 * being_pushed h + queued h.

Definition handoff_helpful (h : Handoff) : HandoffThread :=
  if negb (go h) then ProducerThread
  else if (being_pushed h =? 0)%nat then
    if (length (sent h) <? items)%nat || (items <=? length (received h))%nat
    then ProducerThread else ConsumerThread
  else if (queued h <? capacity)%nat then ProducerThread else ConsumerThread.

(** All but the ring. *)
Definition handoff_view (h : Handoff) : bool * option T * list T * list (T * Z) * bool :=
  (go h, pending h, sent h, received h, joined h).

(** A step of a thread gets on, or leaves all but the ring; the helpful thread
    gets on. *)
Definition gets_on (h h' : Handoff) : Prop := (handoff_left h' < handoff_left h)%nat.

Lemma queued_length h q :
  (received h).*1 ++ q ++ option_list (pending h) = sent h →
  queued h = length q ∧
  length (sent h) = (length (received h) + length q + being_pushed h)%nat.
Proof.
  intros Hq%(f_equal length). rewrite !length_app, length_fmap in Hq. unfold queued, being_pushed. lia.
Qed.

Lemma producer_turn_gets_on now h :
  handoff_inv h →
  gets_on h (producer_turn now h) ∨
  handoff_view (producer_turn now h) = handoff_view h ∧
  (joined h = false → handoff_helpful h = ConsumerThread).
Proof.
  intros [(q & Hr & Hq) _ Hi _ Hw]. destruct (queued_length h q Hq) as [Hl Hs].
  destruct h as [r g p s got j]. unfold gets_on, handoff_left, handoff_helpful, queued, being_pushed in *.
  simpl in *. destruct g; simpl; [|left; lia]. destruct p as [x|]; simpl in *.
  - destruct (fifo_push x r q Hr) as [Hok _]. destruct (ring_push x r) as [pushed r']. simpl in *.
    subst pushed. case_bool_decide; simpl; [left; lia|]. right. split; [done|]. intros _.
    by rewrite (proj2 (Nat.ltb_ge _ _)) by lia.
  - destruct (Nat.ltb_spec (length s) items); simpl; [left; rewrite length_app; simpl; lia|].
    destruct (Nat.leb_spec items (length got)); simpl; [|by right].
    destruct j; [by right|left; lia].
Qed.

Lemma consumer_turn_gets_on now h :
  handoff_inv h →
  gets_on h (consumer_turn now h) ∨
  handoff_view (consumer_turn now h) = handoff_view h ∧
  (joined h = false → handoff_helpful h = ProducerThread).
Proof.
  intros [(q & Hr & Hq) _ Hi _ Hw]. destruct (queued_length h q Hq) as [Hl Hs].
  destruct (fifo_pop _ q Hr) as [Hout _].
  destruct h as [r g p s got j]. unfold gets_on, handoff_left, handoff_helpful, queued, being_pushed in *.
  simpl in *. destruct g; simpl; [|by right].
  destruct (Nat.ltb_spec (length got) items) as [Hgot|Hgot].
  - destruct (ring_pop r) as [out r']. simpl in *. subst out. destruct q as [|x q]; simpl in *.
    + right. split; [done|]. intros _.
      destruct p as [x|]; simpl in *; by rewrite (proj2 (Nat.ltb_lt _ _)) by lia.
    + left. rewrite length_app. simpl. lia.
  - right. split; [done|]. intros _. destruct p as [x|]; simpl in *; [lia|].
    rewrite (proj2 (Nat.leb_le _ _)) by lia. by rewrite orb_true_r.
Qed.

Lemma same_view h h' :
  handoff_view h' = handoff_view h →
  handoff_left h' = handoff_left h ∧ handoff_helpful h' = handoff_helpful h.
Proof. destruct h, h'. unfold handoff_view. simpl. by intros [= -> -> -> -> ->]. Qed.

#[local] Instance handoff_terminates :
  FairTermination handoff_step handoff_thread handoff_inv joined.
Proof.
  assert (Hstep : ∀ e h, handoff_inv h → gets_on h (handoff_step e h) ∨
    handoff_view (handoff_step e h) = handoff_view h ∧
    (joined h = false → handoff_thread e ≠ Some (handoff_helpful h))).
  { intros [now|now] h Hh; simpl.
    - destruct (producer_turn_gets_on now h Hh) as [?|[? Hn]]; [by left|right]. split; [done|].
      intros Hj. by rewrite Hn.
    - destruct (consumer_turn_gets_on now h Hh) as [?|[? Hn]]; [by left|right]. split; [done|].
      intros Hj. by rewrite Hn. }
  refine {| steps_left := handoff_left; helpful := handoff_helpful |}.
  - intros e h. apply handoff_step_inv.
  - intros e h Hh. destruct (Hstep e h Hh) as [?|[[-> _]%same_view _]]; [by apply Nat.lt_le_incl|done].
  - intros e h Hh Hj He. destruct (Hstep e h Hh) as [?|[_ Hn]]; [done|]. by destruct (Hn Hj).
  - intros e h Hh Hj He. destruct (Hstep e h Hh) as [?|[[_ ->]%same_view _]]; [by left|by right].
Qed.

(** C30: Everything arrives. Over every ring that is a bounded queue with room for one
    item, under every fair schedule of the two threads, the benchmark ends; then
    the items received are the items made, all of them and in the order they
    were made. *)
Theorem handoff_delivers schedule r :
  represents r [] → fair handoff_thread schedule →
  ∃ n, let h := run_schedule handoff_step schedule n (newHandoff r) in
    joined h = true ∧ (received h).*1 = sent h ∧ length (received h) = items ∧
    ∀ i x, sent h !! i = Some x → ∃ now, x = make i now.
Proof.
  intros Hr Hf. pose proof (handoff_inv_new r Hr) as Hnew.
  destruct (fair_terminates schedule (newHandoff r) Hnew Hf) as [n Hn]. exists n. cbv zeta.
  assert (Hinv : handoff_inv (run_schedule handoff_step schedule n (newHandoff r)))
    by (apply run_schedule_invariant; [apply handoff_step_inv|done]).
  destruct Hinv as [(q & _ & Hq) Hm Hi Hj _]. specialize (Hj Hn).
  destruct (queued_length _ _ Hq) as [_ Hs]. split_and!; [done| |done|done].
  destruct q as [|y q]; [|simpl in Hs; lia]. unfold being_pushed in Hs.
  destruct (pending _); [simpl in Hs; lia|]. by rewrite !app_nil_r in Hq.
Qed.
End TwoThreads.

(** ** The two rings are the same queue *)

(** A sequence of calls, [Some x] a push of [x] and [None] a pop, and what the
    calls return. *)
Fixpoint calls_return {ring T : Type} `{!RingOps ring T} (calls : list (option T)) (r : ring)
  : list (bool + option T) :=
  match calls with
  | [] => []
  | Some x :: calls => inl (ring_push x r).1 :: calls_return calls (ring_push x r).2
  | None :: calls => inr (ring_pop r).1 :: calls_return calls (ring_pop r).2
  end.

Lemma same_queue_same_results {ring1 ring2 T : Type} `{!RingOps ring1 T, !RingOps ring2 T}
    capacity represents1 represents2
    `{!BoundedFifo ring1 T capacity represents1, !BoundedFifo ring2 T capacity represents2}
    calls r1 r2 q :
  represents1 r1 q → represents2 r2 q → calls_return calls r1 = calls_return calls r2.
Proof.
  revert r1 r2 q. induction calls as [|[x|] calls IH]; intros r1 r2 q H1 H2; [done|..]; simpl.
  - destruct (fifo_push x r1 q H1) as [-> H1'], (fifo_push x r2 q H2) as [-> H2']. by erewrite IH.
  - destruct (fifo_pop r1 q H1) as [-> H1'], (fifo_pop r2 q H2) as [-> H2']. by erewrite IH.
Qed.

(** C39: The benchmark compares like with like: whatever is pushed and popped, the
    naive ring and [SpscRing] of the same capacity return the same. *)
Theorem rings_agree {T : Type} bits (moved_from : T → T) (default : T) calls :
  1 ≤ bits < 64 →
  calls_return (RingOps0 := naive_ops bits) calls (newNaive bits default) =
  calls_return (RingOps0 := spsc_ops bits moved_from) calls (newRing bits default).
Proof.
  intros Hbits.
  apply (same_queue_same_results (RingOps0 := naive_ops bits) (RingOps1 := spsc_ops bits moved_from)
    (Z.to_nat (Capacity bits)) (naive_represents bits) (spsc_represents bits moved_from)
    (BoundedFifo0 := naive_fifo bits Hbits) (BoundedFifo1 := spsc_fifo bits moved_from Hbits) _ _ _ []).
  - apply newNaive_represents.
  - apply newRing_represents.
Qed.

Lemma rings_agree_witness :
  calls_return (RingOps0 := naive_ops 1) [Some 7; Some 8; Some 9; None; None; None] (newNaive 1 0) =
  calls_return (RingOps0 := spsc_ops 1 (λ _, 0)) [Some 7; Some 8; Some 9; None; None; None] (newRing 1 0).
Proof. apply (rings_agree 1 (λ _, 0) 0). lia. Defined.

(** ** The measurements *)

Definition kRepetitions : nat := 7.
Definition kThroughputItems : Z := 3000000.
Definition kProducerCpu : nat := 4.
Definition kConsumerCpu : nat := 6.

(** The threads run as [es] says; [None] is a run that has not ended. *)
Definition benchCrossThreadThroughput {ring : Type} `{!RingOps ring Z} (r : ring) (items : nat)
    (es : list HandoffEvent) (start_ns end_ns : Z) : option double :=
  let h := foldl (λ h e, handoff_step (λ i _, Z.of_nat i) items e h) (newHandoff r) es in
  if joined h then Some (per_second (Z.of_nat items) (end_ns - start_ns)) else None.

(** The item is the time it was sent. *)
Definition handoff_samples (received : list (Z * Z)) : list Z := (λ x, x.2 - x.1) <$> received.

Definition benchHandoffLatency (items : nat) (es : list HandoffEvent) : option Percentiles :=
  let step := handoff_step (RingOps0 := spsc_ops 10 (λ x, x)) (λ _ now, now) items in
  let h := foldl (λ h e, step e h) (newHandoff (newRing 10 0)) es in
  if joined h then Some (computePercentiles (handoff_samples (received h))) else None.

(** [readings] are the two clock readings of each iteration. *)
Definition measureClockOverhead (readings : list (Z * Z)) : Z :=
  bench_p50 (computePercentiles ((λ x, x.2 - x.1) <$> readings)).

(** The results of [pthread_setaffinity_np] and [pthread_getaffinity_np], and the
    processors of the set that the latter gives; on Linux only. *)
Definition pinToCpu (linux : bool) (set_result get_result : Z) (check : list nat) (cpu : nat) : bool :=
  if linux then
    if negb (set_result =? 0) then false
    else if negb (get_result =? 0) then false
    else bool_decide (cpu ∈ check) && (length (remove_dups check) =? 1)%nat
  else false.

(** A verified pinning leaves the thread one processor, the one asked for. *)
Lemma pinned_runs_there linux set_result get_result check cpu :
  pinToCpu linux set_result get_result check cpu = true → ∀ c, c ∈ check → c = cpu.
Proof.
  unfold pinToCpu. destruct linux, (set_result =? 0), (get_result =? 0); try done. simpl.
  intros [Hcpu%bool_decide_eq_true Hl%Nat.eqb_eq]%andb_true_iff c Hc.
  rewrite <- elem_of_remove_dups in Hcpu, Hc.
  destruct (remove_dups check) as [|d [|]]; simpl in Hl; try lia.
  apply list_elem_of_singleton in Hcpu, Hc. congruence.
Qed.

Definition event_clock (e : HandoffEvent) : Z :=
  match e with ProducerStep now => now | ConsumerStep now => now end.

Section Latency.
Context (items : nat).

Local Abbreviation latency_step :=
  (handoff_step (RingOps0 := spsc_ops 10 (λ x : Z, x)) (λ _ now, now) items).
Local Abbreviation latency_inv :=
  (handoff_inv (λ _ now, now) items (represents := spsc_represents 10 (λ x : Z, x))).

(** No item is from the future of [t], and none was received before it was sent. *)
Definition stamped_until (t : Z) (h : Handoff (ring := SpscRing Z) (T := Z)) : Prop :=
  Forall (λ x, x ≤ t) (sent h) ∧ Forall (λ x, x.1 ≤ x.2) (received h).

Lemma latency_step_stamped e t h :
  latency_inv h → stamped_until t h → t ≤ event_clock e →
  stamped_until (event_clock e) (latency_step e h).
Proof.
  intros [(q & Hr & Hq) _ _ _ _] [Hs Hg] Ht.
  assert (Hs' : Forall (λ x, x ≤ event_clock e) (sent h)) 
    by (eapply list.Forall_impl; [exact Hs|simpl; lia]).
  destruct h as [r g p s got j], e as [now|now]; simpl in *; (destruct g; [|by split]); simpl.
  - destruct p as [x|]; [by destruct (tryPush 10 x r); split|].
    destruct (_ <? _)%nat; [split; [apply Forall_app; split; [done|by constructor]|done]|].
    by destruct (_ <=? _)%nat; split.
  - destruct (_ <? _)%nat; [|by split].
    destruct (fifo_pop (BoundedFifo := spsc_fifo 10 (λ x, x) ltac:(lia)) r q Hr) as [Hout _].
    simpl in Hout. destruct (tryPop 10 (λ x, x) r) as [[x|] r']; [|by split]. simpl in *.
    split; [done|]. apply Forall_app. split; [done|]. constructor; [|done]. simpl.
    rewrite list.Forall_forall in Hs'. apply Hs'. rewrite <- Hq, !elem_of_app.
    destruct q as [|y q]; [done|]. injection Hout as ->. right. left. by left.
Qed.

Lemma latency_run_stamped es t h :
  latency_inv h → stamped_until t h → StronglySorted Z.le (t :: (event_clock <$> es)) →
  Forall (λ x, x.1 ≤ x.2) (received (foldl (λ h e, latency_step e h) h es)).
Proof.
  revert t h. induction es as [|e es IH]; intros t h Hi Hs Hc; [apply Hs|]. simpl.
  inversion Hc as [|?? Hc' Ht]; subst. inversion Ht; subst.
  apply (IH (event_clock e)); [|by eapply latency_step_stamped|done].
  apply (handoff_step_inv _ _ (BoundedFifo0 := spsc_fifo 10 (λ x, x) ltac:(lia)) e h Hi).
Qed.

(** On a clock that does not go back, no handoff takes a negative time. *)
Lemma latencies_not_negative es t :
  StronglySorted Z.le (t :: (event_clock <$> es)) →
  Forall (λ x, 0 ≤ x) (handoff_samples (received
    (foldl (λ h e, latency_step e h) (newHandoff (newRing 10 0)) es))).
Proof.
  intros Hc. apply Forall_fmap. eapply list.Forall_impl.
  - apply (latency_run_stamped es t); [|by split|done]. apply handoff_inv_new, newRing_represents.
  - intros [x now]. simpl. lia.
Qed.
End Latency.

(** The benchmark of one thread completes with one attempt per operation. *)
Lemma single_thread_completes fuel items start_ns end_ns :
  (0 < fuel)%nat →
  benchSingleThreadedThroughput fuel items start_ns end_ns =
    Some (per_second (Z.of_nat items) (end_ns - start_ns)).
Proof.
  intros Hf. unfold benchSingleThreadedThroughput.
  destruct (push_pop_all_spec (RingOps0 := spsc_ops 10 (λ x, x))
    (BoundedFifo0 := spsc_fifo 10 (λ x, x) ltac:(lia)) fuel (Z.of_nat <$> seq 0 items) 0 (newRing 10 0))
    as (r' & -> & _); [by apply cap_pos|done|apply newRing_represents|done].
Qed.

(** ** A schedule *)

Definition in_turns (k : nat) : HandoffEvent :=
  match (k mod 2)%nat with 0%nat => ProducerStep (Z.of_nat k) | _ => ConsumerStep (Z.of_nat k) end.

Lemma in_turns_fair : fair handoff_thread in_turns.
Proof.
  apply (in_turns_are_fair _ [] in_turns 2 (λ t, match t with ProducerThread => 0 | ConsumerThread => 1 end)%nat);
    [lia|].
  intros t n. unfold in_turns. rewrite Nat.Div0.mod_add. by destruct t.
Qed.

Lemma handoff_delivers_witness :
  ∃ n, joined (run_schedule (handoff_step (RingOps0 := naive_ops 1) (λ i _, Z.of_nat i) 5) in_turns n
    (newHandoff (newNaive 1 0))) = true.
Proof.
  destruct (handoff_delivers (RingOps0 := naive_ops 1) (λ i _, Z.of_nat i) 5
    (BoundedFifo0 := naive_fifo 1 ltac:(lia)) (cap_pos 1 ltac:(lia)) in_turns (newNaive 1 0)
    (newNaive_represents 1 0) in_turns_fair) as (n & H & _).
  exists n. exact H.
Defined.
