(* ===== verification/BenchReport.v ===== *)
(** * What the benchmark of the rings prints

    [main] of [benchmarks/bench_spsc_ring.cpp]: the conditions of the measurement
    first, the warnings they call for, then throughput and latency. The
    measurements are those of [BenchRings]. *)

From Stdlib Require Import Ascii String.
From stdpp Require Import base numbers list option strings pretty.
From S2P Require Import Prelude Float64 BenchStats BenchRings CycleReport.

#[local] Open Scope string_scope.
#[local] Open Scope Z_scope.
#[local] Open Scope list_scope.

(** [std::tolower] in the C locale. *)
Definition tolower (c : ascii) : ascii :=
  let n := nat_of_ascii c in
  if (65 <=? n)%nat && (n <=? 90)%nat then ascii_of_nat (n + 32) else c.

Fixpoint lower (s : string) : string :=
  match s with EmptyString => EmptyString | String c s => String (tolower c) (lower s) end.

(** [version] is the text of [/proc/version], if it can be opened. *)
Definition bench_isVirtualised (version : option string) : bool :=
  match version with
  | None => false
  | Some text => let line := lower (first_line text) in contains "microsoft" line || contains "wsl" line
  end.

(** What the program finds out about its host, and what it measures. *)
Record BenchRun := mkBenchRun {
  run_version : option string;
  run_pinned : bool;
  run_clock : list (Z * Z);
  run_cores : Z;
  run_single : list double;
  run_padded : list double;
  run_naive : list double;
  run_handoff : Percentiles
}.

Definition pinning_warning : list string :=
  [EmptyString;
   "> CPU pinning could not be verified, so the producer and consumer may";
   "> have been migrated between cores mid-measurement. Cross-core figures";
   "> below are not comparable across runs."].

Definition virtual_warning : list string :=
  [EmptyString;
   "> Taken on a virtualised host. Medians and low percentiles still";
   "> characterise the queue, but everything above roughly p99 characterises";
   "> the hypervisor scheduler, not this code, and must not be quoted as a";
   "> property of it. A defensible tail figure needs bare-metal Linux with";
   "> isolated cores -- which is what rt-latency-lab exists to provide."].

Definition bench_conditions (b : BenchRun) : list string :=
  let virtualised := bench_isVirtualised (run_version b) in
  ["# SpscRing benchmark"; EmptyString; "## Measurement conditions"; EmptyString;
   "- Hardware concurrency: " +:+ pretty (run_cores b);
   "- Repetitions per figure: " +:+ pretty kRepetitions +:+ " (median reported, min/max shown)";
   "- steady_clock::now() median cost: " +:+ pretty (measureClockOverhead (run_clock b)) +:+ " ns";
   "- CPU pinning: " +:+ (if run_pinned b then "verified" else "FAILED or not honoured");
   "- Virtualised host detected: " +:+ (if virtualised then "YES" else "no")] ++
  (if negb (run_pinned b) then pinning_warning else []) ++
  (if virtualised then virtual_warning else []) ++ [EmptyString].

(** [median / 1e6] of each repetition. *)
Definition in_millions (v : double) : double := ddiv v (double_of_Z 1000000).

Definition bench_throughput (b : BenchRun) : list string :=
  let s_single := summarize (in_millions <$> run_single b) in
  let s_padded := summarize (in_millions <$> run_padded b) in
  let s_naive := summarize (in_millions <$> run_naive b) in
  ["## Throughput, M items/s"; EmptyString;
   "| Configuration                            |   median |      min |      max |";
   "|------------------------------------------|----------|----------|----------|";
   printSpread "Single thread, push+pop (cache hot)" s_single;
   printSpread "Cross-thread, padded + cached positions" s_padded;
   printSpread "Cross-thread, shared line, no caching" s_naive;
   EmptyString;
   "Layout advantage at the median: " +:+ format_f 2 (ddiv (median s_padded) (median s_naive)) +:+
     "x  (worst rep " +:+ format_f 2 (ddiv (spread_min s_padded) (spread_max s_naive)) +:+
     "x, best rep " +:+ format_f 2 (ddiv (spread_max s_padded) (spread_min s_naive)) +:+ "x)";
   "Both variants run the same algorithm and the same memory ordering;";
   "the only difference is cache-line layout and position caching."; EmptyString].

Definition bench_latency (p : Percentiles) : list string :=
  ["## Handoff latency, producer store to consumer load (ns)"; EmptyString;
   "|    p50 |    p90 |    p99 |    p99.9 |      max |";
   "|--------|--------|--------|----------|----------|";
   "| " +:+ pad_left 6 (pretty (bench_p50 p)) +:+ " | " +:+ pad_left 6 (pretty (bench_p90 p)) +:+ " | " +:+
     pad_left 6 (pretty (bench_p99 p)) +:+ " | " +:+ pad_left 8 (pretty (bench_p999 p)) +:+ " | " +:+
     pad_left 8 (pretty (bench_max p)) +:+ " |";
   EmptyString;
   "Samples: " +:+ pretty kLatencyItems +:+ ". Producer paced to keep the ring unsaturated."].

Definition bench_main (b : BenchRun) : list string :=
  bench_conditions b ++ bench_throughput b ++ bench_latency (run_handoff b).

(** ** The transports *)

(** The results of the three transports, and the seconds the child computed. *)
Record TransportRun := mkTransportRun {
  run_shm : RoundTripPercentiles;
  run_unix : RoundTripPercentiles;
  run_pipes : RoundTripPercentiles;
  run_child_cpu : double
}.

(** [ru_utime] in seconds. *)
Definition child_cpu_seconds (tv_sec tv_usec : Z) : double :=
  dadd (double_of_Z tv_sec) (ddiv (double_of_Z tv_usec) (double_of_Z 1000000)).

(** [main] of [bench_transports.cpp]. *)
Definition transports_main (r : TransportRun) : list string :=
  ["# Cross-process transport round-trip latency"; EmptyString;
   "Message: 64 bytes. Round trips per transport: " +:+ pretty kRoundTrips +:+ ".";
   "Every figure is a full round trip -- parent to child and back --";
   "so a one-way cost is roughly half."; EmptyString;
   "| Transport                  |     p50 |      p99 |     p99.9 |       max | cost               |";
   "|----------------------------|---------|----------|-----------|-----------|--------------------|";
   printRow "shared memory (seqlock)" (run_shm r) "spins a core";
   printRow "Unix socket (stream)" (run_unix r) "blocks, 2 syscalls";
   printRow "pipe" (run_pipes r) "blocks, 2 syscalls";
   EmptyString; "All times in nanoseconds."; EmptyString] ++
  (if (0 <? trip_p50 (run_shm r)) && (0 <? trip_p50 (run_unix r)) then
     ["Shared memory is " +:+
        format_f 1 (ddiv (double_of_Z (trip_p50 (run_unix r))) (double_of_Z (trip_p50 (run_shm r)))) +:+
        "x faster than a Unix stream socket at the median."]
   else []) ++
  ["It also burned " +:+ format_f 2 (run_child_cpu r) +:+ " s of CPU in the child to do it, for " +:+
     pretty kRoundTrips +:+ " round trips.";
   EmptyString;
   "Read that CPU number carefully: it is low only because this";
   "benchmark keeps both sides continuously busy, so the spin almost";
   "never actually waits. A real consumer polling for messages that";
   "arrive every millisecond spins through the other 99% of the time";
   "and burns a whole core doing nothing.";
   EmptyString;
   "The tail is the more interesting column in any case. Shared memory";
   "is tens of times faster at the median, but nearly three orders of";
   "magnitude tighter at p99.9 -- and for a cycle that has to fit inside";
   "a deadline, the tail is the number that decides whether it fits."].

(** ** Honest reports *)

(** The transports' closing remarks are fixed text: they claim a tighter tail for
    shared memory whatever was measured. *)
Lemma transports_claim_fixed r :
  "is tens of times faster at the median, but nearly three orders of" ∈ transports_main r.
Proof. unfold transports_main. rewrite !elem_of_app. right. right. rewrite !elem_of_cons. tauto. Qed.

(** No figure is printed before the conditions, and a pinning that could not be
    verified or a virtual host is always called out. *)
Lemma bench_conditions_first b :
  ∃ rest, bench_main b = bench_conditions b ++ rest ∧
    (run_pinned b = false → pinning_warning ⊆ bench_conditions b) ∧
    (bench_isVirtualised (run_version b) = true → virtual_warning ⊆ bench_conditions b).
Proof.
  exists (bench_throughput b ++ bench_latency (run_handoff b)). split; [done|]. unfold bench_conditions.
  split; intros ->; cbn [negb]; intros x Hx; rewrite !elem_of_app; tauto.
Qed.

Example wsl_detected :
  bench_isVirtualised (Some "Linux version 5.15.90.1-Microsoft-standard-WSL2") = true.
Proof. reflexivity. Qed.
