(* ===== verification/Transports.v ===== *)
(** * The descriptor transports of the benchmark

    [benchmarks/bench_transports.cpp], pipes and socket pairs: the parent sends a
    message and reads it back, the child echoes. A call moves any number of
    bytes from one on, as the kernel likes; a message is put together again from
    the pieces. *)

From stdpp Require Import base numbers list option.
From S2P Require Import Prelude FairTermination BenchStats.

(** ** Messages *)

(** [sizeof(Message)]. *)
Definition message_size : nat := 64.

(** The bytes of a message: the number, the time, six zero doubles. *)
Definition message_bytes (sequence stamp_ns : Z) : list Z :=
  le_bytes 8 sequence ++ le_bytes 8 stamp_ns ++ replicate 48 0.

(** [stamp_ns] of the message with these bytes. *)
Definition stamp_of (bytes : list Z) : Z := i64 (le_value (take 8 (drop 8 bytes))).

(** ** Parent and child *)

(** Where the parent is: before a message, sending it ([sent] bytes are gone),
    receiving the answer, closing its descriptors, in [waitpid], or back. *)
Inductive ParentPc :=
  | Stamping
  | Sending (sent : nat)
  | Receiving (incoming : list Z)
  | ParentClosing
  | ParentWaiting
  | ParentReturned.

(** Where the child is in [echoLoop]. *)
Inductive ChildPc :=
  | ChildReading (incoming : list Z)
  | ChildWriting (message : list Z) (sent : nat)
  | ChildExited.

(** The two processes and the bytes on the way. [history] pairs the times a
    message was stamped and was back, for every sample; [cut_short] says that the
    parent stopped at a failed call. *)
Record EchoRun := mkEchoRun {
  parent_at : ParentPc;
  iteration : nat;
  outgoing_stamp : Z;
  samples : list Z;
  to_child : list Z;
  from_child : list Z;
  descriptors_open : bool;
  child_at : ChildPc;
  history : list (Z * Z);
  cut_short : bool
}.

Definition newEcho : EchoRun :=
  mkEchoRun Stamping 1 0 [] [] [] true (ChildReading []) [] false.

(** A step: [count] is what the call returns if it can move that much. Zero is a
    failure of the parent's call; those of the child succeed while the parent is
    there. The clock is read where the code reads it. *)
Inductive EchoEvent := ParentStep (count : nat) (now_ns : Z) | ChildStep (count : nat).
Inductive EchoProcess := ParentProcess | ChildProcess.

#[export] Instance echo_process_eq_dec : EqDecision EchoProcess.
Proof. solve_decision. Defined.

Definition echo_process (e : EchoEvent) : option EchoProcess :=
  match e with ParentStep _ _ => Some ParentProcess | ChildStep _ => Some ChildProcess end.

(** How many bytes a call that succeeds moves, of [limit]. *)
Definition moved (count limit : nat) : nat := Nat.max 1 (Nat.min count limit).

Section Steps.
(** [kRoundTrips]. *)
Context (round_trips : nat).

Definition outgoing (s : EchoRun) : list Z :=
  message_bytes (Z.of_nat (iteration s)) (outgoing_stamp s).

Definition with_parent (pc : ParentPc) (s : EchoRun) : EchoRun :=
  mkEchoRun pc (iteration s) (outgoing_stamp s) (samples s) (to_child s) (from_child s)
    (descriptors_open s) (child_at s) (history s) (cut_short s).
Definition break_off (s : EchoRun) : EchoRun :=
  mkEchoRun ParentClosing (iteration s) (outgoing_stamp s) (samples s) (to_child s) (from_child s)
    (descriptors_open s) (child_at s) (history s) true.

Definition parent_send (count sent : nat) (s : EchoRun) : EchoRun :=
  match count with
  | O => break_off s
  | S _ =>
      let n := moved count (message_size - sent) in
      mkEchoRun (if (message_size <=? sent + n)%nat then Receiving [] else Sending (sent + n))
        (iteration s) (outgoing_stamp s) (samples s)
        (to_child s ++ take n (drop sent (outgoing s))) (from_child s)
        (descriptors_open s) (child_at s) (history s) (cut_short s)
  end.

(** A read blocks while there is nothing to read and the child is there. *)
Definition parent_receive (count : nat) (now_ns : Z) (incoming : list Z) (s : EchoRun) : EchoRun :=
  match count, from_child s with
  | O, _ => break_off s
  | S _, [] => match child_at s with ChildExited => break_off s | _ => s end
  | S _, _ :: _ =>
      let n := moved count (Nat.min (message_size - length incoming) (length (from_child s))) in
      let incoming := incoming ++ take n (from_child s) in
      let s := mkEchoRun (Receiving incoming) (iteration s) (outgoing_stamp s) (samples s)
        (to_child s) (drop n (from_child s)) (descriptors_open s) (child_at s) (history s) (cut_short s) in
      if (message_size <=? length incoming)%nat then
        mkEchoRun Stamping (S (iteration s)) (outgoing_stamp s)
          (samples s ++ [now_ns - stamp_of incoming]) (to_child s) (from_child s)
          (descriptors_open s) (child_at s) (history s ++ [(outgoing_stamp s, now_ns)]) (cut_short s)
      else s
  end.

(** [benchmarkDescriptorPair], then the end of its caller. *)
Definition parent_step (count : nat) (now_ns : Z) (s : EchoRun) : EchoRun :=
  match parent_at s with
  | Stamping =>
      if (iteration s <=? round_trips)%nat then
        mkEchoRun (Sending 0) (iteration s) (i64 now_ns) (samples s) (to_child s) (from_child s)
          (descriptors_open s) (child_at s) (history s) (cut_short s)
      else with_parent ParentClosing s
  | Sending sent => parent_send count sent s
  | Receiving incoming => parent_receive count now_ns incoming s
  | ParentClosing =>
      mkEchoRun ParentWaiting (iteration s) (outgoing_stamp s) (samples s) (to_child s) (from_child s)
        false (child_at s) (history s) (cut_short s)
  | ParentWaiting => match child_at s with ChildExited => with_parent ParentReturned s | _ => s end
  | ParentReturned => s
  end.

Definition with_child (pc : ChildPc) (unread from : list Z) (s : EchoRun) : EchoRun :=
  mkEchoRun (parent_at s) (iteration s) (outgoing_stamp s) (samples s) unread from
    (descriptors_open s) pc (history s) (cut_short s).

(** [echoLoop]; a write that the parent can not read any more ends the child. *)
Definition child_step (count : nat) (s : EchoRun) : EchoRun :=
  match child_at s with
  | ChildReading incoming =>
      match to_child s with
      | [] => if descriptors_open s then s else with_child ChildExited [] (from_child s) s
      | _ :: _ =>
          let n := moved count (Nat.min (message_size - length incoming) (length (to_child s))) in
          let incoming := incoming ++ take n (to_child s) in
          with_child (if (message_size <=? length incoming)%nat then ChildWriting incoming 0
                      else ChildReading incoming)
            (drop n (to_child s)) (from_child s) s
      end
  | ChildWriting message sent =>
      if descriptors_open s then
        let n := moved count (message_size - sent) in
        with_child (if (message_size <=? sent + n)%nat then ChildReading []
                    else ChildWriting message (sent + n))
          (to_child s) (from_child s ++ take n (drop sent message)) s
      else with_child ChildExited (to_child s) (from_child s) s
  | ChildExited => s
  end.

Definition echo_step (e : EchoEvent) (s : EchoRun) : EchoRun :=
  match e with
  | ParentStep count now_ns => parent_step count now_ns s
  | ChildStep count => child_step count s
  end.

Definition echo_returned (s : EchoRun) : bool :=
  match parent_at s with ParentReturned => true | _ => false end.
End Steps.

(** [runPipeBenchmark] and [runSocketBenchmark]: whether the descriptors and the
    child could be made, and the run when it has returned. *)
Definition runDescriptorBenchmark (descriptors forked : bool) (s : EchoRun) : RoundTripPercentiles :=
  if negb descriptors then noRoundTrip else if negb forked then noRoundTrip
  else percentilesOf (samples s).
