(* ===== verification/TransportsSafety.v ===== *)
(** * The descriptor transports: theorems

    However the kernel cuts the bytes, a message comes back whole, every sample
    is the round trip of one message, and the benchmark ends. *)

From stdpp Require Import base numbers list option.
From S2P Require Import Prelude FairTermination BenchStats Transports.

(** ** Messages *)

Lemma length_message sequence stamp : length (message_bytes sequence stamp) = message_size.
Proof. unfold message_bytes. by rewrite !length_app, !length_le_bytes, length_replicate. Qed.

(** A message keeps its time. *)
Lemma stamp_of_message sequence stamp : is_i64 stamp → stamp_of (message_bytes sequence stamp) = stamp.
Proof.
  intros Hs. unfold stamp_of, message_bytes.
  rewrite drop_app_length' by (by rewrite length_le_bytes).
  rewrite take_app_length' by (by rewrite length_le_bytes).
  rewrite le_value_bytes. unfold signed_wrap, unsigned_wrap.
  change (8 * Z.of_nat 8) with 64. rewrite Zplus_mod_idemp_l. by apply signed_wrap_id.
Qed.

Lemma moved_bounds count limit : (1 ≤ limit)%nat → (1 ≤ moved count limit ≤ limit)%nat.
Proof. unfold moved. lia. Qed.

Section Echo.
Context (round_trips : nat).

Local Abbreviation step := (echo_step round_trips).

(** ** Where the bytes of the message are *)

Definition echo_phase (s : EchoRun) : Prop :=
  match parent_at s with
  | Stamping => to_child s = [] ∧ from_child s = [] ∧ child_at s = ChildReading []
  | Sending sent =>
      (sent < message_size)%nat ∧ from_child s = [] ∧
      ∃ c, child_at s = ChildReading c ∧ c ++ to_child s = take sent (outgoing s)
  | Receiving got =>
      (length got < message_size)%nat ∧
      ((∃ c, child_at s = ChildReading c ∧ c ++ to_child s = outgoing s ∧
          (length c < message_size)%nat ∧ from_child s = [] ∧ got = []) ∨
       (∃ sent, child_at s = ChildWriting (outgoing s) sent ∧ (sent < message_size)%nat ∧
          to_child s = [] ∧ got ++ from_child s = take sent (outgoing s)) ∨
       (child_at s = ChildReading [] ∧ to_child s = [] ∧ got ++ from_child s = outgoing s))
  | _ => True
  end.

Definition child_ok (c : ChildPc) : Prop :=
  match c with
  | ChildReading incoming => (length incoming < message_size)%nat
  | ChildWriting message sent => (sent < message_size)%nat
  | ChildExited => True
  end.

(** Whether the parent is past its loop, and has closed its descriptors. *)
Definition past_loop (p : ParentPc) : bool :=
  match p with ParentClosing | ParentWaiting | ParentReturned => true | _ => false end.
Definition closed (p : ParentPc) : bool :=
  match p with ParentWaiting | ParentReturned => true | _ => false end.

Record echo_inv (s : EchoRun) : Prop := mkEchoInv {
  ei_phase : echo_phase s;
  ei_child : child_ok (child_at s);
  ei_open : descriptors_open s = negb (closed (parent_at s));
  ei_exited : child_at s = ChildExited → closed (parent_at s) = true;
  ei_stamp : is_i64 (outgoing_stamp s);
  ei_samples : samples s = (λ h, h.2 - h.1) <$> history s;
  ei_count : S (length (samples s)) = iteration s;
  ei_iteration : (iteration s ≤ S round_trips)%nat;
  ei_running : match parent_at s with
    | Sending _ | Receiving _ => (iteration s ≤ round_trips)%nat | _ => True end;
  ei_cut : past_loop (parent_at s) = false → cut_short s = false;
  ei_complete : past_loop (parent_at s) = true → cut_short s = false → iteration s = S round_trips
}.

Lemma echo_inv_new : echo_inv newEcho.
Proof. constructor; simpl; unfold message_size; try done; try lia. Qed.

(** ** The child *)

Lemma child_read_phase count s incoming b bs :
  echo_phase s → child_at s = ChildReading incoming → to_child s = b :: bs →
  (length incoming < message_size)%nat → echo_phase (child_step count s).
Proof.
  intros Hp Hc Ht Hl. unfold child_step. rewrite Hc, Ht. cbv zeta. rewrite <- Ht.
  set (n := moved count (Nat.min (message_size - length incoming) (length (to_child s)))).
  assert (Hn : (1 ≤ n ≤ Nat.min (message_size - length incoming) (length (to_child s)))%nat)
    by (apply moved_bounds; rewrite Ht; simpl; lia).
  assert (Hlen : length (incoming ++ take n (to_child s)) = (length incoming + n)%nat)
    by (rewrite length_app, length_take; lia).
  unfold echo_phase in *. cbn [with_child parent_at to_child from_child child_at].
  change (outgoing (with_child _ _ _ s)) with (outgoing s).
  pose proof (length_message (Z.of_nat (iteration s)) (outgoing_stamp s)) as Hm. fold (outgoing s) in Hm.
  destruct (parent_at s) as [|sent|got| | |]; try done.
  - destruct Hp as (E & _). congruence.
  - destruct Hp as (Hs & Hf & c & Hc' & E). rewrite Hc in Hc'. injection Hc' as <-.
    split; [done|]. split; [done|]. exists (incoming ++ take n (to_child s)).
    assert (Hle : (length incoming + n ≤ sent)%nat).
    { apply (f_equal length) in E. rewrite length_app, length_take in E. lia. }
    rewrite (proj2 (Nat.leb_gt _ _)) by lia. split; [done|]. by rewrite <- app_assoc, take_drop.
  - destruct Hp as (Hg & [(c & Hc' & E & _ & Hf & ->)|[(sent & Hc' & _)|(_ & Hn0 & _)]]); [|congruence..].
    rewrite Hc in Hc'. injection Hc' as <-. split; [done|].
    destruct (Nat.leb_spec message_size (length (incoming ++ take n (to_child s)))) as [Hfull|Hpart].
    + right. left. exists 0%nat. rewrite take_0.
      assert (Hall : incoming ++ take n (to_child s) = outgoing s ∧ drop n (to_child s) = []).
      { rewrite <- (take_drop n (to_child s)), app_assoc in E.
        assert (length (drop n (to_child s)) = 0%nat)
          by (apply (f_equal length) in E; rewrite length_app in E; lia).
        destruct (drop n (to_child s)); [|done]. by rewrite app_nil_r in E. }
      destruct Hall as [-> ->]. split_and!; try done; unfold message_size; lia.
    + left. exists (incoming ++ take n (to_child s)). split_and!; try done.
      by rewrite <- app_assoc, take_drop.
Qed.

Lemma child_write_phase count s message sent :
  echo_phase s → child_at s = ChildWriting message sent → descriptors_open s = true →
  (sent < message_size)%nat → echo_phase (child_step count s).
Proof.
  intros Hp Hc Ho Hs. unfold child_step. rewrite Hc, Ho. cbv zeta.
  set (n := moved count (message_size - sent)).
  assert (Hn : (1 ≤ n ≤ message_size - sent)%nat) by (apply moved_bounds; lia).
  unfold echo_phase in *. cbn [with_child parent_at to_child from_child child_at].
  change (outgoing (with_child _ _ _ s)) with (outgoing s).
  pose proof (length_message (Z.of_nat (iteration s)) (outgoing_stamp s)) as Hm. fold (outgoing s) in Hm.
  destruct (parent_at s) as [|k|got| | |]; try done.
  - destruct Hp as (_ & _ & Hc'). congruence.
  - destruct Hp as (_ & _ & c & Hc' & _). congruence.
  - destruct Hp as (Hg & [(c & Hc' & _)|[(k & Hc' & _ & Ht & E)|(Hc' & _)]]); [congruence| |congruence].
    rewrite Hc in Hc'. injection Hc' as -> <-. split; [done|]. right.
    assert (E' : got ++ from_child s ++ take n (drop sent (outgoing s)) = take (sent + n) (outgoing s))
      by (by rewrite app_assoc, E, take_take_drop).
    destruct (Nat.leb_spec message_size (sent + n)).
    + right. split_and!; try done. rewrite E'. apply take_ge. lia.
    + left. exists (sent + n)%nat. by split_and!.
Qed.

(** ** The parent *)

Lemma parent_send_phase count sent s :
  echo_phase s → parent_at s = Sending sent → echo_phase (parent_send count sent s).
Proof.
  intros Hp Hpc. destruct count as [|count]; [done|]. unfold parent_send.
  unfold echo_phase in Hp. rewrite Hpc in Hp. destruct Hp as (Hs & Hf & c & Hc & E).
  set (n := moved (S count) (message_size - sent)).
  assert (Hn : (1 ≤ n ≤ message_size - sent)%nat) by (apply moved_bounds; lia).
  pose proof (length_message (Z.of_nat (iteration s)) (outgoing_stamp s)) as Hm. fold (outgoing s) in Hm.
  assert (E' : c ++ to_child s ++ take n (drop sent (outgoing s)) = take (sent + n) (outgoing s))
    by (by rewrite app_assoc, E, take_take_drop).
  assert (Hl : (length c ≤ sent)%nat).
  { apply (f_equal length) in E. rewrite length_app, length_take in E. lia. }
  unfold echo_phase. cbn [parent_at to_child from_child child_at].
  change (outgoing (mkEchoRun _ (iteration s) (outgoing_stamp s) _ _ _ _ _ _ _)) with (outgoing s).
  destruct (Nat.leb_spec message_size (sent + n)); cbv zeta.
  - split; [unfold message_size; simpl; lia|]. left. exists c. rewrite E', take_ge by lia.
    split_and!; try done. lia.
  - split; [done|]. split; [done|]. by exists c.
Qed.

Lemma break_off_inv s : echo_inv s → past_loop (parent_at s) = false → echo_inv (break_off s).
Proof.
  intros [Hp Hc Ho He Hst Hs Hn Hi Hr Hcut Hd] Hl.
  assert (Hcl : closed (parent_at s) = false) by (by destruct (parent_at s)). rewrite Hcl in *.
  by constructor.
Qed.

(** What is back of the message, with what is on the way back. *)
Lemma receiving_prefix s incoming b bs :
  echo_phase s → parent_at s = Receiving incoming → from_child s = b :: bs →
  (length incoming < message_size)%nat ∧ to_child s = [] ∧
  ((∃ sent, child_at s = ChildWriting (outgoing s) sent ∧ (sent < message_size)%nat ∧
      incoming ++ from_child s = take sent (outgoing s)) ∨
   (child_at s = ChildReading [] ∧ incoming ++ from_child s = outgoing s)).
Proof.
  unfold echo_phase. intros Hp Hpc Hf. rewrite Hpc in Hp.
  destruct Hp as (Hg & [(c & _ & _ & _ & Hf' & _)|[(k & Hc & Hk & Ht & E)|(Hc & Ht & E)]]); [congruence|..].
  - split_and!; try done. left. by exists k.
  - split_and!; try done. by right.
Qed.

(** What the parent gets back is what it sent. *)
Lemma parent_receive_inv count now incoming s :
  echo_inv s → parent_at s = Receiving incoming → echo_inv (parent_receive count now incoming s).
Proof.
  intros Hinv Hpc. pose proof Hinv as [Hp Hc Ho He Hst Hs Hn Hi Hr Hcut Hd].
  unfold parent_receive. destruct count as [|count]; [apply break_off_inv; [done|by rewrite Hpc]|].
  destruct (from_child s) as [|b bs] eqn:Hf.
  { destruct (child_at s) eqn:E; try done. specialize (He eq_refl). by rewrite Hpc in He. }
  destruct (receiving_prefix s incoming b bs Hp Hpc Hf) as (Hg & Ht & Hcase). rewrite <- Hf. cbv zeta.
  set (n := moved (S count) (Nat.min (message_size - length incoming) (length (from_child s)))).
  assert (Hmv : (1 ≤ n ≤ Nat.min (message_size - length incoming) (length (from_child s)))%nat)
    by (apply moved_bounds; rewrite Hf; simpl; lia).
  assert (Hlen : length (incoming ++ take n (from_child s)) = (length incoming + n)%nat)
    by (rewrite length_app, length_take; lia).
  assert (Happ : (incoming ++ take n (from_child s)) ++ drop n (from_child s) = incoming ++ from_child s)
    by (by rewrite <- app_assoc, take_drop).
  pose proof (length_message (Z.of_nat (iteration s)) (outgoing_stamp s)) as Hm. fold (outgoing s) in Hm.
  rewrite Hpc in *. destruct (Nat.leb_spec message_size (length (incoming ++ take n (from_child s)))) as [Hfull|Hpart].
  - destruct Hcase as [(sent & _ & Hk & E)|[Hch E]].
    { rewrite E in Happ. apply (f_equal length) in Happ. rewrite length_app, length_take in Happ. lia. }
    assert (Hall : incoming ++ take n (from_child s) = outgoing s ∧ drop n (from_child s) = []).
    { rewrite E in Happ. assert (length (drop n (from_child s)) = 0%nat)
        by (apply (f_equal length) in Happ; rewrite length_app in Happ; lia).
      destruct (drop n (from_child s)); [|done]. by rewrite app_nil_r in Happ. }
    destruct Hall as [-> ->]. constructor; simpl in *; try done.
    + rewrite fmap_app, Hs. simpl. unfold outgoing. by rewrite stamp_of_message.
    + rewrite length_app. simpl. lia.
    + lia.
  - constructor; simpl in *; try done. unfold echo_phase. cbn [parent_at to_child from_child child_at].
    change (outgoing (mkEchoRun _ (iteration s) (outgoing_stamp s) _ _ _ _ _ _ _)) with (outgoing s).
    rewrite Happ. split; [done|]. right.
    destruct Hcase as [(sent & Hch & Hk & E)|[Hch E]]; [left; by exists sent|by right].
Qed.

Lemma parent_step_inv count now s : echo_inv s → echo_inv (parent_step round_trips count now s).
Proof.
  intros Hinv. pose proof Hinv as [Hp Hc Ho He Hst Hs Hn Hi Hr Hcut Hd].
  unfold parent_step. destruct (parent_at s) as [|sent|got| | |] eqn:Hpc; rewrite ?Hpc in *.
  - unfold echo_phase in Hp. rewrite Hpc in Hp. destruct Hp as (Ht & Hf & Hch).
    destruct (Nat.leb_spec (iteration s) round_trips); constructor; simpl in *; try done.
    + unfold echo_phase. simpl. split; [unfold message_size; lia|]. split; [done|]. exists [].
      by rewrite Hch, Ht.
    + by apply signed_wrap_range.
    + intros _ _. lia.
  - assert (Hph : echo_phase (parent_send count sent s)) by (by apply parent_send_phase).
    destruct count as [|count]; [by apply break_off_inv; [|rewrite Hpc]|].
    unfold parent_send in *. cbv zeta in *.
    by destruct (message_size <=? sent + moved (S count) (message_size - sent))%nat; constructor.
  - by apply parent_receive_inv.
  - by constructor.
  - destruct (child_at s) eqn:E; try done. constructor; simpl in *; try done; rewrite ?E; try done.
  - done.
Qed.

(** The child changes neither the parent nor its results. *)
Lemma with_child_inv pc unread from s :
  echo_inv s → echo_phase (with_child pc unread from s) → child_ok pc →
  (pc = ChildExited → closed (parent_at s) = true) → echo_inv (with_child pc unread from s).
Proof. intros [Hp Hc Ho He Hst Hs Hn Hi Hr Hcut Hd] Hph Hok Hex. by constructor. Qed.

Lemma closed_phase pc unread from s :
  closed (parent_at s) = true → echo_phase (with_child pc unread from s).
Proof. unfold echo_phase. simpl. by destruct (parent_at s). Qed.

Lemma child_step_inv count s : echo_inv s → echo_inv (child_step count s).
Proof.
  intros Hinv. pose proof Hinv as [Hp Hc Ho He Hst Hs Hn Hi Hr Hcut Hd].
  pose proof (child_read_phase count s) as Hread. pose proof (child_write_phase count s) as Hwrite.
  unfold child_step in *. destruct (child_at s) as [incoming|message sent|]; [| |done].
  - destruct (to_child s) as [|b bs] eqn:Ht.
    + destruct (descriptors_open s); [done|].
      assert (closed (parent_at s) = true) by (by destruct (closed (parent_at s))).
      apply with_child_inv; try done. by apply closed_phase.
    + specialize (Hread incoming b bs Hp eq_refl eq_refl Hc). cbv zeta in *. rewrite <- Ht in *.
      set (got := incoming ++ _) in *. apply with_child_inv; [done|done|..];
        destruct (Nat.leb_spec message_size (length got)); try done; unfold child_ok, message_size; lia.
  - destruct (descriptors_open s).
    + specialize (Hwrite message sent Hp eq_refl eq_refl Hc). cbv zeta in *.
      set (n := moved count _) in *. apply with_child_inv; [done|done|..];
        destruct (Nat.leb_spec message_size (sent + n)); try done; unfold child_ok, message_size; simpl; lia.
    + assert (closed (parent_at s) = true) by (by destruct (closed (parent_at s))).
      apply with_child_inv; try done. by apply closed_phase.
Qed.

Lemma echo_step_inv e s : echo_inv s → echo_inv (step e s).
Proof. destruct e; [apply parent_step_inv|apply child_step_inv]. Qed.

(** ** The benchmark ends *)

(** Every byte has up to four moves ahead of it. *)
Definition bytes_left (s : EchoRun) : nat :=
  4 * (match parent_at s with Sending sent => message_size - sent | _ => 0 end) +
  3 * length (to_child s) +
  2 * (match child_at s with
       | ChildReading incoming => length incoming
       | ChildWriting _ sent => message_size - sent
       | ChildExited => 0
       end) +
  length (from_child s).

Definition rounds_left (s : EchoRun) : nat :=
  match parent_at s with
  | Stamping => S round_trips - iteration s
  | Sending _ | Receiving _ => round_trips - iteration s
  | _ => 0
  end.

Definition phase_left (s : EchoRun) : nat :=
  match parent_at s with
  | ParentClosing => 2 | ParentWaiting => 1 | ParentReturned => 0 | _ => 3
  end.

Definition child_left (s : EchoRun) : nat :=
  match child_at s with ChildExited => 0 | _ => 1 end.

Definition echo_left (s : EchoRun) : nat :=
  (4 * message_size + 1) * rounds_left s + bytes_left s + phase_left s + child_left s.

Definition echo_helpful (s : EchoRun) : EchoProcess :=
  match parent_at s with
  | Receiving _ => match from_child s with [] => ChildProcess | _ => ParentProcess end
  | ParentWaiting => match child_at s with ChildExited => ParentProcess | _ => ChildProcess end
  | _ => ParentProcess
  end.

Local Abbreviation fewer s' s := (echo_left s' < echo_left s)%nat.

Lemma break_off_fewer s : past_loop (parent_at s) = false → fewer (break_off s) s.
Proof.
  intros Hl. unfold echo_left, rounds_left, bytes_left, phase_left, child_left, break_off. simpl.
  destruct (parent_at s); try done; destruct (child_at s); nia.
Qed.

Lemma parent_send_fewer count sent s :
  parent_at s = Sending sent → (sent < message_size)%nat → fewer (parent_send count sent s) s.
Proof.
  intros Hpc Hs. destruct count as [|count]; [by apply break_off_fewer; rewrite Hpc|]. unfold parent_send.
  set (n := moved (S count) (message_size - sent)).
  assert (Hn : (1 ≤ n ≤ message_size - sent)%nat) by (apply moved_bounds; lia).
  unfold echo_left, rounds_left, bytes_left, phase_left, child_left.
  cbn [parent_at iteration to_child from_child child_at]. rewrite Hpc.
  rewrite length_app, length_take, length_drop. pose proof (length_message (Z.of_nat (iteration s)) (outgoing_stamp s)) as Hm.
  fold (outgoing s) in Hm. rewrite Hm. destruct (Nat.leb_spec message_size (sent + n)); lia.
Qed.

Lemma parent_receive_fewer count now incoming s :
  echo_inv s → parent_at s = Receiving incoming → from_child s ≠ [] →
  fewer (parent_receive count now incoming s) s.
Proof.
  intros Hinv Hpc Hf. destruct count as [|count]; [by apply break_off_fewer; rewrite Hpc|].
  unfold parent_receive. destruct (from_child s) as [|b bs] eqn:E; [done|]. rewrite <- E. cbv zeta.
  destruct (receiving_prefix s incoming b bs (ei_phase s Hinv) Hpc E) as (Hg & _).
  set (n := moved (S count) (Nat.min (message_size - length incoming) (length (from_child s)))).
  assert (Hn : (1 ≤ n ≤ Nat.min (message_size - length incoming) (length (from_child s)))%nat)
    by (apply moved_bounds; rewrite E; simpl; lia).
  unfold echo_left, rounds_left, bytes_left, phase_left, child_left. rewrite Hpc.
  destruct (Nat.leb_spec message_size (length (incoming ++ take n (from_child s))));
    cbn [parent_at iteration to_child from_child child_at]; rewrite length_drop;
    destruct (child_at s); simpl; lia.
Qed.

Lemma parent_progress count now s :
  echo_inv s →
  parent_step round_trips count now s = s ∧ (echo_returned s = true ∨ echo_helpful s = ChildProcess) ∨
  fewer (parent_step round_trips count now s) s.
Proof.
  intros Hinv. unfold parent_step, echo_returned, echo_helpful.
  destruct (parent_at s) as [|sent|got| | |] eqn:Hpc.
  - right. destruct (Nat.leb_spec (iteration s) round_trips);
      unfold echo_left, rounds_left, bytes_left, phase_left, child_left; simpl; rewrite Hpc;
      destruct (child_at s); unfold message_size; simpl; lia.
  - right. apply parent_send_fewer; [done|]. pose proof (ei_phase s Hinv) as Hp. unfold echo_phase in Hp.
    rewrite Hpc in Hp. apply Hp.
  - destruct (from_child s) as [|b bs] eqn:E; [|right; by apply parent_receive_fewer; [..|rewrite E]].
    unfold parent_receive. rewrite E. destruct count; [right; by apply break_off_fewer; rewrite Hpc|].
    left. destruct (child_at s) eqn:Hc; auto. pose proof (ei_exited s Hinv Hc) as H. by rewrite Hpc in H.
  - right. unfold echo_left, rounds_left, bytes_left, phase_left, child_left. simpl. rewrite Hpc. lia.
  - destruct (child_at s) eqn:Hc; auto. right.
    unfold echo_left, rounds_left, bytes_left, phase_left, child_left. simpl. rewrite Hpc, Hc. lia.
  - auto.
Qed.

(** The child's part of the measure. *)
Definition child_bytes (c : ChildPc) : nat :=
  match c with
  | ChildReading incoming => length incoming
  | ChildWriting _ sent => message_size - sent
  | ChildExited => 0
  end.

Lemma with_child_fewer pc unread from s :
  (3 * length unread + 2 * child_bytes pc + length from +
     (match pc with ChildExited => 0 | _ => 1 end) <
   3 * length (to_child s) + 2 * child_bytes (child_at s) + length (from_child s) + child_left s)%nat →
  fewer (with_child pc unread from s) s.
Proof.
  unfold echo_left, rounds_left, bytes_left, phase_left, child_left, child_bytes, with_child.
  cbn [parent_at iteration to_child from_child child_at]. lia.
Qed.

Lemma child_step_moves count s :
  echo_inv s →
  child_step count s = s ∧
    (child_at s = ChildExited ∨
     (∃ c, child_at s = ChildReading c) ∧ to_child s = [] ∧ descriptors_open s = true) ∨
  fewer (child_step count s) s.
Proof.
  intros Hinv. pose proof (ei_child s Hinv) as Hc. unfold child_step.
  destruct (child_at s) as [incoming|message sent|] eqn:Hch; [| |by left; auto].
  - destruct (to_child s) as [|b bs] eqn:Ht.
    + destruct (descriptors_open s) eqn:Ho; [left; eauto 10|]. right. apply with_child_fewer.
      rewrite Ht, Hch. unfold child_left. rewrite Hch. simpl. lia.
    + rewrite <- Ht. cbv zeta. right.
      set (n := moved count (Nat.min (message_size - length incoming) (length (to_child s)))).
      assert (Hn : (1 ≤ n ≤ Nat.min (message_size - length incoming) (length (to_child s)))%nat)
        by (apply moved_bounds; rewrite Ht; simpl in *; lia).
      assert (Hlen : length (incoming ++ take n (to_child s)) = (length incoming + n)%nat)
        by (rewrite length_app, length_take; lia).
      apply with_child_fewer. unfold child_left. rewrite Hch, length_drop. cbn [child_bytes].
      destruct (Nat.leb_spec message_size (length (incoming ++ take n (to_child s)))); cbn [child_bytes]; lia.
  - destruct (descriptors_open s) eqn:Ho; right.
    + cbv zeta. set (n := moved count (message_size - sent)).
      assert (Hn : (1 ≤ n ≤ message_size - sent)%nat) by (apply moved_bounds; simpl in *; lia).
      apply with_child_fewer. unfold child_left. rewrite Hch, length_app, length_take. cbn [child_bytes].
      destruct (Nat.leb_spec message_size (sent + n)); cbn [child_bytes length]; lia.
    + apply with_child_fewer. unfold child_left. rewrite Hch. cbn [child_bytes]. lia.
Qed.

Lemma child_progress count s :
  echo_inv s →
  child_step count s = s ∧ (echo_returned s = true ∨ echo_helpful s = ParentProcess) ∨
  fewer (child_step count s) s.
Proof.
  intros Hinv. destruct (child_step_moves count s Hinv) as [[E Hstuck]|Hf]; [left|by right].
  split; [done|]. unfold echo_helpful, echo_returned. pose proof (ei_phase s Hinv) as Hp.
  pose proof (ei_open s Hinv) as Ho. pose proof (ei_exited s Hinv) as He. unfold echo_phase in Hp.
  destruct (parent_at s) as [|sent|got| | |]; auto.
  - right. destruct (from_child s) as [|b bs] eqn:Hf; [|done]. destruct Hp as (Hg & Hp).
    destruct Hstuck as [Hex|((c & Hc) & Ht & _)]; [by specialize (He Hex)|].
    pose proof (length_message (Z.of_nat (iteration s)) (outgoing_stamp s)) as Hm. fold (outgoing s) in Hm.
    destruct Hp as [(c' & Hc' & Eo & Hl & _)|[(k & Hc' & _)|(_ & _ & Eo)]]; [|congruence|].
    + rewrite Ht, app_nil_r in Eo. rewrite Eo in Hl. lia.
    + rewrite app_nil_r in Eo. rewrite Eo in Hg. lia.
  - right. destruct Hstuck as [->|(_ & _ & Hopen)]; [done|]. by rewrite Ho in Hopen.
Qed.

#[local] Instance echo_terminates : FairTermination step echo_process echo_inv echo_returned.
Proof.
  assert (Hstep : ∀ e s, echo_inv s → step e s = s ∧
    (echo_returned s = true ∨ echo_process e ≠ Some (echo_helpful s)) ∨ fewer (step e s) s).
  { intros [count now|count] s Hs; simpl.
    - destruct (parent_progress count now s Hs) as [[E [?|Hh]]|?]; auto. left. rewrite Hh. auto.
    - destruct (child_progress count s Hs) as [[E [?|Hh]]|?]; auto. left. rewrite Hh. auto. }
  refine {| steps_left := echo_left; helpful := echo_helpful |}.
  - intros e s. apply echo_step_inv.
  - intros e s Hs. destruct (Hstep e s Hs) as [[-> _]|?]; lia.
  - intros e s Hs Hr He. destruct (Hstep e s Hs) as [[_ [?|?]]|?]; congruence || done.
  - intros e s Hs Hr He. destruct (Hstep e s Hs) as [[-> _]|?]; auto.
Qed.

(** A call of the parent that succeeds. *)
Definition succeeds (e : EchoEvent) : Prop :=
  match e with ParentStep count _ => count ≠ 0%nat | ChildStep _ => True end.

Lemma step_not_cut e s :
  echo_inv s → succeeds e → cut_short s = false → cut_short (step e s) = false.
Proof.
  intros Hinv He Hs. pose proof (ei_exited s Hinv) as Hex. destruct e as [[|count] now|count]; [done|..]; simpl.
  - unfold parent_step. destruct (parent_at s) as [|sent|got| | |] eqn:Hpc; try done.
    + by destruct (iteration s <=? round_trips)%nat.
    + unfold parent_receive. destruct (from_child s) as [|b bs].
      * destruct (child_at s); try done. by specialize (Hex eq_refl).
      * cbv zeta. by destruct (message_size <=? _)%nat.
    + by destruct (child_at s).
  - unfold child_step. destruct (child_at s) as [got|m k|]; [|by destruct (descriptors_open s)|done].
    destruct (to_child s); [by destruct (descriptors_open s)|done].
Qed.

(** C29: However the kernel cuts the bytes, and at whatever call the parent may fail:
    at every moment each sample is the time from the stamping of one message to
    its complete return, and the benchmark ends under every fair schedule; when
    the calls of the parent succeed it has all its samples. *)
Theorem echo_measures_round_trips schedule :
  let run n := run_schedule step schedule n newEcho in
  (∀ n, samples (run n) = (λ h, h.2 - h.1) <$> history (run n)) ∧
  (fair echo_process schedule → ∃ n,
     echo_returned (run n) = true ∧
     ((∀ k, succeeds (schedule k)) → length (samples (run n)) = round_trips)).
Proof.
  assert (Hrun : ∀ n, echo_inv (run_schedule step schedule n newEcho)).
  { intros n. apply run_schedule_invariant; [apply echo_step_inv|apply echo_inv_new]. }
  cbv zeta. split; [intros n; apply Hrun|]. intros Hf.
  destruct (fair_terminates schedule newEcho echo_inv_new Hf) as [n Hn]. exists n. split; [done|].
  intros Hok. assert (Hcut : cut_short (run_schedule step schedule n newEcho) = false).
  { clear Hn. induction n as [|n IH]; [done|]. rewrite <- Nat.add_1_r, run_schedule_add. cbn [run_schedule].
    by apply step_not_cut. }
  pose proof (ei_count _ (Hrun n)) as Hc. pose proof (ei_complete _ (Hrun n)) as Hd.
  unfold echo_returned in Hn. destruct (parent_at _); try done. specialize (Hd eq_refl Hcut). lia.
Qed.
End Echo.

(** ** A schedule *)

Definition echo_in_turns (k : nat) : EchoEvent :=
  match (k mod 2)%nat with 0%nat => ParentStep 40 (Z.of_nat k) | _ => ChildStep 7 end.

Lemma echo_in_turns_fair : fair echo_process echo_in_turns.
Proof.
  apply (in_turns_are_fair _ [] echo_in_turns 2 (λ t, match t with ParentProcess => 0 | ChildProcess => 1 end)%nat);
    [lia|].
  intros t n. unfold echo_in_turns. rewrite Nat.Div0.mod_add. by destruct t.
Qed.

Lemma echo_measures_round_trips_witness :
  ∃ n, length (samples (run_schedule (echo_step 3) echo_in_turns n newEcho)) = 3%nat.
Proof.
  destruct (echo_measures_round_trips 3 echo_in_turns) as [_ H].
  destruct (H echo_in_turns_fair) as (n & _ & Hn). exists n. apply Hn.
  intros k. unfold echo_in_turns. destruct (k mod 2)%nat; done.
Defined.
