(* ===== verification/SharedRoundTrip.v ===== *)
(** * The shared-memory transport of the benchmark

    [runSharedMemoryBenchmark] of [benchmarks/bench_transports.cpp]: a parent and
    a child that poll two seqlock slots. The slots are registers, which
    [SeqlockWeakSafety] shows of them; a load may fail at any time. Both sides
    give up when a deadline has passed. *)

From stdpp Require Import base numbers list option.
From S2P Require Import Prelude BenchStats.

Definition kSpinBudgetNs : Z := 5000000000.

(** The members of [Message] that are used: [sequence] and [stamp_ns]. *)
Definition Message : Type := Z * Z.

(** Where the parent is: before a message, before it takes the time, before a
    load, before it looks at the clock, with a reply, in [wait4], or back. *)
Inductive SharedParent :=
  | Storing
  | ArmingParent
  | PollingParent
  | CheckingParent
  | Recording (incoming : Message)
  | WaitingForChild
  | SharedReturned.

(** Where the child is; [_exit] with a code ends it. *)
Inductive SharedChild :=
  | Mapping
  | ArmingChild
  | PollingChild
  | CheckingChild
  | Exited (code : Z).

(** [waits] pairs, for every sample, the stamp of the message and the time of the
    reply. *)
Record SharedRun := mkSharedRun {
  parent_pc : SharedParent;
  trip : nat;
  parent_deadline : Z;
  timed_out : bool;
  request : Message;
  response : Message;
  trip_samples : list Z;
  waits : list (Z * Z);
  child_pc : SharedChild;
  expected : nat;
  child_deadline : Z
}.

Definition newShared : SharedRun :=
  mkSharedRun Storing 1 0 false (0, 0) (0, 0) [] [] Mapping 1 0.

(** A step of a process: whether [openExisting] or [tryLoad] succeeds in it, and
    what the clock shows. *)
Inductive SharedEvent := ParentTurn (ok : bool) (now_ns : Z) | ChildTurn (ok : bool) (now_ns : Z).

Section Steps.
Context (round_trips : nat).

Definition to_parent (pc : SharedParent) (s : SharedRun) : SharedRun :=
  mkSharedRun pc (trip s) (parent_deadline s) (timed_out s) (request s) (response s) (trip_samples s)
    (waits s) (child_pc s) (expected s) (child_deadline s).

Definition shared_parent (ok : bool) (now_ns : Z) (s : SharedRun) : SharedRun :=
  match parent_pc s with
  | Storing =>
      if (trip s <=? round_trips)%nat && negb (timed_out s) then
        mkSharedRun ArmingParent (trip s) (parent_deadline s) (timed_out s) (Z.of_nat (trip s), now_ns)
          (response s) (trip_samples s) (waits s) (child_pc s) (expected s) (child_deadline s)
      else to_parent WaitingForChild s
  | ArmingParent =>
      mkSharedRun PollingParent (trip s) (now_ns + kSpinBudgetNs) (timed_out s) (request s) (response s)
        (trip_samples s) (waits s) (child_pc s) (expected s) (child_deadline s)
  | PollingParent =>
      if ok && ((response s).1 =? Z.of_nat (trip s)) then to_parent (Recording (response s)) s
      else to_parent CheckingParent s
  | CheckingParent =>
      if parent_deadline s <? now_ns then
        mkSharedRun Storing (S (trip s)) (parent_deadline s) true (request s) (response s)
          (trip_samples s) (waits s) (child_pc s) (expected s) (child_deadline s)
      else to_parent PollingParent s
  | Recording incoming =>
      mkSharedRun Storing (S (trip s)) (parent_deadline s) (timed_out s) (request s) (response s)
        (trip_samples s ++ [now_ns - incoming.2]) (waits s ++ [((request s).2, now_ns)]) (child_pc s)
        (expected s) (child_deadline s)
  | WaitingForChild => match child_pc s with Exited _ => to_parent SharedReturned s | _ => s end
  | SharedReturned => s
  end.

Definition to_child_pc (pc : SharedChild) (s : SharedRun) : SharedRun :=
  mkSharedRun (parent_pc s) (trip s) (parent_deadline s) (timed_out s) (request s) (response s)
    (trip_samples s) (waits s) pc (expected s) (child_deadline s).

Definition shared_child (ok : bool) (now_ns : Z) (s : SharedRun) : SharedRun :=
  match child_pc s with
  | Mapping => to_child_pc (if ok then ArmingChild else Exited 2) s
  | ArmingChild =>
      mkSharedRun (parent_pc s) (trip s) (parent_deadline s) (timed_out s) (request s) (response s)
        (trip_samples s) (waits s) PollingChild (expected s) (now_ns + kSpinBudgetNs)
  | PollingChild =>
      if (expected s <=? round_trips)%nat then
        if ok && ((request s).1 =? Z.of_nat (expected s)) then
          mkSharedRun (parent_pc s) (trip s) (parent_deadline s) (timed_out s) (request s) (request s)
            (trip_samples s) (waits s) PollingChild (S (expected s)) (child_deadline s)
        else to_child_pc CheckingChild s
      else to_child_pc (Exited 0) s
  | CheckingChild => to_child_pc (if child_deadline s <? now_ns then Exited 5 else PollingChild) s
  | Exited _ => s
  end.

Definition shared_step (e : SharedEvent) (s : SharedRun) : SharedRun :=
  match e with
  | ParentTurn ok now_ns => shared_parent ok now_ns s
  | ChildTurn ok now_ns => shared_child ok now_ns s
  end.

Definition shared_run (es : list SharedEvent) (s : SharedRun) : SharedRun :=
  foldl (λ s e, shared_step e s) s es.

(** ** Every reply is to the last message *)

(** The child has answered the message number [n], and what it answered. *)
Definition answered (n : nat) (s : SharedRun) : Prop :=
  expected s = S n ∧ response s = request s ∧ (request s).1 = Z.of_nat n.
Definition unanswered (n : nat) (s : SharedRun) : Prop :=
  expected s = n ∧ (request s).1 = Z.of_nat n ∧ (response s).1 < Z.of_nat n.

Definition shared_phase (s : SharedRun) : Prop :=
  match parent_pc s with
  | Storing => timed_out s = false → ∃ n, trip s = S n ∧ answered n s
  | ArmingParent | PollingParent | CheckingParent =>
      timed_out s = false ∧ (answered (trip s) s ∨ unanswered (trip s) s)
  | Recording incoming => timed_out s = false ∧ answered (trip s) s ∧ incoming = request s
  | _ => True
  end.

Record shared_inv (s : SharedRun) : Prop := mkSharedInv {
  si_phase : shared_phase s;
  si_samples : trip_samples s = (λ w, w.2 - w.1) <$> waits s;
  si_count : timed_out s = false → S (length (trip_samples s)) = trip s
}.

Lemma shared_inv_new : shared_inv newShared.
Proof. constructor; [|done..]. intros _. by exists 0%nat. Qed.

Lemma shared_parent_inv ok now s : shared_inv s → shared_inv (shared_parent ok now s).
Proof.
  intros Hinv. pose proof Hinv as [Hp Hs Hc]. unfold shared_parent. unfold shared_phase in Hp.
  destruct (parent_pc s) as [| | | |incoming| |] eqn:Hpc.
  - destruct (trip s <=? round_trips)%nat; [|by constructor].
    destruct (timed_out s) eqn:Ht; [by constructor; simpl; rewrite ?Ht|].
    destruct (Hp eq_refl) as (n & Hn & Hx & Hr & Hq). constructor; simpl; rewrite ?Ht; try done.
    split; [done|]. right. split_and!; simpl; try done; [lia|]. rewrite Hr, Hq. lia.
  - by constructor.
  - destruct Hp as [Ht Hp]. destruct ok; [|by constructor]. simpl.
    destruct (Z.eqb_spec (response s).1 (Z.of_nat (trip s))) as [E|E]; [|by constructor].
    destruct Hp as [Ha|(_ & _ & Hlt)]; [|lia]. constructor; try done. split_and!; [done|done|apply Ha].
  - destruct Hp as [Ht Hp]. destruct (_ <? _); by constructor.
  - destruct Hp as (Ht & Ha & ->). constructor; simpl.
    + intros _. by exists (trip s).
    + by rewrite fmap_app, Hs.
    + intros _. rewrite length_app. simpl. specialize (Hc Ht). lia.
  - destruct (child_pc s); [done..|by constructor].
  - done.
Qed.

Lemma shared_child_inv ok now s : shared_inv s → shared_inv (shared_child ok now s).
Proof.
  intros [Hp Hs Hc]. unfold shared_child. destruct (child_pc s); try (by constructor).
  destruct (expected s <=? round_trips)%nat; [|by constructor]. destruct ok; [|by constructor]. simpl.
  destruct (Z.eqb_spec (request s).1 (Z.of_nat (expected s))) as [E|E]; [|by constructor].
  constructor; try done. unfold shared_phase, answered, unanswered in *. simpl.
  destruct (parent_pc s); try done.
  2-4: destruct Hp as [Ht [(Hx & _ & Hq)|(Hx & Hq & _)]]; [rewrite Hx in E; lia|]; split; [done|]; left;
    by split_and!; [lia|done|lia].
  - intros Ht. destruct (Hp Ht) as (n & Hn & Hx & _ & Hq). rewrite Hx in E. lia.
  - destruct Hp as (Ht & (Hx & _ & Hq) & _). rewrite Hx in E. lia.
Qed.

Lemma shared_run_inv es s : shared_inv s → shared_inv (shared_run es s).
Proof.
  revert s. induction es as [|e es IH]; intros s Hs; [done|]. apply IH.
  destruct e; [by apply shared_parent_inv|by apply shared_child_inv].
Qed.

(** Under every interleaving of parent and child, with loads failing at any time:
    each sample is the time from the stamping of a message to the reply to that
    same message, and as long as the parent has not given up there is one for
    every message. *)
Theorem shared_measures_round_trips es :
  let s := shared_run es newShared in
  trip_samples s = (λ w, w.2 - w.1) <$> waits s ∧
  (timed_out s = false → S (length (trip_samples s)) = trip s) ∧
  (∀ incoming, parent_pc s = Recording incoming → incoming = request s ∧ incoming.1 = Z.of_nat (trip s)).
Proof.
  cbv zeta. destruct (shared_run_inv es newShared shared_inv_new) as [Hp Hs Hc].
  split_and!; [done..|]. intros incoming Hpc. unfold shared_phase in Hp. rewrite Hpc in Hp.
  destruct Hp as (_ & (_ & _ & Hq) & ->). done.
Qed.

(** A reply that was not given makes the parent give up, one look at the clock
    after its deadline. *)
Lemma parent_gives_up now s :
  parent_pc s = CheckingParent → parent_deadline s < now →
  timed_out (shared_step (ParentTurn true now) s) = true.
Proof. intros Hpc Hd. simpl. unfold shared_parent. rewrite Hpc. by rewrite (proj2 (Z.ltb_lt _ _) Hd). Qed.
End Steps.

(** [runSharedMemoryBenchmark]: whether the region and the child could be made,
    and the run when it has returned. *)
Definition runSharedMemoryBenchmark (created forked : bool) (s : SharedRun) : RoundTripPercentiles :=
  if negb created then noRoundTrip else if negb forked then noRoundTrip
  else percentilesOf (trip_samples s).

(** ** The deadline of the child *)

(** A round trip that takes a second: the parent stores, the child echoes, the
    parent reads, and both look at the clock once. *)
Definition second_long_trip (k : nat) : list SharedEvent :=
  let t := Z.of_nat k * 1000000000 in
  [ParentTurn true t; ParentTurn true t; ChildTurn true t; ParentTurn true (t + 1000000000);
   ParentTurn true (t + 1000000000); ChildTurn true (t + 1000000000); ChildTurn true (t + 1000000000)].

(** The child measures its deadline from its start, not from the last message: it
    gives up on a parent that is alive and has never kept it waiting for more
    than a second. *)
Example child_gives_up_on_live_parent :
  let s := shared_run (Z.to_nat kRoundTrips)
    ([ChildTurn true 0; ChildTurn true 0] ++ (seq 0 6 ≫= second_long_trip)) newShared in
  child_pc s = Exited 5 ∧ timed_out s = false ∧ trip s = 7%nat ∧
  trip_samples s = replicate 6 1000000000.
Proof. vm_compute. split_and!; reflexivity. Qed.
